(* ===== verification/_CoqProject ===== *)
-Q . S2P
Prelude.v
CMonad.v
CLib.v
Queue.v
LinkedList.v
Packet.v
FtpWorld.v
NetOps.v
FtpServer.v
ServerSpec.v
Samples.v
PrintPacket.v
Debug.v
ServerPaths.v
ServerTerm.v
ServerProps.v
Receiver.v
FtpClient.v
ClientSpec.v
Sender.v
Transfer.v
Delivery.v
ParentSpec.v
Programs.v
Responders.v
GoodRun.v
Schedule.v
ServerGood.v
ClientGood.v
ClientTerm.v
Completion.v
ClientProps.v
ParentProps.v
Signals.v
SrtpHeader.v
SrtpHeaderProps.v
CodecProps.v
ListProps.v
SrtpWorld.v
SrtpIO.v
SrtpConn.v
SrtpIOProps.v
SrtpInv.v
SrtpConnProps.v
SrtpCallProps.v
