(* ===== verification/Prelude.v ===== *)
(** * A UDP file transfer and its reliable transport library

    The repository has two programs that move a file over UDP and a library
    that was meant to become their transport.

    - [ftpclient/]: a file client ([ftpclient.c]) and a file server
      ([ftpserver.c]).  They share the packet format and the socket helpers
      of [srtp_common.h] and the linked list of [list.h].  The client sends a
      write request ["name|size"], then the file in packets of at most
      [PAYLOAD_SIZE] bytes under a go-back-n window of [WINDOW_SIZE] packets,
      then FIN.  The server forks a responder per request; the responder
      acknowledges packets in order, appends them to a new file, and answers
      FIN with FINACK when the file has the announced size.  The server
      process keeps its children in a list and takes them down on SIGINT.
    - [srtp/]: a socket-like library ([srtp.cpp], [srtp_impl.cpp]).  A socket
      is a named pipe; a worker thread moves data between the pipe and a UDP
      socket, and two tables map hosts to pipes and pipes to connection
      structures.

    ** How the code is modelled

    A C function that touches the process state is a state transformer
    ([CMonad.M]) that returns a value or stops: [SExit] for [exit], [SCrash]
    for undefined behaviour with its reason, and [SFuel], which exists in the
    model only.  The operating system is a parameter that answers the [k]-th
    call of the process ([FtpWorld.env], [SrtpWorld.sys]): the theorems hold
    for every sequence of answers unless they say otherwise, so every failure
    of a call, every loss, duplication and reordering of datagrams and every
    byte order of the machines is included.  Next to what the program can
    see, the state of a process keeps two logs for the theorems: what it did
    to the files and in which order, and what it sent at which call.  Buffers
    are lists of bytes, and a
    read or write past their end is [OutOfBounds]; integers are [Z] with the
    conversions of the C types written out.

    Loops are [CMonad.loop] with an iteration bound.  Safety theorems
    quantify over the bound and over the stopped runs as well, so that they
    speak about every prefix of an execution.  That a bound is enough is
    proved, not assumed: [CMonad.converges] says that all large bounds give
    the same result and that it is not [SFuel]; [server_terminates] and
    [client_terminates] establish it for the two programs from a clock that
    outgrows every bound ([FtpWorld.clock_diverges]) and a network that falls
    silent.  Theorems about code that never returns are stated for every
    bound.

    ** Files

    - [Prelude]: machine integers, list lemmas, scope, tactics, hints.
    - [CMonad]: results, the monad, [loop], the weakest precondition [wp]
      with its rules, convergence of loops.
    - [CLib]: what the sources use of the language and its library: byte
      order, buffer accesses, strings, reading and printing of numbers.
    - [Queue], [LinkedList]: [list.h].  [Queue] is the interface (operations
      and laws, type classes) the programs are proved against; [LinkedList]
      is the code, a heap of nodes, and discharges the laws.  [ListProps]
      lifts the laws to whole runs.
    - [Packet]: the wire format of [srtp_common.h].  [CodecProps] has its
      round trip between hosts.  [PrintPacket] is the trace [-d] switches on,
      [Debug] the rest of the debug output, with [srtp/srtp_debug.cpp].
    - [FtpWorld], [NetOps]: the process and its system; the socket helpers
      of [srtp_common.h].
    - [FtpServer] (Module [Server]): [ftpserver.c], the responder
      [copy_file], the fork loop [process_connections], [signal_handler] and
      [main].  [ServerSpec] has its invariants, [ServerProps] and
      [ServerPaths] its guarantees and error paths, [ServerTerm] its
      termination, [Receiver] the abstract machine its transfer loop
      refines, [ParentSpec] and [ParentProps] the listening process,
      [Signals] its steps interleaved with the signals it gets.
    - [FtpClient] (Module [Client]): [ftpclient.c], request, window,
      acknowledgements, closing, [main].  [ClientSpec], [ClientProps] and
      [ClientTerm] correspond to the files of the server, [Sender] to
      [Receiver]: the go-back-n machine the transfer loop refines.
    - [Transfer]: client and server together over an unreliable network,
      seen from the server; [Delivery]: the same seen from the client;
      [Programs]: the same for the two [main] functions, with everything that
      happens before the transfer.
    - [Responders]: several responders on one directory, as interleavings of
      their file operations.
    - [GoodRun], [Schedule], [ServerGood], [ClientGood], [Completion]:
      successful runs, call by call, of each program, and of the two put
      together.  A [schedule] says which packets and acknowledgements get
      through in each round; [GoodRun] has the exact effect of each system
      call when nothing fails.
    - [SrtpHeader] (Module [Srtp]): [srtp_header.h], the packet macros of
      [srtp_impl.h] and the packet utilities of [srtp_impl.cpp];
      [SrtpHeaderProps] about them.
    - [SrtpWorld], [SrtpIO], [SrtpConn]: the globals and the system of the
      library, its transfer loops, its handlers, threads and calls, and the
      wrappers of [srtp.cpp].  [SrtpIOProps], [SrtpInv], [SrtpConnProps] and
      [SrtpCallProps] about them; [SrtpInv.TableInv] is the interface through
      which an invariant of the tables is carried over every function.
    - [Samples]: small concrete systems on which theorems are applied.

    ** What is shown

    - File transfer: when everything the server receives was sent by the
      client, a server that reports success, or has sent a FINACK, has the
      file of the client byte for byte ([transfer_correct],
      [finack_receipt]), whatever the network loses, repeats or reorders.
      In the other direction a client that returns with success has delivered
      the file when acknowledgements do not overtake each other
      ([client_success_delivered]); that they must not is the price of
      [stale_ack_flushes_window].  A server that hears only this client is
      memory safe ([transfer_memory_safe]).
    - Whole programs: a child of the server that exits with status 0 has
      created the file named on the command line of the client
      ([programs_correct]), and a client that exits with status 0 has had it
      delivered, under the conditions of [client_success_delivered]
      ([programs_success]).  Whatever else the server takes for a request
      (zeros after a failed [recvfrom], data, FIN) comes to nothing.
    - Progress: for every file below the sequence number limit and every
      pattern of losses of packets and acknowledgements there is a
      conversation with these losses, with nothing received before it was
      sent, in which both programs succeed, for every clock of the client by
      which no window waits for more than two seconds
      ([transfer_survives_loss]; [transfer_possible] is the case without
      losses).  When a window does wait longer, the client exits with
      [TIMEOUT] in that round and sends nothing more
      ([late_round_times_out]).
    - Server: the transfer loop refines an abstract receiver that takes chunks
      in order and answers with the number it wants
      ([transfer_refines_receiver]), whose histories are in order
      ([receiver_in_order]). Files that existed are never changed; a success
      creates exactly the announced file; an [exit] leaves nothing behind; a
      request can only create a file in the working directory; FINACK implies
      a complete file; each way to refuse a request; termination. What its
      memory safety rests on is stated ([server_memory_safe]), and the inputs
      that drive it into undefined behaviour are exhibited
      ([slash_overflows_heap], [data_length_trusted]), as are the runs in
      which it waits for ever.
    - Several responders: the run of a responder depends on the file of its
      request only ([responder_local]), so that responders for different
      files are independent under every interleaving
      ([responders_independent], [parallel_success]); two for the same file
      can destroy each other's result ([same_name_race]).
    - Signals: the listening process with SIGCHLD and SIGINT between any two
      steps of its loop, of which uninterrupted runs are a special case
      ([parent_runs_are_steps]): its list holds all its children but one that
      was just forked ([sigint_at_any_time]), and each of its ends has a cause
      ([parent_endings]).  A responder that is interrupted exits with the
      status of a success ([interrupted_responder]); the theorems about
      statuses are about runs without signals.
    - Client: its transfer loop refines a go-back-n sender over the chunks of
      the file ([send_file_refines_sender]), which gives up only on a window
      that has not moved for three seconds ([stalled_stuck]).  It sends only
      its request, the chunks of its file under their
      numbers and FIN; a cumulative acknowledgement removes exactly the
      packets before it, also across the wrap-around of the 16-bit numbers;
      a stale one empties the window ([stale_ack_flushes_window]);
      no network makes it touch memory it does not own
      ([client_memory_safe]), and each of its exits has its cause in an
      answer of the system ([client_outcomes]); termination.
    - List and packets: every run of the list is a run of the mathematical
      queue and its memory is never misused; packets survive the wire between
      machines of any byte order.
    - SRTP library: the transfer loops move all bytes or report the error;
      the tables stay consistent under every sequence of calls
      ([tables_consistent]); opening and closing a socket undoes itself; data
      packets in order are passed on and others are kept sorted.  The library
      is unfinished, and theorems say how far it goes: no sequence of calls
      establishes a connection ([no_connection_established]), and a sender
      never learns that its data arrived ([send_never_succeeds]).

    ** What is not modelled

    The calls of the debug functions inside the processes, since they change
    nothing but [stderr] ([PrintPacket] and [Debug] model the functions
    themselves), and [pkt_str], whose body is empty; the packet-loss simulation
    of [srtp_common.h] ([PL_DENOMINATOR], compiled in by no build);
    [sigaction], and a signal in the middle of [add_to_list]; [fclose] and
    [free] ([fwrite] is taken to reach the file at once); [fcntl]; the tests.
    Of the threads of the library the runs of the worker loops between its
    calls are modelled ([SrtpConnProps.reachable]); the data races of two
    threads inside the standard maps are not, since the language gives them no
    meaning.  [getaddrinfo], [localtime] and the [fopen] and [stat] of the
    client are parameters.

    ** Further work

    The conversation of [transfer_survives_loss] with duplicated and reordered
    datagrams as well, and with system calls that fail now and then. *)

(** ** Machine integers, list lemmas and proof automation *)
From stdpp Require Export prelude gmap list.
From Stdlib Require Export ZArith Lia.

#[export] Set Warnings "-clear-no-such-hyp".
#[global] Open Scope Z_scope.

Declare Scope c_scope.
Delimit Scope c_scope with C.
#[global] Open Scope c_scope.

Create HintDb cdb.

(** Arithmetic goals mention [mod] and [/] by constants throughout. *)
Ltac Zify.zify_post_hook ::= Z.to_euclidean_division_equations.

(** ** Machine integers

    A [w]-bit unsigned integer is a [Z] in [0, 2^w); [u8], [u16], [u32] and
    [u64] are the conversions the C compiler inserts, i.e. reduction modulo
    [2^w]. *)
Definition u8 (z : Z) : Z := z mod 256.
Definition u16 (z : Z) : Z := z mod 65536.
Definition u32 (z : Z) : Z := z mod 4294967296.
Definition u64 (z : Z) : Z := z mod 18446744073709551616.

Definition INT_MAX : Z := 2147483647.
Definition LONG_MAX : Z := 9223372036854775807.
Definition LONG_MIN : Z := -9223372036854775808.

(** A byte of a C buffer, as the value of the [unsigned char] stored there. *)
Definition is_byte (b : Z) : Prop := 0 ≤ b < 256.

Lemma u8_range z : is_byte (u8 z).
Proof. unfold is_byte, u8. lia. Qed.

Lemma u8_id z : is_byte z → u8 z = z.
Proof. unfold is_byte, u8. lia. Qed.

Lemma u16_range z : 0 ≤ u16 z < 65536.
Proof. unfold u16. lia. Qed.

Lemma u16_id z : 0 ≤ z < 65536 → u16 z = z.
Proof. unfold u16. lia. Qed.

Lemma u16_u16_add a b : u16 (u16 a + b) = u16 (a + b).
Proof. unfold u16. lia. Qed.

Lemma u32_id z : 0 ≤ z < 4294967296 → u32 z = z.
Proof. unfold u32. lia. Qed.

Lemma u64_id z : 0 ≤ z < 18446744073709551616 → u64 z = z.
Proof. unfold u64. lia. Qed.

#[export] Hint Resolve u8_range u16_range : cdb.

(** ** Lists *)

(** Overwriting a segment of a buffer, as [memcpy] into [buf + off] does
    when [off + length src] does not pass the end. *)
Definition splice {A} (off : nat) (src buf : list A) : list A :=
  take off buf ++ src ++ drop (off + length src) buf.

Lemma length_splice {A} off (src buf : list A) :
  (off + length src ≤ length buf)%nat →
  length (splice off src buf) = length buf.
Proof.
  intros H. unfold splice. rewrite !length_app, length_take, length_drop. lia.
Qed.

Lemma splice_lookup_lt {A} off (src buf : list A) i :
  (off ≤ length buf)%nat → (i < off)%nat → splice off src buf !! i = buf !! i.
Proof.
  intros Hl H. unfold splice.
  rewrite lookup_app_l by (rewrite length_take; lia).
  by rewrite lookup_take_lt.
Qed.

Lemma drop_splice {A} off (src buf : list A) :
  (off ≤ length buf)%nat →
  drop off (splice off src buf) = src ++ drop (off + length src) buf.
Proof.
  intros H. unfold splice.
  rewrite drop_app_ge by (rewrite length_take; lia).
  rewrite length_take. by replace (off - off `min` length buf)%nat with O by lia.
Qed.

Lemma take_drop_splice {A} off (src buf : list A) :
  (off ≤ length buf)%nat → take (length src) (drop off (splice off src buf)) = src.
Proof. intros H. rewrite drop_splice by done. by rewrite take_app_length. Qed.

Lemma take_drop_app {A} n m (l : list A) :
  take n l ++ take m (drop n l) = take (n + m) l.
Proof. by rewrite take_take_drop. Qed.

Lemma take_nil_iff {A} n (l : list A) : (0 < n)%nat → take n l = [] → l = [].
Proof. destruct n, l; done || lia. Qed.

Lemma Forall_splice {A} (P : A → Prop) off src buf :
  Forall P src → Forall P buf → Forall P (splice off src buf).
Proof.
  intros Hs Hb. unfold splice.
  apply Forall_app_2; [by apply Forall_take|].
  apply Forall_app_2; [done|by apply Forall_drop].
Qed.

(** ** Tactics *)

(** Destruct every conjunction and existential of the context, and the pairs
    the rules of the logic leave behind. *)
Ltac split_hyps :=
  repeat match goal with
  | H : ∃ _, _ |- _ => destruct H
  | H : _ ∧ _ |- _ => destruct H
  | H : (_, _) = (_, _) |- _ => injection H as ? ?; subst
  end.

(** Turn boolean comparisons of the code into propositions. *)
Ltac bool_to_prop :=
  repeat match goal with
  | H : (_ && _) = true |- _ => apply andb_true_iff in H; destruct H
  | H : (_ || _) = false |- _ => apply orb_false_iff in H; destruct H
  | H : negb _ = true |- _ => apply negb_true_iff in H
  | H : negb _ = false |- _ => apply negb_false_iff in H
  | H : (_ =? _) = true |- _ => apply Z.eqb_eq in H
  | H : (_ =? _) = false |- _ => apply Z.eqb_neq in H
  | H : (_ <? _) = true |- _ => apply Z.ltb_lt in H
  | H : (_ <? _) = false |- _ => apply Z.ltb_ge in H
  | H : (_ <=? _) = true |- _ => apply Z.leb_le in H
  | H : (_ <=? _) = false |- _ => apply Z.leb_gt in H
  end.
