(* ===== verification/CMonad.v ===== *)
(** * CMonad: effects of the C programs

    A C function that touches the process state is a state transformer that
    either returns a value or stops the process: by [exit], by undefined
    behaviour, or, in the model only, because the iteration bound of a loop
    ran out.  Loops are written with [loop], whose body either continues
    with new values of the local variables or leaves the loop. *)
From S2P Require Import Prelude.

(** The undefined behaviours the programs can run into. *)
Inductive ub : Type :=
| OutOfBounds      (** a read or write past the end of an object *)
| NullDeref        (** a dereference of a null pointer *)
| DanglingPointer  (** a dereference of freed memory *)
| HeapOverflow     (** a write past the end of a heap block *)
| SignedOverflow.  (** an overflow of a signed integer *)

Inductive stop : Type :=
| SExit (code : Z)
| SCrash (why : ub)
| SFuel.

#[global] Instance ub_eq_dec : EqDecision ub.
Proof. solve_decision. Defined.
#[global] Instance stop_eq_dec : EqDecision stop.
Proof. solve_decision. Defined.

Inductive result (A : Type) : Type :=
| Ok (a : A)
| Stop (b : stop).
Arguments Ok {A} a.
Arguments Stop {A} b.

Definition M (S A : Type) : Type := S → result A * S.

#[global] Instance M_ret S : MRet (M S) := λ A a s, (Ok a, s).
#[global] Instance M_bind S : MBind (M S) := λ A B f m s,
  match m s with
  | (Ok a, s') => f a s'
  | (Stop b, s') => (Stop b, s')
  end.

Definition halt {S A} (b : stop) : M S A := λ s, (Stop b, s).
Definition exit {S A} (code : Z) : M S A := halt (SExit code).
Definition crash {S A} (why : ub) : M S A := halt (SCrash why).
Definition gets {S A} (f : S → A) : M S A := λ s, (Ok (f s), s).
Definition modify {S} (f : S → S) : M S unit := λ s, (Ok tt, f s).

(** A value that may be missing because the C expression is undefined. *)
Definition defined {S A} (why : ub) (o : option A) : M S A :=
  match o with Some a => mret a | None => crash why end.

Fixpoint loop {S L R} (fuel : nat) (body : L → M S (L + R)) (l : L) : M S R :=
  match fuel with
  | O => halt SFuel
  | Datatypes.S fuel =>
      r ← body l;
      match r with
      | inl l' => loop fuel body l'
      | inr r => mret r
      end
  end.

(** ** Weakest preconditions

    [wp m Q X s]: run from [s], [m] either returns in a state satisfying [Q]
    or stops in a state satisfying [X]. *)
Definition wp {S A} (m : M S A) (Q : A → S → Prop) (X : stop → S → Prop)
    (s : S) : Prop :=
  match m s with
  | (Ok a, s') => Q a s'
  | (Stop b, s') => X b s'
  end.

Section rules.
Context {S : Type}.
Implicit Types (s : S) (X : stop → S → Prop).

Lemma wp_ret {A} (a : A) Q X s : Q a s → wp (mret a) Q X s.
Proof. done. Qed.

Lemma wp_bind {A B} (m : M S A) (f : A → M S B) Q X s :
  wp m (λ a s', wp (f a) Q X s') X s → wp (m ≫= f) Q X s.
Proof.
  unfold wp, mbind, M_bind. by destruct (m s) as [[a|b] s'].
Qed.

Lemma wp_mono {A} (m : M S A) (Q Q' : A → S → Prop) X X' s :
  wp m Q X s →
  (∀ a s', Q a s' → Q' a s') → (∀ b s', X b s' → X' b s') →
  wp m Q' X' s.
Proof. unfold wp. destruct (m s) as [[a|b] s']; auto. Qed.

Lemma wp_conseq {A} (m : M S A) (Q Q' : A → S → Prop) X s :
  wp m Q X s → (∀ a s', Q a s' → Q' a s') → wp m Q' X s.
Proof. intros H HQ. by eapply wp_mono. Qed.

Lemma wp_conj {A} (m : M S A) (Q Q' : A → S → Prop) X X' s :
  wp m Q X s → wp m Q' X' s →
  wp m (λ a s', Q a s' ∧ Q' a s') (λ b s', X b s' ∧ X' b s') s.
Proof. unfold wp. destruct (m s) as [[a|b] s']; auto. Qed.

Lemma wp_halt {A} b (Q : A → S → Prop) X s : X b s → wp (halt b) Q X s.
Proof. done. Qed.

Lemma wp_exit {A} c (Q : A → S → Prop) X s : X (SExit c) s → wp (exit c) Q X s.
Proof. done. Qed.

Lemma wp_crash {A} u (Q : A → S → Prop) X s : X (SCrash u) s → wp (crash u) Q X s.
Proof. done. Qed.

Lemma wp_gets {A} (f : S → A) Q X s : Q (f s) s → wp (gets f) Q X s.
Proof. done. Qed.

Lemma wp_modify (f : S → S) Q X s : Q tt (f s) → wp (modify f) Q X s.
Proof. done. Qed.

Lemma wp_defined {A} u (o : option A) Q X s :
  (∀ a, o = Some a → Q a s) → (o = None → X (SCrash u) s) →
  wp (defined u o) Q X s.
Proof. destruct o; intros H1 H2; [by apply H1|by apply H2]. Qed.

(** Reading the first element of a buffer that is not empty. *)
Lemma wp_first {A} u (b : list A) Q X s :
  (0 < length b)%nat → (∀ a, b !! O = Some a → Q a s) → wp (defined u (b !! O)) Q X s.
Proof. destruct b; cbn; intros Hb HQ; [lia|by apply HQ]. Qed.

(** The invariant rule: [I] is kept by every iteration that continues, and
    the exits establish [Q].  Partial: the bound may run out. *)
Lemma wp_loop {L R} (I : L → S → Prop) (body : L → M S (L + R)) Q X fuel l s :
  I l s →
  (∀ l s, I l s → X SFuel s) →
  (∀ l s, I l s →
    wp (body l) (λ r s', match r with inl l' => I l' s' | inr r => Q r s' end) X s) →
  wp (loop fuel body l) Q X s.
Proof.
  intros HI HX Hbody. revert l s HI.
  induction fuel as [|fuel IH]; intros l s HI; cbn [loop]; [apply wp_halt; by eapply HX|].
  apply wp_bind. eapply wp_conseq; [by apply Hbody|].
  intros [l'|r] s' H; [by apply IH|by apply wp_ret].
Qed.

(** The variant rule: a measure that decreases with every iteration bounds
    the number of iterations, so that enough fuel gives a result. *)
Lemma wp_loop_measure {L R} (I : L → S → Prop) (μ : L → S → nat)
    (body : L → M S (L + R)) Q X fuel l s :
  I l s → (μ l s < fuel)%nat →
  (∀ l s, I l s →
    wp (body l) (λ r s', match r with
      | inl l' => I l' s' ∧ (μ l' s' < μ l s)%nat
      | inr r => Q r s' end) X s) →
  wp (loop fuel body l) Q X s.
Proof.
  intros HI Hμ Hbody. revert l s HI Hμ.
  induction fuel as [|fuel IH]; intros l s HI Hμ; [lia|]; cbn [loop].
  apply wp_bind. eapply wp_conseq; [by apply Hbody|].
  intros [l'|r] s' H; [|by apply wp_ret].
  destruct H as [HI' Hμ']. apply IH; [done|lia].
Qed.

(** From a triple to the outcome of a run. *)
Lemma wp_run {A} (m : M S A) Q X s r s' :
  wp m Q X s → m s = (r, s') →
  match r with Ok a => Q a s' | Stop b => X b s' end.
Proof. unfold wp. intros H E. rewrite E in H. by destruct r. Qed.

(** And back: case by case of the result. *)
Lemma wp_cases {A} (m : M S A) Q X s :
  (∀ r s', m s = (r, s') → match r with Ok a => Q a s' | Stop b => X b s' end) → wp m Q X s.
Proof. intros Hm. unfold wp. destruct (m s) as [r s'] eqn:E. specialize (Hm r s' eq_refl). by destruct r. Qed.
End rules.

(** ** Termination

    A computation indexed by the iteration bound of its loops converges when
    its outcome is the same for every large enough bound, and is not the
    exhaustion of the bound. *)
Definition converges {S A} (m : nat → M S A) (s : S) : Prop :=
  ∃ F r s', r ≠ Stop SFuel ∧ ∀ fuel, (F ≤ fuel)%nat → m fuel s = (r, s').

Section convergence.
Context {S : Type}.

Lemma converges_bind {A B} (m : nat → M S A) (f : nat → A → M S B) Q s :
  converges m s → (∀ fuel, wp (m fuel) Q (λ _ _, True) s) →
  (∀ a s', Q a s' → converges (λ fuel, f fuel a) s') →
  converges (λ fuel, m fuel ≫= f fuel) s.
Proof.
  intros (F & r & s' & Hr & Hm) HQ Hf. destruct r as [a|b].
  - specialize (HQ F). unfold wp in HQ. rewrite Hm in HQ by lia.
    destruct (Hf a s' HQ) as (F' & r & s'' & Hr' & Hf').
    exists (F `max` F')%nat, r, s''. split; [done|]. intros fuel Hfuel.
    unfold mbind, M_bind. rewrite Hm by lia. apply Hf'. lia.
  - exists F, (Stop b), s'. split; [intros [= ->]; by apply Hr|].
    intros fuel Hfuel. unfold mbind, M_bind. by rewrite Hm.
Qed.

(** Code without loops converges as soon as it does not give up. *)
Lemma converges_const {A} (m : M S A) s :
  wp m (λ _ _, True) (λ b _, b ≠ SFuel) s → converges (λ _, m) s.
Proof.
  unfold wp. destruct (m s) as [r s'] eqn:E. intros H.
  exists O, r, s'. split; [|done]. intros ->. done.
Qed.

(** Straight-line code first. *)
Lemma converges_seq {A B} (m : M S A) (f : nat → A → M S B) s :
  wp m (λ a s', converges (λ fuel, f fuel a) s') (λ b _, b ≠ SFuel) s →
  converges (λ fuel, m ≫= f fuel) s.
Proof.
  intros Hm. apply (converges_bind (λ _, m) f (λ a s', converges (λ fuel, f fuel a) s')).
  - apply converges_const. eapply wp_mono; [done|done|]. by intros.
  - intros _. eapply wp_mono; [done|done|]. by intros.
  - done.
Qed.

Lemma converges_ret {A} (a : A) (s : S) : converges (λ _, mret a) s.
Proof. by apply converges_const. Qed.

(** A loop whose body converges and descends in a well-founded order whenever
    it goes on converges, also when the body uses the bound itself.  [I x] is
    the invariant at the index [x], which need not be a function of the
    state. *)
Lemma converges_loop_wf {W L R} (lt : W → W → Prop) (I : W → L → S → Prop)
    (body : nat → L → M S (L + R)) x l s :
  well_founded lt → I x l s →
  (∀ x l s, I x l s → converges (λ fuel, body fuel l) s) →
  (∀ fuel x l s, I x l s →
    wp (body fuel l) (λ r s', match r with
      | inl l' => ∃ x', lt x' x ∧ I x' l' s' | inr _ => True end) (λ _ _, True) s) →
  converges (λ fuel, loop fuel (body fuel) l) s.
Proof.
  intros Hwf HI Hc Hw.
  assert (∃ F r s', r ≠ Stop SFuel ∧ ∀ n fuel, (F ≤ n)%nat → (F ≤ fuel)%nat →
    loop n (body fuel) l s = (r, s')) as (F & r & s' & ? & ?).
  2: { exists F, r, s'. split; [done|]. auto. }
  revert l s HI. induction (Hwf x) as [x _ IH]. intros l s HI.
  destruct (Hc x l s HI) as (F & r & s' & Hr & HF).
  specialize (Hw F x l s HI). unfold wp in Hw. rewrite HF in Hw by lia.
  destruct r as [[l'|r]|b].
  - destruct Hw as (x' & Hlt & HI'). destruct (IH _ Hlt l' s' HI') as (F' & r & s'' & ? & Hl).
    exists (Datatypes.S (F `max` F')), r, s''. split; [done|].
    intros [|n] fuel Hn Hfuel; [lia|]. cbn [loop]. unfold mbind, M_bind.
    rewrite HF by lia. apply Hl; lia.
  - exists (Datatypes.S F), (Ok r), s'. split; [done|].
    intros [|n] fuel Hn Hfuel; [lia|]. cbn [loop]. unfold mbind, M_bind.
    by rewrite HF by lia.
  - exists (Datatypes.S F), (Stop b), s'. split; [intros [= ->]; by apply Hr|].
    intros [|n] fuel Hn Hfuel; [lia|]. cbn [loop]. unfold mbind, M_bind.
    by rewrite HF by lia.
Qed.

(** With a measure. *)
Lemma converges_loop {L R} (I : L → S → Prop) (μ : L → S → nat)
    (body : nat → L → M S (L + R)) l s :
  I l s →
  (∀ l s, I l s → converges (λ fuel, body fuel l) s) →
  (∀ fuel l s, I l s →
    wp (body fuel l) (λ r s', match r with
      | inl l' => I l' s' ∧ (μ l' s' < μ l s)%nat | inr _ => True end) (λ _ _, True) s) →
  converges (λ fuel, loop fuel (body fuel) l) s.
Proof.
  intros HI Hc Hw.
  apply (converges_loop_wf lt (λ x l s, I l s ∧ μ l s = x) body (μ l s)); [apply lt_wf|done|..].
  - intros x l1 s1 [? _]. auto.
  - intros fuel x l1 s1 [HI1 <-]. eapply wp_conseq; [by apply Hw|].
    intros [l2|] s2; [|done]. intros [HI2 Hlt]. by exists (μ l2 s2).
Qed.

Lemma converges_loop_const {L R} (I : L → S → Prop) (μ : L → S → nat)
    (body : L → M S (L + R)) l s :
  I l s →
  (∀ l s, I l s →
    wp (body l) (λ r s', match r with
      | inl l' => I l' s' ∧ (μ l' s' < μ l s)%nat | inr _ => True end)
      (λ b _, b ≠ SFuel) s) →
  converges (λ fuel, loop fuel body l) s.
Proof.
  intros HI Hw. apply (converges_loop I μ (λ _, body)); [done| |].
  - intros l' s' HI'. apply converges_const. by eapply wp_mono; [apply Hw|..].
  - intros _ l' s' HI'. by eapply wp_mono; [apply Hw|..].
Qed.

Lemma converges_if {A} (b : bool) (m1 m2 : nat → M S A) s :
  (b = true → converges m1 s) → (b = false → converges m2 s) →
  converges (λ fuel, if b then m1 fuel else m2 fuel) s.
Proof. destruct b; auto. Qed.
End convergence.

(** One step of symbolic execution. *)
Ltac wp_step :=
  match goal with
  | |- wp (mbind _ _) _ _ _ => apply wp_bind
  | |- wp (mret _) _ _ _ => apply wp_ret
  | |- wp (defined _ (Some _)) _ _ _ => apply wp_ret
  | |- wp (defined _ None) _ _ _ => apply wp_crash
  | |- wp (halt _) _ _ _ => apply wp_halt
  | |- wp (exit _) _ _ _ => apply wp_exit
  | |- wp (crash _) _ _ _ => apply wp_crash
  | |- wp (gets _) _ _ _ => apply wp_gets
  | |- wp (modify _) _ _ _ => apply wp_modify
  | |- wp (if ?b then _ else _) _ _ _ => destruct b eqn:?
  end; cbn beta in *.

Ltac wp_steps := repeat wp_step.

(** Use the specification [H] of the first call of the program. *)
Ltac wp_use H :=
  match goal with
  | |- wp (mbind _ _) _ _ _ => apply wp_bind; eapply wp_mono; [H| |]
  | |- wp _ _ _ _ => eapply wp_mono; [H| |]
  end; cbn beta.
