(* ===== verification/CLib.v ===== *)
(** * CLib: buffers, byte order, C strings and the formats the programs use

    The parts of the C language and its library that the sources rely on.
    A buffer is the list of its bytes; a read or a store outside it has no
    result ([None]), which the programs turn into [OutOfBounds]. *)
From S2P Require Import Prelude.
From Stdlib Require Strings.String Strings.Ascii.
Export String.StringSyntax.

(** ** Characters *)
Fixpoint bytes_of_string (s : String.string) : list Z :=
  match s with
  | String.EmptyString => []
  | String.String a s => Z.of_N (Ascii.N_of_ascii a) :: bytes_of_string s
  end.
Arguments bytes_of_string s%_string_scope.

Definition NUL : Z := 0.
Definition c_slash : Z := 47.
Definition c_bar : Z := 124.
Definition c_minus : Z := 45.
Definition c_plus : Z := 43.

(** ** Byte order

    The host is little or big endian; the sources only ever go through
    [htons] and [ntohs]. *)
Inductive endian : Type := Little | Big.
Class Host : Type := byte_order : endian.

Definition swap16 (v : Z) : Z := (v mod 256) * 256 + v / 256.

Section byte_order.
Context `{Host}.

Definition htons (v : Z) : Z :=
  match byte_order with Little => swap16 (u16 v) | Big => u16 v end.

Definition ntohs (v : Z) : Z := htons v.

(** Reading the halfword at [b + off]. *)
Definition load16 (b : list Z) (off : nat) : option Z :=
  x ← b !! off;
  y ← b !! S off;
  Some (match byte_order with Little => x + y * 256 | Big => x * 256 + y end).

(** Writing the halfword at [b + off]. *)
Definition store16 (off : nat) (v : Z) (b : list Z) : option (list Z) :=
  if decide (off + 2 ≤ length b)%nat then
    Some (splice off (match byte_order with
                      | Little => [v mod 256; v / 256]
                      | Big => [v / 256; v mod 256] end) b)
  else None.

(** Whatever the host, [ntohs] of a loaded halfword is the big-endian
    value, and storing [htons v] leaves the big-endian bytes of [v]. *)
Lemma ntohs_load16 b off x y :
  b !! off = Some x → b !! S off = Some y → is_byte x → is_byte y →
  ntohs <$> load16 b off = Some (x * 256 + y).
Proof.
  intros Hx Hy Bx By. unfold load16, ntohs, htons. rewrite Hx, Hy. cbn.
  unfold is_byte, swap16, u16 in *. destruct byte_order; f_equal; lia.
Qed.

Lemma store16_htons off v b :
  (off + 2 ≤ length b)%nat →
  store16 off (htons v) b = Some (splice off [u16 v / 256; u16 v mod 256] b).
Proof.
  intros Hl. unfold store16. rewrite decide_True by done.
  unfold htons, swap16, u16. do 2 f_equal.
  destruct byte_order; repeat f_equal; lia.
Qed.
End byte_order.

(** ** Strings *)

(** The C string a pointer denotes: the bytes before the first NUL.  [None]
    when the object has no NUL, so that [strlen] and the like run past it. *)
Fixpoint cstr (b : list Z) : option (list Z) :=
  match b with
  | [] => None
  | c :: b => if c =? NUL then Some [] else cons c <$> cstr b
  end.

Fixpoint strchr (s : list Z) (c : Z) : option nat :=
  match s with
  | [] => None
  | x :: s => if x =? c then Some O else S <$> strchr s c
  end.

Fixpoint strrchr (s : list Z) (c : Z) : option nat :=
  match s with
  | [] => None
  | x :: s =>
      match strrchr s c with
      | Some i => Some (S i)
      | None => if x =? c then Some O else None
      end
  end.

Lemma cstr_app s b : Forall (λ c, c ≠ NUL) s → cstr (s ++ NUL :: b) = Some s.
Proof.
  induction 1 as [|c s Hc Hs IH]; cbn; [done|].
  rewrite IH. by apply Z.eqb_neq in Hc as ->.
Qed.

Lemma cstr_Some b s :
  cstr b = Some s → Forall (λ c, c ≠ NUL) s ∧ ∃ b', b = s ++ NUL :: b'.
Proof.
  revert s. induction b as [|c b IH]; intros s; cbn; [done|].
  destruct (c =? NUL) eqn:E; bool_to_prop.
  - intros [= <-]. split; [constructor|]. exists b. by rewrite E.
  - destruct (cstr b) as [s'|]; cbn; [|done]. intros [= <-].
    destruct (IH s' eq_refl) as [? [b' ->]]. split; [by constructor|by exists b'].
Qed.

Lemma strchr_Some s c i :
  strchr s c = Some i → s !! i = Some c ∧ c ∉ take i s.
Proof.
  revert i. induction s as [|x s IH]; intros i; cbn; [done|].
  destruct (x =? c) eqn:E; bool_to_prop.
  - intros [= <-]. subst. split; [done|]. cbn. set_solver.
  - destruct (strchr s c) as [j|]; cbn; [|done]. intros [= <-].
    destruct (IH j eq_refl) as [? ?]. split; [done|]. cbn. set_solver.
Qed.

Lemma strchr_None s c : c ∉ s → strchr s c = None.
Proof.
  induction s as [|x s IH]; cbn; [done|]. intros Hc.
  destruct (x =? c) eqn:E; bool_to_prop; [set_solver|].
  rewrite IH; [done|set_solver].
Qed.

Lemma strchr_None_inv s c : strchr s c = None → c ∉ s.
Proof.
  induction s as [|x s IH]; cbn; [set_solver|].
  destruct (x =? c) eqn:E; bool_to_prop; [done|].
  destruct (strchr s c); [done|]. intros _. set_solver.
Qed.

Lemma strchr_app s c t : c ∉ s → strchr (s ++ c :: t) c = Some (length s).
Proof.
  induction s as [|x s IH]; cbn; intros Hc; [by rewrite Z.eqb_refl|].
  destruct (x =? c) eqn:E; bool_to_prop; [set_solver|].
  rewrite IH; [done|set_solver].
Qed.

Lemma strrchr_None s c : strrchr s c = None ↔ c ∉ s.
Proof.
  induction s as [|x s IH]; cbn; [set_solver|].
  destruct (strrchr s c) eqn:E.
  - split; [done|]. intros H. exfalso.
    assert (c ∉ s) as Hs by set_solver. by apply IH in Hs.
  - destruct (x =? c) eqn:E'; bool_to_prop; [set_solver|].
    split; [|done]. intros _. assert (c ∉ s) by by apply IH. set_solver.
Qed.

Lemma strrchr_Some s c i :
  strrchr s c = Some i → s !! i = Some c ∧ c ∉ drop (S i) s.
Proof.
  revert i. induction s as [|x s IH]; intros i; cbn; [done|].
  destruct (strrchr s c) as [j|] eqn:E.
  - intros [= <-]. by apply IH.
  - destruct (x =? c) eqn:E'; bool_to_prop; [|done]. intros [= <-]. subst.
    split; [done|]. cbn. by apply strrchr_None.
Qed.

Lemma cstr_subseteq b s : cstr b = Some s → s ⊆ b.
Proof. intros [_ [b' ->]]%cstr_Some. set_solver. Qed.

(** ** Decimal numbers: the [%ld], [%u] and [%c] conversions *)

Definition is_digit (c : Z) : bool := (48 <=? c) && (c <=? 57).
Definition is_space (c : Z) : bool := (c =? 32) || ((9 <=? c) && (c <=? 13)).

(** Most significant digit first; [fuel] digits are enough below
    [10 ^ fuel]. *)
Fixpoint dec (fuel : nat) (n : Z) : list Z :=
  match fuel with
  | O => []
  | S fuel => if n <? 10 then [48 + n] else dec fuel (n / 10) ++ [48 + n mod 10]
  end.

(** [printf] of a [long]: at most 19 digits and a sign. *)
Definition format_ld (n : Z) : list Z :=
  if n <? 0 then c_minus :: dec 20 (- n) else dec 20 n.

Fixpoint skip_spaces (s : list Z) : list Z :=
  match s with
  | [] => []
  | c :: t => if is_space c then skip_spaces t else s
  end.

(** The longest run of digits, its value, and what follows. *)
Fixpoint scan_digits (s : list Z) (acc : Z) : Z * list Z :=
  match s with
  | [] => (acc, [])
  | c :: t => if is_digit c then scan_digits t (acc * 10 + (c - 48)) else (acc, s)
  end.

(** An optional sign followed by at least one digit. *)
Definition scan_number (s : list Z) : option (bool * Z * list Z) :=
  let '(neg, s) :=
    match s with
    | c :: t => if c =? c_minus then (true, t)
                else if c =? c_plus then (false, t) else (false, s)
    | [] => (false, s)
    end in
  match s with
  | c :: _ => if is_digit c then
                let '(v, rest) := scan_digits s 0 in Some (neg, v, rest)
              else None
  | [] => None
  end.

(** The result of [sscanf(s, "%<conv>%c", &v, &c)]: the number of
    conversions (-1 at the end of the input) and the value stored, [None] if
    the variable is left as it was.  Overflow follows [strtol] and [strtoul]:
    the value is clamped, and [%u] keeps its low 32 bits. *)
Definition sscanf_num (conv : bool → Z → Z) (s : list Z) : Z * option Z :=
  match skip_spaces s with
  | [] => (-1, None)
  | s => match scan_number s with
         | None => (0, None)
         | Some (neg, v, rest) =>
             (match rest with [] => 1 | _ => 2 end, Some (conv neg v))
         end
  end.

Definition conv_ld (neg : bool) (v : Z) : Z :=
  Z.max LONG_MIN (Z.min LONG_MAX (if neg then - v else v)).

Definition conv_u (neg : bool) (v : Z) : Z :=
  u32 (if v <? 18446744073709551616 then u64 (if neg then - v else v)
       else 18446744073709551615).

Definition sscanf_ld_c : list Z → Z * option Z := sscanf_num conv_ld.
Definition sscanf_u_c : list Z → Z * option Z := sscanf_num conv_u.

Definition dval (l : list Z) (acc : Z) : Z := fold_left (λ a c, a * 10 + (c - 48)) l acc.

Definition digits (l : list Z) : Prop := Forall (λ c, 48 ≤ c ≤ 57) l.

Lemma is_digit_true c : 48 ≤ c ≤ 57 → is_digit c = true.
Proof. intros. unfold is_digit. apply andb_true_iff. lia. Qed.

Lemma scan_digits_all l acc : digits l → scan_digits l acc = (dval l acc, []).
Proof.
  intros H. revert acc. induction H as [|c l Hc Hl IH]; intros acc; cbn; [done|].
  by rewrite is_digit_true, IH.
Qed.

Lemma dec_digits fuel n : 0 ≤ n → digits (dec fuel n).
Proof.
  revert n. induction fuel as [|fuel IH]; intros n Hn; cbn; [constructor|].
  destruct (n <? 10) eqn:E; bool_to_prop.
  - constructor; [lia|constructor].
  - apply Forall_app. split; [apply IH; lia|]. constructor; [lia|constructor].
Qed.

Lemma dec_nonempty fuel n : ∃ c l, dec (S fuel) n = c :: l.
Proof.
  cbn. destruct (n <? 10); [by eexists _, _|].
  destruct (dec fuel (n / 10)); by eexists _, _.
Qed.

Lemma dval_dec fuel n :
  0 ≤ n < 10 ^ Z.of_nat fuel → dval (dec fuel n) 0 = n.
Proof.
  revert n. induction fuel as [|fuel IH]; intros n Hn; [cbn in *; lia|].
  replace (Z.of_nat (S fuel)) with (Z.succ (Z.of_nat fuel)) in Hn by lia.
  rewrite Z.pow_succ_r in Hn by lia. cbn [dec].
  destruct (n <? 10) eqn:E; bool_to_prop; [unfold dval; cbn; lia|].
  assert (dval (dec fuel (n / 10)) 0 = n / 10) as IHn by (apply IH; lia).
  unfold dval in *. rewrite fold_left_app, IHn. cbn. lia.
Qed.

Lemma length_dec fuel n :
  (length (dec fuel n) ≤ fuel)%nat.
Proof.
  revert n. induction fuel as [|fuel IH]; intros n; cbn; [lia|].
  destruct (n <? 10); cbn; [lia|]. rewrite length_app. cbn.
  specialize (IH (n / 10)). lia.
Qed.

(** Reading back a printed number gives the number, with nothing left for
    the trailing [%c]. *)
Lemma sscanf_dec conv fuel n :
  0 ≤ n < 10 ^ Z.of_nat (S fuel) → sscanf_num conv (dec (S fuel) n) = (1, Some (conv false n)).
Proof.
  intros Hn. unfold sscanf_num.
  pose proof (dec_digits (S fuel) n ltac:(lia)) as Hd.
  pose proof (dval_dec (S fuel) n Hn) as Hv.
  destruct (dec_nonempty fuel n) as (c & l & E).
  rewrite E in *. pose proof Hd as [Hc _]%Forall_cons.
  assert (is_space c = false) as Hs
    by (unfold is_space; apply orb_false_iff; split;
        [apply Z.eqb_neq; lia|apply andb_false_iff; right; apply Z.leb_gt; lia]).
  cbn [skip_spaces]. rewrite Hs. unfold scan_number, c_minus, c_plus.
  assert ((c =? 45) = false) as -> by (apply Z.eqb_neq; lia).
  assert ((c =? 43) = false) as -> by (apply Z.eqb_neq; lia).
  rewrite is_digit_true by done. by rewrite scan_digits_all, Hv by done.
Qed.

Lemma sscanf_format_ld n :
  0 ≤ n ≤ LONG_MAX → sscanf_ld_c (format_ld n) = (1, Some n).
Proof.
  intros Hn. unfold sscanf_ld_c, format_ld.
  assert ((n <? 0) = false) as -> by (apply Z.ltb_ge; lia).
  rewrite sscanf_dec by (unfold LONG_MAX in Hn; lia).
  unfold conv_ld, LONG_MAX, LONG_MIN in *. repeat f_equal. lia.
Qed.

Lemma format_ld_digits n : 0 ≤ n → digits (format_ld n).
Proof.
  intros Hn. unfold format_ld.
  assert ((n <? 0) = false) as -> by (apply Z.ltb_ge; lia). by apply dec_digits.
Qed.

Lemma length_format_ld n : (length (format_ld n) ≤ 21)%nat.
Proof.
  unfold format_ld. destruct (n <? 0); cbn [length];
    [pose proof (length_dec 20 (- n))|pose proof (length_dec 20 n)]; lia.
Qed.

Lemma conv_ld_range neg v : LONG_MIN ≤ conv_ld neg v ≤ LONG_MAX.
Proof. unfold conv_ld, LONG_MIN, LONG_MAX. lia. Qed.
