(* ===== verification/Queue.v ===== *)
(** * Queue: what the programs rely on in [list.h]

    The interface between the list and its clients: the operations as the
    clients call them, and the laws the clients' proofs use, stated against
    the abstract contents of the queue. *)
From S2P Require Import Prelude CMonad.

Class QueueOps (Q D : Type) : Type := {
  q_create : bool → Q;         (** [malloc] of the list, then [init_list] *)
  q_add : bool → D → M Q Z;    (** [add_to_list]; the flag is its [malloc] *)
  q_remove_front : M Q unit;
  q_is_empty : M Q bool;       (** [list->head == NULL] *)
  q_size : M Q Z;              (** [list->size] *)
  q_head : M Q D;              (** [list->head->data] *)
  q_tail : M Q D;              (** [list->tail->data] *)
  q_walk : M Q (list D);       (** the [for] loop over the nodes *)
}.

(** [q_rep q xs]: [q] is a well-formed queue holding [xs], oldest first.
    Every operation succeeds on one, and does what it does to [xs]. *)
Class QueueLaws (Q D : Type) `{QueueOps Q D} : Type := {
  q_rep : Q → list D → Prop;
  q_create_ok : q_rep (q_create true) [];
  q_add_ok q xs d : q_rep q xs →
    ∃ q', q_add true d q = (Ok 0, q') ∧ q_rep q' (xs ++ [d]);
  q_add_fail q xs d : q_rep q xs → q_add false d q = (Ok 1, q);
  q_remove_front_ok q xs : q_rep q xs →
    ∃ q', q_remove_front q = (Ok tt, q') ∧ q_rep q' (list.tail xs);
  q_is_empty_ok q xs : q_rep q xs →
    q_is_empty q = (Ok (bool_decide (xs = [])), q);
  q_size_ok q xs : q_rep q xs → q_size q = (Ok (u32 (Z.of_nat (length xs))), q);
  q_head_ok q x xs : q_rep q (x :: xs) → q_head q = (Ok x, q);
  q_tail_ok q x xs : q_rep q (xs ++ [x]) → q_tail q = (Ok x, q);
  q_walk_ok q xs : q_rep q xs → q_walk q = (Ok xs, q);
}.

(** A queue operation inside a program with another state: the queue is a
    local variable of the program. *)
Definition on_queue {S Q A} (q : Q) (m : M Q A) : M S (A * Q) := λ s,
  match m q with
  | (Ok a, q') => (Ok (a, q'), s)
  | (Stop b, _) => (Stop b, s)
  end.

Lemma wp_on_queue {S Q A} (q q' : Q) (m : M Q A) a (P : A * Q → S → Prop) X s :
  m q = (Ok a, q') → P (a, q') s → wp (on_queue q m) P X s.
Proof. intros E HP. unfold wp, on_queue. by rewrite E. Qed.

(** ** The reference queue: the list of its contents

    [None] is the null pointer; the laws hold by computation, so that the
    interface is not vacuous independently of the linked implementation. *)
Section reference.
Context {D : Type}.

Definition on_some {A} (f : list D → A * list D) : M (option (list D)) A := λ q,
  match q with
  | None => (Stop (SCrash NullDeref), q)
  | Some xs => let '(a, xs') := f xs in (Ok a, Some xs')
  end.

#[export] Instance fifo_ops : QueueOps (option (list D)) D := {|
  q_create ok := if ok then Some [] else None;
  q_add ok d := λ q, match q with
    | Some xs => if ok then (Ok 0, Some (xs ++ [d])) else (Ok 1, q)
    | None => (Ok 1, q) end;
  q_remove_front := λ q, (Ok tt, list.tail <$> q);
  q_is_empty := on_some (λ xs, (bool_decide (xs = []), xs));
  q_size := on_some (λ xs, (u32 (Z.of_nat (length xs)), xs));
  q_head := λ q, match q with
    | Some (x :: _) => (Ok x, q) | _ => (Stop (SCrash NullDeref), q) end;
  q_tail := λ q, match q ≫= last with
    | Some x => (Ok x, q) | None => (Stop (SCrash NullDeref), q) end;
  q_walk := on_some (λ xs, (xs, xs));
|}.

#[export] Instance fifo_laws : QueueLaws (option (list D)) D.
Proof.
  refine {| q_rep q xs := q = Some xs |}; cbn.
  - done.
  - intros q xs d ->. by eexists.
  - by intros q xs d ->.
  - intros q xs ->. by eexists.
  - by intros q xs ->.
  - by intros q xs ->.
  - by intros q x xs ->.
  - intros q x xs ->. cbn. by rewrite last_snoc.
  - by intros q xs ->.
Defined.
End reference.
