(* ===== verification/LinkedList.v ===== *)
(** * LinkedList: the singly linked queue of [ftpclient/list.h]

    The nodes live in a heap; [struct List] holds a head pointer, a tail
    pointer and an [unsigned int] size.  [remove_front] leaves the tail
    pointer alone, so that it dangles once the list is empty: the
    representation predicate constrains it for a non-empty list only. *)
From S2P Require Import Prelude CMonad Queue.

Abbreviation loc := positive.

(** [struct ListNode]; [None] is the null pointer. *)
Record ListNode (D : Type) : Type := mkNode { next : option loc; data : D }.
Arguments mkNode {D} next data.
Arguments next {D}.
Arguments data {D}.

(** [struct List]. *)
Record List : Type := mkList { head : option loc; tail : option loc; size : Z }.

(** The nodes on the heap, and the list the functions get: [None] when they
    are called with a null pointer. *)
Record lmem (D : Type) : Type := mkMem { nodes : gmap loc (ListNode D); lst : option List }.
Arguments mkMem {D} nodes lst.
Arguments nodes {D}.
Arguments lst {D}.

Section list_h.
Context {D : Type}.
Implicit Types (m : lmem D) (h : gmap loc (ListNode D)) (d : D).

(** [ok] is whether the [malloc] of the node succeeds; a successful one
    returns an address that is not in use. *)
Definition add_to_list (ok : bool) (d : D) : M (lmem D) Z := λ m,
  match lst m with
  | None => (Ok 1, m)
  | Some l =>
      if ok then
        let n := fresh (dom (nodes m)) in
        let h := <[n := mkNode None d]> (nodes m) in
        match head l with
        | None => (Ok 0, mkMem h (Some (mkList (Some n) (Some n) 1)))
        | Some _ =>
            match tail l with
            | None => (Stop (SCrash NullDeref), m)
            | Some t =>
                match h !! t with
                | None => (Stop (SCrash DanglingPointer), m)
                | Some tn =>
                    (Ok 0, mkMem (<[t := mkNode (Some n) (data tn)]> h)
                             (Some (mkList (head l) (Some n) (u32 (size l + 1)))))
                end
            end
        end
      else (Ok 1, m)
  end.

Definition init_list : M (lmem D) unit := λ m,
  match lst m with
  | None => (Ok tt, m)
  | Some _ => (Ok tt, mkMem (nodes m) (Some (mkList None None 0)))
  end.

Definition remove_front : M (lmem D) unit := λ m,
  match lst m with
  | None => (Ok tt, m)
  | Some l =>
      match head l with
      | None => (Ok tt, m)
      | Some f =>
          match nodes m !! f with
          | None => (Stop (SCrash DanglingPointer), m)
          | Some fn =>
              (Ok tt, mkMem (delete f (nodes m))
                        (Some (mkList (next fn) (tail l) (u32 (size l - 1)))))
          end
      end
  end.

(** [list->head == NULL], [list->size], [list->head->data] and
    [list->tail->data], as the callers write them. *)
Definition get_list : M (lmem D) List := l ← gets lst; defined NullDeref l.

Definition deref (p : option loc) : M (lmem D) (ListNode D) :=
  p ← defined NullDeref p;
  h ← gets nodes;
  defined DanglingPointer (h !! p).

Definition head_is_null : M (lmem D) bool :=
  l ← get_list; mret (bool_decide (head l = None)).
Definition list_size : M (lmem D) Z := l ← get_list; mret (size l).
Definition head_data : M (lmem D) D :=
  l ← get_list; n ← deref (head l); mret (data n).
Definition tail_data : M (lmem D) D :=
  l ← get_list; n ← deref (tail l); mret (data n).

(** [for (n = list->head; n != NULL; n = n->next)]: the data visited.
    No node is visited twice, so the number of nodes bounds the loop. *)
Fixpoint visit (fuel : nat) (p : option loc) : M (lmem D) (list D) :=
  match p with
  | None => mret []
  | Some _ =>
      match fuel with
      | O => halt SFuel
      | S fuel => n ← deref p; xs ← visit fuel (next n); mret (data n :: xs)
      end
  end.

Definition walk : M (lmem D) (list D) :=
  l ← get_list; h ← gets nodes; visit (map_size h) (head l).

(** ** Representation

    [chain h ls xs]: the nodes at [ls] hold [xs] and each points to the
    next. *)
Definition chain h (ls : list loc) (xs : list D) : Prop :=
  length ls = length xs ∧
  ∀ i p x, ls !! i = Some p → xs !! i = Some x → h !! p = Some (mkNode (ls !! S i) x).

Definition list_rep m (xs : list D) : Prop :=
  ∃ l ls, lst m = Some l ∧ NoDup ls ∧ dom (nodes m) = list_to_set ls ∧
    chain (nodes m) ls xs ∧ head l = ls !! O ∧
    (ls ≠ [] → tail l = last ls) ∧ size l = u32 (Z.of_nat (length xs)).

Lemma chain_cons h p ls x xs :
  chain h (p :: ls) (x :: xs) → h !! p = Some (mkNode (ls !! O) x) ∧ chain h ls xs.
Proof.
  intros [Hl Hc]. split; [by apply (Hc O)|]. split; [by injection Hl|].
  intros i q y Hq Hy. by apply (Hc (S i)).
Qed.

Lemma chain_frame h h' ls xs :
  (∀ p, p ∈ ls → h' !! p = h !! p) → chain h ls xs → chain h' ls xs.
Proof.
  intros Hf [Hl Hc]. split; [done|]. intros i p x Hp Hx.
  rewrite Hf by (by eapply list_elem_of_lookup_2). eauto.
Qed.

Lemma chain_snoc h ls xs t n d tn :
  NoDup ls → n ∉ ls → last ls = Some t → h !! t = Some tn → chain h ls xs →
  chain (<[t := mkNode (Some n) (data tn)]> (<[n := mkNode None d]> h))
    (ls ++ [n]) (xs ++ [d]).
Proof.
  intros Hnd Hn Ht Htn [Hl Hc].
  rewrite last_lookup in Ht.
  assert (t ∈ ls) as Hin by by eapply list_elem_of_lookup_2.
  split; [rewrite !length_app; cbn; lia|]. intros i p x Hp Hx.
  destruct (decide (i < length ls)%nat) as [Hi|Hi].
  - rewrite lookup_app_l in Hp by lia. rewrite lookup_app_l in Hx by lia.
    pose proof (Hc i p x Hp Hx) as Hpx.
    assert (p ≠ n) by (intros ->; apply Hn; by eapply list_elem_of_lookup_2).
    destruct (decide (S i = length ls)) as [Hlast|Hlast].
    + replace (pred (length ls)) with i in Ht by lia. simplify_eq.
      rewrite lookup_insert_eq, lookup_app_r by lia.
      by replace (S i - length ls)%nat with O by lia.
    + assert (p ≠ t) by (intros ->; pose proof (NoDup_lookup _ _ _ _ Hnd Hp Ht); lia).
      rewrite !lookup_insert_ne by done. rewrite lookup_app_l by lia. done.
  - assert (i = length ls) as ->.
    { apply lookup_lt_Some in Hp. rewrite length_app in Hp. cbn in Hp. lia. }
    rewrite lookup_app_r, Nat.sub_diag in Hp by lia. cbn in Hp.
    rewrite Hl, lookup_app_r, Nat.sub_diag in Hx by lia. cbn in Hx. simplify_eq.
    rewrite lookup_insert_ne by congruence. rewrite lookup_insert_eq.
    by rewrite lookup_ge_None_2 by (rewrite length_app; cbn; lia).
Qed.

Lemma visit_chain h l ls xs fuel :
  chain h ls xs → (length xs ≤ fuel)%nat →
  visit fuel (ls !! O) (mkMem h l) = (Ok xs, mkMem h l).
Proof.
  revert ls fuel. induction xs as [|x xs IH]; intros [|p ls] fuel Hc Hf;
    try (by destruct Hc). 1: by destruct fuel.
  destruct fuel as [|fuel]; [cbn in Hf; lia|].
  apply chain_cons in Hc as [Hp Hc]. cbn.
  unfold deref, defined, gets, crash, halt, mbind, M_bind, mret, M_ret. cbn.
  rewrite Hp. cbn. rewrite IH; [done|done|cbn in Hf; lia].
Qed.
End list_h.

(** ** The operations implement the queue of their contents *)
Section refinement.
Context {D : Type}.
Implicit Types (m : lmem D) (xs : list D).

Ltac open_rep H :=
  let l := fresh "l" in let ls := fresh "ls" in
  destruct H as (l & ls & Hlst & Hnd & Hdom & Hc & Hh & Ht & Hs).

Lemma list_rep_init (junk : List) :
  (init_list (mkMem (D := D) ∅ (Some junk))).1 = Ok tt ∧
  list_rep (init_list (mkMem (D := D) ∅ (Some junk))).2 [].
Proof.
  split; [done|]. eexists _, []. cbn. repeat split; try done. constructor.
Qed.

Lemma list_rep_add m xs d :
  list_rep m xs →
  ∃ m', add_to_list true d m = (Ok 0, m') ∧ list_rep m' (xs ++ [d]).
Proof.
  intros Hrep. open_rep Hrep. unfold add_to_list. rewrite Hlst.
  set (n := fresh (dom (nodes m))).
  assert (n ∉ dom (nodes m)) as Hn by apply is_fresh.
  destruct ls as [|p ls].
  - rewrite Hh. destruct Hc as [Hl _]. destruct xs; [|done].
    eexists. split; [done|]. eexists _, [n]. cbn.
    repeat split; try done; [apply NoDup_singleton|rewrite dom_insert_L; set_solver|].
    intros [|i] q x; cbn; [|done]. intros [= <-] [= <-]. by rewrite lookup_insert_eq.
  - rewrite Hh. cbn [lookup list_lookup].
    assert (n ∉ p :: ls) as Hn' by (rewrite Hdom in Hn; set_solver).
    rewrite Ht by done.
    destruct (last (p :: ls)) as [t|] eqn:El; [|by apply last_None in El].
    assert (t ∈ p :: ls) as Hin by by apply last_Some_elem_of.
    assert (is_Some (nodes m !! t)) as [tn Htn]
      by (apply elem_of_dom; rewrite Hdom; set_solver).
    rewrite lookup_insert_ne by (by intros ->). rewrite Htn.
    eexists. split; [done|]. eexists _, ((p :: ls) ++ [n]). cbn [nodes lst head tail size].
    repeat split.
    + apply NoDup_app. split; [done|]. split; [set_solver|apply NoDup_singleton].
    + rewrite !dom_insert_L, Hdom. set_solver.
    + by eapply (chain_snoc _ _ xs).
    + by eapply (chain_snoc _ _ xs).
    + intros _. by rewrite last_snoc.
    + rewrite Hs, length_app. cbn. unfold u32. lia.
Qed.

Lemma list_rep_add_fail m xs d : list_rep m xs → add_to_list false d m = (Ok 1, m).
Proof. intros Hrep. open_rep Hrep. unfold add_to_list. by rewrite Hlst. Qed.

Lemma list_rep_remove m xs :
  list_rep m xs →
  ∃ m', remove_front m = (Ok tt, m') ∧ list_rep m' (list.tail xs).
Proof.
  intros Hrep. pose proof Hrep as Hrep0. open_rep Hrep.
  unfold remove_front. rewrite Hlst, Hh.
  destruct ls as [|p ls]; cbn [lookup list_lookup].
  { destruct Hc as [Hl _]. destruct xs; [|done]. by exists m. }
  destruct xs as [|x xs]; [by destruct Hc|].
  pose proof (chain_cons _ _ _ _ _ Hc) as [Hp Hc']. rewrite Hp.
  apply NoDup_cons in Hnd as [Hnp Hnd].
  eexists. split; [done|]. eexists _, ls. cbn [nodes lst head tail size list.tail].
  repeat split; try done.
  - rewrite dom_delete_L, Hdom. set_solver.
  - by destruct Hc'.
  - eapply (chain_frame (nodes m)); [|done]. intros q Hq.
    rewrite lookup_delete_ne; [done|]. by intros ->.
  - intros Hne. rewrite Ht by done. by destruct ls.
  - rewrite Hs. cbn [length size]. unfold u32. lia.
Qed.

Lemma list_rep_get m xs (A : Type) (f : List → M (lmem D) A) :
  list_rep m xs → ∃ l, lst m = Some l ∧ (get_list ≫= f) m = f l m.
Proof.
  intros Hrep. open_rep Hrep. exists l. split; [done|].
  unfold get_list, gets, defined, mbind, M_bind. cbn. by rewrite Hlst.
Qed.

Lemma deref_ok m p n : nodes m !! p = Some n → deref (Some p) m = (Ok n, m).
Proof.
  intros Hp. unfold deref, gets, defined, mbind, M_bind, mret, M_ret. cbn. by rewrite Hp.
Qed.

Lemma list_rep_is_null m xs :
  list_rep m xs → head_is_null m = (Ok (bool_decide (xs = [])), m).
Proof.
  intros Hrep. unfold head_is_null.
  destruct (list_rep_get m xs bool (λ l, mret (bool_decide (head l = None))) Hrep)
    as (l' & Hl' & ->).
  open_rep Hrep. simplify_eq. unfold mret, M_ret. rewrite Hh. do 2 f_equal.
  destruct Hc as [Hl _]. by destruct ls, xs.
Qed.

Lemma list_rep_size m xs :
  list_rep m xs → list_size m = (Ok (u32 (Z.of_nat (length xs))), m).
Proof.
  intros Hrep. unfold list_size.
  destruct (list_rep_get m xs Z (λ l, mret (size l)) Hrep) as (l' & Hl' & ->).
  open_rep Hrep. simplify_eq. unfold mret, M_ret. by rewrite Hs.
Qed.

Lemma list_rep_head m x xs : list_rep m (x :: xs) → head_data m = (Ok x, m).
Proof.
  intros Hrep. unfold head_data.
  destruct (list_rep_get m (x :: xs) D (λ l, n ← deref (head l); mret (data n)) Hrep)
    as (l' & Hl' & ->).
  open_rep Hrep. simplify_eq. rewrite Hh.
  destruct ls as [|p ls]; [by destruct Hc|].
  apply chain_cons in Hc as [Hp _]. cbn [lookup list_lookup].
  unfold mbind, M_bind. by rewrite (deref_ok _ _ _ Hp).
Qed.

Lemma list_rep_tail m x xs : list_rep m (xs ++ [x]) → tail_data m = (Ok x, m).
Proof.
  intros Hrep. unfold tail_data.
  destruct (list_rep_get m _ D (λ l, n ← deref (tail l); mret (data n)) Hrep)
    as (l' & Hl' & ->).
  open_rep Hrep. simplify_eq. destruct Hc as [Hl Hc]. rewrite length_app in Hl. cbn in Hl.
  destruct (last ls) as [t|] eqn:El; [|apply last_None in El as ->; cbn in Hl; lia].
  assert (ls ≠ []) as Hne by (intros ->; done). rewrite Ht by done.
  rewrite last_lookup in El.
  assert (nodes m !! t = Some (mkNode (ls !! S (pred (length ls))) x)) as Hx.
  { apply (Hc (pred (length ls))); [done|].
    rewrite lookup_app_r by lia. by replace (_ - _)%nat with O by lia. }
  unfold mbind, M_bind. by rewrite (deref_ok _ _ _ Hx).
Qed.

Lemma list_rep_walk m xs : list_rep m xs → walk m = (Ok xs, m).
Proof.
  intros Hrep. unfold walk.
  destruct (list_rep_get m xs _ (λ l, h ← gets nodes; visit (map_size h) (head l)) Hrep)
    as (l' & Hl' & ->).
  open_rep Hrep. simplify_eq. unfold mbind, M_bind, gets. rewrite Hh.
  destruct m as [h o]. cbn in *. apply visit_chain; [done|].
  destruct Hc as [Hl _]. rewrite <- Hl, <- (size_list_to_set (C := gset loc) ls) by done.
  rewrite <- Hdom, size_dom. done.
Qed.

(** What [malloc] leaves in the list structure before [init_list]. *)
Definition uninit_list : List := mkList (Some 1%positive) (Some 1%positive) 4294967295.

#[export] Instance list_queue_ops : QueueOps (lmem D) D := {|
  q_create ok := (init_list (mkMem ∅ (if ok then Some uninit_list else None))).2;
  q_add := add_to_list;
  q_remove_front := remove_front;
  q_is_empty := head_is_null;
  q_size := list_size;
  q_head := head_data;
  q_tail := tail_data;
  q_walk := walk;
|}.

#[export] Instance list_queue_laws : QueueLaws (lmem D) D := {|
  q_rep := list_rep;
  q_create_ok := proj2 (list_rep_init uninit_list);
  q_add_ok := list_rep_add;
  q_add_fail := list_rep_add_fail;
  q_remove_front_ok := list_rep_remove;
  q_is_empty_ok := list_rep_is_null;
  q_size_ok := list_rep_size;
  q_head_ok := list_rep_head;
  q_tail_ok := list_rep_tail;
  q_walk_ok := list_rep_walk;
|}.
End refinement.
