(* ===== verification/Packet.v ===== *)
(** * Packet: the wire format of [ftpclient/srtp_common.h]

    A packet is a command byte, a 16-bit sequence number and a 16-bit
    payload length, both in network byte order, followed by the payload. *)
From S2P Require Import Prelude CLib.

Definition CMD_NONE : Z := 0.
Definition CMD_ACK : Z := 1.
Definition CMD_BADREQ : Z := 2.
Definition CMD_EXISTS : Z := 3.
Definition CMD_DATA : Z := 4.
Definition CMD_WRQ : Z := 5.
Definition CMD_FIN : Z := 6.
Definition CMD_FINACK : Z := 7.
Definition MAX_CMD_VALUE : Z := 7.

Definition command_strings : list (list Z) :=
  [[]; bytes_of_string "ACK"; bytes_of_string "BRQ"; bytes_of_string "FEX";
   bytes_of_string "DAT"; bytes_of_string "WRQ"; bytes_of_string "FIN";
   bytes_of_string "F+A"].

Definition PACKET_SIZE : Z := 2048.
Definition HEADER_SIZE : Z := 5.
Definition PAYLOAD_SIZE : Z := PACKET_SIZE - HEADER_SIZE.
Definition WINDOW_SIZE : Z := 50.
Definition ACK_TIMEOUT : Z := 2.

(** Linear arithmetic up to the sizes above. *)
Ltac size_lia :=
  unfold PAYLOAD_SIZE, PACKET_SIZE, HEADER_SIZE, WINDOW_SIZE, ACK_TIMEOUT in *; lia.

(** [buffer + HEADER_SIZE]. *)
Definition payload_of (buffer : list Z) : list Z := drop (Z.to_nat HEADER_SIZE) buffer.

Section codec.
Context `{Host}.

Definition GETLEN (buffer : list Z) : option Z := ntohs <$> load16 buffer 3.
Definition SETLEN (buffer : list Z) (len : Z) : option (list Z) :=
  store16 3 (htons (u16 len)) buffer.
Definition get_seq_num (buffer : list Z) : option Z := ntohs <$> load16 buffer 1.
Definition set_seq_num (buffer : list Z) (seq_num : Z) : option (list Z) :=
  store16 1 (htons (u16 seq_num)) buffer.

(** [memcpy(buf + off, src, n)]. *)
Definition memcpy (buf : list Z) (off : nat) (src : list Z) (n : Z) : option (list Z) :=
  if decide (Z.to_nat n ≤ length src ∧ off + Z.to_nat n ≤ length buf)%nat
  then Some (splice off (take (Z.to_nat n) src) buf) else None.

Lemma memcpy_length buf off src n buf' :
  memcpy buf off src n = Some buf' → length buf' = length buf.
Proof.
  unfold memcpy. destruct (decide _) as [[Hs Hb]|]; [|done]. intros [= <-].
  rewrite length_splice; [done|]. rewrite length_take. lia.
Qed.

(** [block] is what [malloc] returned for [payloadSize + HEADER_SIZE]
    bytes; [payload] is [None] for a null pointer. *)
Definition fill_packet (block : list Z) (command sequence payloadSize : Z)
    (payload : option (list Z)) : option (list Z) :=
  if decide (length block = O) then None else
  let buffer := <[O := u8 command]> block in
  buffer ← set_seq_num buffer (u16 sequence);
  buffer ← SETLEN buffer (u16 payloadSize);
  match payload with
  | Some p => memcpy buffer (Z.to_nat HEADER_SIZE) p (u16 payloadSize)
  | None => Some buffer
  end.

Definition command2str (command : Z) : list Z :=
  if MAX_CMD_VALUE <? u8 command then
    bytes_of_string "?" ++ dec 10 (u8 command) ++ bytes_of_string "?"
  else default [] (command_strings !! Z.to_nat (u8 command)).

(** ** The format *)

(** The packet with command [c], sequence number [s] and payload [pl]. *)
Definition pkt (c s : Z) (pl : list Z) : list Z :=
  [u8 c; u16 s / 256; u16 s mod 256;
   u16 (Z.of_nat (length pl)) / 256; u16 (Z.of_nat (length pl)) mod 256] ++ pl.

Lemma length_pkt c s pl : length (pkt c s pl) = (5 + length pl)%nat.
Proof. done. Qed.

(** The accessors only look at the first five bytes: they see a packet
    through anything that follows it in a receive buffer. *)
Lemma pkt_cmd c s pl rest : (pkt c s pl ++ rest) !! O = Some (u8 c).
Proof. done. Qed.

Lemma pkt_seq c s pl rest : get_seq_num (pkt c s pl ++ rest) = Some (u16 s).
Proof.
  unfold get_seq_num. erewrite ntohs_load16; [|done|done| |];
    unfold is_byte, u16; [f_equal|..]; lia.
Qed.

Lemma pkt_len c s pl rest :
  Z.of_nat (length pl) < 65536 →
  GETLEN (pkt c s pl ++ rest) = Some (Z.of_nat (length pl)).
Proof.
  intros Hl. unfold GETLEN. erewrite ntohs_load16; [|done|done| |];
    unfold is_byte, u16; [f_equal|..]; lia.
Qed.

Lemma memcpy_prefix b d :
  (length d ≤ length b)%nat → memcpy b 0 d (Z.of_nat (length d)) = Some (splice 0 d b).
Proof.
  intros Hd. unfold memcpy. rewrite decide_True by lia. by rewrite Nat2Z.id, take_ge.
Qed.

Lemma length_payload_of b :
  length b = Z.to_nat PACKET_SIZE → Z.of_nat (length (payload_of b)) = PAYLOAD_SIZE.
Proof. intros Hb. unfold payload_of. rewrite length_drop. size_lia. Qed.

Lemma pkt_payload c s pl rest :
  take (length pl) (payload_of (pkt c s pl ++ rest)) = pl.
Proof.
  change (payload_of (pkt c s pl ++ rest)) with (pl ++ rest). by rewrite take_app_length.
Qed.

Lemma ntohs_range v : 0 ≤ ntohs v < 65536.
Proof. unfold ntohs, htons, swap16, u16. destruct byte_order; lia. Qed.

(** Any three (five) bytes hold some sequence number (and length). *)
Lemma get_seq_num_Some b :
  (3 ≤ length b)%nat → ∃ s, get_seq_num b = Some s ∧ 0 ≤ s < 65536.
Proof.
  intros Hl. destruct b as [|b0 [|b1 [|b2 b]]]; cbn in Hl; try lia.
  eexists. split; [done|]. apply ntohs_range.
Qed.

Lemma GETLEN_Some b :
  (5 ≤ length b)%nat → ∃ n, GETLEN b = Some n ∧ 0 ≤ n < 65536.
Proof.
  intros Hl. destruct b as [|b0 [|b1 [|b2 [|b3 [|b4 b]]]]]; cbn in Hl; try lia.
  eexists. split; [done|]. apply ntohs_range.
Qed.

Lemma fill_packet_header block c s n :
  (5 ≤ length block)%nat → 0 ≤ n < 65536 →
  (buffer ← set_seq_num (<[O := u8 c]> block) (u16 s); SETLEN buffer (u16 n)) =
  Some ([u8 c; u16 s / 256; u16 s mod 256; n / 256; n mod 256] ++ drop 5 block).
Proof.
  intros Hl Hn.
  destruct block as [|b0 [|b1 [|b2 [|b3 [|b4 block]]]]]; cbn in Hl; try lia.
  unfold set_seq_num. rewrite store16_htons by (cbn; lia). cbn -[Z.div Z.modulo].
  unfold SETLEN. rewrite store16_htons by (cbn; lia). cbn -[Z.div Z.modulo].
  rewrite !(u16_id (u16 _)) by apply u16_range.
  rewrite !(u16_id n) by lia.
  by rewrite !drop_0.
Qed.

(** [create_packet] fills the block with the packet, whatever [malloc] left in the block
    and whatever follows the [payloadSize] bytes of the payload. *)
Lemma fill_packet_pkt block c s n p :
  length block = (5 + Z.to_nat n)%nat → 0 ≤ n < 65536 → (Z.to_nat n ≤ length p)%nat →
  fill_packet block c s n (Some p) = Some (pkt c s (take (Z.to_nat n) p)).
Proof.
  intros Hb Hn Hp. unfold fill_packet. rewrite decide_False by lia.
  pose proof (fill_packet_header block c s n ltac:(lia) Hn) as Hh.
  destruct (set_seq_num _ _) as [b1|]; cbn [mbind option_bind] in *; [|done].
  rewrite Hh. cbn [mbind option_bind]. unfold memcpy.
  rewrite u16_id by lia. rewrite decide_True.
  - assert (length (take (Z.to_nat n) p) = Z.to_nat n) as Hlt
      by (rewrite length_take; lia).
    unfold splice, pkt. rewrite Hlt.
    rewrite Z2Nat.id by lia. rewrite (u16_id n) by lia. f_equal.
    rewrite take_app_length' by done.
    rewrite (drop_ge (_ ++ _)) by (rewrite length_app, length_drop; cbn; size_lia).
    by rewrite app_nil_r.
  - rewrite length_app, length_drop. cbn. size_lia.
Qed.

Lemma fill_packet_empty block c s p :
  length block = 5%nat →
  fill_packet block c s 0 p = Some (pkt c s []).
Proof.
  intros Hb. destruct p as [p|].
  - rewrite fill_packet_pkt by (try done; cbn; lia). done.
  - unfold fill_packet. rewrite decide_False by lia.
    pose proof (fill_packet_header block c s 0 ltac:(lia) ltac:(lia)) as Hh.
    destruct (set_seq_num _ _) as [b1|]; cbn [mbind option_bind] in *; [|done].
    rewrite Hh. by rewrite drop_ge by lia.
Qed.
End codec.
