(* ===== verification/FtpWorld.v ===== *)
(** * FtpWorld: a file-transfer process and its operating system

    The operating system is a parameter: [env] answers the [k]-th call the
    process makes.  The process state is the number of calls made so far,
    [errno], the files of the working directory, and the trace of the
    effects other processes can see. *)
From S2P Require Import Prelude CMonad CLib Packet.

Record sockaddr_in : Type := mkAddr { sin_addr : Z; sin_port : Z }.

#[global] Instance sockaddr_in_eq_dec : EqDecision sockaddr_in.
Proof. solve_decision. Defined.

Definition EAGAIN : Z := 11.
Definition EWOULDBLOCK : Z := 11.
Definition ENOENT : Z := 2.
Definition ENOMEM : Z := 12.
Definition ECHILD : Z := 10.
Definition SIGINT : Z := 2.
Definition SIGCHLD : Z := 17.

(** The result of [recvfrom]: an error code, or a datagram and its source. *)
Inductive recv_result : Type :=
| RecvErr (e : Z)
| RecvFrom (d : list Z) (src : sockaddr_in).

(** [waitpid(-1, &status, WNOHANG)]. *)
Inductive wait_status : Type := Signaled (sig : Z) | Exited (code : Z) | OtherStatus.

Record env : Type := mkEnv {
  e_time : nat → Z;                (** [time(NULL)] *)
  e_recv : nat → recv_result;      (** [recvfrom] *)
  e_send : nat → option Z;         (** [sendto]: [Some e] fails with [errno = e] *)
  e_oom : nat → bool;              (** [malloc] fails *)
  e_junk : nat → nat → Z;          (** what [malloc] leaves in a block *)
  e_slack : nat → nat;             (** usable bytes after a block *)
  e_fopen : nat → option Z;        (** [fopen(_, "w")] fails *)
  e_fwrite : nat → Z;              (** how many bytes [fwrite] accepts *)
  e_socket : nat → Z;              (** [socket]: a descriptor or -1 *)
  e_bind : nat → Z;                (** [bind]: 0 or -1 *)
  e_fork : nat → Z;                (** [fork]: -1, 0 or a process id *)
  e_wait : nat → Z * wait_status;  (** [waitpid] *)
  e_errno : nat → Z;               (** the error code of the calls above *)
}.

(** What the rest of the system sees of the process. *)
Inductive event : Type :=
| EvSend (dst : sockaddr_in) (d : list Z)
| EvBind (port : Z)
| EvKill (pid sig : Z)
| EvClose (fd : Z).

(** What a process does to the directory: create or truncate a file, append
    to it, remove it. *)
Inductive fevent : Type :=
| FOpen (name : list Z)
| FWrite (name d : list Z)
| FUnlink (name : list Z).

Definition fname (e : fevent) : list Z :=
  match e with FOpen n | FWrite n _ | FUnlink n => n end.

(** The directory after it.  A write goes to a file that is still linked. *)
Definition file_op (e : fevent) (f : gmap (list Z) (list Z)) : gmap (list Z) (list Z) :=
  match e with
  | FOpen n => <[n := []]> f
  | FWrite n d => alter (λ c, c ++ d) n f
  | FUnlink n => delete n f
  end.

Record world : Type := mkWorld {
  tick : nat;
  errno : Z;
  trace : list event;                 (** newest first *)
  fs : gmap (list Z) (list Z);        (** file name to contents *)
  flog : list fevent;                 (** what was done to the files, newest first *)
  slog : list (nat * list Z);         (** what was sent at which call, newest first *)
}.

Definition set_tick (n : nat) (w : world) : world :=
  mkWorld n (errno w) (trace w) (fs w) (flog w) (slog w).
Definition set_errno (e : Z) (w : world) : world :=
  mkWorld (tick w) e (trace w) (fs w) (flog w) (slog w).
Definition touch (e : fevent) (w : world) : world :=
  mkWorld (tick w) (errno w) (trace w) (file_op e (fs w)) (e :: flog w) (slog w).
Definition emit (ev : event) (w : world) : world :=
  mkWorld (tick w) (errno w) (ev :: trace w) (fs w) (flog w) (slog w).
Definition stamp_send (k : nat) (d : list Z) (w : world) : world :=
  mkWorld (tick w) (errno w) (trace w) (fs w) (flog w) ((k, d) :: slog w).

Abbreviation P := (M world).

Section syscalls.
Context (E : env).

(** The number of this call, i.e. the answer of the system to use. *)
Definition call : P nat := λ w, (Ok (tick w), set_tick (S (tick w)) w).

Definition fail_with (e : Z) : P Z := _ ← modify (set_errno e); mret (-1).

Definition time : P Z := k ← call; mret (e_time E k).
Definition sleep : P unit := _ ← call; mret tt.

(** The block and the usable bytes the allocator added to it. *)
Definition malloc (n : Z) : P (option (list Z * nat)) :=
  k ← call;
  if e_oom E k then _ ← fail_with ENOMEM; mret None
  else mret (Some (u8 <$> (e_junk E k <$> seq 0 (Z.to_nat n)), e_slack E k)).

Definition sendto (dst : sockaddr_in) (d : list Z) : P Z :=
  k ← call;
  match e_send E k with
  | Some e => fail_with e
  | None =>
      _ ← modify (stamp_send k d);
      _ ← modify (emit (EvSend dst d));
      mret (Z.of_nat (length d))
  end.

(** [recvfrom] into a buffer of [n] bytes: what it returns, the bytes it
    stores at the start of the buffer, and the source address. *)
Definition recvfrom (n : Z) : P (Z * list Z * option sockaddr_in) :=
  k ← call;
  match e_recv E k with
  | RecvErr e => r ← fail_with e; mret (r, [], None)
  | RecvFrom d src =>
      let d := take (Z.to_nat n) d in mret (Z.of_nat (length d), d, Some src)
  end.

(** [access(name, F_OK)]. *)
Definition access (name : list Z) : P Z :=
  _ ← call;
  f ← gets fs;
  if decide (is_Some (f !! name)) then mret 0 else fail_with ENOENT.

(** [fopen(name, "w")]: creates the file or truncates it. *)
Definition fopen_w (name : list Z) : P bool :=
  k ← call;
  match e_fopen E k with
  | Some e => _ ← fail_with e; mret false
  | None => _ ← modify (touch (FOpen name)); mret true
  end.

(** [fwrite(d, 1, length d, file)] on the file opened under [name]: the
    bytes accepted are appended to it, as long as it is linked. *)
Definition fwrite (name d : list Z) : P Z :=
  k ← call;
  let n := Z.min (Z.of_nat (length d)) (Z.max 0 (e_fwrite E k)) in
  _ ← modify (touch (FWrite name (take (Z.to_nat n) d)));
  mret n.

Definition unlink (name : list Z) : P unit :=
  _ ← call;
  modify (touch (FUnlink name)).

Definition socket : P Z :=
  k ← call;
  if e_socket E k =? -1 then fail_with (e_errno E k) else mret (e_socket E k).

Definition bind (port : Z) : P Z :=
  k ← call;
  if e_bind E k =? -1 then fail_with (e_errno E k)
  else _ ← modify (emit (EvBind port)); mret 0.

Definition fork : P Z :=
  k ← call;
  if e_fork E k =? -1 then fail_with (e_errno E k) else mret (e_fork E k).

Definition kill (pid sig : Z) : P unit := _ ← call; modify (emit (EvKill pid sig)).
Definition close (fd : Z) : P unit := _ ← call; modify (emit (EvClose fd)).

Definition waitpid : P (Z * wait_status) :=
  k ← call;
  if (e_wait E k).1 =? -1 then _ ← fail_with (e_errno E k); mret (e_wait E k)
  else mret (e_wait E k).

(** [long] addition, undefined when it overflows. *)
Definition add_long (a b : Z) : P Z :=
  if (LONG_MIN <=? a + b) && (a + b <=? LONG_MAX) then mret (a + b)
  else crash SignedOverflow.

(** ** Specifications

    In continuation style: what the rest of the program may assume. *)
Implicit Types (X : stop → world → Prop) (w : world).

(** The process moved on without sending or touching files. *)
Definition quiet w w' : Prop :=
  (tick w < tick w')%nat ∧ trace w' = trace w ∧ fs w' = fs w.

Lemma quiet_trans w1 w2 w3 : quiet w1 w2 → quiet w2 w3 → quiet w1 w3.
Proof. unfold quiet. intros (?&->&->) (?&->&->). split_and!; [lia|done..]. Qed.

(** A call is counted, and so is a look at the clock. *)
Lemma wp_call_tick Q X w : Q (tick w) (set_tick (S (tick w)) w) → wp call Q X w.
Proof. done. Qed.

Lemma wp_time_tick Q X w : Q (e_time E (tick w)) (set_tick (S (tick w)) w) → wp time Q X w.
Proof. done. Qed.

Lemma wp_time Q X w :
  (∀ w', quiet w w' → Q (e_time E (tick w)) w') → wp time Q X w.
Proof. intros HQ. apply HQ. split_and!; cbn; [lia|done..]. Qed.

Lemma wp_sleep Q X w : (∀ w', quiet w w' → Q tt w') → wp sleep Q X w.
Proof. intros HQ. apply HQ. split_and!; cbn; [lia|done..]. Qed.

Lemma wp_malloc_cases n Q X w :
  (∀ w', e_oom E (tick w) = true → quiet w w' → errno w' = ENOMEM → Q None w') →
  (∀ w' b k, quiet w w' → length b = Z.to_nat n → Q (Some (b, k)) w') →
  wp (malloc n) Q X w.
Proof.
  intros H1 H2. unfold malloc. apply wp_bind. cbn.
  destruct (e_oom E (tick w)) eqn:Ho.
  - apply H1; [done| |done]. split_and!; cbn; [lia|done..].
  - apply H2; [split_and!; cbn; [lia|done..]|].
    by rewrite !length_fmap, length_seq.
Qed.

Lemma wp_malloc_slack n Q X w :
  (∀ w', quiet w w' → e_oom E (tick w) = true → Q None w') →
  (∀ w' b, quiet w w' → length b = Z.to_nat n → Q (Some (b, e_slack E (tick w))) w') →
  wp (malloc n) Q X w.
Proof.
  intros H1 H2. unfold malloc. apply wp_bind. cbn. destruct (e_oom E (tick w)).
  - apply H1; [|done]. split_and!; cbn; [lia|done..].
  - apply H2; [split_and!; cbn; [lia|done..]|]. by rewrite !length_fmap, length_seq.
Qed.

Lemma wp_malloc n Q X w :
  (∀ w', quiet w w' → errno w' = ENOMEM → Q None w') →
  (∀ w' b k, quiet w w' → length b = Z.to_nat n → Q (Some (b, k)) w') →
  wp (malloc n) Q X w.
Proof. intros H1 H2. apply wp_malloc_cases; auto. Qed.

Lemma wp_malloc_ok n Q X w :
  e_oom E (tick w) = false →
  (∀ w' b k, quiet w w' → length b = Z.to_nat n → Q (Some (b, k)) w') →
  wp (malloc n) Q X w.
Proof. intros Ho HQ. apply wp_malloc_cases; [congruence|done]. Qed.

Lemma wp_call Q X w : (∀ w', quiet w w' → Q (tick w) w') → wp call Q X w.
Proof. intros HQ. apply HQ. split_and!; cbn; [lia|done..]. Qed.

Lemma wp_fork Q X w :
  (∀ w' k, quiet w w' → Q (e_fork E k) w') → wp fork Q X w.
Proof.
  intros HQ. unfold fork. apply wp_bind. cbn. destruct (_ =? _) eqn:He.
  - bool_to_prop. apply wp_bind. cbn. unfold wp. cbn. rewrite <- He. apply HQ.
    split_and!; cbn; [lia|done..].
  - apply HQ. split_and!; cbn; [lia|done..].
Qed.

Lemma wp_waitpid Q X w : (∀ w' r, quiet w w' → Q r w') → wp waitpid Q X w.
Proof.
  intros HQ. unfold waitpid. apply wp_bind. cbn. destruct (_ =? _).
  - apply wp_bind. cbn. apply HQ. split_and!; cbn; [lia|done..].
  - apply HQ. split_and!; cbn; [lia|done..].
Qed.

Lemma wp_kill pid sig Q X w :
  (∀ w', (tick w < tick w')%nat → fs w' = fs w → trace w' = EvKill pid sig :: trace w →
    Q tt w') → wp (kill pid sig) Q X w.
Proof. intros HQ. apply HQ; cbn; [lia|done..]. Qed.

Lemma wp_sendto dst d Q X w :
  (∀ w', quiet w w' → e_send E (tick w) ≠ None → Q (-1) w') →
  (∀ w', (tick w < tick w')%nat → trace w' = EvSend dst d :: trace w → fs w' = fs w →
    Q (Z.of_nat (length d)) w') →
  wp (sendto dst d) Q X w.
Proof.
  intros H1 H2. unfold sendto. apply wp_bind. cbn. destruct (e_send E (tick w)) eqn:Es.
  - apply H1; [|done]. split_and!; cbn; [lia|done..].
  - apply H2; cbn; [lia|done..].
Qed.

Lemma wp_recvfrom n Q X w :
  (∀ w' e, e_recv E (tick w) = RecvErr e → quiet w w' → errno w' = e →
    Q (-1, [], None) w') →
  (∀ w' d src, e_recv E (tick w) = RecvFrom d src → quiet w w' →
    Q (Z.of_nat (length (take (Z.to_nat n) d)), take (Z.to_nat n) d, Some src) w') →
  wp (recvfrom n) Q X w.
Proof.
  intros H1 H2. unfold recvfrom. apply wp_bind. cbn.
  destruct (e_recv E (tick w)) eqn:Er.
  - eapply H1; [done| |done]. split_and!; cbn; [lia|done..].
  - eapply H2; [done|]. split_and!; cbn; [lia|done..].
Qed.

(** The process moved on and emitted events satisfying [K], without touching
    files. *)
Definition chatter (K : event → Prop) w w' : Prop :=
  (tick w < tick w')%nat ∧ fs w' = fs w ∧
  ∃ new, trace w' = new ++ trace w ∧ Forall K new.

Lemma quiet_chatter K w w' : quiet w w' → chatter K w w'.
Proof. intros (?&?&?). split_and!; [done..|]. by exists []. Qed.

Lemma chatter_mono (K K' : event → Prop) w w' :
  (∀ ev, K ev → K' ev) → chatter K w w' → chatter K' w w'.
Proof.
  intros HK (?&?&new&?&Hnew). split_and!; [done..|]. exists new.
  split; [done|]. eapply Forall_impl; eauto.
Qed.

Lemma chatter_trans K w1 w2 w3 : chatter K w1 w2 → chatter K w2 w3 → chatter K w1 w3.
Proof.
  intros (?&?&n1&E1&?) (?&?&n2&E2&?). split_and!; [lia|congruence|].
  exists (n2 ++ n1). rewrite E2, E1, app_assoc. split; [done|]. by apply Forall_app.
Qed.

Lemma chatter_emit (K : event → Prop) ev w w' :
  (tick w < tick w')%nat → fs w' = fs w → trace w' = ev :: trace w → K ev → chatter K w w'.
Proof. intros ? ? ? ?. split_and!; [done..|]. exists [ev]. split; [done|by constructor]. Qed.

(** Only the files changed. *)
Definition touched (f : gmap (list Z) (list Z)) w w' : Prop :=
  (tick w < tick w')%nat ∧ trace w' = trace w ∧ fs w' = f.

Lemma wp_unlink name Q X w :
  (∀ w', touched (delete name (fs w)) w w' → Q tt w') → wp (unlink name) Q X w.
Proof. intros HQ. apply HQ. split_and!; cbn; [lia|done..]. Qed.

Lemma wp_fwrite name d Q X w :
  (∀ w' n, 0 ≤ n ≤ Z.of_nat (length d) →
    touched (alter (λ c, c ++ take (Z.to_nat n) d) name (fs w)) w w' → Q n w') →
  wp (fwrite name d) Q X w.
Proof. intros HQ. apply HQ; [lia|]. split_and!; cbn; [lia|done..]. Qed.

Lemma wp_fopen_w name Q X w :
  (∀ w', quiet w w' → Q false w') →
  (∀ w', touched (<[name := []]> (fs w)) w w' → Q true w') →
  wp (fopen_w name) Q X w.
Proof.
  intros H1 H2. unfold fopen_w. apply wp_bind. cbn. destruct (e_fopen E (tick w)).
  - apply H1. split_and!; cbn; [lia|done..].
  - apply H2. split_and!; cbn; [lia|done..].
Qed.

Lemma wp_access name Q X w :
  (∀ w', quiet w w' → is_Some (fs w !! name) → Q 0 w') →
  (∀ w', quiet w w' → fs w !! name = None → errno w' = ENOENT → Q (-1) w') →
  wp (access name) Q X w.
Proof.
  intros H1 H2. unfold access. do 2 (apply wp_bind; cbn).
  destruct (decide _) as [Hd|Hd].
  - apply H1; [|done]. split_and!; cbn; [lia|done..].
  - apply H2; [|by apply eq_None_not_Some|done]. split_and!; cbn; [lia|done..].
Qed.

Lemma wp_close fd Q X w :
  (∀ w', (tick w < tick w')%nat → fs w' = fs w → trace w' = EvClose fd :: trace w → Q tt w') →
  wp (close fd) Q X w.
Proof. intros HQ. apply HQ; cbn; [lia|done..]. Qed.

Lemma wp_socket Q X w : (∀ w' r, quiet w w' → Q r w') → wp socket Q X w.
Proof.
  intros HQ. unfold socket. apply wp_bind. cbn.
  destruct (_ =? _); apply HQ; split_and!; cbn; (lia || done).
Qed.

Lemma wp_bind_port p Q X w :
  (∀ w', quiet w w' → Q (-1) w') →
  (∀ w', chatter (λ ev, ev = EvBind p) w w' → Q 0 w') →
  wp (bind p) Q X w.
Proof.
  intros H1 H2. unfold bind. apply CMonad.wp_bind. cbn. destruct (_ =? _).
  - apply H1. split_and!; cbn; [lia|done..].
  - apply H2. eapply chatter_emit; cbn; [lia|done..].
Qed.

Lemma wp_add_long_cases a b Q X w :
  (LONG_MIN ≤ a + b ≤ LONG_MAX → Q (a + b) w) →
  (¬ LONG_MIN ≤ a + b ≤ LONG_MAX → X (SCrash SignedOverflow) w) → wp (add_long a b) Q X w.
Proof.
  intros H1 H2. unfold add_long. wp_step; wp_step; [bool_to_prop; by apply H1|].
  apply H2. intros [? ?]. apply andb_false_iff in Heqb0 as [?|?]; bool_to_prop; lia.
Qed.

Lemma wp_add_long a b Q X w :
  (LONG_MIN ≤ a + b ≤ LONG_MAX → Q (a + b) w) →
  X (SCrash SignedOverflow) w → wp (add_long a b) Q X w.
Proof. intros H1 H2. by apply wp_add_long_cases. Qed.

(** ** Time passes

    Calls take time: the clock outgrows any bound as the process goes on. *)
Definition clock_diverges : Prop := ∀ T, ∃ n, ∀ k, (n ≤ k)%nat → T ≤ e_time E k.

(** Before a deadline, only finitely many calls are made. *)
Lemma before_deadline n T k :
  (∀ k, (n ≤ k)%nat → T ≤ e_time E k) → e_time E k < T → (k < n)%nat.
Proof.
  intros Hn Hk. destruct (decide (k < n)%nat) as [|Hge]; [done|].
  specialize (Hn k ltac:(lia)). lia.
Qed.
End syscalls.
