(* ===== verification/NetOps.v ===== *)
(** * NetOps: the socket helpers of [ftpclient/srtp_common.h]

    Debug output ([d], [print_packet]) is not part of the state: it writes to
    [stderr] only.  The packet-loss simulation ([PL_DENOMINATOR]) is compiled
    in by neither Makefile. *)
From S2P Require Import Prelude CMonad CLib Packet Queue FtpWorld.

(** [struct EndPoint]: both members of the union are the same address. *)
Record EndPoint : Type := mkEndPoint { addr : sockaddr_in }.

Section net.
Context `{Host} (E : env).

(** [malloc] is not checked. *)
Definition create_packet (command sequence payloadSize : Z)
    (payload : option (list Z)) : P (list Z) :=
  b ← malloc E (u16 payloadSize + HEADER_SIZE);
  b ← defined NullDeref b;
  defined OutOfBounds
    (fill_packet b.1 command (u16 sequence) (u16 payloadSize) payload).

Definition setup_socket (port : Z) : P (Z * Z) :=
  sock ← socket E;
  if sock =? -1 then mret (1, sock)
  else
    r ← bind E (htons port);
    if r =? -1 then mret (1, sock) else mret (0, sock).

(** [sendto(...) != packetSize]: the result of [sendto] is converted to
    [size_t]. *)
Definition send_packet (target : EndPoint) (packet : list Z) : P Z :=
  len ← defined OutOfBounds (GETLEN packet);
  let packetSize := HEADER_SIZE + len in
  if Z.of_nat (length packet) <? packetSize then crash OutOfBounds
  else
    r ← sendto E (addr target) (take (Z.to_nat packetSize) packet);
    mret (if u64 r =? packetSize then 0 else 1).

Fixpoint send_each (target : EndPoint) (packets : list (list Z)) : P Z :=
  match packets with
  | [] => mret 0
  | p :: ps =>
      r ← send_packet target p;
      if r =? 0 then send_each target ps else mret 1
  end.

Definition send_all `{QueueOps Q (list Z)} (target : EndPoint) (packets : Q) : P Z :=
  e ← on_queue packets q_is_empty;
  if e.1 : bool then mret 0
  else
    ps ← on_queue packets q_walk;
    send_each target ps.1.

(** The test of the sender's address is switched off ([1 || ...]): every
    datagram is copied, and so is the block when there is none. *)
Definition read_only_from (buffer : list Z) (packetSize : Z) : P (Z * list Z) :=
  temp ← malloc E packetSize;
  match temp with
  | None => mret (-1, buffer)
  | Some (temp, _) =>
      r ← recvfrom E packetSize;
      let '(read, d, _) := r in
      buffer' ← defined OutOfBounds (memcpy buffer 0 (splice 0 d temp) packetSize);
      mret (read, buffer')
  end.

(** [while (time(NULL) - startTime < 6)]; the size passed on is
    [PACKET_SIZE] whatever the argument. *)
Definition read_until_timeout (fuel : nat) (buffer : list Z) : P (Z * list Z) :=
  startTime ← time E;
  loop fuel (λ buffer,
    t ← time E;
    if t - startTime <? 6 then
      r ← read_only_from buffer PACKET_SIZE;
      let '(read, buffer) := r in
      if 0 <? read then mret (inr (read, buffer))
      else _ ← sleep; mret (inl buffer)
    else mret (inr (-1, buffer))) buffer.

(** ** Specifications *)
Implicit Types (X : stop → world → Prop) (w : world).

(** [create_packet] either fails for want of memory or builds the packet. *)
Lemma wp_create_packet c s n p Q X w :
  0 ≤ n < 65536 → (Z.to_nat n ≤ length p)%nat →
  (∀ w', quiet w w' → e_oom E (tick w) = true → X (SCrash NullDeref) w') →
  (∀ w', quiet w w' → Q (pkt c s (take (Z.to_nat n) p)) w') →
  wp (create_packet c s n (Some p)) Q X w.
Proof.
  intros Hn Hp HX HQ. unfold create_packet. rewrite !(u16_id n) by lia.
  wp_step. apply wp_malloc_cases.
  - intros w' Ho Hw _. wp_step. apply wp_defined; [done|]. eauto.
  - intros w' b k Hw Hb. wp_step. apply wp_defined; [|done]. intros a [= <-].
    apply wp_defined; cbn [fst]; rewrite fill_packet_pkt by (try done; size_lia); [|done].
    intros a [= <-].
    assert (pkt c (u16 s) (take (Z.to_nat n) p) = pkt c s (take (Z.to_nat n) p)) as ->
      by (unfold pkt; by rewrite !(u16_id (u16 s)) by apply u16_range).
    eauto.
Qed.

Lemma wp_create_packet_empty c s p Q X w :
  (∀ w', quiet w w' → e_oom E (tick w) = true → X (SCrash NullDeref) w') →
  (∀ w', quiet w w' → Q (pkt c s []) w') →
  wp (create_packet c s 0 p) Q X w.
Proof.
  intros HX HQ. unfold create_packet. rewrite !(u16_id 0) by lia.
  wp_step. apply wp_malloc_cases.
  - intros w' Ho Hw _. wp_step. apply wp_defined; [done|]. eauto.
  - intros w' b k Hw Hb. wp_step. apply wp_defined; [|done]. intros a [= <-].
    apply wp_defined; cbn [fst]; rewrite fill_packet_empty by (rewrite Hb; done); [|done].
    intros a [= <-].
    assert (pkt c (u16 s) [] = pkt c s []) as ->
      by (unfold pkt; by rewrite !(u16_id (u16 s)) by apply u16_range).
    eauto.
Qed.

(** A packet is sent whole, or not at all. *)
Lemma wp_send_packet target c s pl Q X w :
  Z.of_nat (length pl) < 65536 →
  (∀ w', quiet w w' → e_send E (tick w) ≠ None → Q 1 w') →
  (∀ w', (tick w < tick w')%nat → fs w' = fs w →
    trace w' = EvSend (addr target) (pkt c s pl) :: trace w → Q 0 w') →
  wp (send_packet target (pkt c s pl)) Q X w.
Proof.
  intros Hl H1 H2. unfold send_packet. wp_step.
  pose proof (pkt_len c s pl [] Hl) as HL. rewrite app_nil_r in HL. rewrite HL.
  apply wp_defined; [|done]. intros a [= <-].
  wp_step; bool_to_prop; [rewrite length_pkt in *; size_lia|].
  rewrite take_ge by (rewrite length_pkt; size_lia).
  wp_step. apply wp_sendto.
  - intros w' Hw Hsend. wp_step.
    assert ((u64 (-1) =? HEADER_SIZE + Z.of_nat (length pl)) = false) as ->
      by (apply Z.eqb_neq; unfold u64; size_lia). eauto.
  - intros w' Ht Htr Hfs. wp_step. rewrite length_pkt.
    assert ((u64 (Z.of_nat (5 + length pl)) =? HEADER_SIZE + Z.of_nat (length pl)) = true)
      as -> by (apply Z.eqb_eq; unfold u64; size_lia). eauto.
Qed.

(** A packet that was not sent was refused by the system. *)
Lemma wp_send_packet_why (K : event → Prop) target c s pl Q X w :
  Z.of_nat (length pl) < 65536 → K (EvSend (addr target) (pkt c s pl)) →
  (∀ w' r, chatter K w w' → (r ≠ 0 → ∃ k, e_send E k ≠ None) → Q r w') →
  wp (send_packet target (pkt c s pl)) Q X w.
Proof.
  intros Hl HK HQ. apply wp_send_packet; [done|..].
  - intros w' Hw Hs. apply HQ; [by apply quiet_chatter|]. intros _. by exists (tick w).
  - intros w' ? ? ?. apply HQ; [by eapply chatter_emit|done].
Qed.

(** ... which is what the callers that ignore the result do not need. *)
Lemma wp_send_packet_chatter (K : event → Prop) target c s pl Q X w :
  Z.of_nat (length pl) < 65536 → K (EvSend (addr target) (pkt c s pl)) →
  (∀ w' r, chatter K w w' → Q r w') →
  wp (send_packet target (pkt c s pl)) Q X w.
Proof. intros Hl HK HQ. apply (wp_send_packet_why K); auto. Qed.

(** What [read_only_from] leaves in a receive buffer. *)
Definition received k (buffer : list Z) (read : Z) : Prop :=
  length buffer = Z.to_nat PACKET_SIZE ∧
  match e_recv E k with
  | RecvErr _ => read = -1
  | RecvFrom d _ =>
      read = Z.of_nat (length (take (Z.to_nat PACKET_SIZE) d)) ∧
      ∃ rest, buffer = take (Z.to_nat PACKET_SIZE) d ++ rest
  end.

Lemma memcpy_whole (buffer src : list Z) n :
  length buffer = Z.to_nat n → length src = Z.to_nat n → memcpy buffer 0 src n = Some src.
Proof.
  intros Hb Hs. unfold memcpy. rewrite decide_True by lia. rewrite take_ge by lia.
  unfold splice. rewrite take_0, drop_ge by lia. by rewrite app_nil_r.
Qed.

Lemma wp_read_only_from_cases buffer Q X w :
  length buffer = Z.to_nat PACKET_SIZE →
  (∀ w', e_oom E (tick w) = true → quiet w w' → errno w' = ENOMEM → Q (-1, buffer) w') →
  (∀ w' k read buffer', quiet w w' → (tick w ≤ k < tick w')%nat →
    received k buffer' read →
    (∀ e, e_recv E k = RecvErr e → errno w' = e) → Q (read, buffer') w') →
  wp (read_only_from buffer PACKET_SIZE) Q X w.
Proof.
  intros Hb H1 H2. unfold read_only_from. wp_step. apply wp_malloc_cases.
  { intros w' Ho Hw He. wp_step. by apply H1. }
  intros w1 temp slack Hw1 Ht. wp_step. apply wp_recvfrom.
  - intros w' e Er Hw He. rewrite memcpy_whole by (rewrite ?length_splice; cbn; lia).
    do 3 wp_step. apply (H2 w' (tick w1)).
    + by eapply quiet_trans.
    + destruct Hw1, Hw. lia.
    + split; [rewrite length_splice; cbn; lia|]. by rewrite Er.
    + rewrite Er. intros ? [= <-]. done.
  - intros w' d src Er Hw.
    assert (length (take (Z.to_nat PACKET_SIZE) d) ≤ Z.to_nat PACKET_SIZE)%nat
      by (rewrite length_take; lia).
    rewrite memcpy_whole by (rewrite ?length_splice; lia).
    do 3 wp_step. apply (H2 w' (tick w1)).
    + by eapply quiet_trans.
    + destruct Hw1, Hw. lia.
    + split; [rewrite length_splice; lia|]. rewrite Er. split; [done|]. by eexists.
    + by rewrite Er.
Qed.

Lemma wp_read_only_from buffer Q X w :
  length buffer = Z.to_nat PACKET_SIZE →
  (∀ w', quiet w w' → errno w' = ENOMEM → Q (-1, buffer) w') →
  (∀ w' k read buffer', quiet w w' → (tick w ≤ k < tick w')%nat →
    received k buffer' read →
    (∀ e, e_recv E k = RecvErr e → errno w' = e) → Q (read, buffer') w') →
  wp (read_only_from buffer PACKET_SIZE) Q X w.
Proof. intros Hb H1 H2. apply wp_read_only_from_cases; auto. Qed.

(** [read_until_timeout] returns a non-empty datagram, or -1. *)
Lemma wp_read_until_timeout fuel buffer Q X w :
  length buffer = Z.to_nat PACKET_SIZE →
  (∀ w', quiet w w' → X SFuel w') →
  (∀ w' buffer', quiet w w' → length buffer' = Z.to_nat PACKET_SIZE →
    Q (-1, buffer') w') →
  (∀ w' k read buffer', quiet w w' → (tick w ≤ k < tick w')%nat →
    received k buffer' read → 0 < read → Q (read, buffer') w') →
  wp (read_until_timeout fuel buffer) Q X w.
Proof.
  intros Hb HX H1 H2. unfold read_until_timeout. wp_step. apply wp_time.
  intros w1 Hw1.
  apply (wp_loop (λ b w2, length b = Z.to_nat PACKET_SIZE ∧ quiet w w2)); [done| |].
  { intros b w2 [_ Hw2]. auto. }
  intros b w2 [Hl Hw2]. wp_step. apply wp_time. intros w3 Hw3.
  assert (quiet w w3) as Hq3 by by eapply quiet_trans.
  wp_step; [|wp_step; by apply H1].
  wp_step. apply wp_read_only_from; [done|..].
  - intros w4 Hw4 _. assert (quiet w w4) by by eapply quiet_trans.
    wp_step; [bool_to_prop; lia|]. wp_step. apply wp_sleep. intros w5 Hw5. wp_step.
    split; [done|by eapply quiet_trans].
  - intros w4 k read b' Hw4 Hk Hr _. assert (quiet w w4) by by eapply quiet_trans.
    wp_step; bool_to_prop.
    + wp_step. apply (H2 w4 k); [done| |done|done]. destruct Hq3, Hw2; lia.
    + wp_step. apply wp_sleep. intros w5 Hw5. wp_step.
      split; [by destruct Hr|by eapply quiet_trans].
Qed.
End net.
