(* ===== verification/FtpServer.v ===== *)
(** * FtpServer: the server of [ftpclient/ftpserver.c] *)
From S2P Require Import Prelude CMonad CLib Packet Queue FtpWorld NetOps.

Module Server.

Definition BAD_ARGS : Z := 1.
Definition BAD_PORT : Z := 2.
Definition RUNTIME_ERROR : Z := 3.
Definition BAD_REQUEST : Z := 4.
Definition FILE_EXISTS : Z := 5.
Definition CANNOT_CREATE : Z := 6.
Definition BAD_SIZE : Z := 7.
Definition TIMEOUT : Z := 8.

Section server.
Context `{Host} (E : env) (fuel : nat).

(** The replies that turn a request down. *)
Definition deny (origin : EndPoint) (cmd code : Z) : P Z :=
  packet ← create_packet E cmd 0 0 None;
  r ← send_packet E origin packet;
  if r =? 0 then mret code else exit RUNTIME_ERROR.

(** The heap copy of the file name: [payload] is the request up to the
    separator, [slash] the index of the last slash.  With a slash, [strncpy]
    is given one byte more than the block was asked for, and pads it. *)
Definition copy_name (payload : list Z) (slash : option nat) : P (list Z) :=
  match slash with
  | None =>
      name ← defined OutOfBounds (cstr payload);
      b ← malloc E (Z.of_nat (length name) + 1);
      _ ← defined NullDeref b;
      mret name
  | Some i =>
      name ← defined OutOfBounds (cstr (drop (S i) payload));
      b ← malloc E (Z.of_nat (length name) + 1);
      b ← defined NullDeref b;
      let n := Z.of_nat (length name) + 2 in
      if Z.of_nat (length b.1 + b.2) <? n then crash HeapOverflow else mret name
  end.

(** [do ... while] around the acknowledgement of the request; [size_read]
    is never assigned, so that the loop is left to [errno] and the clock. *)
Definition ack_request (origin : EndPoint) (filename packet : list Z) (startTime : Z) : P unit :=
  loop fuel (λ _ : unit,
    r ← send_packet E origin packet;
    if r =? 0 then
      _ ← sleep;
      e ← gets errno;
      if (e =? EAGAIN) || (e =? EWOULDBLOCK) then
        t ← time E;
        mret (if t - startTime <? 6 then inl tt else inr tt)
      else mret (inr tt)
    else _ ← unlink filename; exit RUNTIME_ERROR) tt.

(** The locals of the transfer loop. *)
Record locals : Type := mkLocals {
  buffer : list Z;
  read : Z;
  expected_sequence : Z;
}.

Definition on_data (origin : EndPoint) (filename : list Z) (filesize : Z) (l : locals) :
    P (locals + Z) :=
  s ← defined OutOfBounds (get_seq_num (buffer l));
  if negb (s =? expected_sequence l) then
    packet ← create_packet E CMD_ACK (expected_sequence l) 0 None;
    _ ← send_packet E origin packet;
    mret (inl l)
  else
    let expected := u16 (expected_sequence l + 1) in
    packet ← create_packet E CMD_ACK expected 0 None;
    _ ← send_packet E origin packet;
    actual ← defined OutOfBounds (GETLEN (buffer l));
    read ← add_long (read l) actual;
    let payload := payload_of (buffer l) in
    if Z.of_nat (length payload) <? actual then crash OutOfBounds
    else
      written ← fwrite E filename (take (Z.to_nat actual) payload);
      if negb (written =? actual) then mret (inr RUNTIME_ERROR)
      else if filesize <? read then _ ← unlink filename; exit BAD_REQUEST
      else mret (inl (mkLocals (buffer l) read expected)).

(** The result of [read_only_from] is stored in a [size_t], so that a
    failed read counts as received. *)
Definition finish (origin : EndPoint) (buffer0 : list Z) : P unit :=
  t ← time E;
  packet ← create_packet E CMD_FINACK 0 0 None;
  loop fuel (λ buffer,
    now ← time E;
    if now - t <? ACK_TIMEOUT then
      _ ← send_packet E origin packet;
      _ ← sleep;
      r ← read_only_from E buffer PACKET_SIZE;
      let '(r, buffer) := r in
      c ← defined OutOfBounds (buffer !! O);
      if (0 <? u64 r) && (c =? CMD_ACK) then mret (inr tt) else mret (inl buffer)
    else mret (inr tt)) buffer0.

Definition transfer_step (sock : Z) (origin : EndPoint) (filename : list Z) (filesize : Z)
    (l : locals) : P (locals + Z) :=
  r ← read_until_timeout E fuel (buffer l);
  let '(actual, buf) := r in
  if actual =? -1 then _ ← unlink filename; exit TIMEOUT
  else
    let l := mkLocals buf (read l) (expected_sequence l) in
    c ← defined OutOfBounds (buf !! O);
    if c =? CMD_DATA then on_data origin filename filesize l
    else if c =? CMD_FIN then
      if negb (read l =? filesize) then _ ← unlink filename; exit BAD_REQUEST
      else
        _ ← finish origin buf;
        _ ← close sock;
        mret (inr 0)
    else mret (inl l).

Definition transfer (sock : Z) (origin : EndPoint) (filename : list Z) (filesize : Z)
    (buf : list Z) : P Z :=
  loop fuel (transfer_step sock origin filename filesize) (mkLocals buf 0 1).

(** Opening the file and everything after. *)
Definition receive_file (sock : Z) (origin : EndPoint) (filename : list Z) (filesize : Z)
    (buf : list Z) : P Z :=
  opened ← fopen_w E filename;
  if negb opened then deny origin CMD_EXISTS CANNOT_CREATE
  else
    startTime ← time E;
    packet ← create_packet E CMD_ACK 1 0 (Some (payload_of buf));
    _ ← ack_request origin filename packet startTime;
    transfer sock origin filename filesize buf.

(** The request: [buf] holds the whole packet. *)
Definition copy_file (buf : list Z) (origin : EndPoint) : P Z :=
  s ← setup_socket E 0;
  let '(r, sock) := s in
  if negb (r =? 0) then mret RUNTIME_ERROR
  else
    cmd ← defined OutOfBounds (buf !! O);
    seq ← defined OutOfBounds (get_seq_num buf);
    if negb (cmd =? CMD_WRQ) && negb (seq =? 0) then deny origin CMD_BADREQ BAD_REQUEST
    else
      str ← defined OutOfBounds (cstr (payload_of buf));
      match strchr str c_bar with
      | None => deny origin CMD_BADREQ BAD_REQUEST
      | Some separator =>
          let payload := <[separator := NUL]> (payload_of buf) in
          filename ← copy_name payload (strrchr str c_slash);
          a ← access filename;
          if negb (a =? -1) then deny origin CMD_EXISTS FILE_EXISTS
          else
            size ← defined OutOfBounds (cstr (drop (S separator) payload));
            let '(n, v) := sscanf_ld_c size in
            let filesize := default (-1) v in
            if negb (n =? 1) || (filesize <? 0) then mret BAD_REQUEST
            else
              receive_file sock origin filename filesize
                (take (Z.to_nat HEADER_SIZE) buf ++ payload)
      end.

(** ** The parent process *)
Context `{QueueOps Q Z}.

(** [children] is null until [process_connections] has run. *)
Definition kill_children (children : Q) : P unit :=
  pids ← on_queue children q_walk;
  foldr (λ pid rest, _ ← kill pid SIGINT; rest) (mret tt) pids.1.

(** [recvfrom] into the zeroed buffer: a datagram, or nothing when it is
    empty.  [from] keeps its last value when [recvfrom] fails, and the failure
    (-1) is not told from a request. *)
Definition hear (from : sockaddr_in) : P (option (list Z) * sockaddr_in) :=
  r ← recvfrom E PACKET_SIZE;
  let '(n, d, src) := r in
  buffer ← defined OutOfBounds
    (memcpy (replicate (Z.to_nat PACKET_SIZE) 0) 0 d (Z.of_nat (length d)));
  mret (if n =? 0 then None else Some buffer, default from src).

(** [*pid = fork()]: the block for the process id is not checked. *)
Definition fork_child : P Z :=
  block ← malloc E 4;
  pid ← fork E;
  _ ← defined NullDeref block;
  mret pid.

(** The [switch]: the child answers the datagram and exits, the parent
    remembers the child. *)
Definition after_fork (buffer : list Z) (children : Q) (from : sockaddr_in) (pid : Z) : P Q :=
  if pid =? -1 then mret children
  else if pid =? 0 then
    code ← copy_file buffer (mkEndPoint from);
    exit code
  else
    k ← call;
    r ← on_queue children (q_add (negb (e_oom E k)) pid);
    if negb (r.1 =? 0) then _ ← kill_children r.2; exit RUNTIME_ERROR
    else mret r.2.

Definition dispatch (buffer : list Z) (children : Q) (from : sockaddr_in) : P Q :=
  pid ← fork_child;
  after_fork buffer children from pid.

(** The loop of [process_connections]. *)
Definition serve_step (x : Q * sockaddr_in) : P ((Q * sockaddr_in) + unit) :=
  let '(children, from) := x in
  r ← hear from;
  match r with
  | (None, from) => mret (inl (children, from))
  | (Some buffer, from) =>
      children ← dispatch buffer children from;
      mret (inl (children, from))
  end.

Definition process_connections (listen_fd : Z) (from : sockaddr_in) : P unit :=
  k ← call;
  if e_oom E k then _ ← close listen_fd; exit RUNTIME_ERROR
  else loop fuel serve_step (q_create true, from).

(** SIGCHLD reaps children but leaves them in the list. *)
Definition signal_handler (socket_fd : Z) (children : Q) (sig : Z) : P unit :=
  if sig =? SIGINT then
    _ ← close socket_fd;
    _ ← kill_children children;
    exit 0
  else if sig =? SIGCHLD then
    loop fuel (λ _ : unit,
      r ← waitpid E;
      if 0 <? r.1 then mret (inl tt) else mret (inr tt)) tt
  else mret tt.

(** [strncmp("-d", s, 2) == 0]. *)
Definition is_debug_flag (s : list Z) : bool := bool_decide (take 2 s = bytes_of_string "-d").

(** The command line, [argv] including the program name: an exit status, or
    the debug flag and the port. *)
Definition parse_args (argv : list (list Z)) : Z + bool * Z :=
  let port_of (debug : bool) (arg : list Z) : Z + bool * Z :=
    let '(n, v) := sscanf_u_c arg in
    let port := default 0 v in
    if negb (n =? 1) || (port <? 1) || (65535 <? port) then inl BAD_PORT
    else inr (debug, port) in
  match argv with
  | [_; flag; port] => if is_debug_flag flag then port_of true port else inl BAD_ARGS
  | [_; port] => if is_debug_flag port then inl BAD_ARGS else port_of false port
  | _ => inl BAD_ARGS
  end.

Definition main (argv : list (list Z)) (from : sockaddr_in) : P Z :=
  match parse_args argv with
  | inl status => mret status
  | inr (_, port) =>
      r ← setup_socket E port;
      if negb (r.1 =? 0) then mret RUNTIME_ERROR
      else _ ← process_connections r.2 from; mret 0
  end.
End server.
End Server.
