(* ===== verification/ServerSpec.v ===== *)
(** * ServerSpec: what the server does with the files and the network *)
From S2P Require Import Prelude CMonad CLib Packet Queue FtpWorld NetOps FtpServer.
Import Server.

Section transfer.
Context `{Host} (E : env) (fuel : nat).
Context (sock : Z) (origin : EndPoint) (filename : list Z) (filesize : Z).
(** The files when the transfer starts, less [filename], and the trace. *)
Context (fs0 : gmap (list Z) (list Z)) (tr0 : list event).
Implicit Types (w : world) (acc : list (list Z)).

(** [pl] is the payload of a DATA datagram number [s] that the system
    delivered ([rest] is what the receive buffer holds after it). *)
Definition delivered (s : Z) (pl : list Z) : Prop :=
  ∃ k d src rest, e_recv E k = RecvFrom d src ∧
    let b := take (Z.to_nat PACKET_SIZE) d ++ rest in
    length b = Z.to_nat PACKET_SIZE ∧ (0 < length d)%nat ∧
    b !! O = Some CMD_DATA ∧ get_seq_num b = Some s ∧
    GETLEN b = Some (Z.of_nat (length pl)) ∧ pl = take (length pl) (payload_of b).

(** The payloads accepted so far, each delivered under its number. *)
Definition justified acc : Prop :=
  ∀ i pl, acc !! i = Some pl → delivered (u16 (1 + Z.of_nat i)) pl.

(** The server acknowledges at most what it has accepted (binding its
    socket aside). *)
Definition ack_upto (n : nat) (ev : event) : Prop :=
  (∃ p, ev = EvBind p) ∨
  ∃ j, (j ≤ n)%nat ∧ ev = EvSend (addr origin) (pkt CMD_ACK (u16 (1 + Z.of_nat j)) []).

Definition acks_upto (n : nat) w : Prop :=
  ∃ new, trace w = new ++ tr0 ∧ Forall (ack_upto n) new.

(** Whatever else it sends, no acknowledgement goes beyond [n] packets. *)
Definition ack_within (n : nat) (d : list Z) : Prop :=
  d ≠ [] ∧ (d !! O = Some CMD_ACK →
    ∃ j, (j ≤ n)%nat ∧ d = pkt CMD_ACK (u16 (1 + Z.of_nat j)) []).

Definition acked (n : nat) w : Prop :=
  ∃ new, trace w = new ++ tr0 ∧ ∀ a d, EvSend a d ∈ new → ack_within n d.

(** A DATA datagram whose header claims more than a packet can hold. *)
Definition oversized : Prop :=
  ∃ k d src rest len, e_recv E k = RecvFrom d src ∧
    let b := take (Z.to_nat PACKET_SIZE) d ++ rest in
    length b = Z.to_nat PACKET_SIZE ∧ b !! O = Some CMD_DATA ∧
    GETLEN b = Some len ∧ PAYLOAD_SIZE < len.

(** What it takes to drive the transfer into undefined behaviour. *)
Inductive crash_cause : ub → Prop :=
| crash_memory k : e_oom E k = true → crash_cause NullDeref
| crash_length : oversized → crash_cause OutOfBounds
| crash_size : LONG_MAX - 65535 < filesize → crash_cause SignedOverflow.

Definition holds acc w : Prop := fs w = <[filename := concat acc]> fs0 ∧ justified acc.

Record transfer_inv acc (l : locals) w : Prop := {
  ti_buffer : length (buffer l) = Z.to_nat PACKET_SIZE;
  ti_holds : holds acc w;
  ti_read : read l = Z.of_nat (length (concat acc));
  ti_size : read l ≤ filesize;
  ti_expected : expected_sequence l = u16 (1 + Z.of_nat (length acc));
  ti_acks : acks_upto (length acc) w;
}.

Definition finack : list Z := pkt CMD_FINACK 0 [].
Definition fin_sent w : Prop :=
  ∃ new a, trace w = new ++ tr0 ∧ EvSend a finack ∈ new.

(** The file is there, complete. *)
Definition complete w : Prop :=
  ∃ acc, holds acc w ∧ Z.of_nat (length (concat acc)) = filesize.

(** How the transfer loop ends. *)
Definition transfer_post (code : Z) w : Prop :=
  (code = 0 ∧ complete w) ∨
  (code = RUNTIME_ERROR ∧ ¬ fin_sent w ∧ ∃ c, fs w = <[filename := c]> fs0).

Definition transfer_stop (b : stop) w : Prop :=
  match b with
  | SExit c =>
      (c = TIMEOUT ∨ c = BAD_REQUEST ∧ ∃ acc, justified acc ∧ acked (length acc) w ∧
         Z.of_nat (length (concat acc)) ≠ filesize) ∧
      ¬ fin_sent w ∧ fs w = delete filename fs0
  | SCrash u => crash_cause u ∧
      ∃ acc, holds acc w ∧ (fin_sent w → Z.of_nat (length (concat acc)) = filesize)
  | SFuel => ∃ acc, acked (length acc) w ∧ holds acc w ∧
      (fin_sent w → Z.of_nat (length (concat acc)) = filesize)
  end.

Lemma acks_acked n w : acks_upto n w → acked n w.
Proof.
  intros (new & Ht & Hf). exists new. split; [done|]. intros a d Hin.
  rewrite Forall_forall in Hf. destruct (Hf _ Hin) as [(p & [=])|(j & Hj & [= -> ->])].
  split; [done|]. intros _. by exists j.
Qed.

Lemma acked_trace n w w' : trace w' = trace w → acked n w → acked n w'.
Proof. unfold acked. by intros ->. Qed.

(** Events that are not acknowledgements do not matter. *)
Lemma acked_chatter n (K : event → Prop) w w' :
  (∀ a d, K (EvSend a d) → ack_within n d) → acked n w → chatter K w w' → acked n w'.
Proof.
  intros HK (new & Ht & Ha) (_ & _ & new' & Ht' & Hf'). exists (new' ++ new).
  rewrite Ht', Ht, app_assoc. split; [done|]. intros a d [Hin|Hin]%elem_of_app; [|by eapply Ha].
  rewrite Forall_forall in Hf'. by eapply HK, Hf'.
Qed.

Lemma acks_no_fin n w : acks_upto n w → ¬ fin_sent w.
Proof.
  intros (new & Ht & Hf) (new' & a & Ht' & Hin).
  rewrite Ht in Ht'. apply app_inv_tail in Ht' as ->.
  rewrite Forall_forall in Hf. destruct (Hf _ Hin) as [(p & [=])|(j & _ & [=])].
Qed.

Lemma acks_mono n n' w : (n ≤ n')%nat → acks_upto n w → acks_upto n' w.
Proof.
  intros Hn (new & Ht & Hf). exists new. split; [done|].
  eapply Forall_impl; [done|]. intros ev [?|(j & ? & ->)]; [by left|right].
  exists j. split; [lia|done].
Qed.

Lemma acks_chatter n w w' : acks_upto n w → chatter (ack_upto n) w w' → acks_upto n w'.
Proof.
  intros (new & Ht & Hf) (_ & _ & new' & Ht' & Hf'). exists (new' ++ new).
  rewrite Ht', Ht, app_assoc. split; [done|]. by apply Forall_app.
Qed.

Lemma holds_fs acc w w' : fs w' = fs w → holds acc w → holds acc w'.
Proof. unfold holds. by intros ->. Qed.

(** The loop may run out of memory or of its bound at any point. *)
Lemma inv_stop acc l w w' :
  transfer_inv acc l w → chatter (ack_upto (length acc)) w w' →
  transfer_stop SFuel w' ∧ ∀ u, crash_cause u → transfer_stop (SCrash u) w'.
Proof.
  intros Hi Hc. assert (acks_upto (length acc) w') as Ha
    by (eapply acks_chatter; [by apply ti_acks in Hi|done]).
  assert (holds acc w') by (eapply holds_fs, ti_holds; [by destruct Hc as (_&?&_)|done]).
  assert (¬ fin_sent w') by by eapply acks_no_fin.
  split; [|intros u Hu; split; [done|]]; exists acc; [split; [by apply acks_acked|]|]; done.
Qed.

Lemma inv_chatter acc l l' w w' :
  transfer_inv acc l w → chatter (ack_upto (length acc)) w w' →
  length (buffer l') = Z.to_nat PACKET_SIZE → read l' = read l →
  expected_sequence l' = expected_sequence l → transfer_inv acc l' w'.
Proof.
  intros [] Hc Hb Hr He. pose proof Hc as (_ & Hf & _). split; [done|..].
  - by eapply holds_fs.
  - congruence.
  - by rewrite Hr.
  - congruence.
  - by eapply acks_chatter.
Qed.

(** A buffer filled by a delivered datagram, if it is DATA, carries the
    payload the server writes. *)
Lemma received_delivered k b r s len :
  received E k b r → 0 < r → b !! O = Some CMD_DATA → get_seq_num b = Some s →
  GETLEN b = Some len → 0 ≤ len ≤ Z.of_nat (length (payload_of b)) →
  delivered s (take (Z.to_nat len) (payload_of b)).
Proof.
  intros [Hb Hr] Hpos Hc Hs Hl Hlen. unfold delivered.
  destruct (e_recv E k) as [e|d src] eqn:Ek; [lia|]. destruct Hr as [-> [rest Hrest]].
  exists k, d, src, rest. cbv zeta. rewrite <- Hrest.
  assert (length (take (Z.to_nat len) (payload_of b)) = Z.to_nat len) as Ht
    by (rewrite length_take; lia).
  rewrite Ht, Z2Nat.id by lia. rewrite length_take in Hpos.
  repeat split; try done. lia.
Qed.

Lemma received_oversized k b r len :
  received E k b r → 0 < r → b !! O = Some CMD_DATA → GETLEN b = Some len → PAYLOAD_SIZE < len →
  oversized.
Proof.
  intros [Hb Hr] Hpos Hc Hl Hlen. destruct (e_recv E k) as [e|d src] eqn:Ek; [lia|].
  destruct Hr as [-> [rest ->]]. exists k, d, src, rest, len. done.
Qed.

(** The expected packet extends what was accepted. *)
Lemma justified_snoc acc l w k r len :
  transfer_inv acc l w → received E k (buffer l) r → 0 < r →
  buffer l !! O = Some CMD_DATA → get_seq_num (buffer l) = Some (expected_sequence l) →
  GETLEN (buffer l) = Some len → 0 ≤ len ≤ Z.of_nat (length (payload_of (buffer l))) →
  justified (acc ++ [take (Z.to_nat len) (payload_of (buffer l))]).
Proof.
  intros Hi Hrcv Hpos Hc Hs Hl Hlen i pl Hpl.
  apply lookup_app_Some in Hpl as [Hpl|[Hi' Hpl]]; [by apply (ti_holds _ _ _ Hi)|].
  apply list_lookup_singleton_Some in Hpl as [Hi0 <-].
  replace i with (length acc) by lia. rewrite <- (ti_expected _ _ _ Hi).
  by eapply received_delivered.
Qed.

Lemma ack_in_window acc l w :
  transfer_inv acc l w →
  ack_upto (length acc) (EvSend (addr origin) (pkt CMD_ACK (expected_sequence l) [])).
Proof. intros Hi. right. exists (length acc). split; [done|]. by rewrite (ti_expected _ _ _ Hi). Qed.

(** Writing the payload of the expected packet re-establishes the
    invariant for the extended prefix. *)
Lemma inv_accept acc l w w' k r len :
  transfer_inv acc l w → received E k (buffer l) r → 0 < r →
  buffer l !! O = Some CMD_DATA → get_seq_num (buffer l) = Some (expected_sequence l) →
  GETLEN (buffer l) = Some len → 0 ≤ len ≤ Z.of_nat (length (payload_of (buffer l))) →
  read l + len ≤ filesize →
  let acc' := acc ++ [take (Z.to_nat len) (payload_of (buffer l))] in
  fs w' = <[filename := concat acc']> fs0 → acks_upto (length acc') w' →
  transfer_inv acc' (mkLocals (buffer l) (read l + len) (u16 (expected_sequence l + 1))) w'.
Proof.
  intros Hi Hrcv Hpos Hc Hs Hl Hlen Hsize acc' Hfs Ha.
  split; cbn [buffer read expected_sequence]; [by apply ti_buffer in Hi| | |done| |done].
  - split; [done|]. by eapply justified_snoc.
  - rewrite (ti_read _ _ _ Hi). unfold acc'.
    rewrite concat_app. cbn [concat]. rewrite app_nil_r, length_app, length_take. lia.
  - rewrite (ti_expected _ _ _ Hi), u16_u16_add. unfold acc'.
    rewrite length_app. cbn [length]. f_equal. lia.
Qed.

Abbreviation step_post := (λ (x : locals + Z) (w' : world),
  match x with
  | inl l' => ∃ acc', transfer_inv acc' l' w'
  | inr code => transfer_post code w' end).

(** Acknowledging from a state of the loop, and going on with [rest]. *)
Lemma wp_send_ack {A} acc n l w (s : Z) (rest : P A) (Q : A → world → Prop) :
  transfer_inv acc l w → (length acc ≤ n)%nat →
  ack_upto n (EvSend (addr origin) (pkt CMD_ACK s [])) →
  (∀ w', chatter (ack_upto n) w w' → acks_upto n w' → holds acc w' →
    wp rest Q transfer_stop w') →
  wp (packet ← create_packet E CMD_ACK s 0 None;
      _ ← send_packet E origin packet; rest) Q transfer_stop w.
Proof.
  intros Hi Hn Hs HQ. wp_step. apply wp_create_packet_empty; intros w1 Hw1.
  { intros Ho. eapply inv_stop; [done|by apply quiet_chatter|by eapply crash_memory]. }
  wp_step. eapply (wp_send_packet_chatter _ (ack_upto n)); [done..|]. intros w2 r Hw2.
  assert (chatter (ack_upto n) w w2) as Hc
    by (eapply chatter_trans; [by apply quiet_chatter|done]).
  apply HQ; [done| |].
  - eapply acks_chatter; [eapply acks_mono, ti_acks; [|done]; done|done].
  - eapply holds_fs, ti_holds; [by destruct Hc as (_&?&_)|done].
Qed.

(** Duplicates and out-of-order packets only provoke an ACK. *)
Lemma wp_on_data_unexpected acc l w s :
  transfer_inv acc l w → get_seq_num (buffer l) = Some s → s ≠ expected_sequence l →
  wp (on_data E origin filename filesize l) step_post transfer_stop w.
Proof.
  intros Hi Hs Hne. unfold on_data. rewrite Hs. do 2 wp_step.
  apply Z.eqb_neq in Hne as ->. cbn [negb].
  eapply wp_send_ack; [done..|by eapply ack_in_window|].
  intros w' Hc Ha Hh. wp_step. exists acc.
  eapply inv_chatter; [done..|by apply ti_buffer in Hi|done|done].
Qed.

(** The expected packet is acknowledged and written. *)
Lemma wp_on_data_expected acc l w k r :
  transfer_inv acc l w → received E k (buffer l) r → 0 < r →
  buffer l !! O = Some CMD_DATA → get_seq_num (buffer l) = Some (expected_sequence l) →
  wp (on_data E origin filename filesize l) step_post transfer_stop w.
Proof.
  intros Hi Hrcv Hpos Hcmd Hs. pose proof (ti_buffer _ _ _ Hi) as Hb.
  destruct (GETLEN_Some (buffer l)) as (len & Hlen & Hrange); [size_lia|].
  unfold on_data. rewrite Hs, Hlen. do 2 wp_step. rewrite Z.eqb_refl. cbn [negb].
  set (payload := payload_of (buffer l)).
  set (acc' := acc ++ [take (Z.to_nat len) payload]).
  assert (length acc' = S (length acc)) as Hacc' by (unfold acc'; rewrite length_app; cbn; lia).
  eapply (wp_send_ack _ (length acc')); [done|lia| |].
  { right. exists (length acc'). split; [done|].
    rewrite (ti_expected _ _ _ Hi), u16_u16_add, Hacc'. do 3 f_equal. lia. }
  intros w2 Hc2 Ha2 [Hfs2 Hj2].
  assert (∀ u, crash_cause u → transfer_stop (SCrash u) w2) as HX2.
  { intros u Hu. split; [done|]. exists acc. split; [done|]. intros Hf. by apply acks_no_fin in Ha2. }
  do 2 wp_step. wp_step. apply wp_add_long_cases.
  2: { intros Hlong. apply HX2, crash_size. pose proof (ti_size _ _ _ Hi).
       rewrite (ti_read _ _ _ Hi) in *. unfold LONG_MIN in *. lia. }
  intros _. wp_step; bool_to_prop.
  { wp_step. apply HX2, crash_length. eapply received_oversized; [done..|].
    unfold payload in *. rewrite length_payload_of in * by done. done. }
  wp_step. apply wp_fwrite. intros w3 n Hn (Ht3 & Htr3 & Hfs3).
  rewrite Hfs2, alter_insert_eq in Hfs3.
  assert (acks_upto (length acc') w3) as Ha3 by (unfold acks_upto in *; by rewrite Htr3).
  wp_step; [wp_step; right; split_and!; [done|by eapply acks_no_fin|by eexists]|].
  bool_to_prop. subst n.
  assert (justified acc') as Hj' by (eapply justified_snoc; [done..|subst payload; lia]).
  assert (read l + len = Z.of_nat (length (concat acc'))) as Hread.
  { rewrite (ti_read _ _ _ Hi). unfold acc'. rewrite concat_app. cbn [concat].
    rewrite app_nil_r, length_app, length_take. lia. }
  wp_step; bool_to_prop.
  - wp_step. apply wp_unlink. intros w4 (_ & Htr4 & Hfs4). wp_step.
    assert (acks_upto (length acc') w4) as Ha4 by (unfold acks_upto in *; by rewrite Htr4).
    split_and!; [right; split; [done|]| |by rewrite Hfs4, Hfs3, delete_insert_eq].
    { exists acc'. split; [done|]. split; [by apply acks_acked|lia]. }
    by eapply acks_no_fin.
  - wp_step. exists acc'. rewrite take_ge in Hfs3 by (rewrite length_take; lia).
    subst payload. eapply inv_accept; try done; [lia|].
    unfold acc'. rewrite concat_app. cbn [concat]. by rewrite app_nil_r.
Qed.

Lemma wp_on_data acc l w k r :
  transfer_inv acc l w → received E k (buffer l) r → 0 < r →
  buffer l !! O = Some CMD_DATA →
  wp (on_data E origin filename filesize l) step_post transfer_stop w.
Proof.
  intros Hi Hrcv Hpos Hcmd. pose proof (ti_buffer _ _ _ Hi) as Hb.
  destruct (get_seq_num_Some (buffer l)) as (s & Hs & _); [size_lia|].
  destruct (decide (s = expected_sequence l)) as [->|Hne].
  - by eapply wp_on_data_expected.
  - by eapply wp_on_data_unexpected.
Qed.

(** The closing handshake only sends FINACK. *)
Definition talked w w' : Prop := chatter (λ ev, ev = EvSend (addr origin) finack) w w'.

Lemma wp_finish buf w (Q : unit → world → Prop) (X : stop → world → Prop) :
  length buf = Z.to_nat PACKET_SIZE →
  (∀ w', talked w w' → Q tt w') →
  (∀ w', talked w w' → X SFuel w' ∧ ((∃ k, e_oom E k = true) → X (SCrash NullDeref) w')) →
  wp (finish E fuel origin buf) Q X w.
Proof.
  intros Hb HQ HX. unfold finish, talked in *. wp_step. apply wp_time. intros w1 Hw1.
  assert (talked w w1) as Ht1 by by apply quiet_chatter.
  wp_step. apply wp_create_packet_empty; intros w2 Hw2.
  { intros Ho. apply HX; [|by eexists]. eapply chatter_trans, quiet_chatter; done. }
  apply (wp_loop (λ b w3, length b = Z.to_nat PACKET_SIZE ∧ talked w w3)).
  { split; [done|]. eapply chatter_trans, quiet_chatter; done. }
  { intros b w3 [_ Hw3]. by apply HX. }
  intros b w3 [Hl Hw3]. unfold talked in *. wp_step. apply wp_time. intros w4 Hw4.
  assert (talked w w4) as Ht4 by (eapply chatter_trans, quiet_chatter; done).
  wp_step; [|wp_step; by apply HQ].
  wp_step. eapply (wp_send_packet_chatter _ (λ ev, ev = EvSend (addr origin) finack));
    [done..|]. intros w5 r5 Hw5.
  wp_step. apply wp_sleep. intros w6 Hw6.
  assert (talked w w6) as Ht6
    by (eapply chatter_trans, quiet_chatter; [|done]; by eapply chatter_trans).
  assert (∀ w7 b' r, quiet w6 w7 → length b' = Z.to_nat PACKET_SIZE →
    wp (c ← defined OutOfBounds (b' !! O);
        if (0 <? u64 r) && (c =? CMD_ACK) then mret (inr tt) else mret (inl b'))
      (λ x s', match x with
        | inl l' => length l' = Z.to_nat PACKET_SIZE ∧ talked w s'
        | inr r => Q r s' end) X w7) as Hend.
  { intros w7 b' r Hw7 Hl'. assert (talked w w7) by (eapply chatter_trans, quiet_chatter; done).
    destruct b' as [|c b']; [exfalso; cbn in Hl'; size_lia|]. cbn [lookup list_lookup].
    do 3 wp_step; wp_step; [|done]. destruct r; by apply HQ. }
  wp_step. apply wp_read_only_from; [done|..].
  - intros w7 Hw7 _. by apply Hend.
  - intros w7 k r b' Hw7 _ Hr _. apply Hend; [done|by destruct Hr].
Qed.

(** Removing the file on an error path. *)
Lemma wp_discard acc l w w1 code (Q : locals + Z → world → Prop) :
  transfer_inv acc l w → quiet w w1 → code = TIMEOUT ∨ code = BAD_REQUEST ∧ read l ≠ filesize →
  wp (_ ← unlink filename; exit code) Q transfer_stop w1.
Proof.
  intros Hi (_ & Htr1 & Hfs1) Hcode. wp_step. apply wp_unlink.
  intros w2 (_ & Htr2 & Hfs2). wp_step.
  assert (acks_upto (length acc) w2) as Ha
    by (apply ti_acks in Hi; unfold acks_upto in *; by rewrite Htr2, Htr1).
  split_and!.
  - destruct Hcode as [->|[-> Hr]]; [by left|right; split; [done|]].
    exists acc. split; [apply (ti_holds _ _ _ Hi)|]. split; [by apply acks_acked|].
    by rewrite <- (ti_read _ _ _ Hi).
  - by eapply acks_no_fin.
  - destruct (ti_holds _ _ _ Hi) as [Hfs _]. by rewrite Hfs2, Hfs1, Hfs, delete_insert_eq.
Qed.

(** The end of the file: it is kept only when it has the announced size. *)
Lemma wp_on_fin acc l w (Q : locals + Z → world → Prop) :
  transfer_inv acc l w → read l = filesize →
  (∀ w', transfer_post 0 w' → Q (inr 0) w') →
  wp (_ ← finish E fuel origin (buffer l); _ ← close sock; mret (inr 0)) Q transfer_stop w.
Proof.
  intros Hi Hr HQ.
  assert (∀ w', fs w' = fs w → holds acc w') as Hh
    by (intros w' Hf; eapply holds_fs, ti_holds; done).
  assert (Z.of_nat (length (concat acc)) = filesize) as Hsz
    by (by rewrite <- (ti_read _ _ _ Hi)).
  wp_step. apply wp_finish; [by apply ti_buffer in Hi|..].
  - intros w1 (_ & Hf1 & _). wp_step. apply wp_close. intros w2 _ Hf2 _. wp_step.
    apply HQ. left. split; [done|]. exists acc. split; [apply Hh; congruence|done].
  - intros w1 Ht1. pose proof Ht1 as (_ & Hf1 & _). specialize (Hh w1 Hf1). split.
    + exists acc. split; [|done]. eapply acked_chatter, Ht1; [by intros ? ? [= -> ->]|].
      eapply acks_acked, ti_acks, Hi.
    + intros [k Hk]. split; [by eapply crash_memory|]. by exists acc.
Qed.

(** One iteration of the transfer loop. *)
Lemma wp_transfer_step acc l w :
  transfer_inv acc l w →
  wp (transfer_step E fuel sock origin filename filesize l) step_post transfer_stop w.
Proof.
  intros Hi. unfold transfer_step. wp_step.
  apply wp_read_until_timeout; [by apply ti_buffer in Hi|..].
  - intros w1 Hw1. eapply inv_stop; [done|by apply quiet_chatter].
  - intros w1 b Hw1 Hb. eapply wp_discard; [done..|by left].
  - intros w1 k r b Hw1 _ Hrcv Hpos. pose proof Hrcv as [Hb _].
    set (l1 := mkLocals b (read l) (expected_sequence l)).
    assert (transfer_inv acc l1 w1) as Hi1
      by (eapply inv_chatter; [done|by apply quiet_chatter|done..]).
    wp_step; [bool_to_prop; lia|].
    destruct (b !! O) as [c|] eqn:Hc; [|apply lookup_ge_None in Hc; exfalso; size_lia].
    do 3 wp_step; [bool_to_prop; subst c; by eapply wp_on_data|].
    wp_step; [|wp_step; by exists acc]. wp_step; bool_to_prop.
    + eapply (wp_discard acc l w w1); [done|done|by right].
    + eapply (wp_on_fin acc l1); [done..|]. by intros.
Qed.

(** The loop, from an empty file. *)
Lemma wp_transfer buf w :
  length buf = Z.to_nat PACKET_SIZE → 0 ≤ filesize →
  fs w = <[filename := []]> fs0 → acks_upto 0 w →
  wp (transfer E fuel sock origin filename filesize buf) transfer_post transfer_stop w.
Proof.
  intros Hb Hsz Hfs Htr. unfold transfer.
  apply (wp_loop (λ l w, ∃ acc, transfer_inv acc l w)).
  - exists []. by split.
  - intros l w1 [acc Hi]. exists acc. split; [eapply acks_acked, ti_acks, Hi|].
    split; [by apply ti_holds in Hi|]. intros Hf. by apply ti_acks, acks_no_fin in Hi.
  - intros l w1 [acc Hi]. by eapply wp_transfer_step.
Qed.

(** ** Opening the file and acknowledging the request *)

Lemma wp_ack_request startTime w (Q : unit → world → Prop) :
  fs w = <[filename := []]> fs0 → fs0 !! filename = None → acks_upto 0 w →
  (∀ w', fs w' = <[filename := []]> fs0 → acks_upto 0 w' → Q tt w') →
  wp (ack_request E fuel origin filename (pkt CMD_ACK 1 []) startTime) Q
    (λ b w', match b with
      | SExit c => c = RUNTIME_ERROR ∧ fs w' = fs0 ∧ ¬ fin_sent w' ∧ acked 0 w'
      | _ => transfer_stop b w' end) w.
Proof.
  intros Hfs Hnone Ha HQ. unfold ack_request.
  apply (wp_loop (λ _ w', fs w' = <[filename := []]> fs0 ∧ acks_upto 0 w')); [done|..].
  { intros _ w1 [Hf1 Ha1]. exists []. split; [by apply acks_acked|]. split; [by split|].
    intros Hfin. by apply acks_no_fin in Ha1. }
  intros _ w1 [Hf1 Ha1]. wp_step. apply wp_send_packet; [done|..].
  - intros w2 (_ & Htr & Hf2) _. cbn [Z.eqb].
    wp_step. apply wp_unlink. intros w3 (_ & Htr3 & Hf3). wp_step.
    assert (acks_upto 0 w3) as Ha3 by (unfold acks_upto in *; by rewrite Htr3, Htr).
    split_and!; [done| |by eapply acks_no_fin|by apply acks_acked].
    rewrite Hf3, Hf2, Hf1, delete_insert_eq. by apply delete_id.
  - intros w2 Ht2 Hf2 Htr2. cbn [Z.eqb].
    assert (acks_upto 0 w2) as Ha2.
    { eapply acks_chatter; [done|]. eapply chatter_emit; [done..|].
      right. exists O. by split. }
    wp_step. apply wp_sleep. intros w3 (_ & Htr3 & Hf3). do 2 wp_step.
    assert (acks_upto 0 w3 ∧ fs w3 = <[filename := []]> fs0) as [Ha3 Hf3'].
    { unfold acks_upto in *. by rewrite Htr3, Hf3, Hf2, Hf1. }
    wp_step; [|wp_step; by apply HQ].
    wp_step. apply wp_time. intros w4 (_ & Htr4 & Hf4). wp_step.
    assert (acks_upto 0 w4) by (unfold acks_upto in *; by rewrite Htr4).
    destruct (_ <? _); [by rewrite Hf4|]. apply HQ; [by rewrite Hf4|done].
Qed.
End transfer.

(** ** The request *)

(** The file name and the size a request announces: the part between the last
    slash and the separator, and the number after it. *)
Definition request_of (buf : list Z) : option (list Z * Z) :=
  str ← cstr (payload_of buf);
  sep ← strchr str c_bar;
  let name := match strrchr str c_slash with
    | None => take sep str
    | Some i => if decide (i < sep)%nat then drop (S i) (take sep str) else drop (S i) str
    end in
  match sscanf_ld_c (drop (S sep) str) with
  | (1, Some size) => if 0 <=? size then Some (name, size) else None
  | _ => None
  end.

Section request.
Context (payload str rest : list Z) (sep : nat).
Hypothesis Hpayload : payload = str ++ NUL :: rest.
Hypothesis Hstr : Forall (λ c, c ≠ NUL) str.
Hypothesis Hsep : strchr str c_bar = Some sep.

Lemma sep_lt : (sep < length str)%nat.
Proof using Hsep. apply strchr_Some in Hsep as [Hs _]. by apply lookup_lt_Some in Hs. Qed.

(** The payload once the separator is overwritten. *)
Lemma cut_payload :
  <[sep := NUL]> payload = take sep str ++ NUL :: drop (S sep) str ++ NUL :: rest.
Proof using Hpayload Hsep.
  pose proof sep_lt. rewrite Hpayload, insert_app_l by done.
  rewrite insert_take_drop by done. by rewrite <- app_assoc.
Qed.

Lemma cut_name : cstr (<[sep := NUL]> payload) = Some (take sep str).
Proof using Hpayload Hsep Hstr. rewrite cut_payload. apply cstr_app. by apply Forall_take. Qed.

Lemma cut_size : cstr (drop (S sep) (<[sep := NUL]> payload)) = Some (drop (S sep) str).
Proof using Hpayload Hsep Hstr.
  pose proof sep_lt. rewrite cut_payload, drop_app_ge by (rewrite length_take; lia).
  rewrite length_take. replace (S sep - sep `min` length str)%nat with 1%nat by lia.
  cbn [drop]. rewrite drop_0. apply cstr_app. by apply Forall_drop.
Qed.

Lemma cut_base i :
  strrchr str c_slash = Some i →
  cstr (drop (S i) (<[sep := NUL]> payload)) =
  Some (if decide (i < sep)%nat then drop (S i) (take sep str) else drop (S i) str).
Proof using Hpayload Hsep Hstr.
  intros Hi. pose proof sep_lt as Hlt. apply strrchr_Some in Hi as [Hi _].
  pose proof Hsep as [Hs _]%strchr_Some.
  assert (i ≠ sep) by (intros ->; rewrite Hs in Hi; done).
  pose proof (lookup_lt_Some _ _ _ Hi).
  rewrite cut_payload. case_decide.
  - rewrite drop_app_le by (rewrite length_take; lia).
    apply cstr_app. by apply Forall_drop, Forall_take.
  - rewrite drop_app_ge by (rewrite length_take; lia). rewrite length_take.
    replace (S i - sep `min` length str)%nat with (S (i - sep)) by lia. cbn [drop].
    rewrite drop_app_le by (rewrite length_drop; lia).
    rewrite drop_drop. replace (S sep + (i - sep))%nat with (S i) by lia.
    apply cstr_app. by apply Forall_drop.
Qed.
End request.

(** The name a request designates is in the working directory. *)
Lemma request_no_slash buf name size : request_of buf = Some (name, size) → c_slash ∉ name.
Proof.
  unfold request_of. destruct (cstr _) as [str|]; cbn; [|done].
  destruct (strchr str c_bar) as [sep|]; cbn; [|done].
  destruct (sscanf_ld_c _) as [n [v|]]; [|by destruct n as [|[]|]].
  intros Hreq.
  assert (name = match strrchr str c_slash with
    | None => take sep str
    | Some i => if decide (i < sep)%nat then drop (S i) (take sep str) else drop (S i) str
    end) as -> by (destruct n as [|[]|]; try done; by destruct (0 <=? v); simplify_eq).
  destruct (strrchr str c_slash) as [i|] eqn:Hi.
  - apply strrchr_Some in Hi as [_ Hi]. case_decide; [|done].
    intros Hin. apply Hi. rewrite skipn_firstn_comm in Hin.
    apply elem_of_take in Hin as (j & ? & ?). by eapply list_elem_of_lookup_2.
  - apply strrchr_None in Hi. intros Hin. apply Hi.
    apply elem_of_take in Hin as (j & ? & ?). by eapply list_elem_of_lookup_2.
Qed.

(** ** [copy_file] *)
Section copy_file.
Context `{Host} (E : env) (fuel : nat) (origin : EndPoint) (buf : list Z) (w0 : world).
Hypothesis Hbuf : length buf = Z.to_nat PACKET_SIZE.
Implicit Types (w : world).

(** The process has not touched the files, nor sent a FINACK, nor
    acknowledged any data. *)
Definition untouched w : Prop :=
  fs w = fs w0 ∧ ¬ fin_sent (trace w0) w ∧ acked (trace w0) 0 w.

(** The request was accepted, for a file that did not exist. *)
Definition accepted (name : list Z) (size : Z) : Prop :=
  request_of buf = Some (name, size) ∧ fs w0 !! name = None.

Definition copy_post (code : Z) w : Prop :=
  (code ≠ 0 ∧ untouched w) ∨
  ∃ name size, accepted name size ∧
    transfer_post E name size (fs w0) (trace w0) code w.

Definition copy_stop (b : stop) w : Prop :=
  untouched w ∨
  ∃ name size, accepted name size ∧
    transfer_stop E name size (fs w0) (trace w0) b w.

(** What it takes to drive the handler into undefined behaviour. *)
Inductive request_crash : ub → Prop :=
| rc_transfer name size u :
    request_of buf = Some (name, size) → crash_cause E size u → request_crash u
| rc_memory k : e_oom E k = true → request_crash NullDeref
| rc_unterminated : cstr (payload_of buf) = None → request_crash OutOfBounds
| rc_slash k : e_slack E k = O → c_slash ∈ payload_of buf → request_crash HeapOverflow.

Definition copy_end (b : stop) w : Prop :=
  copy_stop b w ∧ match b with SCrash u => request_crash u | SExit c => c ≠ 0 | SFuel => True end.

(** Up to the transfer, the process only binds its socket, acknowledges or
    denies. *)
Definition opening w : Prop :=
  fs w = fs w0 ∧ acks_upto origin (trace w0) 0 w.

Lemma opening_untouched w : opening w → untouched w.
Proof.
  intros [Hf Ha]. split; [done|]. split; [by eapply acks_no_fin|by eapply acks_acked].
Qed.

Lemma opening_quiet w w' : opening w → quiet w w' → opening w'.
Proof. unfold opening, acks_upto. intros [? ?] (_ & -> & ->). done. Qed.

Lemma untouched_exit c w : opening w → c ≠ 0 → copy_end (SExit c) w.
Proof. intros Hw Hc. split; [|done]. left. by apply opening_untouched. Qed.

Lemma untouched_crash u w : opening w → request_crash u → copy_end (SCrash u) w.
Proof. intros Hw Hu. split; [|done]. left. by apply opening_untouched. Qed.

(** A refusal acknowledges nothing. *)
Lemma wp_deny_untouched cmd code w :
  opening w → cmd = CMD_BADREQ ∨ cmd = CMD_EXISTS →
  wp (deny E origin cmd code) (λ code' w', code' = code ∧ untouched w')
    (λ b w', copy_end b w' ∧ untouched w') w.
Proof.
  intros Hw Hcmd. unfold deny. wp_step. apply wp_create_packet_empty; intros w1 Hw1.
  { intros Ho. assert (opening w1) by by eapply opening_quiet.
    split; [apply untouched_crash; [done|by eapply rc_memory]|by apply opening_untouched]. }
  assert (opening w1) as Ho1 by by eapply opening_quiet.
  wp_step. apply wp_send_packet; [done|..].
  - intros w2 Hw2 _. cbn [Z.eqb]. wp_step. assert (opening w2) by by eapply opening_quiet.
    split; [by apply untouched_exit|by apply opening_untouched].
  - intros w2 Ht2 Hf2 Htr2. cbn [Z.eqb]. wp_step. split; [done|].
    pose proof Ho1 as [Hf1 Ha1]. split; [by rewrite Hf2|]. split.
    2: { eapply (acked_chatter _ _ (λ ev, ev = EvSend (addr origin) (pkt cmd 0 [])));
           [|by eapply acks_acked|by eapply chatter_emit].
         destruct Hcmd as [-> | ->]; by intros ? ? [= -> ->]. }
    destruct Ha1 as (new & Htr1 & Hnew).
    intros (new' & a & Htr' & Hin). rewrite Htr2, Htr1, app_comm_cons in Htr'.
    apply app_inv_tail in Htr' as <-. apply elem_of_cons in Hin as [Heq|Hin].
    + by destruct Hcmd as [-> | ->].
    + eapply (acks_no_fin origin (trace w0) 0 w1); [by exists new|].
      by exists new, a.
Qed.

Lemma wp_deny cmd code w :
  opening w → code ≠ 0 → cmd = CMD_BADREQ ∨ cmd = CMD_EXISTS →
  wp (deny E origin cmd code) copy_post copy_end w.
Proof.
  intros Hw Hcode Hcmd. eapply wp_mono; [by apply wp_deny_untouched|..].
  - intros code' w' [-> Hu]. by left.
  - by intros b w' [].
Qed.

Lemma wp_receive_file sock name size b w :
  opening w → accepted name size → 0 ≤ size → length b = Z.to_nat PACKET_SIZE →
  wp (receive_file E fuel sock origin name size b) copy_post copy_end w.
Proof.
  intros Hw Hacc Hsize Hb. unfold receive_file. wp_step.
  apply wp_fopen_w; intros w1 Hw1; cbn [negb].
  { apply wp_deny; [by eapply opening_quiet|done|by right]. }
  destruct Hw as [Hf Ha], Hw1 as (_ & Htr1 & Hf1). rewrite Hf in Hf1.
  assert (acks_upto origin (trace w0) 0 w1) as Ha1 by (unfold acks_upto in *; by rewrite Htr1).
  assert (∀ w', (∃ k, e_oom E k = true) → fs w' = fs w1 → trace w' = trace w1 →
    copy_end (SCrash NullDeref) w') as HX.
  { intros w' [k Hk] Hf' Htr'. split; [|by eapply rc_memory]. right. exists name, size.
    split; [done|]. split; [by eapply crash_memory|]. exists [].
    split; [split; [by rewrite Hf'|done]|]. intros Hfin. exfalso.
    eapply acks_no_fin, Hfin. unfold acks_upto in *. by rewrite Htr'. }
  wp_step. apply wp_time. intros w2 (_ & Htr2 & Hf2).
  wp_step. apply wp_create_packet_empty; intros w3 (_ & Htr3 & Hf3);
    [intros Ho; apply HX; [by eexists|congruence..]|].
  assert (acks_upto origin (trace w0) 0 w3) as Ha3
    by (unfold acks_upto in *; by rewrite Htr3, Htr2).
  wp_step. eapply wp_mono; [eapply (wp_ack_request E fuel origin name size (fs w0) (trace w0) _ _ (λ _ w', fs w' = <[name := []]> (fs w0) ∧ acks_upto origin (trace w0) 0 w'))| |].
  - congruence.
  - by destruct Hacc.
  - done.
  - done.
  - intros _ w4 [Hf4 Ha4]. eapply wp_mono; [by eapply wp_transfer| |].
    + intros; right; by exists name, size.
    + intros b4 w5 Hs. split; [right; by exists name, size|].
      destruct b4; [by destruct Hs as [[->|[-> _]] _]| |done].
      destruct Hacc as [Hr _]. by eapply rc_transfer; [|apply Hs].
  - intros [c|u|] w4 Hs.
    + destruct Hs as (-> & ? & ?). split; [|done]. by left.
    + split; [right; by exists name, size|]. destruct Hacc as [Hr _].
      by eapply rc_transfer; [|apply Hs].
    + split; [right; by exists name, size|done].
Qed.

Lemma wp_setup_socket (Q : Z * Z → world → Prop) w port (X : stop → world → Prop) :
  opening w → (∀ w' r, opening w' → Q r w') → wp (setup_socket E port) Q X w.
Proof.
  intros Hw HQ. unfold setup_socket. wp_step. apply wp_socket. intros w1 sock Hw1.
  assert (opening w1) as Ho1 by by eapply opening_quiet.
  wp_step; [wp_step; by apply HQ|]. wp_step. apply wp_bind_port; intros w2 Hw2.
  - cbn. apply HQ. by eapply opening_quiet.
  - cbn. apply HQ. destruct Ho1 as [Hf1 Ha1], Hw2 as (Ht & Hf2 & Hnew).
    split; [congruence|]. eapply acks_chatter; [done|]. split_and!; [done..|].
    destruct Hnew as (new & -> & Hnew). exists new. split; [done|].
    eapply Forall_impl; [done|]. intros ev ->. left. by eexists.
Qed.

(** The heap copy is the name [request_of] describes. *)
Lemma wp_copy_name str rest sep w (Q : list Z → world → Prop) (X : stop → world → Prop) :
  payload_of buf = str ++ NUL :: rest → Forall (λ c, c ≠ NUL) str →
  strchr str c_bar = Some sep →
  (∀ u w', quiet w w' → request_crash u → X (SCrash u) w') →
  (∀ w', quiet w w' → Q (match strrchr str c_slash with
    | None => take sep str
    | Some i => if decide (i < sep)%nat then drop (S i) (take sep str) else drop (S i) str
    end) w') →
  wp (copy_name E (<[sep := NUL]> (payload_of buf)) (strrchr str c_slash)) Q X w.
Proof.
  clear Hbuf. intros Hp Hs Hsep HX HQ. unfold copy_name.
  destruct (strrchr str c_slash) as [i|] eqn:Hi.
  - erewrite cut_base by done. do 2 wp_step. wp_step. apply wp_malloc_slack.
    + intros w1 Hw1 Ho. do 2 wp_step. apply HX; [done|by eapply rc_memory].
    + intros w1 b Hw1 Hb. do 2 wp_step. wp_step; wp_step; [|by apply HQ].
      bool_to_prop. cbn [fst snd] in *. apply HX; [done|]. apply (rc_slash (tick w)); [lia|].
      apply strrchr_Some in Hi as [Hi _]. rewrite Hp. apply elem_of_app. left.
      by eapply list_elem_of_lookup_2.
  - erewrite cut_name by done. do 2 wp_step. wp_step. apply wp_malloc_cases.
    + intros w1 Ho Hw1 _. do 2 wp_step. apply HX; [done|by eapply rc_memory].
    + intros w1 b k Hw1 Hb. do 3 wp_step. by apply HQ.
Qed.

Lemma wp_copy_file_parsed sock str rest sep w :
  payload_of buf = str ++ NUL :: rest → Forall (λ c, c ≠ NUL) str →
  cstr (payload_of buf) = Some str → strchr str c_bar = Some sep → opening w →
  wp (filename ← copy_name E (<[sep := NUL]> (payload_of buf)) (strrchr str c_slash);
      a ← access filename;
      if negb (a =? -1) then deny E origin CMD_EXISTS FILE_EXISTS
      else
        size ← defined OutOfBounds (cstr (drop (S sep) (<[sep := NUL]> (payload_of buf))));
        let '(n, v) := sscanf_ld_c size in
        let filesize := default (-1) v in
        if negb (n =? 1) || (filesize <? 0) then mret BAD_REQUEST
        else receive_file E fuel sock origin filename filesize
               (take (Z.to_nat HEADER_SIZE) buf ++ <[sep := NUL]> (payload_of buf)))
    copy_post copy_end w.
Proof.
  intros Hp Hs Hc Hsep Hw. wp_step. eapply wp_copy_name; [done..| |].
  { intros u w' Hw' Hu. apply untouched_crash; [by eapply opening_quiet|done]. }
  intros w1 Hw1. assert (opening w1) as Ho1 by by eapply opening_quiet.
  wp_step. apply wp_access.
  { intros w2 Hw2 _. cbn. apply wp_deny; [by eapply opening_quiet|done|by right]. }
  intros w2 Hw2 Hnone _. assert (opening w2) as Ho2 by by eapply opening_quiet.
  cbn [Z.eqb Pos.eqb negb]. erewrite cut_size by done. do 2 wp_step.
  destruct (sscanf_ld_c (drop (S sep) str)) as [n v] eqn:Escan.
  wp_step; [wp_step; left; split; [done|by apply opening_untouched]|].
  bool_to_prop. subst n. destruct v as [v|]; cbn in *; [|lia].
  apply wp_receive_file; [done| |done|].
  - split.
    + unfold request_of. rewrite Hc. cbn. rewrite Hsep. cbn. rewrite Escan.
      assert ((0 <=? v) = true) as -> by (apply Z.leb_le; lia). done.
    + destruct Ho1 as [<- _]. done.
  - rewrite length_app, length_insert. unfold payload_of.
    rewrite length_take, length_drop. lia.
Qed.

Lemma wp_copy_file_end : wp (copy_file E fuel buf origin) copy_post copy_end w0.
Proof using Hbuf.
  assert (opening w0) as Hw0 by (split; [done|by exists []]).
  unfold copy_file. wp_step. apply wp_setup_socket; [done|]. intros w1 [r sock] Hw1.
  wp_step; [wp_step; left; split; [done|by apply opening_untouched]|].
  destruct (buf !! O) as [cmd|] eqn:Hcmd; [|apply lookup_ge_None in Hcmd; exfalso; size_lia].
  destruct (get_seq_num_Some buf) as (seq & Hseq & _); [size_lia|]. rewrite Hseq.
  do 4 wp_step. wp_step; [apply wp_deny; [done|done|by left]|].
  wp_step. apply wp_defined; [|intros Hn; apply untouched_crash; [done|by apply rc_unterminated]].
  intros str Hc. pose proof Hc as [Hs [rest Hp]]%cstr_Some.
  destruct (strchr str c_bar) as [sep|] eqn:Hsep; [by eapply wp_copy_file_parsed|].
  apply wp_deny; [done|done|by left].
Qed.

(** The process ends without success and has done nothing of note. *)
Definition refused_end (b : stop) w : Prop := b ≠ SExit 0 ∧ untouched w.

Lemma copy_end_refused b w : copy_end b w → untouched w → refused_end b w.
Proof. intros [_ Hb] Hw. split; [|done]. intros ->. done. Qed.

(** A packet that is neither a WRQ nor numbered 0 is not a request. *)
Lemma wp_copy_file_header c s :
  buf !! O = Some c → c ≠ CMD_WRQ → get_seq_num buf = Some s → s ≠ 0 →
  wp (copy_file E fuel buf origin) (λ code w', code ≠ 0 ∧ untouched w') refused_end w0.
Proof using Hbuf.
  intros Hc Hc' Hs Hs'. assert (opening w0) as Hw0 by (split; [done|by exists []]).
  unfold copy_file. wp_step. apply wp_setup_socket; [done|]. intros w1 [r sock] Hw1.
  wp_step; [wp_step; split; [done|by apply opening_untouched]|]. rewrite Hc, Hs. do 4 wp_step.
  rewrite (proj2 (Z.eqb_neq _ _) Hc'), (proj2 (Z.eqb_neq _ _) Hs'). cbn [andb negb].
  eapply wp_mono; [apply wp_deny_untouched; [done|by left]|..].
  - by intros code w' [-> ?].
  - intros b w' []. by apply copy_end_refused.
Qed.

(** Nor is one without a name and a size. *)
Lemma wp_copy_file_no_request :
  request_of buf = None →
  wp (copy_file E fuel buf origin) (λ code w', code ≠ 0 ∧ untouched w') refused_end w0.
Proof using Hbuf.
  intros Hno. eapply wp_mono; [apply wp_copy_file_end|..].
  - intros code w' [?|(name & size & [Hreq _] & _)]; [done|congruence].
  - intros b w' He. apply copy_end_refused; [done|].
    destruct He as [[?|(name & size & [Hreq _] & _)] _]; [done|congruence].
Qed.

Lemma wp_copy_file : wp (copy_file E fuel buf origin) copy_post copy_stop w0.
Proof using Hbuf. eapply wp_mono; [apply wp_copy_file_end|done|]. by intros b w' []. Qed.
End copy_file.
