(* ===== verification/Samples.v ===== *)
(** * Samples: concrete systems and packets

    Small systems on which the theorems are applied and the programs
    evaluated.  None of the general results depends on them. *)
From S2P Require Import Prelude CMonad CLib Packet FtpWorld NetOps.

(** A little-endian host. *)
Definition sample_host : Host := Little.

(** A system where memory, files and sockets are always available, [clock]
    tells the time and [net] is what arrives. *)
Definition sample_env (clock : nat → Z) (net : nat → recv_result) : env := {|
  e_time := clock;
  e_recv := net;
  e_send := λ _, None;
  e_oom := λ _, false;
  e_junk := λ _ _, 170;
  e_slack := λ _, 8%nat;
  e_fopen := λ _, None;
  e_fwrite := λ _, 65536;
  e_socket := λ _, 3;
  e_bind := λ _, 0;
  e_fork := λ _, 0;
  e_wait := λ _, (0, OtherStatus);
  e_errno := λ _, 1;
|}.

(** Eight calls a second. *)
Definition sample_clock (k : nat) : Z := Z.of_nat k / 8.

Definition sample_peer : sockaddr_in := mkAddr 2130706433 40000.
Definition sample_origin : EndPoint := mkEndPoint sample_peer.

(** A packet in a receive buffer that was zeroed before. *)
Definition in_buffer (d : list Z) : list Z :=
  d ++ replicate (Z.to_nat PACKET_SIZE - length d) 0.

(** A directory with one file in it. *)
Definition sample_world : world :=
  mkWorld 0 0 [] {[ bytes_of_string "old" := bytes_of_string "kept" ]} [] [].

(** Packets [first] until call [n], packets [second] from then on. *)
Definition net_then (n : nat) (first second : recv_result) (k : nat) : recv_result :=
  if decide (k < n)%nat then first else second.

Definition data_abc : recv_result :=
  RecvFrom (pkt CMD_DATA 1 (bytes_of_string "abc")) sample_peer.
Definition fin : recv_result := RecvFrom (pkt CMD_FIN 0 []) sample_peer.
Definition nothing : recv_result := RecvErr EAGAIN.

(** What a client sees of a server that accepts a one-packet file. *)
Definition ack (n : Z) : recv_result := RecvFrom (pkt CMD_ACK n []) sample_peer.
Definition acks_then_finack (k : nat) : recv_result :=
  if decide (k < 10)%nat then ack 1
  else if decide (k mod 3 = 0)%nat then nothing
  else if decide (k < 400)%nat then ack 2
  else RecvFrom (pkt CMD_FINACK 0 []) sample_peer.
(** A fast machine: a thousand calls a second. *)
Definition fast_clock (k : nat) : Z := Z.of_nat k / 1000.
