(* ===== verification/PrintPacket.v ===== *)
(** * PrintPacket: the trace of packets that [-d] switches on

    [print_packet] of [ftpclient/srtp_common.h].  It is not part of the
    processes of [FtpServer] and [FtpClient]: it changes nothing but the
    standard error output.  What matters is that its four fixed arrays are
    large enough, and that the line tells what the packet says.  [None] is a
    read or a store outside an array. *)
From S2P Require Import Prelude CMonad CLib Packet Samples FtpWorld.

Inductive PKTDIR : Type := SEND | RECV.

(** The fields of [struct tm] that are printed. *)
Record tm : Type := mkTm { tm_hour : Z; tm_min : Z; tm_sec : Z }.

Definition c_colon : Z := 58.
Definition c_dot : Z := 46.
Definition c_newline : Z := 10.

(** The conversion [%u]. *)
Definition format_u (n : Z) : list Z := dec 10 n.

Definition two_digits (n : Z) : list Z := [48 + n / 10; 48 + n mod 10].

(** [strftime(timestr, n, "%H:%M:%S", t)] into an array of zeros: without
    room for the text and its terminator nothing is stored. *)
Definition strftime_hms (n : nat) (t : tm) : list Z :=
  let s := two_digits (tm_hour t) ++ [c_colon] ++ two_digits (tm_min t) ++ [c_colon] ++
           two_digits (tm_sec t) in
  if decide (length s < n)%nat then s else [].

(** [strncpy(dst, s, n)] into an array of [n] bytes, as a later [%s] reads
    it: without a terminator it has no value. *)
Definition strncpy_whole (n : nat) (s : list Z) : option (list Z) :=
  if decide (length s < n)%nat then Some s else None.

Section print.
Context `{Host} (localtime : Z → tm).

(** The bytes of [s_addr] in memory. *)
Definition in_addr_bytes (a : Z) : list Z :=
  let b := [u8 a; u8 (a / 256); u8 (a / 65536); u8 (a / 16777216)] in
  match byte_order with Little => b | Big => rev b end.

Definition inet_ntoa (a : Z) : list Z :=
  match format_u <$> in_addr_bytes a with
  | b :: bs => b ++ concat ((λ x, c_dot :: x) <$> bs)
  | [] => []
  end.

(** The debug flag, the process id and the time are those of the call. *)
Definition print_packet (debug : bool) (getpid rawtime : Z) (addr_local addr_remote : sockaddr_in)
    (pktbuffer : list Z) (dir : PKTDIR) : option (list Z) :=
  if debug then
    let arrow := match dir with SEND => 60 | RECV => 62 end in
    let timestr := strftime_hms 32 (localtime rawtime) in
    str_remote ← strncpy_whole 32 (inet_ntoa (sin_addr addr_remote));
    str_local ← strncpy_whole 32 (inet_ntoa (sin_addr addr_local));
    command ← pktbuffer !! O;
    seq ← get_seq_num pktbuffer;
    len ← GETLEN pktbuffer;
    Some ((bytes_of_string "[" ++ format_u getpid ++ bytes_of_string "] " ++ timestr ++
      bytes_of_string " | " ++ str_remote ++ [c_colon] ++
      format_u (ntohs (sin_port addr_remote)) ++ [32; arrow; 32] ++ command2str command ++
      [32; arrow; 32] ++ str_local ++ [c_colon] ++ format_u (ntohs (sin_port addr_local))) ++
      bytes_of_string " | seq=" ++ format_u seq ++ bytes_of_string " len=" ++ format_u len ++
      [c_newline])
  else Some [].

(** ** Lengths *)
Lemma length_dec_digits fuel k n :
  (0 < k)%nat → 0 ≤ n < 10 ^ Z.of_nat k → (length (dec fuel n) ≤ k)%nat.
Proof.
  revert k n. induction fuel as [|fuel IH]; intros k n Hk Hn; cbn [dec length]; [lia|].
  destruct (n <? 10) eqn:Hlt; bool_to_prop; [cbn; lia|].
  destruct k as [|[|k]]; [lia|change (10 ^ Z.of_nat 1) with 10 in Hn; lia|].
  replace (Z.of_nat (S (S k))) with (1 + Z.of_nat (S k)) in Hn by lia.
  rewrite Z.pow_add_r, Z.pow_1_r in Hn by lia.
  rewrite length_app. cbn [length]. specialize (IH (S k) (n / 10) ltac:(lia) ltac:(lia)). lia.
Qed.

Lemma length_format_byte b : (length (format_u (u8 b)) ≤ 3)%nat.
Proof.
  apply length_dec_digits; [lia|]. pose proof (u8_range b). unfold is_byte in *.
  change (10 ^ Z.of_nat 3) with 1000. lia.
Qed.

Lemma length_format_u16 n : 0 ≤ n < 65536 → (length (format_u n) ≤ 5)%nat.
Proof. intros Hn. apply length_dec_digits; [lia|]. change (10 ^ Z.of_nat 5) with 100000. lia. Qed.

Lemma length_inet_ntoa a : (length (inet_ntoa a) ≤ 15)%nat.
Proof.
  unfold inet_ntoa, in_addr_bytes.
  assert (∀ b1 b2 b3 b4 : list Z, (length b1 ≤ 3 → length b2 ≤ 3 → length b3 ≤ 3 → length b4 ≤ 3 →
    length (b1 ++ concat ((λ x, c_dot :: x) <$> [b2; b3; b4])) ≤ 15)%nat) as Hjoin.
  { intros b1 b2 b3 b4 ? ? ? ?. rewrite length_app, length_concat. cbn. lia. }
  destruct byte_order; apply Hjoin; apply length_format_byte.
Qed.

Lemma strftime_fits t : length (strftime_hms 32 t) = 8%nat.
Proof. unfold strftime_hms. rewrite decide_True by (cbn; lia). done. Qed.

Lemma length_command2str c : (length (command2str c) ≤ 12)%nat.
Proof.
  unfold command2str. pose proof (length_dec 10 (u8 c)). destruct (MAX_CMD_VALUE <? u8 c).
  - rewrite !length_app. change (length (bytes_of_string "?")) with 1%nat. lia.
  - destruct (command_strings !! _) as [s|] eqn:Hs; cbn; [|lia].
    apply list_elem_of_lookup_2 in Hs. revert s Hs. apply Forall_forall.
    apply (bool_decide_unpack _). vm_compute. exact I.
Qed.

(** The trace is safe: whatever bytes follow the header, whatever the
    command and the addresses, the text of the time, both addresses and the
    command fit their arrays, the line has at most 120 bytes, and it ends with
    the sequence number and the length of the packet.  Without [-d] nothing
    is printed. *)
Theorem print_packet_bounded pid now addr_local addr_remote c s pl rest dir :
  Z.of_nat (length pl) < 65536 →
  print_packet false pid now addr_local addr_remote (pkt c s pl ++ rest) dir = Some [] ∧
  ∃ line, let text := line ++ bytes_of_string " | seq=" ++ format_u (u16 s) ++
      bytes_of_string " len=" ++ format_u (Z.of_nat (length pl)) ++ [c_newline] in
    print_packet true pid now addr_local addr_remote (pkt c s pl ++ rest) dir = Some text ∧
    (length text ≤ 120)%nat.
Proof.
  intros Hl. split; [done|]. unfold print_packet.
  unfold strncpy_whole. pose proof (length_inet_ntoa (sin_addr addr_remote)) as Hr.
  pose proof (length_inet_ntoa (sin_addr addr_local)) as Hlo.
  rewrite !decide_True by lia. rewrite pkt_cmd, pkt_seq, pkt_len by done. cbn [mbind option_bind].
  eexists. split; [reflexivity|].
  pose proof (length_command2str (u8 c)) as Hc.
  pose proof (length_format_u16 (u16 s) (u16_range s)) as Hs.
  pose proof (length_format_u16 (Z.of_nat (length pl)) ltac:(lia)) as Hn.
  pose proof (length_format_u16 _ (ntohs_range (sin_port addr_remote))) as Hpr.
  pose proof (length_format_u16 _ (ntohs_range (sin_port addr_local))) as Hpl.
  pose proof (length_dec 10 pid : length (format_u pid) ≤ 10)%nat as Hpid.
  pose proof (strftime_fits (localtime now)) as Ht.
  repeat rewrite length_app. cbn [length bytes_of_string]. lia.
Qed.
End print.

(** In UTC. *)
Definition sample_localtime (t : Z) : tm := mkTm (t / 3600 mod 24) (t / 60 mod 60) (t mod 60).

Lemma print_packet_bounded_witness :
  @print_packet sample_host sample_localtime true 4711 3723 (mkAddr 16777343 20480) (mkAddr 16777343 16415)
    (pkt CMD_DATA 7 (bytes_of_string "abc")) RECV =
  Some (bytes_of_string "[4711] 01:02:03 | 127.0.0.1:8000 > DAT > 127.0.0.1:80 | seq=7 len=3" ++ [10]) ∧
  ∃ line, @print_packet sample_host sample_localtime true 4711 3723 (mkAddr 16777343 20480)
      (mkAddr 16777343 16415) (pkt CMD_DATA 7 (bytes_of_string "abc") ++ [9]) RECV =
    Some (line ++ bytes_of_string " | seq=" ++ [55] ++ bytes_of_string " len=" ++ [51] ++ [10]).
Proof.
  split; [reflexivity|].
  destruct (@print_packet_bounded sample_host sample_localtime 4711 3723 (mkAddr 16777343 20480)
    (mkAddr 16777343 16415) CMD_DATA 7 (bytes_of_string "abc") [9] RECV) as [_ [line [Hp _]]].
  - vm_compute. reflexivity.
  - exists line. exact Hp.
Defined.
