(* ===== verification/Debug.v ===== *)
(** * Debug: the debug output of both programs and of the library

    [debug] of [srtp/srtp_debug.cpp] and [d] of [ftpclient/srtp_common.h] hand
    a format and its arguments to [vfprintf].  They change nothing but the
    standard error output, and are not part of the processes; but a
    conversion without a fitting argument has no defined meaning, so that the
    formats of all statements matter.  [None] is undefined behaviour. *)
From S2P Require Import Prelude CLib PrintPacket.

(** An argument after the format: an [int] or narrower, or a string. *)
Inductive varg : Type := VInt (n : Z) | VStr (s : list Z).

Definition c_percent : Z := 37.
Definition c_d : Z := 100.
Definition c_u : Z := 117.
Definition c_s : Z := 115.

(** One conversion of an argument. *)
Definition convert (c : Z) (arg : varg) : option (list Z) :=
  match arg with
  | VInt n => if c =? c_d then Some (format_ld n)
              else if c =? c_u then Some (format_u (u32 n)) else None
  | VStr s => if c =? c_s then Some s else None
  end.

(** [vfprintf], for the conversions that the sources use. *)
Fixpoint vfprintf (format : list Z) (args : list varg) : option (list Z) :=
  match format with
  | [] => Some []
  | c :: format =>
      if c =? c_percent then
        match format, args with
        | k :: format, arg :: args =>
            text ← convert k arg;
            rest ← vfprintf format args;
            Some (text ++ rest)
        | _, _ => None
        end
      else rest ← vfprintf format args; Some (c :: rest)
  end.

(** [SRTP_DEBUG] is whether the macro is defined. *)
Definition debug (SRTP_DEBUG : bool) (format : list Z) (args : list varg) : option (list Z) :=
  if SRTP_DEBUG then vfprintf format args else Some [].

Definition _debug (format : list Z) (args : list varg) : option (list Z) :=
  text ← vfprintf format args; Some (bytes_of_string "Debug: " ++ text).

(** The argument [debug] is the global of this name, set by [-d]. *)
Definition d (debug : bool) (format : list Z) (args : list varg) : option (list Z) :=
  if debug then _debug format args else Some [].

(** ** Formats and the types of their arguments *)
Inductive vtype : Type := TInt | TStr.
#[export] Instance vtype_eq_dec : EqDecision vtype.
Proof. solve_decision. Defined.

Definition type_of (arg : varg) : vtype := match arg with VInt _ => TInt | VStr _ => TStr end.
Definition converts (c : Z) (t : vtype) : bool :=
  match t with TInt => (c =? c_d) || (c =? c_u) | TStr => c =? c_s end.

(** There may be more arguments than conversions. *)
Fixpoint fits (format : list Z) (types : list vtype) : bool :=
  match format with
  | [] => true
  | c :: format =>
      if c =? c_percent then
        match format, types with
        | k :: format, t :: types => converts k t && fits format types
        | _, _ => false
        end
      else fits format types
  end.

Lemma convert_converts c arg : is_Some (convert c arg) ↔ converts c (type_of arg) = true.
Proof.
  destruct arg; cbn; repeat case_match; cbn; split; (done || by eauto || by intros []).
Qed.

Lemma is_Some_bind {A B} (x : option A) (f : A → option B) :
  is_Some (x ≫= f) ↔ ∃ a, x = Some a ∧ is_Some (f a).
Proof. destruct x as [a|]; cbn; split; [eauto|by intros (? & [= <-] & ?)|by intros []|naive_solver]. Qed.

(** A statement has a meaning exactly when its arguments have the types of
    its conversions. *)
Lemma vfprintf_fits format args : is_Some (vfprintf format args) ↔ fits format (type_of <$> args) = true.
Proof.
  remember (length format) as n eqn:Hn. assert (length format ≤ n)%nat as Hle by lia. clear Hn.
  revert format args Hle. induction n as [|n IH]; intros [|c format] args Hle; cbn in *; try done; try lia.
  destruct (c =? c_percent).
  - destruct format as [|k format], args as [|arg args]; cbn; try (split; [by intros []|done]).
    rewrite is_Some_bind, andb_true_iff, <- convert_converts, <- IH by (cbn in *; lia). split.
    + intros (text & -> & [rest [-> _]]%is_Some_bind). by split; eexists.
    + intros [[text ->] [rest ->]]. exists text. by split; [|eexists].
  - rewrite is_Some_bind, <- IH by lia. split; [intros (rest & -> & _); by eexists|].
    intros [rest ->]. exists rest. by split; [|eexists].
Qed.

(** ** The statements of the sources

    Each with its line, its format without the newline at the end, and the
    types of its arguments. *)

(** [debug] in [srtp/srtp_impl.cpp]. *)
Definition srtp_statements : list (Z * list Z * list vtype) :=
  [(315, bytes_of_string "[pkt_invalid] PKT_INVALID_LEN(%u)", [TInt]);
   (319, bytes_of_string "[pkt_invalid] PKT_INVALID_CMD(%u)", [TInt]);
   (327, bytes_of_string "[pkt_set_payload] PKT_INVALID_LEN(%u)", [TInt]);
   (338, bytes_of_string "[pkt_set_payload] PKT_INVALID_LEN(%u)", [TInt]);
   (418, bytes_of_string "[server_proxy]: listing to port %d on socket %d", [TInt; TInt]);
   (426, bytes_of_string "[server_proxy]: new datagram from %s", [TInt]);
   (430, bytes_of_string "[server_proxy]: datagram was unique, creating conection", []);
   (452, bytes_of_string "[server_proxy]: datagram contained %d bytes", [TInt]);
   (456, bytes_of_string "[server_proxy]: server shutting down", []);
   (472, bytes_of_string "[client_proxy]: sending %d bytes", [TInt]);
   (482, bytes_of_string "[client_proxy]: client proxy shutting down", []);
   (523, bytes_of_string "[socket]: new srtp socket %d -> %s", [TInt; TStr]);
   (536, bytes_of_string "[listen]: invalid SRTP socket", []);
   (546, bytes_of_string "[listen]: invalid ip address", []);
   (552, bytes_of_string "[listen]: binding failed", []);
   (558, bytes_of_string "[listen]: detaching worker thread", []);
   (568, bytes_of_string "[bind]: invalid SRTP socket", []);
   (573, bytes_of_string "[bind]: invalid ip address", []);
   (590, bytes_of_string "[accept]: invalid SRTP socket", []);
   (610, bytes_of_string "[accept]: accepted new connection from xxx", []);
   (619, bytes_of_string "[connect]: invalid SRTP socket", []);
   (624, bytes_of_string "[connect]: invalid IP address", []);
   (632, bytes_of_string "[connect]: connect failed", []);
   (640, bytes_of_string "[connect]: establishing connection to xxx...", []);
   (648, bytes_of_string "[connect]: failed.", []);
   (653, bytes_of_string "[connect]: Done.", []);
   (657, bytes_of_string "[connect]: detaching client worker thread", []);
   (673, bytes_of_string "[close]: closing socket %d", [TInt]);
   (694, bytes_of_string "[close]: socket %d closed", [TInt])].

(** [d] in [ftpclient/ftpclient.c]. *)
Definition client_statements : list (Z * list Z * list vtype) :=
  [(45, bytes_of_string "Sending request", []);
   (63, bytes_of_string "Request accepted", []);
   (168, bytes_of_string "Received unknown packet command", []);
   (172, bytes_of_string "closing connection", []);
   (197, bytes_of_string "File transfer complete", []);
   (259, bytes_of_string "Port OK: %d", [TInt]);
   (265, bytes_of_string "File opened successfully", []);
   (276, bytes_of_string "getaddrinfo() successful", []);
   (282, bytes_of_string "Bound successfully", []);
   (285, bytes_of_string "Exiting without errors", [])].

(** [d] in [ftpclient/ftpserver.c]. *)
Definition server_statements : list (Z * list Z * list vtype) :=
  [(42, bytes_of_string "Child process opening ephemeral port %d", [TInt]);
   (46, bytes_of_string "Request was not of valid format", []);
   (60, bytes_of_string "Missing file size", []);
   (80, bytes_of_string "Valid request recieved: '%s'", [TStr]);
   (84, bytes_of_string "Given file '%s' already exists", [TStr]);
   (97, bytes_of_string "Given size invalid", []);
   (142, bytes_of_string "deleting partial file: %s", [TStr]);
   (165, bytes_of_string "Writing to local file failed", []);
   (169, bytes_of_string "Excess data recieved, deleting file", []);
   (175, bytes_of_string "Deleting uncomplete file: %s", [TStr]);
   (196, bytes_of_string "File transfer complete", []);
   (227, bytes_of_string "Waiting for connection", [TInt]);
   (233, bytes_of_string "Empty message received", []);
   (241, bytes_of_string "Unable to service request, ignoring", []);
   (250, bytes_of_string "Recieved request, forked off responder (PID %d)", [TInt]);
   (276, bytes_of_string "Child %d exited with status %d", [TInt; TInt]);
   (278, bytes_of_string "Child %d exited normally", [TInt]);
   (317, bytes_of_string "Port valid: %d", [TInt]);
   (324, bytes_of_string "Socket created successfully", [])].

(** [d] in [ftpclient/srtp_common.h]. *)
Definition common_statements : list (Z * list Z * list vtype) :=
  [(141, bytes_of_string "Socket fd: %d", [TInt]);
   (173, bytes_of_string "losing this packet!", []);
   (223, bytes_of_string "Discarding foreign packet", []);
   (242, bytes_of_string "Connection timed out", [])].

Definition well_typed (x : Z * list Z * list vtype) : bool :=
  fits (x.1.2 ++ [c_newline]) x.2.


