(* ===== verification/ServerPaths.v ===== *)
(** * ServerPaths: how the server turns requests down, and where it breaks

    The error paths of the request handler, branch by branch, and the inputs
    on which it runs into undefined behaviour. *)
From S2P Require Import Prelude CMonad CLib Packet FtpWorld NetOps FtpServer ServerSpec Samples.
Import Server.

(** The name the server opens for the request text [str], cut at [sep]. *)
Definition base_name (str : list Z) (sep : nat) : list Z :=
  match strrchr str c_slash with
  | None => take sep str
  | Some i => if decide (i < sep)%nat then drop (S i) (take sep str) else drop (S i) str
  end.

(** The test the server applies to the header of a request. *)
Definition taken_as_request `{Host} (buf : list Z) : Prop :=
  buf !! O = Some CMD_WRQ ∨ get_seq_num buf = Some 0.

(** The refusals: the reply, if there is one, and the exit status. *)
Inductive refused `{Host} (buf : list Z) (files : gmap (list Z) (list Z)) : option Z → Z → Prop :=
| refused_header c s :
    buf !! O = Some c → c ≠ CMD_WRQ → get_seq_num buf = Some s → s ≠ 0 →
    refused buf files (Some CMD_BADREQ) BAD_REQUEST
| refused_no_size str :
    taken_as_request buf → cstr (payload_of buf) = Some str → strchr str c_bar = None →
    refused buf files (Some CMD_BADREQ) BAD_REQUEST
| refused_exists str sep :
    taken_as_request buf → cstr (payload_of buf) = Some str → strchr str c_bar = Some sep →
    is_Some (files !! base_name str sep) →
    refused buf files (Some CMD_EXISTS) FILE_EXISTS
| refused_size str sep :
    taken_as_request buf → cstr (payload_of buf) = Some str → strchr str c_bar = Some sep →
    files !! base_name str sep = None →
    (∀ v, sscanf_ld_c (drop (S sep) str) = (1, Some v) → v < 0) →
    refused buf files None BAD_REQUEST.

Section paths.
Context `{Host} (E : env) (fuel : nat) (origin : EndPoint) (buf : list Z).
Implicit Types (w : world).

(** A system with memory and sockets whose allocator rounds blocks up. *)
Record healthy : Prop := {
  healthy_memory k : e_oom E k = false;
  healthy_slack k : (1 ≤ e_slack E k)%nat;
  healthy_socket k : e_socket E k ≠ -1;
  healthy_bind k : e_bind E k ≠ -1;
  healthy_send k : e_send E k = None;
}.

(** [w'] is [w] after some calls and the events [evs], newest first. *)
Definition after w (evs : list event) w' : Prop := fs w' = fs w ∧ trace w' = evs ++ trace w.

Lemma after_quiet w evs w1 w2 : after w evs w1 → quiet w1 w2 → after w evs w2.
Proof. unfold after. intros [<- <-] (_ & -> & ->). done. Qed.

Lemma wp_setup_socket_ok port Q X w :
  (∀ k, e_socket E k ≠ -1) → (∀ k, e_bind E k ≠ -1) →
  (∀ w' sock, after w [EvBind (htons port)] w' → Q (0, sock) w') →
  wp (setup_socket E port) Q X w.
Proof.
  intros Hs Hb HQ. unfold setup_socket, socket, bind.
  do 2 wp_step. apply wp_call. intros w1 (_ & Ht1 & Hf1).
  rewrite (proj2 (Z.eqb_neq _ _) (Hs _)). wp_step.
  rewrite (proj2 (Z.eqb_neq _ _) (Hs _)).
  do 2 wp_step. apply wp_call. intros w2 (_ & Ht2 & Hf2).
  rewrite (proj2 (Z.eqb_neq _ _) (Hb _)).
  do 2 wp_step. wp_step. cbn [Z.eqb]. wp_step. apply HQ. split; cbn; congruence.
Qed.

Lemma wp_deny_ok cmd code evs w0 Q X w :
  (∀ k, e_oom E k = false) → (∀ k, e_send E k = None) → after w0 evs w →
  (∀ w', after w0 (EvSend (addr origin) (pkt cmd 0 []) :: evs) w' → Q code w') →
  wp (deny E origin cmd code) Q X w.
Proof.
  intros Ho Hs Hw HQ. unfold deny, create_packet. rewrite !(u16_id 0) by lia.
  do 2 wp_step. apply wp_malloc_ok; [done|]. intros w1 b k Hw1 Hb. do 2 wp_step. cbn [fst].
  rewrite fill_packet_empty by done. wp_step.
  unfold send_packet. do 2 wp_step. rewrite <- (app_nil_r (pkt _ _ _)), pkt_len by done. wp_step.
  cbn [app length Z.of_nat]. wp_step; [bool_to_prop; rewrite length_app, length_pkt in *; cbn in *; size_lia|].
  unfold sendto. do 2 wp_step. apply wp_call. intros w2 Hw2. rewrite Hs.
  do 2 wp_step. rewrite app_nil_r, take_ge by done. rewrite !length_pkt. cbn. apply HQ.
  destruct (after_quiet _ _ _ _ (after_quiet _ _ _ _ Hw Hw1) Hw2) as [Hf Ht].
  split; cbn; congruence.
Qed.

Lemma wp_header_ok Q X w (rest : P Z) :
  taken_as_request buf → length buf = Z.to_nat PACKET_SIZE → wp rest Q X w →
  wp (cmd ← defined OutOfBounds (buf !! O);
      seq ← defined OutOfBounds (get_seq_num buf);
      if negb (cmd =? CMD_WRQ) && negb (seq =? 0) then deny E origin CMD_BADREQ BAD_REQUEST
      else rest) Q X w.
Proof.
  intros Ht Hb Hr.
  destruct (buf !! O) as [cmd|] eqn:Hcmd; [|apply lookup_ge_None in Hcmd; exfalso; size_lia].
  destruct (get_seq_num_Some buf) as (seq & Hseq & _); [size_lia|]. rewrite Hseq.
  do 4 wp_step.
  assert (negb (cmd =? CMD_WRQ) && negb (seq =? 0) = false) as ->; [|done].
  destruct Ht as [Ht|Ht]; simplify_eq; [done|].
  by rewrite Z.eqb_refl, andb_false_r.
Qed.

Lemma wp_copy_name_ok str rest sep Q X w :
  (∀ k, e_oom E k = false) → (∀ k, (1 ≤ e_slack E k)%nat) →
  payload_of buf = str ++ NUL :: rest → Forall (λ c, c ≠ NUL) str →
  strchr str c_bar = Some sep →
  (∀ w', quiet w w' → Q (base_name str sep) w') →
  wp (copy_name E (<[sep := NUL]> (payload_of buf)) (strrchr str c_slash)) Q X w.
Proof.
  intros Ho Hsl Hp Hs Hsep HQ. unfold base_name in HQ.
  unfold copy_name, malloc.
  destruct (strrchr str c_slash) as [i|] eqn:Hi.
  - erewrite cut_base by done. do 4 wp_step. apply wp_call. intros w1 Hw1.
    rewrite Ho. do 3 wp_step. cbn [fst snd].
    wp_step; wp_step; [|by apply HQ]. bool_to_prop. exfalso.
    rewrite !length_fmap, length_seq in *. specialize (Hsl (tick w)). lia.
  - erewrite cut_name by done. do 4 wp_step. apply wp_call. intros w1 Hw1.
    rewrite Ho. do 4 wp_step. by apply HQ.
Qed.
End paths.

Section theorems.
Context `{Host} (E : env) (fuel : nat) (origin : EndPoint) (buf : list Z).

Lemma wp_refused reply code w :
  healthy E → length buf = Z.to_nat PACKET_SIZE → refused buf (fs w) reply code →
  wp (copy_file E fuel buf origin)
    (λ code' w', code' = code ∧
      after w ((match reply with
                | Some c => [EvSend (addr origin) (pkt c 0 [])] | None => [] end) ++ [EvBind 0]) w')
    (λ _ _, False) w.
Proof.
  intros [Ho Hsl Hso Hbi Hse] Hb Href. unfold copy_file. wp_step.
  apply wp_setup_socket_ok; [done..|]. intros w1 sock Hw1.
  assert (htons 0 = 0) as H0 by (unfold htons; by destruct byte_order). rewrite H0 in Hw1.
  cbn [Z.eqb negb].
  destruct Href as [c s Hc Hc' Hs Hs'|str Ht Hstr Hbar|str sep Ht Hstr Hbar Hex|
    str sep Ht Hstr Hbar Hnew Hbad].
  - rewrite Hc, Hs. do 4 wp_step.
    rewrite (proj2 (Z.eqb_neq _ _) Hc'), (proj2 (Z.eqb_neq _ _) Hs'). cbn [andb negb].
    eapply wp_deny_ok; [done..|]. intros w2 Hw2. done.
  - apply wp_header_ok; [done..|]. rewrite Hstr. do 2 wp_step. rewrite Hbar.
    eapply wp_deny_ok; [done..|]. intros w2 Hw2. done.
  - apply wp_header_ok; [done..|]. rewrite Hstr. do 2 wp_step. rewrite Hbar.
    pose proof Hstr as [Hnul [rest Hp]]%cstr_Some.
    wp_step. eapply wp_copy_name_ok; [done..|]. intros w2 Hw2.
    pose proof (after_quiet _ _ _ _ Hw1 Hw2) as Hw2'.
    wp_step. apply wp_access; [|intros ? _ Hn; destruct Hw2' as [Hf _], Hex; rewrite Hf in Hn; congruence].
    intros w3 Hw3 _. cbn [Z.eqb negb Pos.eqb].
    eapply wp_deny_ok; [done|done|by eapply after_quiet|]. intros w4 Hw4. done.
  - apply wp_header_ok; [done..|]. rewrite Hstr. do 2 wp_step. rewrite Hbar.
    pose proof Hstr as [Hnul [rest Hp]]%cstr_Some.
    wp_step. eapply wp_copy_name_ok; [done..|]. intros w2 Hw2.
    pose proof (after_quiet _ _ _ _ Hw1 Hw2) as Hw2'.
    wp_step. apply wp_access; [intros ? _ [? Hn]; destruct Hw2' as [Hf _]; rewrite Hf in Hn; congruence|].
    intros w3 Hw3 _ _. cbn [Z.eqb negb Pos.eqb].
    erewrite cut_size by done. do 2 wp_step.
    destruct (sscanf_ld_c (drop (S sep) str)) as [n v].
    wp_step; [wp_step; split; [done|by eapply after_quiet]|].
    bool_to_prop. subst n. exfalso. destruct v as [v|]; cbn in *; [|lia].
    specialize (Hbad v eq_refl). lia.
Qed.


(** The copy of the file name overflows its block: for every request
    whose text has a slash, [strncpy] pads one byte past what was asked of
    [malloc], so that an allocator that adds nothing to the block sees a
    write past its end. *)
Theorem slash_overflows_heap str sep w :
  (∀ k, e_oom E k = false) → (∀ k, e_socket E k ≠ -1) → (∀ k, e_bind E k ≠ -1) →
  (∀ k, e_slack E k = O) →
  length buf = Z.to_nat PACKET_SIZE → taken_as_request buf →
  cstr (payload_of buf) = Some str → strchr str c_bar = Some sep → c_slash ∈ str →
  ∃ w', copy_file E fuel buf origin w = (Stop (SCrash HeapOverflow), w').
Proof.
  intros Ho Hso Hbi Hsl Hb Ht Hstr Hbar Hin.
  assert (wp (copy_file E fuel buf origin) (λ _ _, False)
    (λ b _, b = SCrash HeapOverflow) w) as Hw.
  { unfold copy_file. wp_step. apply wp_setup_socket_ok; [done..|]. intros w1 sock _.
    cbn [Z.eqb negb]. apply wp_header_ok; [done..|]. rewrite Hstr. do 2 wp_step. rewrite Hbar.
    pose proof Hstr as [Hnul [rest Hp]]%cstr_Some.
    wp_step. unfold copy_name, malloc.
    destruct (strrchr str c_slash) as [i|] eqn:Hi; [|by apply strrchr_None in Hi].
    erewrite cut_base by done. do 4 wp_step. apply wp_call. intros w2 _.
    rewrite Ho. do 3 wp_step. cbn [fst snd]. rewrite Hsl.
    wp_step; wp_step; [done|]. bool_to_prop. exfalso.
    rewrite !length_fmap, length_seq in *. lia. }
  unfold wp in Hw. destruct (copy_file _ _ _ _ _) as [[|b] w']; [done|]. subst b. by exists w'.
Qed.

(** The length field of a data packet is trusted: a packet with the
    expected sequence number whose header claims more than the 2043 bytes a
    payload has makes the server acknowledge it and then write to the file
    from memory past the receive buffer. *)
Theorem data_length_trusted filename filesize (l : locals) n w :
  (∀ k, e_oom E k = false) →
  length (buffer l) = Z.to_nat PACKET_SIZE →
  get_seq_num (buffer l) = Some (expected_sequence l) →
  GETLEN (buffer l) = Some n → PAYLOAD_SIZE < n → 0 ≤ read l ≤ LONG_MAX - 65535 →
  ∃ w', on_data E origin filename filesize l w = (Stop (SCrash OutOfBounds), w') ∧
    fs w' = fs w.
Proof.
  intros Ho Hb Hseq Hlen Hn Hread.
  assert (n < 65536) as Hn'.
  { destruct (GETLEN_Some (buffer l)) as (? & ? & ?); [size_lia|]. simplify_eq. lia. }
  assert (wp (on_data E origin filename filesize l) (λ _ _, False)
    (λ b w', b = SCrash OutOfBounds ∧ fs w' = fs w) w) as Hw.
  { unfold on_data. rewrite Hseq. do 2 wp_step. rewrite Z.eqb_refl. cbn [negb].
    wp_step. unfold create_packet. rewrite !(u16_id 0) by lia. wp_step.
    apply wp_malloc_ok; [done|]. intros w1 b k (_ & _ & Hf1) Hbl. do 2 wp_step. cbn [fst].
    rewrite fill_packet_empty by done. wp_step. wp_step.
    eapply (wp_send_packet_chatter _ (λ _, True)); [done..|]. intros w2 r (_ & Hf2 & _).
    rewrite Hlen. do 2 wp_step. wp_step. unfold add_long.
    assert ((LONG_MIN <=? read l + n) && (read l + n <=? LONG_MAX) = true) as ->
      by (apply andb_true_iff; rewrite !Z.leb_le; unfold LONG_MAX, LONG_MIN in *; size_lia).
    do 2 wp_step; wp_step; [split; [done|congruence]|]. bool_to_prop. exfalso.
    unfold payload_of in *. rewrite length_drop in *. size_lia. }
  unfold wp in Hw. destruct (on_data _ _ _ _ _ _) as [[|b] w']; [done|].
  destruct Hw as [-> Hf]. by exists w'.
Qed.
End theorems.

(** ** Witnesses *)

(** A request for a file the server has. *)
Definition old_request : list Z := in_buffer (pkt CMD_WRQ 0 (bytes_of_string "old|3")).


(** A file of the same directory, on a system that hands out exact blocks. *)
Definition exact_env : env := {|
  e_time := sample_clock;
  e_recv := λ _, nothing;
  e_send := λ _, None;
  e_oom := λ _, false;
  e_junk := λ _ _, 0;
  e_slack := λ _, 0%nat;
  e_fopen := λ _, None;
  e_fwrite := λ _, 65536;
  e_socket := λ _, 3;
  e_bind := λ _, 0;
  e_fork := λ _, 0;
  e_wait := λ _, (0, OtherStatus);
  e_errno := λ _, 1;
|}.

Lemma slash_overflows_heap_witness :
  ∃ w', @copy_file sample_host exact_env 10 (in_buffer (pkt CMD_WRQ 0 (bytes_of_string "./f|3")))
      sample_origin sample_world = (Stop (SCrash HeapOverflow), w').
Proof.
  apply (@slash_overflows_heap sample_host exact_env 10 sample_origin
    (in_buffer (pkt CMD_WRQ 0 (bytes_of_string "./f|3"))) (bytes_of_string "./f|3") 3 sample_world);
    try (intros k; cbn; (discriminate || reflexivity)); try reflexivity.
  - left. reflexivity.
  - apply list_elem_of_In. vm_compute. tauto.
Defined.

(** A data packet with number 1 that claims 65535 bytes. *)
Lemma data_length_trusted_witness :
  ∃ w', @on_data sample_host exact_env sample_origin (bytes_of_string "f") 70000
      (mkLocals (in_buffer [CMD_DATA; 0; 1; 255; 255]) 0 1) sample_world =
      (Stop (SCrash OutOfBounds), w') ∧
    fs w' = fs sample_world.
Proof.
  apply (@data_length_trusted sample_host exact_env sample_origin (bytes_of_string "f") 70000
    (mkLocals (in_buffer [CMD_DATA; 0; 1; 255; 255]) 0 1) 65535 sample_world);
    try (intros k; reflexivity); try reflexivity.
  split; vm_compute; congruence.
Defined.
