(* ===== verification/ServerTerm.v ===== *)
(** * ServerTerm: the server does not wait for ever

    Every loop of the server is bounded by the clock or by what the network
    delivers: a server whose client falls silent ends. *)
From S2P Require Import Prelude CMonad CLib Packet Queue FtpWorld NetOps FtpServer ServerSpec Samples.
Import Server.

Lemma deny_no_fuel `{Host} (E : env) origin cmd code w :
  wp (deny E origin cmd code) (λ _ _, True) (λ b _, b ≠ SFuel) w.
Proof.
  unfold deny. wp_step. apply wp_create_packet_empty; [done|]. intros w1 _.
  wp_step. eapply (wp_send_packet_chatter _ (λ _, True)); [done..|].
  intros w2 r _. wp_step; by wp_step.
Qed.

Section termination.
Context `{Host} (E : env).
Hypothesis Hclock : clock_diverges E.
Implicit Types (w : world).

(** [read_until_timeout] gives up after six seconds. *)
Lemma read_until_timeout_converges buffer w :
  length buffer = Z.to_nat PACKET_SIZE →
  converges (λ fuel, read_until_timeout E fuel buffer) w.
Proof using Hclock.
  intros Hb. unfold read_until_timeout. apply converges_seq, wp_time. intros w1 _.
  set (start := e_time E (tick w)). destruct (Hclock (start + 6)) as [n Hn].
  apply (converges_loop_const (λ b _, length b = Z.to_nat PACKET_SIZE)
    (λ _ w, (n - tick w)%nat)); [done|].
  intros b w2 Hl. wp_step. apply wp_time. intros w3 [Ht3 _]. wp_step; [|by wp_step].
  bool_to_prop. assert (tick w2 < n)%nat as Hlt by (eapply before_deadline; [done|lia]).
  wp_step. apply wp_read_only_from; [done|..].
  - intros w4 [Ht4 _] _. cbn. apply wp_bind, wp_sleep. intros w5 [Ht5 _]. wp_step.
    split; [done|lia].
  - intros w4 k r b' [Ht4 _] _ [Hl' _] _. wp_step; [by wp_step|].
    wp_step. apply wp_sleep. intros w5 [Ht5 _]. wp_step. split; [done|lia].
Qed.

Lemma ack_request_converges origin filename packet c s startTime w :
  packet = pkt c s [] →
  converges (λ fuel, ack_request E fuel origin filename packet startTime) w.
Proof using Hclock.
  intros ->. unfold ack_request. destruct (Hclock (startTime + 6)) as [n Hn].
  apply (converges_loop_const (λ _ _, True) (λ _ w, (n - tick w)%nat)); [done|].
  intros _ w1 _. wp_step. apply wp_send_packet; [done|..].
  - intros w2 _ _. cbn. by apply wp_bind, wp_unlink.
  - intros w2 Ht2 _ _. cbn [Z.eqb]. wp_step. apply wp_sleep. intros w3 [Ht3 _].
    do 2 wp_step. wp_step; [|by wp_step]. wp_step. apply wp_time. intros w4 [Ht4 _]. wp_step.
    destruct (_ <? _) eqn:Hlt; [|done]. bool_to_prop. split; [done|].
    assert (tick w3 < n)%nat by (eapply before_deadline; [done|lia]). lia.
Qed.

Lemma finish_converges origin buf w :
  length buf = Z.to_nat PACKET_SIZE → converges (λ fuel, finish E fuel origin buf) w.
Proof using Hclock.
  intros Hb. unfold finish. apply converges_seq, wp_time. intros w1 _.
  set (start := e_time E (tick w)). destruct (Hclock (start + ACK_TIMEOUT)) as [n Hn].
  apply converges_seq, wp_create_packet_empty; [done|]. intros w2 _.
  apply (converges_loop_const (λ b _, length b = Z.to_nat PACKET_SIZE)
    (λ _ w, (n - tick w)%nat)); [done|].
  intros b w3 Hl. wp_step. apply wp_time. intros w4 [Ht4 _]. wp_step; [|by wp_step].
  bool_to_prop. assert (tick w3 < n)%nat as Hlt by (eapply before_deadline; [done|lia]).
  wp_step. eapply (wp_send_packet_chatter _ (λ _, True)); [done..|]. intros w5 _ [Ht5 _].
  wp_step. apply wp_sleep. intros w6 [Ht6 _].
  assert (∀ w7 b' r, (tick w6 < tick w7)%nat → length b' = Z.to_nat PACKET_SIZE →
    wp (c ← defined OutOfBounds (b' !! O);
        if (0 <? u64 r) && (c =? CMD_ACK) then mret (inr tt) else mret (inl b'))
      (λ x s', match x with
        | inl l' => length l' = Z.to_nat PACKET_SIZE ∧ (n - tick s' < n - tick w3)%nat
        | inr _ => True end) (λ b _, b ≠ SFuel) w7) as Hend.
  { intros w7 b' r Ht7 Hl'. wp_step. apply wp_defined; [|done]. intros c _.
    wp_step; wp_step; [done|]. split; [done|lia]. }
  wp_step. apply wp_read_only_from; [done|..].
  - intros w7 [Ht7 _] _. by apply Hend.
  - intros w7 k r b' [Ht7 _] _ [Hl' _] _. by apply Hend.
Qed.

(** From call [N] on, the network delivers nothing. *)
Definition silent_from (N : nat) : Prop :=
  ∀ k d src, (N ≤ k)%nat → e_recv E k = RecvFrom d src → d = [].

Lemma received_before N k b r :
  silent_from N → received E k b r → 0 < r → (k < N)%nat.
Proof.
  intros HN [_ Hr] Hpos. destruct (decide (k < N)%nat) as [|Hge]; [done|].
  destruct (e_recv E k) as [e|d src] eqn:Ek; [lia|].
  rewrite (HN k d src) in Hr by (done || lia). destruct Hr as [-> _]. cbn in Hpos.
  by rewrite take_nil in Hpos.
Qed.

Abbreviation goes_on := (λ (w : world) (x : locals + Z) (w' : world),
  match x with
  | inl l' => length (buffer l') = Z.to_nat PACKET_SIZE ∧ (tick w < tick w')%nat
  | inr _ => True end).

Lemma on_data_no_fuel origin filename filesize l w :
  length (buffer l) = Z.to_nat PACKET_SIZE →
  wp (on_data E origin filename filesize l) (goes_on w) (λ b _, b ≠ SFuel) w.
Proof.
  intros Hb. unfold on_data. wp_step. apply wp_defined; [|done]. intros s _. wp_step.
  - wp_step. apply wp_create_packet_empty; [done|]. intros w1 [Ht1 _].
    wp_step. eapply (wp_send_packet_chatter _ (λ _, True)); [done..|]. intros w2 _ [Ht2 _].
    wp_step. split; [done|lia].
  - wp_step. apply wp_create_packet_empty; [done|]. intros w1 [Ht1 _].
    wp_step. eapply (wp_send_packet_chatter _ (λ _, True)); [done..|]. intros w2 _ [Ht2 _].
    wp_step. apply wp_defined; [|done]. intros len _.
    wp_step. apply wp_add_long; [|done]. intros _. wp_step; [by wp_step|].
    wp_step. apply wp_fwrite. intros w3 n _ [Ht3 _]. wp_step; [by wp_step|].
    wp_step; [by apply wp_bind, wp_unlink|]. wp_step. split; [done|lia].
Qed.

(** What one iteration needs: it terminates, and if it goes on it consumed a
    datagram. *)
Lemma transfer_step_converges sock origin filename filesize l w :
  length (buffer l) = Z.to_nat PACKET_SIZE →
  converges (λ fuel, transfer_step E fuel sock origin filename filesize l) w.
Proof using Hclock.
  intros Hb. unfold transfer_step.
  apply (converges_bind (λ fuel, read_until_timeout E fuel (buffer l)) _
    (λ r _, length r.2 = Z.to_nat PACKET_SIZE)).
  - by apply read_until_timeout_converges.
  - intros fuel. apply wp_read_until_timeout; [done..|]. by intros w' k r b _ _ [Hl _] _.
  - intros [r b] w1 Hl. cbn [snd] in Hl. apply converges_if; intros _.
    { apply converges_const. by apply wp_bind, wp_unlink. }
    apply converges_seq, wp_defined; [|done]. intros c _.
    apply converges_if; intros _.
    { apply converges_const. eapply wp_mono; [by apply on_data_no_fuel|done|done]. }
    apply converges_if; intros _; [|apply converges_ret].
    apply converges_if; intros _; [apply converges_const; by apply wp_bind, wp_unlink|].
    apply (converges_bind (λ fuel, finish E fuel origin b) _ (λ _ _, True)).
    + by apply finish_converges.
    + intros fuel. by apply wp_finish.
    + intros _ w2 _. apply converges_const. wp_step. by apply wp_close.
Qed.

Lemma transfer_step_decreases N fuel sock origin filename filesize l w :
  silent_from N → length (buffer l) = Z.to_nat PACKET_SIZE →
  wp (transfer_step E fuel sock origin filename filesize l)
    (λ x w', match x with
      | inl l' => length (buffer l') = Z.to_nat PACKET_SIZE ∧ (N - tick w' < N - tick w)%nat
      | inr _ => True end) (λ _ _, True) w.
Proof.
  intros HN Hb. unfold transfer_step. wp_step. apply wp_read_until_timeout; [done|done|..].
  - intros w1 b _ _. by apply wp_bind, wp_unlink.
  - intros w1 k r b [Ht1 _] Hk Hr Hpos. pose proof Hr as [Hl _].
    assert (k < N)%nat by by eapply received_before.
    wp_step; [bool_to_prop; lia|]. wp_step. apply wp_defined; [|done]. intros c _.
    wp_step.
    { eapply wp_mono; [by apply on_data_no_fuel| |done]. intros [l'|code] w2; [|done].
      intros [? ?]. split; [done|lia]. }
    wp_step; [|wp_step; split; [done|lia]]. wp_step; [by apply wp_bind, wp_unlink|].
    wp_step. apply wp_finish; [done| |done]. intros w2 _. wp_step. by apply wp_close.
Qed.

Lemma receive_file_converges N sock origin filename filesize buf w :
  silent_from N → length buf = Z.to_nat PACKET_SIZE →
  converges (λ fuel, receive_file E fuel sock origin filename filesize buf) w.
Proof using Hclock.
  intros HN Hb. unfold receive_file. apply converges_seq, wp_fopen_w; intros w1 _; cbn [negb].
  { apply converges_const, deny_no_fuel. }
  apply converges_seq, wp_time. intros w2 _.
  apply converges_seq, wp_create_packet_empty; [done|]. intros w3 _.
  apply (converges_bind
    (λ fuel, ack_request E fuel origin filename (pkt CMD_ACK 1 []) (e_time E (tick w1)))
    _ (λ _ _, True)).
  - by eapply ack_request_converges.
  - intros fuel. unfold wp. by destruct (ack_request _ _ _ _ _ _ _) as [[]].
  - intros _ w4 _. unfold transfer.
    apply (converges_loop (λ l _, length (buffer l) = Z.to_nat PACKET_SIZE)
      (λ _ w, (N - tick w)%nat) (λ fuel, transfer_step E fuel sock origin filename filesize));
      [done| |].
    + intros l w5 Hl. by apply transfer_step_converges.
    + intros fuel l w5 Hl. by apply transfer_step_decreases.
Qed.
End termination.

Lemma setup_socket_no_fuel `{Host} (E : env) port Q w :
  (∀ r w', Q r w') → wp (setup_socket E port) Q (λ b _, b ≠ SFuel) w.
Proof.
  intros HQ. unfold setup_socket. wp_step. apply wp_socket. intros w1 sock _.
  wp_step; [by wp_step|]. wp_step. apply wp_bind_port; intros w2 _; cbn; apply HQ.
Qed.

Lemma copy_name_no_fuel (E : env) payload slash Q w :
  (∀ name w', Q name w') → wp (copy_name E payload slash) Q (λ b _, b ≠ SFuel) w.
Proof.
  intros HQ. unfold copy_name.
  destruct slash; wp_step; (apply wp_defined; [|done]); intros name _; wp_step; apply wp_malloc.
  - intros w1 _ _. wp_step. by apply wp_defined.
  - intros w1 b k _ _. do 2 wp_step. wp_step; by wp_step.
  - intros w1 _ _. wp_step. by apply wp_defined.
  - intros w1 b k _ _. by do 3 wp_step.
Qed.

(** C13. The server does not block for ever on a client that disappears: if the
    clock advances and the network delivers nothing from some call on, the
    handling of any request ends, with the same outcome for every large
    enough bound on the loops of the model. *)
Theorem server_terminates `{Host} (E : env) (N : nat) origin buf w :
  length buf = Z.to_nat PACKET_SIZE → clock_diverges E → silent_from E N →
  converges (λ fuel, copy_file E fuel buf origin) w.
Proof.
  intros Hb Hclock HN. unfold copy_file.
  apply converges_seq, setup_socket_no_fuel. intros [r sock] w1.
  apply converges_if; intros _; [apply converges_ret|].
  apply converges_seq, wp_defined; [|done]. intros cmd _.
  apply converges_seq, wp_defined; [|done]. intros seq _.
  apply converges_if; intros _; [apply converges_const, deny_no_fuel|].
  apply converges_seq, wp_defined; [|done]. intros str Hstr.
  destruct (strchr str c_bar) as [sep|]; [|apply converges_const, deny_no_fuel].
  apply converges_seq, copy_name_no_fuel. intros name w2.
  apply converges_seq, wp_access; intros w3 _ _; [apply converges_const, deny_no_fuel|].
  intros _. apply converges_seq, wp_defined; [|done]. intros size _.
  destruct (sscanf_ld_c size) as [n v].
  apply converges_if; intros _; [apply converges_ret|].
  eapply receive_file_converges; [done..|].
  rewrite length_app, length_insert. unfold payload_of. rewrite length_take, length_drop. lia.
Qed.

(** A request, then silence: eight calls a second. *)
Lemma server_terminates_witness :
  converges (λ fuel, @copy_file sample_host (sample_env sample_clock (λ _, nothing)) fuel
    (in_buffer (pkt CMD_WRQ 0 (bytes_of_string "f|3"))) sample_origin) sample_world.
Proof.
  apply (@server_terminates sample_host _ 0).
  - vm_compute. reflexivity.
  - intros T. exists (Z.to_nat (8 * T)). intros k Hk. cbn. unfold sample_clock. lia.
  - intros k d src _ Hd. discriminate Hd.
Defined.
