(* ===== verification/ServerProps.v ===== *)
(** * ServerProps: the guarantees of the server *)
From S2P Require Import Prelude CMonad CLib Packet FtpWorld NetOps FtpServer ServerSpec Samples.
Import Server.

(** A request for the file [f] of three bytes, the bytes "abc", and the end. *)
Definition sample_request : list Z := in_buffer (pkt CMD_WRQ 0 (bytes_of_string "dir/f|3")).
Definition sample_server : env :=
  sample_env sample_clock (net_then 40 data_abc fin).
Definition sample_run : result Z * world :=
  @copy_file sample_host sample_server 100 sample_request sample_origin sample_world.


Section theorems.
Context `{Host} (E : env) (fuel : nat) (origin : EndPoint) (buf : list Z).
Context (w w' : world) (r : result Z).

Lemma run_post :
  length buf = Z.to_nat PACKET_SIZE → copy_file E fuel buf origin w = (r, w') →
  match r with Ok code => copy_post E buf w code w' | Stop b => copy_stop E buf w b w' end.
Proof. intros Hbuf Hrun. exact (wp_run _ _ _ _ _ _ (wp_copy_file E fuel origin buf w Hbuf) Hrun). Qed.

(** Whatever happens, the files change at the requested name only, and only
    if there was no such file. *)
Lemma run_files :
  length buf = Z.to_nat PACKET_SIZE → copy_file E fuel buf origin w = (r, w') →
  fs w' = fs w ∨
  ∃ name size, accepted buf w name size ∧ ∃ c, fs w' = <[name := c]> (fs w).
Proof.
  intros Hbuf Hrun. pose proof (run_post Hbuf Hrun) as Hp. destruct r as [code|b].
  - destruct Hp as [(_ & Hf & _)|(name & size & Ha & [[_ (acc & [Hf _] & _)]|(_ & _ & c & Hf)])];
      [by left|right..]; eauto 10.
  - destruct Hp as [(Hf & _)|(name & size & Ha & Hs)]; [by left|].
    destruct b; [left|right..].
    + destruct Hs as (_ & _ & ->). by apply delete_id, Ha.
    + destruct Hs as (_ & acc & [Hf _] & _). eauto 10.
    + destruct Hs as (acc & _ & [Hf _] & _). eauto 10.
Qed.

(** C9. However the handling of a request ends (success, error exit, crash),
    no file that existed on the server before is changed or removed. *)
Theorem server_preserves_files name c :
  length buf = Z.to_nat PACKET_SIZE → copy_file E fuel buf origin w = (r, w') →
  fs w !! name = Some c → fs w' !! name = Some c.
Proof.
  intros Hbuf Hrun Hc.
  destruct (run_files Hbuf Hrun) as [->|(n & size & [_ Hn] & c' & ->)]; [done|].
  rewrite lookup_insert_ne; [done|]. congruence.
Qed.

(** C22. A request creates at most one file, under the name it carries after
    its last slash: a name without a slash, i.e. in the server's directory. *)
Theorem server_confined name :
  length buf = Z.to_nat PACKET_SIZE → copy_file E fuel buf origin w = (r, w') →
  fs w !! name = None → is_Some (fs w' !! name) →
  (c_slash ∉ name) ∧ ∃ size, request_of buf = Some (name, size).
Proof.
  intros Hbuf Hrun Hn Hs.
  destruct (run_files Hbuf Hrun) as [Hf|(n & size & [Hr _] & c' & Hf)];
    rewrite Hf in Hs; [rewrite Hn in Hs; by destruct Hs|].
  assert (n = name) as ->.
  { apply dec_stable. intros Hne. rewrite lookup_insert_ne, Hn in Hs by done.
    by destruct Hs. }
  split; [by eapply request_no_slash|by exists size].
Qed.

(** C10. When the server reports success, the new file has exactly the
    announced size, and it is the concatenation of payloads [acc] of DATA
    packets that were delivered with the consecutive numbers 1, 2, ...
    (modulo 2^16); nothing else changed. *)
Theorem server_success_exact :
  length buf = Z.to_nat PACKET_SIZE → copy_file E fuel buf origin w = (Ok 0, w') →
  ∃ name size acc, request_of buf = Some (name, size) ∧ fs w !! name = None ∧
    fs w' = <[name := concat acc]> (fs w) ∧ Z.of_nat (length (concat acc)) = size ∧
    justified E acc.
Proof.
  intros Hbuf Hrun.
  destruct (wp_run _ _ _ _ _ _ (wp_copy_file E fuel origin buf w Hbuf) Hrun)
    as [[? _]|(name & size & [Hr Hn] & Hp)]; [done|].
  destruct Hp as [[_ (acc & [Hf Hj] & Hl)]|[? _]]; [|done].
  by exists name, size, acc.
Qed.

(** C11. Every call of [exit] in the handler (timeout, excess or missing
    data, a failed denial or acknowledgement) leaves the files as they were:
    partial and incomplete files are discarded.  The handler can also return
    an error code; the files are as they were then too, except after a failed
    write ([RUNTIME_ERROR]), when the new file stays behind in part. *)
Theorem server_exit_discards code :
  length buf = Z.to_nat PACKET_SIZE →
  (copy_file E fuel buf origin w = (Stop (SExit code), w') → fs w' = fs w) ∧
  (copy_file E fuel buf origin w = (Ok code, w') → code ≠ 0 →
   fs w' = fs w ∨
   code = RUNTIME_ERROR ∧ ∃ name size c, request_of buf = Some (name, size) ∧
     fs w !! name = None ∧ fs w' = <[name := c]> (fs w)).
Proof.
  intros Hbuf. split; intros Hrun; [|intros Hcode];
    destruct (wp_run _ _ _ _ _ _ (wp_copy_file E fuel origin buf w Hbuf) Hrun)
      as [Hu|(name & size & [Hr Hn] & Hs)].
  - apply Hu.
  - destruct Hs as (_ & _ & ->). by apply delete_id.
  - left. apply Hu.
  - destruct Hs as [[-> _]|(-> & _ & c & Hc)]; [done|right]. eauto 10.
Qed.

(** C16. Memory safety of the server, and exactly what it rests on: with
    memory, room behind heap blocks or a request without a slash, a terminated
    request, and no datagram whose header claims more than 2043 bytes, no
    network drives the handler into undefined behaviour. *)
Theorem server_memory_safe u :
  length buf = Z.to_nat PACKET_SIZE → copy_file E fuel buf origin w = (r, w') →
  (∀ k, e_oom E k = false) →
  (∀ k, (0 < e_slack E k)%nat) ∨ (c_slash ∉ payload_of buf) →
  is_Some (cstr (payload_of buf)) → ¬ oversized E →
  (∀ name size, request_of buf = Some (name, size) → size ≤ LONG_MAX - 65535) →
  r ≠ Stop (SCrash u).
Proof.
  intros Hbuf Hrun Hoom Hslash [str Hstr] Hover Hsize ->.
  pose proof (wp_run _ _ _ _ _ _ (wp_copy_file_end E fuel origin buf w Hbuf) Hrun) as [_ Hu].
  destruct Hu as [name size u Hreq Hu|k Hk|Hn|k Hk Hin].
  - destruct Hu as [k Hk| |Hlong]; [by rewrite Hoom in Hk|done|].
    specialize (Hsize _ _ Hreq). lia.
  - by rewrite Hoom in Hk.
  - congruence.
  - destruct Hslash as [Hs|]; [|done]. specialize (Hs k). lia.
Qed.

(** A FINACK is a receipt: if one was sent then, however the process
    ended, the complete file of the announced size is on the server. *)
Theorem server_finack_complete new a :
  length buf = Z.to_nat PACKET_SIZE → copy_file E fuel buf origin w = (r, w') →
  trace w' = new ++ trace w → EvSend a finack ∈ new →
  ∃ name size acc, request_of buf = Some (name, size) ∧
    fs w' = <[name := concat acc]> (fs w) ∧ Z.of_nat (length (concat acc)) = size ∧
    justified E acc.
Proof.
  intros Hbuf Hrun Htr Hin. assert (fin_sent (trace w) w') as Hfin by by exists new, a.
  pose proof (run_post Hbuf Hrun) as Hp. destruct r as [code|b].
  - destruct Hp as [(_ & _ & ? & _)|(name & size & [Hr _] & [[_ (acc & [Hf Hj] & Hl)]|(_ & ? & _)])];
      [done| |done]. by exists name, size, acc.
  - destruct Hp as [(_ & ? & _)|(name & size & [Hr _] & Hs)]; [done|].
    destruct b; [by destruct Hs as (_ & ? & _)|destruct Hs as (_ & acc & [Hf Hj] & Hl)|
      destruct Hs as (acc & _ & [Hf Hj] & Hl)]; exists name, size, acc; auto.
Qed.
End theorems.

Lemma sample_run_eq :
  @copy_file sample_host sample_server 100 sample_request sample_origin sample_world =
  (sample_run.1, sample_run.2).
Proof. apply surjective_pairing. Defined.

Lemma server_preserves_files_witness :
  fs sample_run.2 !! bytes_of_string "old" = Some (bytes_of_string "kept").
Proof.
  apply (@server_preserves_files sample_host sample_server 100 sample_origin sample_request
    sample_world sample_run.2 sample_run.1); [reflexivity|apply sample_run_eq|].
  vm_compute. reflexivity.
Defined.

Lemma server_confined_witness :
  (c_slash ∉ bytes_of_string "f") ∧
  ∃ size, request_of sample_request = Some (bytes_of_string "f", size).
Proof.
  apply (@server_confined sample_host sample_server 100 sample_origin sample_request
    sample_world sample_run.2 sample_run.1); [reflexivity|apply sample_run_eq|..].
  - vm_compute. reflexivity.
  - exists (bytes_of_string "abc"). vm_compute. reflexivity.
Defined.

Lemma server_success_exact_witness :
  ∃ name size acc, request_of sample_request = Some (name, size) ∧
    fs sample_world !! name = None ∧
    fs sample_run.2 = <[name := concat acc]> (fs sample_world) ∧
    Z.of_nat (length (concat acc)) = size ∧
    @justified sample_host sample_server acc.
Proof.
  apply (@server_success_exact sample_host sample_server 100 sample_origin sample_request
    sample_world sample_run.2); [reflexivity|].
  vm_compute. reflexivity.
Defined.

(** A client that goes away after its request. *)
Definition silent_run : result Z * world :=
  @copy_file sample_host (sample_env sample_clock (λ _, nothing)) 100 sample_request
    sample_origin sample_world.

Lemma server_exit_discards_witness : fs silent_run.2 = fs sample_world.
Proof.
  apply (@server_exit_discards sample_host (sample_env sample_clock (λ _, nothing)) 100
    sample_origin sample_request sample_world silent_run.2 TIMEOUT); [reflexivity|].
  vm_compute. reflexivity.
Defined.

Lemma server_finack_complete_witness :
  ∃ name size acc, request_of sample_request = Some (name, size) ∧
    fs sample_run.2 = <[name := concat acc]> (fs sample_world) ∧
    Z.of_nat (length (concat acc)) = size ∧
    @justified sample_host sample_server acc.
Proof.
  apply (@server_finack_complete sample_host sample_server 100 sample_origin sample_request
    sample_world sample_run.2 sample_run.1)
    with (new := trace sample_run.2) (a := sample_peer);
    [reflexivity|apply sample_run_eq|by rewrite app_nil_r|].
  apply list_elem_of_In. vm_compute. tauto.
Defined.

Lemma server_memory_safe_witness : sample_run.1 ≠ Stop (SCrash OutOfBounds).
Proof.
  apply (@server_memory_safe sample_host sample_server 100 sample_origin sample_request sample_world
    sample_run.2 sample_run.1 OutOfBounds).
  - reflexivity.
  - apply sample_run_eq.
  - reflexivity.
  - left. intros k. cbn. lia.
  - eexists. vm_compute. reflexivity.
  - intros (k & d & src & rest & len & Hk & Hb & Hc & Hl & Hlen).
    unfold sample_server, sample_env, net_then in Hk. cbn [e_recv] in Hk.
    destruct (decide (k < 40)%nat); injection Hk as <- <-.
    + injection Hl as <-. revert Hlen. vm_compute. discriminate.
    + discriminate Hc.
  - intros name size Hreq. vm_compute in Hreq. injection Hreq as <- <-. vm_compute. discriminate.
Defined.
