(* ===== verification/Receiver.v ===== *)
(** * Receiver: the transfer loop of the server as an abstract machine

    What the responder promises is a small state machine that knows nothing
    of buffers, system calls or sequence number arithmetic beyond the number
    of what it waits for: it takes chunks in order, answers every data packet
    with the number it wants next, and decides at FIN.  The machine is a step
    relation; the transfer loop refines it, step by step, for every system. *)
From stdpp Require Import sorting.
From S2P Require Import Prelude CMonad CLib Packet Queue FtpWorld NetOps FtpServer ServerSpec Samples.
Import Server.

(** What happens to the receiver: a data packet (number, payload), FIN,
    another packet, or nothing for six seconds. *)
Inductive input : Type :=
| IData (s : Z) (pl : list Z)
| IFin
| IOther
| ISilence.

(** Where it stands, with the chunks it accepted. *)
Inductive receiver : Type :=
| Receiving (acc : list (list Z))
| Finished (acc : list (list Z))
| Refused
| GaveUp
| DiskFailed.

Definition total (acc : list (list Z)) : Z := Z.of_nat (length (concat acc)).

(** The number of the packet that comes after [acc]. *)
Definition wanted (acc : list (list Z)) : Z := u16 (1 + Z.of_nat (length acc)).

(** One step for a file of [size] bytes: what comes in, and the number that
    is acknowledged. *)
Inductive rstep (size : Z) : receiver → input → option Z → receiver → Prop :=
| r_accept acc pl :
    total (acc ++ [pl]) ≤ size →
    rstep size (Receiving acc) (IData (wanted acc) pl) (Some (wanted (acc ++ [pl])))
      (Receiving (acc ++ [pl]))
| r_too_much acc pl :
    size < total (acc ++ [pl]) →
    rstep size (Receiving acc) (IData (wanted acc) pl) (Some (wanted (acc ++ [pl]))) Refused
| r_no_space acc pl :
    rstep size (Receiving acc) (IData (wanted acc) pl) (Some (wanted (acc ++ [pl]))) DiskFailed
| r_again acc s pl :
    s ≠ wanted acc →
    rstep size (Receiving acc) (IData s pl) (Some (wanted acc)) (Receiving acc)
| r_done acc : total acc = size → rstep size (Receiving acc) IFin None (Finished acc)
| r_short acc : total acc ≠ size → rstep size (Receiving acc) IFin None Refused
| r_other acc : rstep size (Receiving acc) IOther None (Receiving acc)
| r_silence acc : rstep size (Receiving acc) ISilence None GaveUp.

(** An input, the call that delivered it, and the acknowledgement. *)
Record entry : Type := mkEntry { at_call : nat; what : input; reply : option Z }.

(** The runs of the machine, newest entry first, with rising calls. *)
Inductive history (size : Z) : list entry → receiver → Prop :=
| h_start : history size [] (Receiving [])
| h_next h st k i o st' :
    history size h st → Forall (λ e, at_call e < k)%nat h → rstep size st i o st' →
    history size (mkEntry k i o :: h) st'.

Lemma wanted_snoc acc pl : wanted (acc ++ [pl]) = u16 (wanted acc + 1).
Proof. unfold wanted. rewrite length_app, u16_u16_add. cbn [length]. f_equal. lia. Qed.

(** What the machine has accepted came in, in the order of its numbers, at
    rising calls, and was acknowledged. *)
Definition came_in_order (h : list entry) (acc : list (list Z)) : Prop :=
  ∃ ks, StronglySorted lt ks ∧ length ks = length acc ∧
    ∀ i k pl, ks !! i = Some k → acc !! i = Some pl →
      mkEntry k (IData (u16 (1 + Z.of_nat i)) pl) (Some (u16 (2 + Z.of_nat i))) ∈ h.

Lemma came_in_order_skip h acc e : came_in_order h acc → came_in_order (e :: h) acc.
Proof.
  intros (ks & Hs & Hl & Hin). exists ks. split_and!; [done..|]. intros i k pl Hk Hpl.
  right. by eapply Hin.
Qed.

Lemma came_in_order_snoc h acc k pl :
  came_in_order h acc → Forall (λ e, at_call e < k)%nat h →
  came_in_order (mkEntry k (IData (wanted acc) pl) (Some (wanted (acc ++ [pl]))) :: h) (acc ++ [pl]).
Proof.
  intros (ks & Hs & Hl & Hin) Hk. exists (ks ++ [k]). split_and!.
  - apply StronglySorted_app. split_and!; [|done|by repeat constructor].
    intros k1 k2 [i Hi]%list_elem_of_lookup ->%list_elem_of_singleton.
    destruct (lookup_lt_is_Some_2 acc i) as [pl1 Hpl1]; [rewrite <- Hl; by eapply lookup_lt_Some|].
    specialize (Hin i k1 pl1 Hi Hpl1). rewrite Forall_forall in Hk. by apply Hk in Hin.
  - rewrite !length_app. cbn. lia.
  - intros i k1 pl1 Hi Hpl. apply lookup_app_Some in Hi as [Hi|[Hge Hi]].
    + rewrite lookup_app_l in Hpl by (rewrite <- Hl; by eapply lookup_lt_Some).
      right. by eapply Hin.
    + apply list_lookup_singleton_Some in Hi as [Hi0 <-].
      rewrite lookup_app_r in Hpl by lia.
      apply list_lookup_singleton_Some in Hpl as [_ <-].
      assert (i = length acc) as -> by lia. apply elem_of_cons. left. unfold wanted.
      rewrite length_app. cbn [length].
      by replace (1 + Z.of_nat (length acc + 1)) with (2 + Z.of_nat (length acc)) by lia.
Qed.

(** The machine is right: in every history, whatever was lost, repeated
    or out of order, the chunks accepted came in exactly in the order of their
    numbers, each was acknowledged with the number of the next, their size
    never exceeds the announced one, and equals it at the end. *)
Theorem receiver_in_order size h st acc :
  0 ≤ size → history size h st → st = Receiving acc ∨ st = Finished acc →
  came_in_order h acc ∧ total acc ≤ size ∧ (st = Finished acc → total acc = size).
Proof.
  intros Hsize Hh. revert acc. induction Hh as [|h st k i o st' Hh IH Hk Hstep]; intros acc Hst.
  - destruct Hst as [[= <-]|[=]]. split_and!; [|done|done].
    exists []. split_and!; [constructor|done|done].
  - destruct Hstep as [acc0 pl Hle|acc0 pl Hgt|acc0 pl|acc0 s pl Hne|acc0 Heq|acc0 Hne|acc0|acc0];
      destruct Hst as [[= <-]|[= <-]]; specialize (IH acc0 ltac:(auto)) as (Hin & Htot & _).
    all: split_and!; try done; try (by apply came_in_order_skip).
    by apply came_in_order_snoc.
Qed.

Section refinement.
Context `{Host} (E : env) (fuel : nat).
Context (sock : Z) (origin : EndPoint) (filename : list Z) (size : Z).
(** The other files, the trace and the calls when the transfer starts. *)
Context (fs0 : gmap (list Z) (list Z)) (tr0 : list event) (k0 : nat).
Implicit Types (w : world) (acc : list (list Z)) (h : list entry).

(** How the loop reads a packet buffer. *)
Definition input_of (b : list Z) : input :=
  match b !! O, get_seq_num b, GETLEN b with
  | Some c, Some s, Some n =>
      if c =? CMD_DATA then IData s (take (Z.to_nat n) (payload_of b))
      else if c =? CMD_FIN then IFin else IOther
  | _, _, _ => IOther
  end.

(** The input is what the system delivered at that call. *)
Definition heard_at (e : entry) : Prop :=
  (k0 ≤ at_call e)%nat ∧
  (what e = ISilence ∨ ∃ b r, received E (at_call e) b r ∧ 0 < r ∧ what e = input_of b).

Definition ack_event (a : Z) : event := EvSend (addr origin) (pkt CMD_ACK a []).
Definition replies h : list event := ack_event <$> omap reply h.

(** What was sent since the start: the acknowledgements of the machine, some
    of which the system may have refused to send, and after a finished
    transfer FINACKs and the end of the socket. *)
Definition spoke h st w : Prop :=
  ∃ late acks, trace w = late ++ acks ++ tr0 ∧ acks `sublist_of` replies h ∧
    (late ≠ [] → ∃ acc, st = Finished acc) ∧
    Forall (λ ev, ev = EvSend (addr origin) finack ∨ ev = EvClose sock) late.

Record mirrors h st w : Prop := {
  mi_history : history size h st;
  mi_heard : Forall heard_at h;
  mi_past : Forall (λ e, at_call e < tick w)%nat h;
  mi_spoke : spoke h st w;
  mi_start : (k0 ≤ tick w)%nat;
}.

(** The directory that belongs to a state of the machine. *)
Definition stored st w : Prop :=
  match st with
  | Receiving acc | Finished acc => fs w = <[filename := concat acc]> fs0
  | Refused | GaveUp => fs w = delete filename fs0
  | DiskFailed => ∃ c, fs w = <[filename := c]> fs0
  end.

(** The result that belongs to it. *)
Definition result_of st (r : result Z) : Prop :=
  match st with
  | Receiving _ => r = Stop SFuel
  | Finished _ => r = Ok 0 ∨ r = Stop SFuel
  | Refused => r = Stop (SExit BAD_REQUEST)
  | GaveUp => r = Stop (SExit TIMEOUT)
  | DiskFailed => r = Ok RUNTIME_ERROR
  end.

(** A run of the loop that is a run of the machine. *)
Definition refines (r : result Z) w : Prop :=
  ∃ h st, mirrors h st w ∧ stored st w ∧ result_of st r.

(** The state of the loop while it goes on. *)
Record follows h acc (l : locals) w : Prop := {
  fo_mirrors : mirrors h (Receiving acc) w;
  fo_stored : stored (Receiving acc) w;
  fo_buffer : length (buffer l) = Z.to_nat PACKET_SIZE;
  fo_read : read l = total acc;
  fo_expected : expected_sequence l = wanted acc;
}.

Lemma mirrors_quiet h st w w' : mirrors h st w → quiet w w' → mirrors h st w'.
Proof.
  intros [] (Ht & Htr & _). split; [done|done| |unfold spoke in *; by rewrite Htr|lia].
  eapply Forall_impl; [done|]. cbn. lia.
Qed.

(** One more step of the machine: at a call after all others. *)
Lemma mirrors_step h acc w w' k i o st :
  mirrors h (Receiving acc) w → (tick w ≤ k < tick w')%nat →
  heard_at (mkEntry k i o) → rstep size (Receiving acc) i o st →
  spoke (mkEntry k i o :: h) st w' → mirrors (mkEntry k i o :: h) st w'.
Proof.
  intros [] Hk Hh Hs Hsp. split; [|by constructor| |done|lia].
  - eapply h_next; [done| |done]. eapply Forall_impl; [done|]. cbn. lia.
  - constructor; [cbn; lia|]. eapply Forall_impl; [done|]. cbn. lia.
Qed.

(** While it goes on, the machine has only acknowledged. *)
Lemma spoke_receiving h acc w :
  spoke h (Receiving acc) w → ∃ acks, trace w = acks ++ tr0 ∧ acks `sublist_of` replies h.
Proof.
  intros (late & acks & Ht & Hs & Hl & _). destruct late as [|ev late]; [by exists acks|].
  by destruct Hl as [? [=]].
Qed.

Lemma spoke_acks h st w acks :
  trace w = acks ++ tr0 → acks `sublist_of` replies h → spoke h st w.
Proof. intros Ht Hs. exists [], acks. done. Qed.

(** An input without a reply. *)
Lemma spoke_silent h acc st k i w w' :
  spoke h (Receiving acc) w → trace w' = trace w → spoke (mkEntry k i None :: h) st w'.
Proof.
  intros (acks & Ht & Hs)%spoke_receiving Htr. eapply spoke_acks; [by rewrite Htr|done].
Qed.

(** The loop goes on, or is over. *)
Abbreviation goes_on := (λ (x : locals + Z) (w' : world),
  match x with
  | inl l' => ∃ h acc, follows h acc l' w'
  | inr code => refines (Ok code) w' end).
Abbreviation stops := (λ (b : stop) (w' : world),
  match b with SCrash u => crash_cause E size u | _ => refines (Stop b) w' end).

Hypothesis Hsize : 0 ≤ size.

Lemma history_total h acc : history size h (Receiving acc) → total acc ≤ size.
Proof using Hsize.
  remember (Receiving acc) as st eqn:Hst. intros Hh. revert acc Hst.
  induction Hh as [|h st k i o st' Hh IH _ Hstep]; intros acc Hst.
  - injection Hst as <-. done.
  - destruct Hstep; try discriminate Hst; injection Hst as <-; [done|by apply IH..].
Qed.

(** Building and sending an acknowledgement: it is sent or it is not. *)
Lemma wp_reply {A} a (rest : P A) Q X w :
  (∀ w', e_oom E (tick w) = true → X (SCrash NullDeref) w') →
  (∀ w', (tick w < tick w')%nat → fs w' = fs w →
    trace w' = trace w ∨ trace w' = ack_event a :: trace w → wp rest Q X w') →
  wp (packet ← create_packet E CMD_ACK a 0 None; _ ← send_packet E origin packet; rest) Q X w.
Proof.
  intros HX HQ. wp_step. apply wp_create_packet_empty; intros w1 (Ht1 & Htr1 & Hf1); [by auto|].
  wp_step. apply wp_send_packet; [done| |].
  - intros w2 (Ht2 & Htr2 & Hf2) _. apply HQ; [lia|congruence|left; congruence].
  - intros w2 Ht2 Hf2 Htr2. apply HQ; [lia|congruence|right; by rewrite Htr2, Htr1].
Qed.

Lemma spoke_reply h acc st k i a w w' :
  spoke h (Receiving acc) w → trace w' = trace w ∨ trace w' = ack_event a :: trace w →
  spoke (mkEntry k i (Some a) :: h) st w'.
Proof.
  intros (acks & Ht & Hs)%spoke_receiving Htr.
  change (replies (mkEntry k i (Some a) :: h)) with (ack_event a :: replies h) in *.
  destruct Htr as [Htr|Htr].
  - eapply spoke_acks; [by rewrite Htr|]. by apply sublist_cons.
  - eapply (spoke_acks _ _ _ (ack_event a :: acks)); [by rewrite Htr, Ht|]. by apply sublist_skip.
Qed.

Section heard.
(** A packet was read into [b] by call [k]. *)
Context h acc (l : locals) w w1 (k : nat) (b : list Z) (r : Z).
Hypothesis Hfollows : follows h acc l w.
Hypothesis Hquiet : quiet w w1.
Hypothesis Hcall : (tick w ≤ k < tick w1)%nat.
Hypothesis Hreceived : received E k b r.
Hypothesis Hsome : 0 < r.
Abbreviation l1 := (mkLocals b (read l) (expected_sequence l)).

(** What the machine makes of it, once the loop has done the same. *)
Lemma step_mirrors i o st w' :
  input_of b = i → rstep size (Receiving acc) i o st → (tick w1 ≤ tick w')%nat →
  spoke (mkEntry k i o :: h) st w' → mirrors (mkEntry k i o :: h) st w'.
Proof using Hfollows Hcall Hreceived Hsome.
  intros <- Hs Ht Hsp. eapply mirrors_step; [by apply fo_mirrors in Hfollows|lia| |done|done].
  split; cbn; [|right; by exists b, r].
  pose proof (mi_start _ _ _ (fo_mirrors _ _ _ _ Hfollows)). lia.
Qed.

Lemma refines_data s :
  b !! O = Some CMD_DATA → get_seq_num b = Some s →
  wp (on_data E origin filename size l1) goes_on stops w1.
Proof using Hfollows Hquiet Hcall Hreceived Hsome Hsize.
  intros Hc Hs. pose proof Hreceived as [Hb _]. pose proof Hfollows as [Hm Hst _ Hr He].
  pose proof (mi_spoke _ _ _ Hm) as Hsp. destruct Hquiet as (Ht1 & Htr1 & Hf1).
  destruct (GETLEN_Some b) as (len & Hlen & Hrange); [size_lia|].
  set (pl := take (Z.to_nat len) (payload_of b)).
  assert (input_of b = IData s pl) as Hin by (unfold input_of; by rewrite Hc, Hs, Hlen).
  unfold on_data. cbn [buffer read expected_sequence]. rewrite Hs, Hlen. do 2 wp_step.
  destruct (decide (s = expected_sequence l)) as [->|Hne].
  2: { rewrite (proj2 (Z.eqb_neq _ _) Hne). cbn [negb]. apply wp_reply.
       { intros w2 Ho. by eapply crash_memory. }
       intros w2 Ht2 Hf2 Htr2. wp_step. rewrite Htr1 in Htr2. rewrite He in Hne.
       eexists _, acc. split; [|cbn in *; congruence|done|done|done].
       eapply step_mirrors; [done|by apply r_again|lia|]. rewrite He in Htr2. by eapply spoke_reply. }
  rewrite Z.eqb_refl. cbn [negb]. rewrite He, <- (wanted_snoc acc pl). rewrite He in Hin.
  apply wp_reply; [intros w2 Ho; by eapply crash_memory|]. intros w2 Ht2 Hf2 Htr2. rewrite Htr1 in Htr2.
  pose proof (history_total _ _ (mi_history _ _ _ Hm)) as Htotal.
  assert (∀ st w', rstep size (Receiving acc) (IData (wanted acc) pl) (Some (wanted (acc ++ [pl]))) st →
    (tick w2 ≤ tick w')%nat → trace w' = trace w2 →
    mirrors (mkEntry k (IData (wanted acc) pl) (Some (wanted (acc ++ [pl]))) :: h) st w') as Hmir.
  { intros st w' Hstep Ht' Htr'. eapply step_mirrors; [done|done|lia|]. rewrite <- Htr' in Htr2.
    by eapply spoke_reply. }
  do 2 wp_step. wp_step. apply wp_add_long_cases.
  2: { intros Hlong. apply crash_size. unfold LONG_MIN in *. unfold total in *. lia. }
  intros _. wp_step; bool_to_prop.
  { wp_step. apply crash_length. eapply received_oversized; [done..|].
    rewrite length_payload_of in * by done. done. }
  wp_step. apply wp_fwrite. intros w3 n Hn (Ht3 & Htr3 & Hf3).
  cbn [stored] in Hst. rewrite Hf2, Hf1, Hst, alter_insert_eq in Hf3.
  wp_step; bool_to_prop.
  { wp_step. eexists _, DiskFailed. split; [apply Hmir; [apply r_no_space|lia|done]|].
    split; [by eexists|done]. }
  subst n. fold pl in Hn, Hf3.
  assert (length pl = Z.to_nat len) as Hpl by (unfold pl; rewrite length_take; lia).
  assert (read l + len = total (acc ++ [pl])) as Htot.
  { rewrite Hr. unfold total. rewrite concat_app, length_app. cbn [concat]. rewrite app_nil_r. lia. }
  wp_step; bool_to_prop.
  - wp_step. apply wp_unlink. intros w4 (Ht4 & Htr4 & Hf4). wp_step.
    eexists _, Refused. split; [apply Hmir; [apply r_too_much; lia|lia|congruence]|].
    split; [|done]. cbn [stored]. by rewrite Hf4, Hf3, delete_insert_eq.
  - wp_step. eexists _, (acc ++ [pl]). split; [apply Hmir; [apply r_accept; lia|lia|done]| |done..].
    cbn [stored]. rewrite Hf3, take_ge by lia. rewrite concat_app. cbn [concat].
    by rewrite app_nil_r.
Qed.

(** FIN for a file that is not complete, or complete. *)
Lemma refines_fin s :
  b !! O = Some CMD_FIN → get_seq_num b = Some s →
  wp (if negb (read l =? size) then _ ← unlink filename; exit BAD_REQUEST
      else _ ← finish E fuel origin b; _ ← close sock; mret (inr 0)) goes_on stops w1.
Proof using Hfollows Hquiet Hcall Hreceived Hsome.
  intros Hc Hs. pose proof Hreceived as [Hb _]. pose proof Hfollows as [Hm Hst _ Hr He].
  pose proof (mi_spoke _ _ _ Hm) as Hsp. destruct Hquiet as (Ht1 & Htr1 & Hf1). cbn [stored] in Hst.
  destruct (GETLEN_Some b) as (len & Hlen & _); [size_lia|].
  assert (input_of b = IFin) as Hin by (unfold input_of; by rewrite Hc, Hs, Hlen).
  wp_step; bool_to_prop.
  - wp_step. apply wp_unlink. intros w2 (Ht2 & Htr2 & Hf2). wp_step.
    eexists _, Refused. split; [|split; [|done]].
    + eapply step_mirrors; [done|apply r_short; congruence|lia|].
      eapply spoke_silent; [done|congruence].
    + cbn [stored]. by rewrite Hf2, Hf1, Hst, delete_insert_eq.
  - destruct (spoke_receiving _ _ _ Hsp) as (acks & Hacks & Hsub).
    assert (∀ w2, talked origin w1 w2 → mirrors (mkEntry k IFin None :: h) (Finished acc) w2 ∧
      fs w2 = <[filename := concat acc]> fs0 ∧
      ∃ late, trace w2 = late ++ acks ++ tr0 ∧
        Forall (λ ev, ev = EvSend (addr origin) finack ∨ ev = EvClose sock) late) as Htalk.
    { intros w2 (Ht2 & Hf2 & late & Htr2 & Hlate). rewrite Htr1, Hacks in Htr2.
      assert (Forall (λ ev, ev = EvSend (addr origin) finack ∨ ev = EvClose sock) late)
        by (eapply Forall_impl; [done|]; auto).
      split; [|split; [congruence|by exists late]].
      eapply step_mirrors; [done|apply r_done; congruence|lia|]. exists late, acks.
      split_and!; [done|done|by exists acc|done]. }
    wp_step. apply wp_finish; [done| |].
    + intros w2 Hw2. destruct (Htalk w2 Hw2) as (Hm2 & Hf2 & late & Htr2 & Hlate).
      wp_step. apply wp_close. intros w3 Ht3 Hf3 Htr3. wp_step.
      eexists _, (Finished acc). split; [|split; [cbn; congruence|by left]].
      eapply step_mirrors; [done|apply r_done; congruence| |].
      { destruct Hw2. lia. }
      exists (EvClose sock :: late), acks. rewrite Htr3, Htr2. split_and!; [done|done|by exists acc|].
      constructor; [by right|done].
    + intros w2 Hw2. destruct (Htalk w2 Hw2) as (Hm2 & Hf2 & _). split.
      * eexists _, (Finished acc). split; [done|]. split; [done|by right].
      * intros [k' Ho]. by eapply crash_memory.
Qed.
End heard.

(** One iteration of the loop is one step of the machine. *)
Lemma refines_step h acc l w :
  follows h acc l w →
  wp (transfer_step E fuel sock origin filename size l) goes_on stops w.
Proof using Hsize.
  intros Hfo. pose proof Hfo as [Hm Hst Hbuf Hr He]. unfold transfer_step. wp_step.
  apply wp_read_until_timeout; [done|..].
  - intros w1 Hw1. exists h, (Receiving acc). split; [by eapply mirrors_quiet|].
    split; [|done]. cbn in *. destruct Hw1 as (_ & _ & ->). done.
  - intros w1 b Hw1 Hb. wp_step; [|done]. wp_step. apply wp_unlink. intros w2 (Ht2 & Htr2 & Hf2). wp_step.
    destruct Hw1 as (Ht1 & Htr1 & Hf1). eexists _, GaveUp. split; [|split; [|done]].
    + eapply (mirrors_step _ _ _ _ (tick w)); [done|lia| |by apply r_silence|].
      * split; [by apply mi_start in Hm|by left].
      * eapply spoke_silent; [by apply mi_spoke in Hm|congruence].
    + cbn in *. by rewrite Hf2, Hf1, Hst, delete_insert_eq.
  - intros w1 k r b Hw1 Hk Hrcv Hpos. pose proof Hrcv as [Hb _].
    wp_step; [bool_to_prop; lia|].
    destruct (b !! O) as [c|] eqn:Hc; [|apply lookup_ge_None in Hc; exfalso; size_lia].
    destruct (get_seq_num_Some b) as (s & Hs & _); [size_lia|].
    destruct (GETLEN_Some b) as (len & Hlen & _); [size_lia|].
    do 2 wp_step. wp_step; bool_to_prop; [subst c; by eapply (refines_data h acc l w)|].
    wp_step; bool_to_prop; [subst c; by eapply (refines_fin h acc l w)|]. wp_step.
    eexists _, acc. split; [|cbn in *; destruct Hw1 as (_ & _ & ->); done|done..].
    eapply (step_mirrors h acc l w w1); [done..| |apply r_other|done|].
    + unfold input_of. rewrite Hc, Hs, Hlen.
      by rewrite (proj2 (Z.eqb_neq c CMD_DATA)), (proj2 (Z.eqb_neq c CMD_FIN)).
    + eapply spoke_silent; [by apply mi_spoke in Hm|]. by destruct Hw1 as (_ & -> & _).
Qed.

Lemma refines_transfer buf w :
  length buf = Z.to_nat PACKET_SIZE → fs w = <[filename := []]> fs0 → trace w = tr0 → tick w = k0 →
  wp (transfer E fuel sock origin filename size buf) (λ code w', refines (Ok code) w') stops w.
Proof using Hsize.
  intros Hb Hfs Htr Ht. unfold transfer. apply (wp_loop (λ l w, ∃ h acc, follows h acc l w)).
  - exists [], []. split; [|done|done|done|done].
    split; [constructor|done|done| |lia]. by exists [], [].
  - intros l w1 (h & acc & []). exists h, (Receiving acc). done.
  - intros l w1 (h & acc & Hfo). eapply wp_mono; [by eapply refines_step| |done].
    by intros [l'|code] w2.
Qed.
End refinement.

(** C7. The transfer loop refines the machine, on every system: each run is
    a history of the machine over what the system delivered, in the order of
    the calls; the directory and the result are those of the state that is
    reached; the acknowledgements sent are those of the machine in its order,
    less the ones the system failed to send; FINACK follows only a finished
    transfer.  Only the undefined behaviour of [crash_cause] has no
    counterpart. *)
Theorem transfer_refines_receiver `{Host} (E : env) fuel sock origin filename size buf w r w' :
  0 ≤ size → length buf = Z.to_nat PACKET_SIZE → fs w !! filename = Some [] →
  transfer E fuel sock origin filename size buf w = (r, w') →
  refines E sock origin filename size (fs w) (trace w) (tick w) r w' ∨
  ∃ u, r = Stop (SCrash u) ∧ crash_cause E size u.
Proof.
  intros Hsize Hb Hf Hrun.
  pose proof (wp_run _ _ _ _ _ _ (refines_transfer E fuel sock origin filename size (fs w) (trace w)
    (tick w) Hsize buf w Hb (eq_sym (insert_id _ _ _ Hf)) eq_refl eq_refl) Hrun) as Hp.
  destruct r as [code|[c|u|]]; [by left..| |by left]. right. by exists u.
Qed.

(** A file of one packet that arrives many times. *)
Definition sample_start : world :=
  mkWorld 0 0 [] {[ bytes_of_string "f" := [] ]} [] [].
Definition sample_transfer : result Z * world :=
  @transfer sample_host (sample_env sample_clock (net_then 40 data_abc fin)) 100 3 sample_origin
    (bytes_of_string "f") 3 (replicate (Z.to_nat PACKET_SIZE) 0) sample_start.

Lemma transfer_refines_receiver_witness :
  fs sample_transfer.2 = {[ bytes_of_string "f" := bytes_of_string "abc" ]} ∧
  (@refines sample_host (sample_env sample_clock (net_then 40 data_abc fin)) 3 sample_origin
     (bytes_of_string "f") 3 (fs sample_start) [] 0 (Ok 0) sample_transfer.2 ∨
   ∃ u, Ok (A := Z) 0 = Stop (SCrash u) ∧
     @crash_cause sample_host (sample_env sample_clock (net_then 40 data_abc fin)) 3 u).
Proof.
  split; [vm_compute; reflexivity|].
  apply (@transfer_refines_receiver sample_host (sample_env sample_clock (net_then 40 data_abc fin))
    100 3 sample_origin (bytes_of_string "f") 3 (replicate (Z.to_nat PACKET_SIZE) 0) sample_start).
  - lia.
  - apply length_replicate.
  - reflexivity.
  - vm_compute. reflexivity.
Defined.

Lemma receiver_in_order_witness :
  came_in_order [mkEntry 5 IFin None; mkEntry 2 (IData 1 [7; 8]) (Some 2)] [[7; 8]] ∧
  total [[7; 8]] ≤ 2 ∧ (Finished [[7; 8]] = Finished [[7; 8]] → total [[7; 8]] = 2).
Proof.
  apply (receiver_in_order 2 [mkEntry 5 IFin None; mkEntry 2 (IData 1 [7; 8]) (Some 2)]
    (Finished [[7; 8]]) [[7; 8]]); [lia| |by right].
  apply (h_next 2 _ (Receiving [[7; 8]])).
  - apply (h_next 2 [] (Receiving [])); [apply h_start|constructor|].
    apply (r_accept 2 [] [7; 8]). vm_compute. discriminate.
  - repeat constructor.
  - apply r_done. reflexivity.
Defined.
