(* ===== verification/FtpClient.v ===== *)
(** * FtpClient: the client of [ftpclient/ftpclient.c] *)
From S2P Require Import Prelude CMonad CLib Packet Queue FtpWorld NetOps.

Module Client.

Definition BAD_ARGS : Z := 1.
Definition BAD_PORT : Z := 2.
Definition RUNTIME_ERROR : Z := 3.
Definition BAD_REQUEST : Z := 4.
Definition FILE_EXISTS : Z := 5.
Definition BAD_FILE : Z := 6.
Definition TIMEOUT : Z := 8.

(** The locals of [copy_file].  [rest] is what is left of the open file, and
    [packets] the window of unacknowledged packets. *)
Record locals (Q : Type) : Type := mkLocals {
  buffer : list Z;
  target : EndPoint;
  written : Z;
  read : Z;
  sequence : Z;
  packets : Q;
  lastACK : Z;
  rest : list Z;
}.
Arguments mkLocals {Q}.
Arguments buffer {Q}.
Arguments target {Q}.
Arguments written {Q}.
Arguments read {Q}.
Arguments sequence {Q}.
Arguments packets {Q}.
Arguments lastACK {Q}.
Arguments rest {Q}.

Section client.
Context `{Host} (E : env) (fuel : nat).
Context `{QueueOps Q (list Z)}.
Implicit Types (l : locals Q).

(** [sprintf(payload, "%s|%ld", filename, size)], with its terminator. *)
Definition request_text (filename : list Z) (size : Z) : list Z :=
  filename ++ [c_bar] ++ format_ld size.

Definition print_request (buffer filename : list Z) (size : Z) : option (list Z) :=
  let s := request_text filename size in
  memcpy buffer (Z.to_nat HEADER_SIZE) (s ++ [NUL]) (Z.of_nat (length s) + 1).

(** The [do ... while] loop that sends the request until something comes
    back; [recvfrom] replaces the address of the target by the responder's. *)
Definition send_request (request : list Z) (startTime : Z) (buffer : list Z) (target : EndPoint) :
    P (Z * list Z * EndPoint) :=
  loop fuel (λ x : list Z * EndPoint,
    let '(buffer, target) := x in
    r ← send_packet E target request;
    if negb (r =? 0) then exit RUNTIME_ERROR
    else
      _ ← sleep;
      r ← recvfrom E PACKET_SIZE;
      let '(size_read, d, src) := r in
      buffer ← defined OutOfBounds (memcpy buffer 0 d (Z.of_nat (length d)));
      let target := match src with Some a => mkEndPoint a | None => target end in
      if size_read <? 0 then
        t ← time E;
        mret (if t - startTime <? 6 then inl (buffer, target)
              else inr (size_read, buffer, target))
      else mret (inr (size_read, buffer, target))) (buffer, target).

Definition complete_request (buffer : list Z) (size : Z) (filename : list Z) (target : EndPoint) :
    P (list Z * EndPoint) :=
  startTime ← time E;
  buffer ← defined OutOfBounds (print_request buffer filename size);
  str ← defined OutOfBounds (cstr (payload_of buffer));
  request ← create_packet E CMD_WRQ 0 (Z.of_nat (length str)) (Some (payload_of buffer));
  r ← send_request request startTime buffer target;
  let '(size_read, buffer, target) := r in
  if size_read <? 1 then exit TIMEOUT
  else
    c ← defined OutOfBounds (buffer !! O);
    if c =? CMD_ACK then mret (buffer, target)
    else if c =? CMD_EXISTS then exit FILE_EXISTS
    else if c =? CMD_BADREQ then exit BAD_REQUEST
    else mret (buffer, target).

(** [fread] of at most [remaining] bytes into the payload, and the packet
    built from it; the result of [add_to_list] is ignored. *)
Definition read_chunk (size : Z) l : P (locals Q) :=
  let remaining := u64 (if size - read l <? PAYLOAD_SIZE then size - read l
                        else PAYLOAD_SIZE) in
  let chunk := take (Z.to_nat remaining) (rest l) in
  let chunksize := Z.of_nat (length chunk) in
  buffer ← defined OutOfBounds (memcpy (buffer l) (Z.to_nat HEADER_SIZE) chunk chunksize);
  packet ← create_packet E CMD_DATA (sequence l) chunksize (Some (payload_of buffer));
  k ← call;
  r ← on_queue (packets l) (q_add (negb (e_oom E k)) packet);
  mret (mkLocals buffer (target l) (written l) (read l + chunksize)
          (u16 (sequence l + 1)) r.2 (lastACK l) (drop (length chunk) (rest l))).

Definition fill_window (size : Z) : locals Q → P (locals Q) :=
  loop fuel (λ l,
    n ← on_queue (packets l) q_size;
    if (n.1 <? WINDOW_SIZE) && (written l <? size) then
      l ← read_chunk size l; mret (inl l)
    else mret (inr l)).

(** [while (packets->head != NULL)] after an ACK: one iteration. *)
Definition pop_step (acked_seq : Z) l : P (locals Q + locals Q) :=
  e ← on_queue (packets l) q_is_empty;
  if e.1 : bool then mret (inr l)
  else
    h ← on_queue (packets l) q_head;
    f ← defined OutOfBounds (get_seq_num h.1);
    t ← on_queue (packets l) q_tail;
    last ← defined OutOfBounds (get_seq_num t.1);
    if acked_seq =? f then mret (inr l)
    else
      let inside := f <=? last in
      if (inside && (acked_seq <? f) && (last <? acked_seq))
         || (negb inside && (f <? acked_seq) && (acked_seq <? last)) then mret (inr l)
      else
        now ← time E;
        len ← defined OutOfBounds (GETLEN h.1);
        q ← on_queue (packets l) q_remove_front;
        mret (inl (mkLocals (buffer l) (target l) (written l + len) (read l)
                     (sequence l) q.2 now (rest l))).

Definition pop_acked (acked_seq : Z) : locals Q → P (locals Q) :=
  loop fuel (pop_step acked_seq).

(** The [while (1)] loop that drains the socket. *)
Definition acks_step (size : Z) l : P (locals Q + locals Q) :=
  r ← read_only_from E (buffer l) PACKET_SIZE;
  let l := mkLocals r.2 (target l) (written l) r.1 (sequence l) (packets l)
             (lastACK l) (rest l) in
  e ← gets errno;
  if (read l <? 0) && ((e =? EWOULDBLOCK) || (e =? EAGAIN)) then mret (inr l)
  else
    acked_seq ← defined OutOfBounds (get_seq_num (buffer l));
    c ← defined OutOfBounds (buffer l !! O);
    if c =? CMD_ACK then l ← pop_acked acked_seq l; mret (inl l)
    else if c =? CMD_FIN then
      if written l <? size then exit BAD_REQUEST else mret (inr l)
    else mret (inl l).

Definition read_acks (size : Z) : locals Q → P (locals Q) := loop fuel (acks_step size).

(** [while (written != size)]. *)
Definition send_step (size : Z) l : P (locals Q + locals Q) :=
  if written l =? size then mret (inr l)
  else
    l ← fill_window size l;
    r ← send_all E (target l) (packets l);
    if negb (r =? 0) then exit RUNTIME_ERROR
    else
      now ← time E;
      if ACK_TIMEOUT <? now - lastACK l then exit TIMEOUT
      else
        _ ← sleep;
        l ← read_acks size l;
        mret (inl l).

Definition send_file (size : Z) : locals Q → P (locals Q) := loop fuel (send_step size).

(** [while (r > 0 && buffer[0] == CMD_ACK)]. *)
Definition skip_acks (r0 : Z) (buffer0 : list Z) : P (list Z) :=
  loop fuel (λ x : Z * list Z,
    let '(r, buffer) := x in
    c ← defined OutOfBounds (buffer !! O);
    if (0 <? r) && (c =? CMD_ACK) then
      x ← read_only_from E buffer PACKET_SIZE; mret (inl x)
    else mret (inr buffer)) (r0, buffer0).

(** The closing handshake: FIN until a FINACK or two seconds have passed. *)
Definition close_step (target : EndPoint) (packet : list Z) (lastACK : Z) (buffer : list Z) :
    P (list Z + unit) :=
  now ← time E;
  if now - lastACK <? ACK_TIMEOUT then
    _ ← send_packet E target packet;
    _ ← sleep;
    r ← read_only_from E buffer PACKET_SIZE;
    buffer ← skip_acks r.1 r.2;
    c ← defined OutOfBounds (buffer !! O);
    if c =? CMD_FINACK then mret (inr tt) else mret (inl buffer)
  else mret (inr tt).

Definition close_connection (target : EndPoint) (buffer0 : list Z) : P unit :=
  packet ← create_packet E CMD_FIN 0 0 None;
  _ ← sleep;
  lastACK ← time E;
  loop fuel (close_step target packet lastACK) buffer0.

(** [content] is the file and [size] the result of the first statement,
    [get_file_size(filename)], which [main] below passes on; the list structure
    is allocated unchecked. *)
Definition copy_file (content : list Z) (size : Z) (filename : list Z) (target : EndPoint) : P Z :=
  let buffer := replicate (Z.to_nat PACKET_SIZE) 0 in
  r ← complete_request buffer size filename target;
  let '(buffer, target) := r in
  k ← call;
  let packets := q_create (negb (e_oom E k)) in
  lastACK ← time E;
  l ← send_file size (mkLocals buffer target 0 0 1 packets lastACK content);
  _ ← close_connection (Client.target l) (Client.buffer l);
  mret 0.

Definition is_debug_flag (s : list Z) : bool := bool_decide (take 2 s = bytes_of_string "-d").

(** The exit status, or whether [-d] was given. *)
Definition arg_check (argv : list (list Z)) : Z + bool :=
  match argv with
  | [_; flag; _; _; _] => if is_debug_flag flag then inr true else inl BAD_ARGS
  | [_; server; _; _] => if is_debug_flag server then inl BAD_ARGS else inr false
  | _ => inl BAD_ARGS
  end.

(** The handler of SIGPIPE, whatever the signal. *)
Definition signal_handler (signal : Z) : P unit := exit RUNTIME_ERROR.

(** [getaddrinfo] and the file system of the client are parameters: the
    address a host and port resolve to, the contents of a file that [fopen]
    can open, and the [st_size] that [stat] finds.  [indeterminate] is what an
    uninitialised [struct stat] holds. *)
Context (resolve : list Z → list Z → option sockaddr_in).
Context (fopen : list Z → option (list Z)).
Context (stat : list Z → option Z) (indeterminate : Z).

Definition get_file_size (filename : list Z) : Z := default indeterminate (stat filename).

Definition process_address (hostname port : list Z) : P EndPoint :=
  match resolve hostname port with
  | None => exit BAD_PORT
  | Some a => mret (mkEndPoint a)
  end.

Definition main (argv : list (list Z)) : P Z :=
  match arg_check argv with
  | inl _ => mret BAD_ARGS
  | inr debug =>
      let arg i := defined OutOfBounds (argv !! (i + if debug then 1 else 0)%nat) in
      port ← arg 2%nat;
      let '(n, v) := sscanf_u_c port in
      if negb (n =? 1) || (default 0 v <? 1) || (65535 <? default 0 v) then mret BAD_PORT
      else
        filename ← arg 3%nat;
        match fopen filename with
        | None => mret BAD_FILE
        | Some content =>
            host ← arg 1%nat;
            target ← process_address host port;
            r ← setup_socket E 0;
            if negb (r.1 =? 0) then mret RUNTIME_ERROR
            else
              _ ← copy_file content (get_file_size filename) filename target;
              _ ← close r.2;
              mret 0
        end
  end.
End client.
End Client.
