(* ===== verification/ClientSpec.v ===== *)
(** * ClientSpec: what the client sends

    The client cuts the file into chunks of [PAYLOAD_SIZE] bytes; packet
    number [i + 1] carries chunk [i].  The window holds the packets of the
    chunks [m .. n - 1], where [m] have been acknowledged and [n] read. *)
From S2P Require Import Prelude CMonad CLib Packet Queue FtpWorld NetOps FtpClient.
Import Client.

(** A chunk, as a length of the file. *)
Definition CHUNK : nat := Z.to_nat PAYLOAD_SIZE.

Definition chunk (content : list Z) (i : nat) : list Z := take CHUNK (drop (CHUNK * i) content).

(** The packet of chunk [i]. *)
Definition data_pkt (content : list Z) (i : nat) : list Z :=
  pkt CMD_DATA (1 + Z.of_nat i) (chunk content i).

Definition window (content : list Z) (m n : nat) : list (list Z) :=
  data_pkt content <$> seq m (n - m).

(** Where an ACK for [a] leaves the start of a window of [k] packets that
    starts at [m]: at the packet it names, or past the window. *)
Fixpoint ack_point (a : Z) (m k : nat) : nat :=
  match k with
  | O => m
  | S k => if a =? u16 (1 + Z.of_nat m) then m else ack_point a (S m) k
  end.

Lemma CHUNK_Z : Z.of_nat CHUNK = 2043.
Proof. unfold CHUNK. size_lia. Qed.

Lemma CHUNK_pos : (0 < CHUNK)%nat.
Proof. pose proof CHUNK_Z. lia. Qed.

Lemma length_chunk content i : (length (chunk content i) ≤ CHUNK)%nat.
Proof. unfold chunk. rewrite length_take. lia. Qed.

Lemma window_nil content m : window content m m = [].
Proof. unfold window. by rewrite Nat.sub_diag. Qed.

Lemma window_cons content m n :
  (m < n)%nat → window content m n = data_pkt content m :: window content (S m) n.
Proof.
  intros Hmn. unfold window. replace (n - m)%nat with (S (n - S m)) by lia. done.
Qed.

Lemma window_snoc content m n :
  (m ≤ n)%nat → window content m (S n) = window content m n ++ [data_pkt content n].
Proof.
  intros Hmn. unfold window. replace (S n - m)%nat with (S (n - m)) by lia.
  rewrite seq_S, fmap_app. by replace (m + (n - m))%nat with n by lia.
Qed.

Lemma length_window content m n : length (window content m n) = (n - m)%nat.
Proof. unfold window. by rewrite length_fmap, length_seq. Qed.

Lemma data_pkt_seq `{Host} content i : get_seq_num (data_pkt content i) = Some (u16 (1 + Z.of_nat i)).
Proof. unfold data_pkt. rewrite <- (app_nil_r (pkt _ _ _)). apply pkt_seq. Qed.

Lemma data_pkt_len `{Host} content i :
  GETLEN (data_pkt content i) = Some (Z.of_nat (length (chunk content i))).
Proof.
  unfold data_pkt. rewrite <- (app_nil_r (pkt _ _ _)). apply pkt_len.
  pose proof (length_chunk content i). pose proof CHUNK_Z. lia.
Qed.

(** The chunks before [m] make up the first [CHUNK * m] bytes. *)
Lemma concat_chunks content m :
  concat (chunk content <$> seq 0 m) = take (CHUNK * m) content.
Proof.
  induction m as [|m IH]; [by rewrite Nat.mul_0_r|].
  rewrite seq_S, fmap_app, concat_app, IH. cbn [fmap list_fmap concat Nat.add].
  rewrite app_nil_r. unfold chunk. rewrite take_drop_app. f_equal. lia.
Qed.

Lemma ack_point_range a m k : (m ≤ ack_point a m k ≤ m + k)%nat.
Proof.
  revert m. induction k as [|k IH]; intros m; cbn; [lia|].
  destruct (_ =? _); [lia|]. specialize (IH (S m)). lia.
Qed.

Lemma ack_point_hit j m k :
  (m ≤ j ≤ m + k)%nat → Z.of_nat k < 65536 →
  ack_point (u16 (1 + Z.of_nat j)) m k = j.
Proof.
  revert m. induction k as [|k IH]; intros m Hj Hk; cbn; [lia|].
  destruct (_ =? _) eqn:E; bool_to_prop.
  - unfold u16 in E. lia.
  - apply IH; [|lia]. assert (j ≠ m) by (intros ->; done). lia.
Qed.

Lemma ack_point_miss a m k :
  (∀ j, (m ≤ j < m + k)%nat → a ≠ u16 (1 + Z.of_nat j)) → ack_point a m k = (m + k)%nat.
Proof.
  revert m. induction k as [|k IH]; intros m Hj; cbn; [lia|].
  destruct (_ =? _) eqn:E; bool_to_prop; [by destruct (Hj m ltac:(lia))|].
  rewrite IH; [lia|]. intros j Hj'. apply Hj. lia.
Qed.

Section client.
Context `{Host} (E : env) (fuel : nat).
Context `{HL : QueueLaws Q (list Z)}.
(** The file, and the name it is sent under. *)
Context (content filename : list Z).
Let size : Z := Z.of_nat (length content).
(** The state of the process when it starts. *)
Context (w0 : world).
Implicit Types (l : locals Q) (w : world).

(** Chunks are only read while data is unacknowledged, so that the window
    never reaches more than [WINDOW_SIZE] chunks past the end. *)
Definition in_reach (n : nat) : Prop := (CHUNK * n < length content + CHUNK * 50)%nat.

(** Everything the client ever sends. *)
Definition sent_ok (ev : event) : Prop :=
  ∃ a d, ev = EvSend a d ∧
    (d = pkt CMD_WRQ 0 (request_text filename size) ∧
       (length (request_text filename size) < CHUNK)%nat ∨
     (∃ i, in_reach (S i) ∧ d = data_pkt content i) ∨
     d = pkt CMD_FIN 0 []).

Definition said w : Prop :=
  fs w = fs w0 ∧ (tick w0 ≤ tick w)%nat ∧ ∃ new, trace w = new ++ trace w0 ∧ Forall sent_ok new.

Lemma said_chatter w w' : said w → chatter sent_ok w w' → said w'.
Proof.
  intros (Hf & Hk & new & Ht & Hn) (Hk' & Hf' & new' & Ht' & Hn'). split; [congruence|].
  split; [lia|]. exists (new' ++ new). rewrite Ht', Ht, app_assoc. split; [done|]. by apply Forall_app.
Qed.

Lemma said_quiet w w' : said w → quiet w w' → said w'.
Proof. intros Hs Hq. eapply said_chatter; [done|by apply quiet_chatter]. Qed.

Record client_inv (m n : nat) l : Prop := {
  ci_buffer : length (buffer l) = Z.to_nat PACKET_SIZE;
  ci_window : q_rep (packets l) (window content m n);
  ci_range : (m ≤ n ≤ m + 50)%nat;
  ci_rest : rest l = drop (CHUNK * n) content;
  ci_sequence : sequence l = u16 (1 + Z.of_nat n);
  ci_written : written l = Z.of_nat (length (take (CHUNK * m) content));
  ci_reach : n = O ∨ in_reach n;
}.

(** [read] never makes the client read less than a whole chunk. *)
Definition read_ok (n : nat) l : Prop := read l ≤ Z.of_nat (length (take (CHUNK * n) content)).

Lemma written_le m n l : client_inv m n l → written l ≤ size.
Proof. intros Hi. rewrite (ci_written _ _ _ Hi), length_take. unfold size. lia. Qed.

Lemma read_chunk_take n l :
  read_ok n l → rest l = drop (CHUNK * n) content →
  take (Z.to_nat (u64 (if size - read l <? PAYLOAD_SIZE then size - read l
                       else PAYLOAD_SIZE))) (rest l) = chunk content n.
Proof.
  intros Hr ->. unfold read_ok in Hr. unfold chunk.
  pose proof CHUNK_Z. rewrite length_take in Hr. unfold size in *.
  destruct (_ <? _) eqn:Hlt; bool_to_prop.
  - rewrite u64_id by size_lia. rewrite !take_ge; [done|..]; rewrite length_drop; size_lia.
  - rewrite u64_id by size_lia. done.
Qed.

Lemma said_refl : said w0.
Proof. split; [done|]. split; [done|]. by exists []. Qed.

(** ** Why the client stops *)

(** A datagram that starts with the command [c] was there to be received. *)
Definition heard (c : Z) : Prop := ∃ k d src, e_recv E k = RecvFrom d src ∧ d !! O = Some c.

(** Receiving failed for another reason than want of data, or the datagram
    was empty: the client then looks at memory that was never written. *)
Definition garbled : Prop :=
  ∃ k, match e_recv E k with RecvErr e => e ≠ EAGAIN | RecvFrom d _ => d = [] end.

Definition late (T : Z) : Prop := ∃ k k', (k < k')%nat ∧ T ≤ e_time E k' - e_time E k.

Inductive stop_cause : stop → Prop :=
| cause_send k : e_send E k ≠ None → stop_cause (SExit RUNTIME_ERROR)
| cause_late : late 3 ∨ garbled → stop_cause (SExit TIMEOUT)
| cause_exists : heard CMD_EXISTS → stop_cause (SExit FILE_EXISTS)
| cause_refused : heard CMD_BADREQ ∨ heard CMD_FIN ∨ garbled → stop_cause (SExit BAD_REQUEST)
| cause_name : (CHUNK ≤ length (request_text filename size))%nat → stop_cause (SCrash OutOfBounds)
| cause_fuel : stop_cause SFuel.

(** The rest of the program stops with only good packets sent and for a
    cause; code without loops moreover does not exhaust a bound. *)
Abbreviation stops := (λ (b : stop) (w : world), said w ∧ stop_cause b).

(** The acknowledgement the timeout counts from is in the past. *)
Definition dated l w : Prop := ∃ k, (k < tick w)%nat ∧ lastACK l = e_time E k.

Lemma dated_mono l l' w w' :
  (tick w ≤ tick w')%nat → lastACK l' = lastACK l → dated l w → dated l' w'.
Proof. intros Hw Hl (k & ? & ?). exists k. split; [lia|congruence]. Qed.

(** What was received at call [k] and looked at. *)
Definition looked_at (k : nat) (b : list Z) (r : Z) : Prop :=
  received E k b r ∧ ∀ e, e_recv E k = RecvErr e → e ≠ EAGAIN.

Lemma looked_at_heard k b r c : looked_at k b r → b !! O = Some c → heard c ∨ garbled.
Proof.
  intros [[Hb Hr] He] Hc. destruct (e_recv E k) as [e|d src] eqn:Ek.
  - right. exists k. rewrite Ek. by apply He.
  - destruct Hr as [_ [rest ->]]. destruct d as [|c' d].
    + right. exists k. by rewrite Ek.
    + left. exists k, (c' :: d), src. split; [done|]. done.
Qed.

(** An ACK numbered [a] was received at call [k]. *)
Definition ack_heard (k : nat) (a : Z) : Prop :=
  ∃ b r, looked_at k b r ∧ b !! O = Some CMD_ACK ∧ get_seq_num b = Some a.

Hypothesis Hoom : ∀ k, e_oom E k = false.

Lemma inv_read_chunk m n l q :
  client_inv m n l → read_ok n l → (n < m + 50)%nat → written l < size →
  q_rep q (window content m (S n)) →
  let c := chunk content n in
  let l' := mkLocals (splice (Z.to_nat HEADER_SIZE) c (buffer l)) (target l) (written l)
    (read l + Z.of_nat (length c)) (u16 (sequence l + 1)) q (lastACK l)
    (drop (length c) (rest l)) in
  client_inv m (S n) l' ∧ read_ok (S n) l'.
Proof.
  intros Hi Hr Hn Hw Hq c l'.
  pose proof CHUNK_Z. pose proof (length_chunk content n) as Hc. pose proof (ci_buffer _ _ _ Hi).
  pose proof (ci_range _ _ _ Hi).
  assert (take (CHUNK * S n) content = take (CHUNK * n) content ++ c) as Ht
    by (unfold c, chunk; rewrite take_drop_app; f_equal; lia).
  split; [split; cbn|]; try done.
  - rewrite length_splice; [done|]. unfold c. size_lia.
  - lia.
  - rewrite (ci_rest _ _ _ Hi), drop_drop. unfold c, chunk. rewrite length_take, length_drop.
    destruct (decide (CHUNK * S n ≤ length content)%nat); [f_equal; lia|].
    rewrite !drop_ge by lia. done.
  - rewrite (ci_sequence _ _ _ Hi), u16_u16_add. f_equal. lia.
  - by apply ci_written in Hi.
  - right. rewrite (ci_written _ _ _ Hi), length_take in Hw. unfold in_reach, size in *. lia.
  - unfold read_ok in *. cbn. rewrite Ht, length_app. lia.
Qed.

(** One chunk, up to the way its packet is made. *)
Lemma wp_read_chunk_via m n l Q' (X : stop → world → Prop) w :
  client_inv m n l → read_ok n l → (n < m + 50)%nat → written l < size →
  let c := chunk content n in
  let payload := payload_of (splice (Z.to_nat HEADER_SIZE) c (buffer l)) in
  (take (length c) payload = c → (length c ≤ length payload)%nat →
   wp (create_packet E CMD_DATA (sequence l) (Z.of_nat (length c)) (Some payload))
     (λ p w1, p = pkt CMD_DATA (sequence l) c ∧
       ∀ l', client_inv m (S n) l' → read_ok (S n) l' → lastACK l' = lastACK l →
         target l' = target l → Q' l' (set_tick (S (tick w1)) w1)) X w) →
  wp (read_chunk E size l) Q' X w.
Proof using Hoom.
  intros Hi Hr Hn Hw c payload Hmake. subst c payload. unfold read_chunk.
  rewrite (read_chunk_take n) by (done || apply (ci_rest _ _ _ Hi)).
  pose proof CHUNK_Z. pose proof (length_chunk content n) as Hc. pose proof (ci_buffer _ _ _ Hi) as Hb.
  assert (memcpy (buffer l) (Z.to_nat HEADER_SIZE) (chunk content n)
    (Z.of_nat (length (chunk content n))) =
    Some (splice (Z.to_nat HEADER_SIZE) (chunk content n) (buffer l))) as ->.
  { unfold memcpy. rewrite decide_True by size_lia. by rewrite Nat2Z.id, take_ge by lia. }
  do 2 wp_step. wp_step. eapply wp_conseq; [apply Hmake|].
  { unfold payload_of. apply take_drop_splice. size_lia. }
  { unfold payload_of. rewrite length_drop, length_splice; size_lia. }
  intros p w1 [-> HQ]. wp_step.
  assert (pkt CMD_DATA (sequence l) (chunk content n) = data_pkt content n) as ->.
  { unfold data_pkt, pkt. rewrite (ci_sequence _ _ _ Hi).
    by rewrite !(u16_id (u16 _)) by apply u16_range. }
  destruct (q_add_ok (packets l) _ (data_pkt content n) (ci_window _ _ _ Hi)) as (q' & Hadd & Hq').
  rewrite <- window_snoc in Hq' by (by apply ci_range in Hi as []).
  apply wp_call_tick. wp_step. rewrite Hoom. cbn [negb].
  eapply wp_on_queue; [done|]. wp_step.
  destruct (inv_read_chunk m n l q' Hi Hr Hn Hw Hq'). by apply HQ.
Qed.

Lemma wp_read_chunk m n l (X : stop → world → Prop) w :
  client_inv m n l → read_ok n l → (n < m + 50)%nat → written l < size → said w →
  wp (read_chunk E size l)
    (λ l' w', client_inv m (S n) l' ∧ read_ok (S n) l' ∧ lastACK l' = lastACK l ∧
      said w' ∧ (tick w ≤ tick w')%nat) X w.
Proof using Hoom.
  intros Hi Hr Hn Hw Hs. eapply wp_read_chunk_via; [done..|]. intros Hp Hl.
  pose proof (length_chunk content n). pose proof CHUNK_Z.
  apply wp_create_packet; [lia|lia|intros w1 _; by rewrite Hoom|]. rewrite Nat2Z.id, Hp.
  intros w1 Hw1. split; [done|]. intros l' ? ? ? _. split_and!; [done..| |].
  - eapply said_quiet; [by eapply said_quiet|]. split_and!; cbn; [lia|done..].
  - destruct Hw1. cbn. lia.
Qed.

Lemma wp_fill_window m n l w :
  client_inv m n l → read_ok n l → said w →
  wp (fill_window E fuel size l)
    (λ l' w', ∃ n', client_inv m n' l' ∧ read_ok n' l' ∧ lastACK l' = lastACK l ∧ said w' ∧
      (tick w ≤ tick w')%nat) stops w.
Proof using Hoom.
  intros Hi Hr Hs. unfold fill_window.
  apply (wp_loop (λ l' w', ∃ n, client_inv m n l' ∧ read_ok n l' ∧ lastACK l' = lastACK l ∧
    said w' ∧ (tick w ≤ tick w')%nat)); [by exists n| |].
  { intros l1 w1 (? & ? & ? & ? & ? & _). split; [done|constructor]. }
  clear n Hi Hr Hs. intros l' w' (n & Hi & Hr & <- & Hs & Ht). clear l. rename l' into l.
  wp_step. eapply wp_on_queue; [by eapply q_size_ok, ci_window|]. cbn [fst].
  rewrite length_window. wp_step; [|wp_step; by exists n].
  bool_to_prop. pose proof (ci_range _ _ _ Hi). rewrite u32_id in * by lia.
  wp_step. eapply wp_conseq; [apply (wp_read_chunk m n); [done..| |done|done]; size_lia|].
  intros l' w1 (? & ? & ? & ? & ?). wp_step. exists (S n). split_and!; (done || lia).
Qed.

(** Sending the window only sends chunks. *)
Lemma wp_send_each tgt m n (X : stop → world → Prop) w :
  in_reach n ∨ m = n → said w →
  wp (send_each E tgt (window content m n))
    (λ r w', said w' ∧ (tick w ≤ tick w')%nat ∧ (r ≠ 0 → ∃ k, e_send E k ≠ None)) X w.
Proof.
  intros Hn. remember (n - m)%nat as k eqn:Hk. revert m w Hn Hk.
  induction k as [|k IH]; intros m w Hn Hk Hs.
  { assert (window content m n = []) as -> by (unfold window; by rewrite <- Hk). cbn [send_each]. by wp_step. }
  rewrite window_cons by lia. cbn [send_each]. wp_step.
  unfold data_pkt. eapply (wp_send_packet_why _ sent_ok).
  - pose proof (length_chunk content m). pose proof CHUNK_Z. lia.
  - eexists _, _. split; [done|]. right. left. exists m. split; [|done].
    destruct Hn as [Hn|]; [|lia]. unfold in_reach in *. nia.
  - intros w1 r Hw1 Hr. assert (said w1) by by eapply said_chatter.
    destruct Hw1 as [Ht1 _]. wp_step; bool_to_prop; [|wp_step; split_and!; (done || lia || auto)].
    eapply wp_conseq; [apply IH; [|lia|done]|].
    + destruct Hn as [|]; [by left|lia].
    + intros r2 w2 (? & ? & ?). split_and!; (done || lia).
Qed.

Lemma wp_send_all tgt m n l (X : stop → world → Prop) w :
  client_inv m n l → said w →
  wp (send_all E tgt (packets l))
    (λ r w', said w' ∧ (tick w ≤ tick w')%nat ∧ (r ≠ 0 → ∃ k, e_send E k ≠ None)) X w.
Proof.
  intros Hi Hs. unfold send_all. pose proof (ci_window _ _ _ Hi) as Hq.
  wp_step. eapply wp_on_queue; [by eapply q_is_empty_ok|]. cbn [fst].
  wp_step; [by wp_step|]. wp_step. eapply wp_on_queue; [by eapply q_walk_ok|]. cbn [fst].
  apply wp_send_each; [|done]. pose proof (ci_range _ _ _ Hi).
  destruct (ci_reach _ _ _ Hi) as [->|]; [right; lia|by left].
Qed.

(** Both halves of the test that should stop at an ACK from outside the
    window are contradictory. *)
Lemma outside_never f last a :
  ((f <=? last) && (a <? f) && (last <? a)) ||
  (negb (f <=? last) && (f <? a) && (a <? last)) = false.
Proof.
  apply not_true_iff_false. intros [Ho|Ho]%orb_true_iff; bool_to_prop; lia.
Qed.

Lemma inv_pop m n l q now :
  client_inv m n l → (m < n)%nat → q_rep q (window content (S m) n) →
  client_inv (S m) n (mkLocals (buffer l) (target l)
    (written l + Z.of_nat (length (chunk content m))) (read l) (sequence l) q now (rest l)).
Proof.
  intros [] Hmn Hq. split; cbn; try done; [lia|].
  rewrite ci_written0. unfold chunk. rewrite <- Nat2Z.inj_add, <- length_app, take_drop_app.
  do 3 f_equal. lia.
Qed.

(** One iteration either stops at [ack_point], or drops the first packet. *)
Lemma wp_pop_step a m n l (X : stop → world → Prop) w :
  client_inv m n l →
  wp (pop_step E a l)
    (λ r w', (w' = w ∨ quiet w w') ∧
      match r with
      | inr l' => l' = l ∧ w' = w ∧ ack_point a m (n - m) = m
      | inl l' => (m < n)%nat ∧ client_inv (S m) n l' ∧
          ack_point a (S m) (n - S m) = ack_point a m (n - m) ∧ dated l' w' ∧
          read l' = read l ∧ target l' = target l ∧
          lastACK l' = e_time E (tick w) ∧ w' = set_tick (S (tick w)) w
      end) X w.
Proof.
  intros Hi. unfold pop_step.
  pose proof (ci_window _ _ _ Hi) as Hq. pose proof (ci_range _ _ _ Hi) as Hrange.
  wp_step. eapply wp_on_queue; [by eapply q_is_empty_ok|]. cbn [fst].
  destruct (decide (m = n)) as [->|Hne].
  { rewrite bool_decide_eq_true_2 by apply window_nil. wp_step. rewrite Nat.sub_diag. auto. }
  rewrite window_cons in Hq |- * by lia. rewrite bool_decide_eq_false_2 by done.
  wp_step. eapply wp_on_queue; [by eapply q_head_ok|]. cbn [fst].
  rewrite data_pkt_seq. do 3 wp_step.
  assert (∃ xs, data_pkt content m :: window content (S m) n =
    xs ++ [data_pkt content (pred n)]) as [xs Hxs].
  { exists (window content m (pred n)). rewrite <- window_cons, <- window_snoc by lia.
    by replace (S (pred n)) with n by lia. }
  eapply wp_on_queue; [rewrite Hxs in Hq; by eapply q_tail_ok|]. cbn [fst].
  rewrite data_pkt_seq. do 2 wp_step.
  replace (n - m)%nat with (S (n - S m)) by lia. cbn [ack_point].
  wp_step; [wp_step; auto|]. rewrite outside_never.
  assert (quiet w (set_tick (S (tick w)) w)) as Hw2 by (split_and!; cbn; [lia|done..]).
  wp_step. apply wp_time_tick. rewrite data_pkt_len. do 3 wp_step.
  destruct (q_remove_front_ok _ _ Hq) as (q' & Hrm & Hq'). cbn [list.tail] in Hq'.
  eapply wp_on_queue; [done|]. wp_step. split; [by right|]. split; [lia|].
  split; [apply inv_pop; [done|lia|done]|]. split; [done|]. split; [|done].
  exists (tick w). by destruct Hw2.
Qed.

(** An ACK advances the window exactly to [ack_point]; the loop takes at most
    one iteration per packet, and one more to find its end. *)
Lemma wp_pop_acked_total a m n l (X : stop → world → Prop) w :
  client_inv m n l → (n - m < fuel)%nat →
  wp (pop_acked E fuel a l)
    (λ l' w', client_inv (ack_point a m (n - m)) n l' ∧ (w' = w ∨ quiet w w')) X w.
Proof.
  intros Hi Hfuel. unfold pop_acked. revert m l w Hi Hfuel.
  induction fuel as [|f IH]; intros m l w Hi Hfuel; [lia|]. cbn [loop].
  wp_step. eapply wp_conseq; [by apply wp_pop_step|].
  intros [l1|l1] w1 [Hw1 Hr].
  - destruct Hr as (Hmn & Hi1 & <- & _).
    eapply wp_conseq; [apply (IH (S m)); [done|lia]|].
    intros l2 w2 [Hi2 Hw2]. split; [done|].
    destruct Hw1 as [->|]; [done|]. right. destruct Hw2 as [->|]; [done|by eapply quiet_trans].
  - destruct Hr as (-> & -> & ->). wp_step. auto.
Qed.

Lemma wp_pop_acked a m n l w :
  client_inv m n l → said w →
  wp (pop_acked E fuel a l)
    (λ l' w', client_inv (ack_point a m (n - m)) n l' ∧ said w' ∧ (tick w ≤ tick w')%nat ∧
      (dated l w → dated l' w')) stops w.
Proof.
  intros Hi Hs. unfold pop_acked.
  apply (wp_loop (λ l1 w1, ∃ m1, client_inv m1 n l1 ∧ said w1 ∧ (tick w ≤ tick w1)%nat ∧
    ack_point a m1 (n - m1) = ack_point a m (n - m) ∧ (dated l w → dated l1 w1))).
  { by exists m. }
  { intros l1 w1 (? & ? & ? & _). split; [done|constructor]. }
  intros l1 w1 (m1 & Hi1 & Hs1 & Ht1 & <- & Hd1).
  eapply wp_conseq; [by apply wp_pop_step|]. intros r w2 [Hw2 Hr].
  assert (said w2 ∧ (tick w1 ≤ tick w2)%nat) as [Hs2 Ht2].
  { destruct Hw2 as [->|Hq]; [done|]. split; [by eapply said_quiet|]. destruct Hq. lia. }
  destruct r as [l2|l2].
  - exists (S m1). destruct Hr as (_ & ? & ? & ? & _). split_and!; (done || lia).
  - destruct Hr as (-> & -> & ->). split_and!; [done|done|lia|]. intros Hd. by eapply dated_mono, Hd1.
Qed.

(** A received buffer replaces the old one. *)
Lemma inv_buffer m n l b r :
  client_inv m n l → length b = Z.to_nat PACKET_SIZE →
  client_inv m n (mkLocals b (target l) (written l) r (sequence l) (packets l)
    (lastACK l) (rest l)).
Proof. intros [] Hb. by split. Qed.

(** Reading one datagram, with memory. *)
Lemma wp_read_socket b (Q' : Z * list Z → world → Prop) (X : stop → world → Prop) w :
  length b = Z.to_nat PACKET_SIZE → said w →
  (∀ w' k r b', said w' → (tick w ≤ k < tick w')%nat → received E k b' r →
    (∀ e, e_recv E k = RecvErr e → errno w' = e) → Q' (r, b') w') →
  wp (read_only_from E b PACKET_SIZE) Q' X w.
Proof using Hoom.
  intros Hb Hs HQ. apply wp_read_only_from_cases; [done|by rewrite Hoom|].
  intros w' k r b' Hw Hk Hr He. eapply HQ; [by eapply said_quiet|done..].
Qed.

Section justified.
(** A reason [J m k] for the window to start at [m] at call [k], which the
    acknowledgements that are received keep up. *)
Context (J : nat → nat → Prop).
Hypothesis J_mono : ∀ m k k', (k ≤ k')%nat → J m k → J m k'.
Hypothesis J_ack : ∀ m n k a, (m ≤ n)%nat → ack_heard k a → J m k →
  J (ack_point a m (n - m)) (S k).

Lemma wp_read_acks_J m n l w :
  client_inv m n l → said w →
  wp (read_acks E fuel size l)
    (λ l' w', ∃ m', client_inv m' n l' ∧ said w' ∧ (read l' < 0 ∨ written l' = size) ∧
      (dated l w → dated l' w') ∧ (J m (tick w) → J m' (tick w')))
    stops w.
Proof using J_ack J_mono Hoom.
  intros Hi Hs. unfold read_acks.
  apply (wp_loop (λ l1 w1, ∃ m1, client_inv m1 n l1 ∧ said w1 ∧
    (dated l w → dated l1 w1) ∧ (J m (tick w) → J m1 (tick w1)))); [by exists m| |].
  { intros l1 w1 (? & ? & ? & _). split; [done|constructor]. }
  intros l0 w0' (m0 & Hi0 & Hs0 & Hd0 & HJ0). unfold acks_step. wp_step.
  apply wp_read_socket; [by apply ci_buffer in Hi0|done|].
  intros w1 k r b Hs1 Hk Hrcv He. cbn [fst snd]. pose proof Hrcv as [Hb Hr].
  pose proof (inv_buffer m0 n l0 b r Hi0 Hb) as Hi1.
  set (l1 := mkLocals b _ _ r _ _ _ _) in *.
  assert (dated l w → dated l1 w1) as Hd1
    by (intros Hd; eapply dated_mono, Hd0, Hd; [lia|done]).
  assert (∀ k', (k ≤ k')%nat → J m (tick w) → J m0 k') as HJ
    by (intros k' ? HJ; eapply J_mono, HJ0, HJ; lia).
  do 2 wp_step. wp_step.
  { wp_step. bool_to_prop. exists m0. split_and!; [done|done|by left|done|apply HJ; lia]. }
  assert (looked_at k b r) as Hlook.
  { split; [done|]. intros e Ek ->. rewrite (He _ Ek), Ek in *. subst r. done. }
  destruct (get_seq_num_Some b) as (a & Ha & _); [size_lia|].
  destruct (b !! O) as [c|] eqn:Hc; [|apply lookup_ge_None in Hc; exfalso; size_lia].
  replace (buffer l1) with b by done. rewrite Ha, Hc. do 4 wp_step.
  wp_step; bool_to_prop; [subst c|].
  { wp_step. eapply wp_conseq; [by apply (wp_pop_acked a m0 n)|].
    intros l2 w2 (? & ? & Ht2 & Hd2). wp_step. eexists. split_and!; [done|done|auto|].
    intros HJm. eapply (J_mono _ (S k)); [lia|]. apply J_ack; [|by exists b, r|by apply HJ].
    by apply ci_range in Hi1 as []. }
  wp_step; bool_to_prop; [subst c|wp_step; exists m0; split_and!; [done|done|done|apply HJ; lia]].
  wp_step; wp_step; bool_to_prop.
  - split; [done|]. apply cause_refused.
    destruct (looked_at_heard _ _ _ _ Hlook Hc); [by right; left|by right; right].
  - exists m0. pose proof (written_le m0 n l1 Hi1).
    split_and!; [done|done|right; lia|done|apply HJ; lia].
Qed.

(** The transfer loop only ends when everything is acknowledged. *)
Lemma wp_send_file_J l w :
  client_inv 0 0 l → read l = 0 → said w → dated l w → J 0 (tick w) →
  wp (send_file E fuel size l)
    (λ l' w', length (buffer l') = Z.to_nat PACKET_SIZE ∧ said w' ∧
      ∃ m, (length content ≤ CHUNK * m)%nat ∧ J m (tick w')) stops w.
Proof using Hoom J_ack J_mono.
  intros Hi Hr Hs Hd HJ. unfold send_file.
  apply (wp_loop (λ l w, ∃ m n, client_inv m n l ∧ said w ∧ dated l w ∧ J m (tick w) ∧
    (read_ok n l ∨ written l = size))).
  { exists O, O. split_and!; [done..|]. left. unfold read_ok. rewrite Hr. lia. }
  { intros l1 w1 (? & ? & ? & ? & _). split; [done|constructor]. }
  clear l w Hi Hr Hs Hd HJ. intros l w (m & n & Hi & Hs & Hd & HJ & Hr). unfold send_step.
  wp_step; bool_to_prop.
  { wp_step. split; [by apply ci_buffer in Hi|]. split; [done|]. exists m. split; [|done].
    rewrite (ci_written _ _ _ Hi), length_take in *. unfold size in *. lia. }
  destruct Hr as [Hr|]; [|done].
  wp_step. eapply wp_conseq; [by apply (wp_fill_window m n)|].
  intros l1 w1 (n1 & Hi1 & Hr1 & Hl1 & Hs1 & Ht1).
  wp_step. eapply wp_conseq; [by apply (wp_send_all (target l1) m n1 l1)|].
  intros r w2 (Hs2 & Ht2 & Hsend). wp_step; bool_to_prop.
  { wp_step. split; [done|]. destruct (Hsend ltac:(done)) as [k Hk]. by eapply cause_send. }
  wp_step. apply wp_time. intros w3 Hw3. assert (said w3) as Hs3 by by eapply said_quiet.
  assert (dated l1 w2) as Hd2 by (eapply dated_mono, Hd; [lia|done]).
  wp_step; bool_to_prop.
  { wp_step. split; [done|]. apply cause_late. left. destruct Hd2 as (k & Hk & Hlast).
    exists k, (tick w2). split; [done|]. unfold ACK_TIMEOUT in *. lia. }
  wp_step. apply wp_sleep. intros w4 Hw4. destruct Hw3 as [Ht3 _]. pose proof Hw4 as [Ht4 _].
  wp_step. eapply wp_conseq; [apply (wp_read_acks_J m n1); [done|by eapply said_quiet]|].
  intros l5 w5 (m5 & Hi5 & Hs5 & Hr5 & Hd5 & HJ5). wp_step. exists m5, n1. split_and!; [done|done|..].
  - apply Hd5. eapply dated_mono, Hd2; [lia|done].
  - apply HJ5. eapply J_mono, HJ. lia.
  - destruct Hr5; [left|by right]. unfold read_ok. lia.
Qed.
End justified.

Lemma wp_read_acks m n l w :
  client_inv m n l → said w →
  wp (read_acks E fuel size l)
    (λ l' w', ∃ m', client_inv m' n l' ∧ said w' ∧ (read l' < 0 ∨ written l' = size))
    stops w.
Proof using Hoom.
  intros Hi Hs. eapply wp_conseq; [by apply (wp_read_acks_J (λ _ _, True) ltac:(done) ltac:(done) m n)|].
  intros l' w' (m' & ? & ? & ? & _). by exists m'.
Qed.

Lemma wp_send_file l w :
  client_inv 0 0 l → read l = 0 → said w → dated l w →
  wp (send_file E fuel size l)
    (λ l' w', length (buffer l') = Z.to_nat PACKET_SIZE ∧ said w') stops w.
Proof using Hoom.
  intros Hi Hr Hs Hd.
  eapply wp_conseq; [by apply (wp_send_file_J (λ _ _, True) ltac:(done) ltac:(done))|].
  intros l' w' (? & ? & _). done.
Qed.

Lemma wp_skip_acks r b w :
  length b = Z.to_nat PACKET_SIZE → said w →
  wp (skip_acks E fuel r b) (λ b' w', length b' = Z.to_nat PACKET_SIZE ∧ said w') stops w.
Proof using Hoom.
  intros Hb Hs. unfold skip_acks.
  apply (wp_loop (λ x w, length x.2 = Z.to_nat PACKET_SIZE ∧ said w)); [done| |].
  { intros x w1 [_ ?]. split; [done|constructor]. }
  intros [r1 b1] w1 [Hb1 Hs1]. cbn [snd] in *. wp_step. apply wp_first; [size_lia|]. intros c _.
  wp_step; [|by wp_step]. wp_step. apply wp_read_socket; [done..|].
  intros w2 k r2 b2 Hs2 _ [Hb2 _] _. by wp_step.
Qed.

Lemma wp_close_connection tgt b w :
  length b = Z.to_nat PACKET_SIZE → said w →
  wp (close_connection E fuel tgt b) (λ _ w', said w') stops w.
Proof using Hoom.
  intros Hb Hs. unfold close_connection.
  wp_step. apply wp_create_packet_empty; intros w1 Hw1; [by rewrite Hoom|].
  wp_step. apply wp_sleep. intros w2 Hw2. wp_step. apply wp_time. intros w3 Hw3.
  apply (wp_loop (λ b w, length b = Z.to_nat PACKET_SIZE ∧ said w)).
  { split; [done|]. eapply said_quiet; [eapply said_quiet; [by eapply said_quiet|]|]; done. }
  { intros b4 w4 [_ ?]. split; [done|constructor]. }
  intros b4 w4 [Hb4 Hs4]. unfold close_step. wp_step. apply wp_time. intros w5 Hw5.
  assert (said w5) as Hs5 by by eapply said_quiet. wp_step; [|by wp_step].
  wp_step. eapply (wp_send_packet_chatter _ sent_ok); [done| |].
  { eexists _, _. split; [done|]. by right; right. }
  intros w6 _ Hw6. wp_step. apply wp_sleep. intros w7 Hw7.
  assert (said w7) as Hs7 by (eapply said_quiet; [by eapply said_chatter|done]).
  wp_step. apply wp_read_socket; [done..|]. intros w8 k r8 b8 Hs8 _ [Hb8 _] _. cbn [fst snd].
  wp_step. eapply wp_conseq; [by apply wp_skip_acks|]. intros b9 w9 [Hb9 Hs9].
  wp_step. apply wp_first; [size_lia|]. intros c _. wp_step; by wp_step.
Qed.

(** ** The request *)
Hypothesis Hname : Forall (λ c, c ≠ NUL) filename.

Lemma request_text_no_nul : Forall (λ c, c ≠ NUL) (request_text filename size).
Proof using Hname.
  unfold request_text. apply Forall_app. split; [done|]. constructor; [done|].
  eapply Forall_impl; [apply format_ld_digits; unfold size; lia|].
  unfold NUL. cbn. lia.
Qed.

Lemma print_request_spec b b' :
  length b = Z.to_nat PACKET_SIZE → print_request b filename size = Some b' →
  length b' = Z.to_nat PACKET_SIZE ∧
  (length (request_text filename size) < CHUNK)%nat ∧
  ∃ tl, payload_of b' = request_text filename size ++ NUL :: tl.
Proof.
  intros Hb Hp. unfold print_request, memcpy in Hp. destruct (decide _) as [[_ Hfit]|]; [|done].
  set (s := request_text filename size) in *.
  rewrite take_ge in Hp by (rewrite length_app; cbn; lia). injection Hp as <-.
  pose proof CHUNK_Z. split; [|split].
  - rewrite length_splice; [done|]. rewrite length_app. cbn. size_lia.
  - size_lia.
  - unfold payload_of. rewrite drop_splice by size_lia. rewrite <- app_assoc. by eexists.
Qed.

(** How a request is answered: not at all, or by a datagram. *)
Definition answered (r : Z) (b : list Z) : Prop :=
  (r < 1 → late 3 ∨ garbled) ∧ (1 ≤ r → ∀ c, b !! O = Some c → heard c).

Lemma wp_send_request k0 b tgt w :
  length b = Z.to_nat PACKET_SIZE → (length (request_text filename size) < CHUNK)%nat → said w →
  (k0 < tick w)%nat →
  wp (send_request E fuel (pkt CMD_WRQ 0 (request_text filename size)) (e_time E k0) b tgt)
    (λ r w', length r.1.2 = Z.to_nat PACKET_SIZE ∧ said w' ∧ answered r.1.1 r.1.2) stops w.
Proof.
  intros Hb Hl Hs Hk0. pose proof CHUNK_Z. unfold send_request.
  apply (wp_loop (λ x w, length x.1 = Z.to_nat PACKET_SIZE ∧ said w ∧ (k0 < tick w)%nat)); [done| |].
  { intros x w1 (_ & ? & _). split; [done|constructor]. }
  intros [b1 t1] w1 (Hb1 & Hs1 & Ht1). cbn [fst] in Hb1.
  wp_step. eapply (wp_send_packet_why _ sent_ok); [lia| |].
  { eexists _, _. split; [done|]. by left. }
  intros w2 r Hw2 Hr. assert (said w2) as Hs2 by by eapply said_chatter. destruct Hw2 as [Ht2 _].
  wp_step; bool_to_prop.
  { wp_step. split; [done|]. destruct (Hr ltac:(done)) as [k Hk]. by eapply cause_send. }
  wp_step. apply wp_sleep. intros w3 Hw3.
  assert (said w3) as Hs3 by by eapply said_quiet. destruct Hw3 as [Ht3 _].
  wp_step. apply wp_recvfrom.
  - intros w4 e _ Hw4 _. assert (said w4) as Hs4 by by eapply said_quiet. destruct Hw4 as [Ht4 _].
    rewrite memcpy_prefix by (cbn; lia). do 2 wp_step.
    wp_step; [|bool_to_prop; lia]. wp_step. apply wp_time. intros w5 Hw5.
    assert (said w5) by by eapply said_quiet. destruct Hw5 as [Ht5 _].
    wp_step. destruct (e_time E (tick w4) - e_time E k0 <? 6) eqn:Hlate;
      cbn beta iota delta [fst snd]; rewrite length_splice by (cbn; lia).
    + split_and!; [done|done|lia].
    + split_and!; [done|done|]. bool_to_prop. split; [|lia]. intros _. left.
      exists k0, (tick w4). split; lia.
  - intros w4 d src Hrecv Hw4. assert (said w4) as Hs4 by by eapply said_quiet.
    assert (length (take (Z.to_nat PACKET_SIZE) d) ≤ Z.to_nat PACKET_SIZE)%nat
      by (rewrite length_take; lia).
    rewrite memcpy_prefix by lia. do 2 wp_step.
    wp_step; [bool_to_prop; lia|]. wp_step. cbn [fst snd]. rewrite length_splice by lia.
    split_and!; [done|done|]. split; intros Hlen; rewrite length_take in Hlen.
    + right. exists (tick w3). rewrite Hrecv. destruct d; [done|cbn in Hlen; size_lia].
    + intros c Hc. exists (tick w3), d, src. split; [done|].
      destruct d as [|c' d]; [cbn in Hlen; lia|]. done.
Qed.

Lemma wp_complete_request b tgt w :
  length b = Z.to_nat PACKET_SIZE → said w →
  wp (complete_request E fuel b size filename tgt)
    (λ r w', length r.1 = Z.to_nat PACKET_SIZE ∧ said w') stops w.
Proof using Hname Hoom.
  intros Hb Hs. unfold complete_request. wp_step. apply wp_time. intros w1 Hw1.
  assert (said w1) by by eapply said_quiet.
  wp_step. apply wp_defined.
  2: { intros Hp. split; [done|]. apply cause_name. unfold print_request, memcpy in Hp.
       destruct (decide _) as [|Hfit]; [done|]. rewrite length_app in Hfit. cbn [length] in Hfit.
       pose proof CHUNK_Z. size_lia. }
  intros b1 Hp.
  destruct (print_request_spec b b1 Hb Hp) as (Hb1 & Hl & tl & Hpay). pose proof CHUNK_Z.
  rewrite Hpay, cstr_app by apply request_text_no_nul. do 2 wp_step.
  wp_step. apply wp_create_packet; [lia|rewrite length_app; lia| |].
  { intros w2 Hw2. by rewrite Hoom. }
  rewrite Nat2Z.id, take_app_length. intros w2 Hw2.
  wp_step. eapply wp_conseq; [apply wp_send_request; [done..|by eapply said_quiet|]|].
  { destruct Hw1, Hw2. lia. }
  intros [[r b3] t3] w3 (Hb3 & Hs3 & Hno & Hyes). cbn [fst snd] in *.
  wp_step; bool_to_prop; [wp_step; split; [done|by apply cause_late, Hno]|].
  wp_step. apply wp_first; [size_lia|]. intros c Hc. specialize (Hyes ltac:(lia) c Hc).
  wp_step; [by wp_step|]. wp_step; bool_to_prop; [subst c; wp_step; split; [done|by constructor]|].
  wp_step; bool_to_prop; [subst c; wp_step; split; [done|constructor; by left]|by wp_step].
Qed.

(** Everything the client sends, on every path, why it stops, and that it
    only returns once the window has moved past the file. *)
Lemma wp_client_copy_file_J (J : nat → nat → Prop) tgt :
  (∀ k, J O k) → (∀ m k k', (k ≤ k')%nat → J m k → J m k') →
  (∀ m n k a, (m ≤ n)%nat → ack_heard k a → J m k → J (ack_point a m (n - m)) (S k)) →
  wp (copy_file E fuel (Q := Q) content size filename tgt)
    (λ code w', code = 0 ∧ said w' ∧ ∃ m k, (length content ≤ CHUNK * m)%nat ∧ J m k) stops w0.
Proof using HL Hname Hoom.
  intros J_0 J_mono J_ack. assert (said w0) as Hs0 by apply said_refl.
  unfold copy_file. wp_step.
  eapply wp_conseq; [apply wp_complete_request; [by rewrite length_replicate|done]|].
  intros [b t] w1 [Hb Hs1]. cbn [fst] in Hb. wp_step. unfold call, wp at 1. cbn -[wp].
  rewrite Hoom. cbn [negb]. wp_step. apply wp_time. intros w2 Hw2.
  assert (said w2) as Hs2.
  { eapply said_quiet; [|exact Hw2]. eapply said_quiet; [exact Hs1|].
    split_and!; cbn; [lia|done..]. }
  wp_step. eapply wp_conseq; [apply (wp_send_file_J J J_mono J_ack); [|done|done| |done]|].
  - split; cbn [buffer packets rest sequence written]; try done;
      [apply q_create_ok|lia|by left].
  - eexists. split; [apply Hw2|]. done.
  - intros l w3 (Hl & Hs3 & m & Hm & HJ). wp_step.
    eapply wp_conseq; [by apply wp_close_connection|]. intros u w4 Hs4. wp_step.
    split_and!; [done|done|]. eauto.
Qed.

Lemma wp_client_copy_file tgt :
  wp (copy_file E fuel (Q := Q) content size filename tgt)
    (λ code w', code = 0 ∧ said w') stops w0.
Proof using HL Hname Hoom.
  eapply wp_conseq; [by apply (wp_client_copy_file_J (λ _ _, True))|].
  intros code w' (? & ? & _). done.
Qed.
End client.
