(* ===== verification/Sender.v ===== *)
(** * Sender: the transfer loop of the client as an abstract machine

    The counterpart of [Receiver].  The machine is a go-back-n sender over the
    chunks of the file: it knows the first chunk that is not acknowledged, the
    end of its window and when the window last moved, and it works in rounds:
    send the whole window, give up or listen, take acknowledgements until
    there are no more.  The loop of the client refines it, action by action,
    for every system, and sends exactly what the machine sends. *)
From S2P Require Import Prelude CMonad CLib Packet Queue FtpWorld NetOps FtpClient ClientSpec Samples.
Import Client.

(** The chunks before [m] are acknowledged, those before [n] are in packets,
    and the window last moved at time [t]. *)
Inductive sender : Type :=
| Idle (m n : nat) (t : Z)
| Flying (m n : nat) (t : Z)
| Listening (m n : nat) (t : Z)
| Broken
| Stalled
| Refused.

Inductive action : Type :=
| ARound                             (** the window is filled and sent *)
| AWait (now : Z)                    (** the clock is looked at *)
| AAck (a : Z) (moved : option Z)    (** an acknowledgement, and when it moved the window *)
| AFin
| ANoise
| AQuiet.                            (** there is nothing to read *)

Section machine.
Context (content : list Z).

(** Whether the first [m] chunks are the whole file. *)
Definition all_acked (m : nat) : Prop := (length content ≤ CHUNK * m)%nat.

(** A step for a file, and the packets it sends, in order. *)
Inductive sstep : sender → action → list (list Z) → sender → Prop :=
| s_round m n t :
    ¬ all_acked m → sstep (Idle m n t) ARound (window content m (m + 50)) (Flying m (m + 50) t)
| s_broken m n t j :
    ¬ all_acked m → (m ≤ j < m + 50)%nat → sstep (Idle m n t) ARound (window content m j) Broken
| s_wait m n t now :
    now - t ≤ ACK_TIMEOUT → sstep (Flying m n t) (AWait now) [] (Listening m n t)
| s_stall m n t now :
    ACK_TIMEOUT < now - t → sstep (Flying m n t) (AWait now) [] Stalled
| s_hold m n t a :
    ack_point a m (n - m) = m → sstep (Listening m n t) (AAck a None) [] (Listening m n t)
| s_move m n t a now :
    (m < ack_point a m (n - m))%nat →
    sstep (Listening m n t) (AAck a (Some now)) [] (Listening (ack_point a m (n - m)) n now)
| s_noise m n t : sstep (Listening m n t) ANoise [] (Listening m n t)
| s_quiet m n t : sstep (Listening m n t) AQuiet [] (Idle m n t)
| s_fin m n t : all_acked m → sstep (Listening m n t) AFin [] (Idle m n t)
| s_refused m n t : ¬ all_acked m → sstep (Listening m n t) AFin [] Refused.

(** An action, the call at which it happened, and what it sent. *)
Record entry : Type := mkEntry { at_call : nat; what : action; out : list (list Z) }.

(** The runs of the machine from the time [t0] on, newest entry first. *)
Inductive history (t0 : Z) : list entry → sender → Prop :=
| h_start : history t0 [] (Idle 0 0 t0)
| h_next h st k a o st' :
    history t0 h st → Forall (λ e, at_call e < k)%nat h → sstep st a o st' →
    history t0 (mkEntry k a o :: h) st'.

(** All the packets sent, newest first. *)
Definition outputs (h : list entry) : list (list Z) := h ≫= λ e, reverse (out e).
(** When the window last moved. *)
Fixpoint last_move (t0 : Z) (h : list entry) : Z :=
  match h with
  | [] => t0
  | e :: h => match what e with AAck _ (Some now) => now | _ => last_move t0 h end
  end.

Lemma history_last_move t0 h st :
  history t0 h st →
  match st with
  | Idle m n t | Flying m n t | Listening m n t => t = last_move t0 h ∧ (m ≤ n ≤ m + 50)%nat
  | _ => True
  end.
Proof.
  induction 1 as [|h st k a o st' _ IH _ Hs]; [split; [done|lia]|].
  destruct Hs as [| | | | | m n t a now Hm | | | |]; cbn; try done; destruct IH as [? ?];
    (split; [done|]); try lia. pose proof (ack_point_range a m (n - m)). lia.
Qed.

(** The machine gives up only on a window that has not moved for three
    seconds (the clock counts whole ones). *)
Theorem stalled_stuck t0 h :
  history t0 h Stalled → ∃ k now h', h = mkEntry k (AWait now) [] :: h' ∧
    ACK_TIMEOUT < now - last_move t0 h'.
Proof.
  inversion 1 as [|h' st k a o st' Hh Hk Hs]; subst. inversion Hs; subst.
  apply history_last_move in Hh as [-> _]. by eexists _, _, _.
Qed.
End machine.

Section refinement.
Context `{Host} (E : env) (fuel : nat) `{HL : QueueLaws Q (list Z)}.
Context (content filename : list Z) (tgt : EndPoint).
Hypothesis Hoom : ∀ k, e_oom E k = false.
Abbreviation size := (Z.of_nat (length content)).
(** The process and the time when the transfer starts. *)
Context (w0 : world) (t0 : Z).
Implicit Types (l : locals Q) (w : world) (h : list entry).

(** What the system did at the call of an action. *)
Definition heard_at (e : entry) : Prop :=
  (tick w0 ≤ at_call e)%nat ∧
  match what e with
  | ARound => True
  | AWait now => now = e_time E (at_call e)
  | AAck a moved => ack_heard E (at_call e) a ∧
      ∀ now, moved = Some now → ∃ k, (at_call e < k)%nat ∧ now = e_time E k
  | AFin => ∃ b r, looked_at E (at_call e) b r ∧ b !! O = Some CMD_FIN
  | ANoise => ∃ b r c, looked_at E (at_call e) b r ∧ b !! O = Some c ∧ c ≠ CMD_ACK ∧ c ≠ CMD_FIN
  | AQuiet => e_recv E (at_call e) = RecvErr EAGAIN
  end.

Record mirrors h st w : Prop := {
  mi_history : history content t0 h st;
  mi_heard : Forall heard_at h;
  mi_past : Forall (λ e, at_call e < tick w)%nat h;
  mi_trace : trace w = (EvSend (addr tgt) <$> outputs h) ++ trace w0;
  mi_fs : fs w = fs w0;
  mi_start : (tick w0 ≤ tick w)%nat;
}.

(** The locals that belong to a window. *)
Record window_of (m n : nat) (t : Z) l : Prop := {
  wo_inv : client_inv content m n l;
  wo_last : lastACK l = t;
  wo_target : target l = tgt;
}.

Definition result_of st (r : result (locals Q)) : Prop :=
  match st with
  | Idle m n t => r = Stop SFuel ∨ ∃ l, r = Ok l ∧ window_of m n t l ∧ all_acked content m
  | Flying _ _ _ | Listening _ _ _ => r = Stop SFuel
  | Broken => r = Stop (SExit RUNTIME_ERROR)
  | Stalled => r = Stop (SExit TIMEOUT)
  | Refused => r = Stop (SExit BAD_REQUEST)
  end.

Definition refines (r : result (locals Q)) w : Prop :=
  ∃ h st, mirrors h st w ∧ result_of st r.

Abbreviation stops := (λ (b : stop) (w : world), refines (Stop b) w).

Lemma mirrors_later h st w w' :
  mirrors h st w → (tick w ≤ tick w')%nat → trace w' = trace w → fs w' = fs w → mirrors h st w'.
Proof.
  intros [] Ht Htr Hf. split; [done|done| |congruence|congruence|lia].
  eapply Forall_impl; [done|]. cbn. lia.
Qed.

Lemma mirrors_sender_quiet h st w w' : mirrors h st w → quiet w w' → mirrors h st w'.
Proof. intros Hm (Ht & Htr & Hf). apply (mirrors_later h st w); [done|lia|done|done]. Qed.

(** One more action, at a call after all others. *)
Lemma mirrors_sender_step h st w w' k a o st' :
  mirrors h st w → (tick w ≤ k < tick w')%nat → heard_at (mkEntry k a o) →
  sstep content st a o st' → trace w' = (EvSend (addr tgt) <$> reverse o) ++ trace w →
  fs w' = fs w → mirrors (mkEntry k a o :: h) st' w'.
Proof.
  intros [] Hk Hh Hs Htr Hf. split; [|by constructor| | |congruence|lia].
  - eapply h_next; [done| |done]. eapply Forall_impl; [done|]. cbn. lia.
  - constructor; [cbn; lia|]. eapply Forall_impl; [done|]. cbn. lia.
  - rewrite Htr, mi_trace0. unfold outputs. cbn. by rewrite fmap_app, app_assoc.
Qed.

(** The loop runs out of its bound in the middle of the transfer. *)
Lemma unfinished h st w :
  mirrors h st w → match st with Idle _ _ _ | Flying _ _ _ | Listening _ _ _ => True | _ => False end →
  stops SFuel w.
Proof. intros Hm Hst. exists h, st. split; [done|]. destruct st; by try left. Qed.

Lemma written_all_acked m n t l : window_of m n t l → written l = size ↔ all_acked content m.
Proof.
  intros [Hi _ _]. rewrite (ci_written _ _ _ _ Hi), length_take. unfold all_acked. lia.
Qed.

(** ** The parts of a round *)

(** Time passed, and nothing else. *)
Definition still w w' : Prop :=
  (tick w ≤ tick w')%nat ∧ trace w' = trace w ∧ fs w' = fs w.

Lemma still_refl w : still w w.
Proof. by split_and!. Qed.

Lemma still_quiet w1 w2 w3 : still w1 w2 → quiet w2 w3 → still w1 w3.
Proof. intros (? & ? & ?) (? & ? & ?). split_and!; [lia|congruence..]. Qed.

(** The window is filled up: fifty packets, whatever is left of the file. *)
Lemma wp_fill_window_full m n t l (X : stop → world → Prop) w :
  window_of m n t l → read_ok content n l → ¬ all_acked content m →
  (∀ w', still w w' → X SFuel w') →
  wp (fill_window E fuel size l)
    (λ l' w', window_of m (m + 50) t l' ∧ read_ok content (m + 50) l' ∧ still w w') X w.
Proof using Hoom.
  intros Hw Hr Hm HX. unfold fill_window.
  apply (wp_loop (λ l1 w1, ∃ n1, window_of m n1 t l1 ∧ read_ok content n1 l1 ∧ still w w1)).
  { exists n. split; [done|]. split; [done|apply still_refl]. }
  { intros l1 w1 (? & _ & _ & ?). by apply HX. }
  intros l1 w1 (n1 & Hw1 & Hr1 & Hs1). pose proof Hw1 as [Hi1 Hl1 Ht1].
  pose proof (ci_range _ _ _ _ Hi1).
  assert (written l1 < size) as Hwr.
  { pose proof (written_le content m n1 l1 Hi1). pose proof (written_all_acked m n1 t l1 Hw1).
    destruct (decide (written l1 = size)); [tauto|lia]. }
  wp_step. eapply wp_on_queue; [by eapply q_size_ok, ci_window|]. cbn [fst].
  rewrite length_window, u32_id, (proj2 (Z.ltb_lt _ _) Hwr), andb_true_r by lia.
  wp_step; bool_to_prop; unfold WINDOW_SIZE in *.
  - wp_step. pose proof (length_chunk content n1). pose proof CHUNK_Z.
    eapply (wp_read_chunk_via E content Hoom m n1); [done|done|lia|done|]. intros Hp Hlen.
    apply wp_create_packet; [lia|lia|intros w2 _; by rewrite Hoom|]. rewrite Nat2Z.id, Hp.
    intros w2 Hw2. split; [done|]. intros l2 Hi2 Hr2 Hl2 Ht2. wp_step. exists (S n1).
    split; [split; [done|congruence|congruence]|]. split; [done|].
    destruct (still_quiet _ _ _ Hs1 Hw2) as (? & ? & ?). split_and!; cbn; [lia|done|done].
  - wp_step. assert (n1 = m + 50)%nat as -> by lia. done.
Qed.

(** The packets go out in order until one fails. *)
Lemma wp_send_each_exact m n (X : stop → world → Prop) w :
  (m < n)%nat →
  wp (send_each E tgt (window content m n))
    (λ r w', ∃ j, trace w' = (EvSend (addr tgt) <$> reverse (window content m j)) ++ trace w ∧
      fs w' = fs w ∧ (tick w < tick w')%nat ∧
      (r = 0 ∧ j = n ∨ r ≠ 0 ∧ (m ≤ j < n)%nat)) X w.
Proof.
  remember (n - m)%nat as k eqn:Hk. revert m w Hk. induction k as [|k IH]; intros m w Hk Hmn; [lia|].
  rewrite window_cons by lia. cbn [send_each]. wp_step. unfold data_pkt at 1.
  pose proof (length_chunk content m). pose proof CHUNK_Z.
  apply wp_send_packet; [lia| |].
  - intros w1 (Ht1 & Htr1 & Hf1) _. cbn [Z.eqb]. wp_step. exists m. rewrite window_nil.
    split_and!; [by rewrite Htr1|done|lia|right; split; [done|lia]].
  - intros w1 Ht1 Hf1 Htr1. cbn [Z.eqb]. destruct (decide (S m = n)) as [<-|Hne].
    + rewrite window_nil. cbn [send_each]. wp_step. exists (S m).
      rewrite window_cons, window_nil by lia. split_and!; [done|done|lia|by left].
    + eapply wp_conseq; [apply (IH (S m)); lia|].
      intros r w2 (j & Htr2 & Hf2 & Ht2 & Hr). exists j.
      rewrite (window_cons content m j) by lia. rewrite reverse_cons, fmap_app, <- app_assoc.
      split_and!; [by rewrite Htr2, Htr1|congruence|lia|].
      destruct Hr as [[-> ->]|[Hr Hj]]; [by left|right; split; [done|lia]].
Qed.

Lemma wp_send_all_exact m t l (X : stop → world → Prop) w :
  window_of m (m + 50) t l →
  wp (send_all E (target l) (packets l))
    (λ r w', ∃ j, trace w' = (EvSend (addr tgt) <$> reverse (window content m j)) ++ trace w ∧
      fs w' = fs w ∧ (tick w < tick w')%nat ∧
      (r = 0 ∧ j = (m + 50)%nat ∨ r ≠ 0 ∧ (m ≤ j < m + 50)%nat)) X w.
Proof.
  intros [Hi _ ->]. pose proof (ci_window _ _ _ _ Hi) as Hq. unfold send_all.
  wp_step. eapply wp_on_queue; [by eapply q_is_empty_ok|]. cbn [fst].
  rewrite bool_decide_eq_false_2 by (rewrite window_cons by lia; done).
  wp_step. eapply wp_on_queue; [by eapply q_walk_ok|]. cbn [fst].
  apply wp_send_each_exact. lia.
Qed.

(** An acknowledgement moves the window to where the machine says. *)
Lemma wp_pop_acked_exact a m n t l (X : stop → world → Prop) w :
  window_of m n t l → (∀ w', still w w' → X SFuel w') →
  wp (pop_acked E fuel a l)
    (λ l' w', still w w' ∧ read l' = read l ∧
      (ack_point a m (n - m) = m ∧ window_of m n t l' ∨
       (m < ack_point a m (n - m))%nat ∧ ∃ k, (tick w ≤ k < tick w')%nat ∧
         window_of (ack_point a m (n - m)) n (e_time E k) l')) X w.
Proof.
  intros Hw HX. unfold pop_acked.
  apply (wp_loop (λ l1 w1, still w w1 ∧ read l1 = read l ∧ ∃ m1,
    ack_point a m1 (n - m1) = ack_point a m (n - m) ∧
    (m1 = m ∧ window_of m n t l1 ∨
     (m < m1)%nat ∧ ∃ k, (tick w ≤ k < tick w1)%nat ∧ window_of m1 n (e_time E k) l1))).
  { split; [apply still_refl|]. split; [done|]. exists m. auto. }
  { intros l1 w1 [? _]. by apply HX. }
  intros l1 w1 (Hs1 & Hr1 & m1 & Ha & Hc).
  assert (∃ t1, window_of m1 n t1 l1) as [t1 [Hi1 Hl1 Ht1]]
    by (destruct Hc as [[-> Hc]|(_ & k & _ & Hc)]; eauto).
  eapply wp_conseq; [by apply wp_pop_step|]. intros [l2|l2] w2 [_ Hr].
  - destruct Hr as (Hlt & Hi2 & Ha2 & _ & Hr2 & Ht2 & Hl2 & ->).
    destruct Hs1 as (Hs & Htr & Hf). split; [split_and!; cbn; [lia|done|done]|].
    split; [congruence|]. exists (S m1). split; [congruence|]. right. split.
    { destruct Hc as [[-> _]|[? _]]; lia. }
    exists (tick w1). split; [cbn; lia|]. split; [done|done|congruence].
  - destruct Hr as (-> & -> & Hm1). rewrite Hm1 in Ha. subst m1.
    split; [done|]. split; [done|]. destruct Hc as [[<- Hc]|Hc]; [by left|by right].
Qed.

(** ** Rounds *)

(** Between rounds the loop reads on or is done. *)
Definition ready (l : locals Q) w : Prop :=
  ∃ h m n t, mirrors h (Idle m n t) w ∧ window_of m n t l ∧
    (read_ok content n l ∨ all_acked content m).

(** What an action does that sends nothing. *)
Lemma mirrors_silent h st w w' k a st' :
  mirrors h st w → (tick w ≤ k < tick w')%nat → heard_at (mkEntry k a []) →
  sstep content st a [] st' → trace w' = trace w → fs w' = fs w →
  mirrors (mkEntry k a [] :: h) st' w'.
Proof. intros Hm Hk Hh Hs Htr Hf. by eapply mirrors_sender_step. Qed.

Lemma window_buffer m n t l b r :
  window_of m n t l → length b = Z.to_nat PACKET_SIZE →
  window_of m n t (mkLocals b (target l) (written l) r (sequence l) (packets l) (lastACK l) (rest l)).
Proof. intros [Hi ? ?] Hb. split; [by apply (inv_buffer content m n l b r)|done..]. Qed.

(** An acknowledgement, heard by call [k], is a step of the machine. *)
Lemma refines_ack h m n t l w w1 k a :
  mirrors h (Listening m n t) w → window_of m n t l → (tick w ≤ k < tick w1)%nat →
  trace w1 = trace w → fs w1 = fs w → ack_heard E k a →
  wp (pop_acked E fuel a l)
    (λ l' w', ∃ h m t, mirrors h (Listening m n t) w' ∧ window_of m n t l') stops w1.
Proof using Hoom.
  intros Hm Hw Hk Htr1 Hf1 Hack. pose proof (mi_start _ _ _ Hm) as Hstart.
  eapply wp_conseq; [apply (wp_pop_acked_exact a m n t); [done|]|].
  { intros w2 (Ht2 & Htr2 & Hf2). eapply unfinished;
      [eapply mirrors_later; [done|lia|congruence|congruence]|done]. }
  intros l2 w2 ((Ht2 & Htr2 & Hf2) & _ & [[Hpt Hw2]|(Hpt & k2 & Hk2 & Hw2)]).
  - eexists _, m, t. split; [|done].
    eapply (mirrors_silent _ _ _ _ k); [done|lia| |by apply s_hold|congruence|congruence].
    split; [cbn; lia|]. by split.
  - eexists _, _, _. split; [|done].
    eapply (mirrors_silent _ _ _ _ k); [done|lia| |by apply s_move|congruence|congruence].
    split; [cbn; lia|]. split; [done|]. intros now [= <-]. exists k2. cbn. split; [lia|done].
Qed.

Lemma refines_acks_step h m n t l w :
  mirrors h (Listening m n t) w → window_of m n t l →
  wp (acks_step E fuel size l)
    (λ r w', match r with
      | inl l' => ∃ h m t, mirrors h (Listening m n t) w' ∧ window_of m n t l'
      | inr l' => ready l' w' end) stops w.
Proof using Hoom.
  intros Hm Hw. unfold acks_step. wp_step.
  apply wp_read_only_from_cases; [by apply wo_inv, ci_buffer in Hw|by intros w1; rewrite Hoom|].
  intros w1 k r b (Ht1 & Htr1 & Hf1) Hk Hrcv He. pose proof Hrcv as [Hb Hr].
  pose proof (window_buffer m n t l b r Hw Hb) as Hw1. cbn [fst snd].
  set (l1 := mkLocals b _ _ r _ _ _ _) in *. pose proof (mi_start _ _ _ Hm) as Hstart.
  do 2 wp_step. wp_step; bool_to_prop.
  { wp_step. exists (mkEntry k AQuiet [] :: h), m, n, t.
    split; [eapply (mirrors_silent _ _ _ _ k); [done|lia| |apply s_quiet|done|done]|split; [done|left]].
    - split; [cbn; lia|]. cbn. destruct (e_recv E k) as [e|d src]; [|cbn in *; lia].
      f_equal. rewrite <- (He e eq_refl). unfold EWOULDBLOCK, EAGAIN in *.
      repeat match goal with H : (_ || _) = true |- _ => apply orb_true_iff in H as [?|?] end;
        bool_to_prop; done.
    - unfold read_ok. cbn in *. lia. }
  assert (looked_at E k b r) as Hlook.
  { split; [done|]. intros e Ek ->. rewrite (He _ Ek), Ek in *. subst r. done. }
  destruct (get_seq_num_Some b) as (a & Ha & _); [size_lia|].
  destruct (b !! O) as [c|] eqn:Hc; [|apply lookup_ge_None in Hc; exfalso; size_lia].
  replace (buffer l1) with b by done. rewrite Ha, Hc. do 4 wp_step.
  wp_step; bool_to_prop; [subst c|].
  - wp_step. eapply wp_conseq; [apply (refines_ack h m n t l1 w w1 k a); (done || lia || by exists b, r)|].
    intros l2 w2 Hp. by wp_step.
  - wp_step; bool_to_prop; [subst c|].
    + pose proof (written_all_acked m n t l1 Hw1) as Hacked.
      assert (heard_at (mkEntry k AFin [])) as Hh by (split; [cbn; lia|by exists b, r]).
      wp_step; wp_step; bool_to_prop.
      * eexists _, Refused. split; [|done].
        eapply (mirrors_silent _ _ _ _ k); [done|lia|done|apply s_refused|done|done]. intros Hall.
        apply Hacked in Hall. cbn in *. lia.
      * assert (all_acked content m) as Hall.
        { apply Hacked. pose proof (written_le content m n l1 (wo_inv _ _ _ _ Hw1)). cbn in *. lia. }
        eexists _, m, n, t. split; [|split; [done|by right]].
        eapply (mirrors_silent _ _ _ _ k); [done|lia|done|by apply s_fin|done|done].
    + wp_step. eexists _, m, t. split; [|done].
      eapply (mirrors_silent _ _ _ _ k); [done|lia| |apply s_noise|done|done].
      split; [cbn; lia|]. by exists b, r, c.
Qed.

Lemma refines_read_acks h m n t l w :
  mirrors h (Listening m n t) w → window_of m n t l →
  wp (read_acks E fuel size l) (λ l' w', ready l' w') stops w.
Proof using Hoom.
  intros Hm Hw. unfold read_acks.
  apply (wp_loop (λ l w, ∃ h m t, mirrors h (Listening m n t) w ∧ window_of m n t l));
    [by exists h, m, t| |].
  - intros l1 w1 (? & ? & ? & ? & _). by eapply unfinished.
  - intros l1 w1 (? & ? & ? & Hm1 & Hw1). by eapply refines_acks_step.
Qed.

(** One round of the loop is a round of the machine. *)
Lemma refines_send_step l w :
  ready l w →
  wp (send_step E fuel size l)
    (λ r w', match r with
      | inl l' => ready l' w'
      | inr l' => ∃ h m n t, mirrors h (Idle m n t) w' ∧ window_of m n t l' ∧ all_acked content m end)
    stops w.
Proof using Hoom.
  intros (h & m & n & t & Hm & Hw & Hr). unfold send_step.
  pose proof (written_all_acked m n t l Hw) as Hacked. wp_step; bool_to_prop.
  { wp_step. exists h, m, n, t. split; [done|]. split; [done|]. by apply Hacked. }
  assert (¬ all_acked content m) as Hnot by (intros Hall; by apply Hacked in Hall).
  destruct Hr as [Hr|]; [|done]. pose proof (mi_start _ _ _ Hm) as Hstart.
  wp_step. eapply wp_conseq; [apply (wp_fill_window_full m n t); [done..|]|].
  { intros w1 (Ht1 & Htr1 & Hf1). eapply unfinished; [by eapply mirrors_later|done]. }
  intros l1 w1 (Hw1 & Hr1 & (Ht1 & Htr1 & Hf1)).
  wp_step. eapply wp_conseq; [by apply (wp_send_all_exact m t)|].
  intros r w2 (j & Htr2 & Hf2 & Ht2 & Hj). rewrite Htr1 in Htr2. wp_step; bool_to_prop.
  { wp_step. destruct Hj as [[-> _]|[_ Hj]]; [done|]. eexists _, Broken. split; [|done].
    eapply (mirrors_sender_step _ _ w _ (tick w1));
      [done|lia| |by apply (s_broken content m n t j)|done|congruence].
    split; [cbn; lia|done]. }
  destruct Hj as [[_ ->]|[? _]]; [|done].
  assert (mirrors (mkEntry (tick w1) ARound (window content m (m + 50)) :: h)
    (Flying m (m + 50) t) w2) as Hm2.
  { eapply (mirrors_sender_step _ _ w); [done|lia| |by apply s_round|done|congruence]. split; [cbn; lia|done]. }
  clear Hm. pose proof (mi_start _ _ _ Hm2) as Hstart2.
  wp_step. apply wp_time. intros w3 (Ht3 & Htr3 & Hf3).
  assert (heard_at (mkEntry (tick w2) (AWait (e_time E (tick w2))) [])) as Hh by (split; cbn; [lia|done]).
  pose proof Hw1 as [_ Hl1 _]. rewrite Hl1. wp_step; bool_to_prop.
  { wp_step. eexists _, Stalled. split; [|done].
    eapply (mirrors_silent _ _ _ _ (tick w2)); [done|lia|done|by apply s_stall|done|done]. }
  assert (mirrors (mkEntry (tick w2) (AWait (e_time E (tick w2))) [] ::
    mkEntry (tick w1) ARound (window content m (m + 50)) :: h) (Listening m (m + 50) t) w3) as Hm3
    by (eapply (mirrors_silent _ _ _ _ (tick w2)); [done|lia|done|by apply s_wait|done|done]).
  wp_step. apply wp_sleep. intros w4 Hw4.
  wp_step. eapply wp_conseq; [eapply refines_read_acks; [by eapply mirrors_sender_quiet|done]|].
  intros l5 w5 Hready. by wp_step.
Qed.

(** The whole loop. *)
Lemma refines_send_file l :
  window_of 0 0 t0 l → read l = 0 →
  wp (send_file E fuel size l) (λ l' w', refines (Ok l') w') stops w0.
Proof using Hoom.
  intros Hw Hr. unfold send_file.
  assert (mirrors [] (Idle 0 0 t0) w0) as Hm by (split; [constructor|done..]).
  apply (wp_loop ready).
  - exists [], O, O, t0. split; [done|]. split; [done|]. left. unfold read_ok. rewrite Hr. lia.
  - intros l1 w1 (h & m & n & t & Hm1 & _). by eapply unfinished.
  - intros l1 w1 Hready. eapply wp_mono; [by apply refines_send_step| |done].
    intros [l2|l2] w2; [done|]. intros (h & m & n & t & Hm2 & Hw2 & Hall).
    exists h, (Idle m n t). split; [done|]. right. by exists l2.
Qed.
End refinement.

(** C8. The transfer loop of the client refines the go-back-n machine, on
    every system with memory: each run is a history of the machine over what
    the system delivered, in the order of the calls, and what it sends is
    exactly what the machine sends, packet by packet.  It returns when all
    chunks are acknowledged, exits with [TIMEOUT] when the machine stalls,
    with [BAD_REQUEST] when it is refused and with [RUNTIME_ERROR] when a
    round breaks off, and has no other end. *)
Theorem send_file_refines_sender `{Host} (E : env) fuel `{HL : QueueLaws Q (list Z)}
    content tgt buf t w (r : result (locals Q)) w' :
  (∀ k, e_oom E k = false) → length buf = Z.to_nat PACKET_SIZE →
  send_file E fuel (Z.of_nat (length content))
    (mkLocals buf tgt 0 0 1 (q_create true) t content) w = (r, w') →
  refines E content tgt w t r w'.
Proof.
  intros Hoom Hb Hrun. set (l := mkLocals _ _ _ _ _ _ _ _) in Hrun.
  assert (window_of content tgt 0 0 t l) as Hw.
  { split; [|done|done]. split; cbn; try done; [apply q_create_ok|lia|by left]. }
  pose proof (wp_run _ _ _ _ _ _ (refines_send_file E fuel content tgt Hoom w t l Hw eq_refl) Hrun) as Hp.
  by destruct r.
Qed.

(** A system on which a one-packet file is acknowledged. *)
Definition sample_chunks : list Z := replicate 3 7.
Definition sample_env2 : env := sample_env fast_clock (net_then 154 (ack 2) nothing).
Definition sample_send : result (locals (option (list (list Z)))) * world :=
  @send_file sample_host sample_env2 200 (option (list (list Z))) fifo_ops
    (Z.of_nat (length sample_chunks))
    (mkLocals (replicate (Z.to_nat PACKET_SIZE) 0) sample_origin 0 0 1 (q_create true) 0 sample_chunks)
    sample_world.

Lemma send_file_refines_sender_witness :
  (if sample_send.1 is Ok l then written l = 3 else False) ∧
  @refines sample_host sample_env2 _ fifo_ops fifo_laws sample_chunks sample_origin sample_world 0
    sample_send.1 sample_send.2.
Proof.
  split; [vm_compute; reflexivity|].
  apply (@send_file_refines_sender sample_host sample_env2 200 _ fifo_ops fifo_laws sample_chunks
    sample_origin (replicate (Z.to_nat PACKET_SIZE) 0) 0 sample_world).
  - reflexivity.
  - apply length_replicate.
  - unfold sample_send. apply surjective_pairing.
Defined.

