(* ===== verification/Transfer.v ===== *)
(** * Transfer: client and server together

    The two processes share nothing but the network, which may lose,
    duplicate, delay and reorder datagrams at will: the only assumption is
    that what the server receives was sent by the client. *)
From S2P Require Import Prelude CMonad CLib Packet Queue LinkedList FtpWorld NetOps.
From S2P Require Import FtpServer ServerSpec FtpClient ClientSpec Samples.

(** The name under which a path is stored. *)
Definition basename (path : list Z) : list Z :=
  match strrchr path c_slash with None => path | Some i => drop (S i) path end.

Lemma strrchr_app s t c : c ∉ t → strrchr (s ++ t) c = strrchr s c.
Proof.
  intros Ht. induction s as [|x s IH]; cbn; [by apply strrchr_None|]. by rewrite IH.
Qed.

Lemma digits_not_in l c : digits l → c < 48 ∨ 57 < c → c ∉ l.
Proof. intros Hl Hc Hin. unfold digits in Hl. rewrite Forall_forall in Hl. apply Hl in Hin. lia. Qed.

(** The server reads in a request what the client wrote into it. *)
Lemma request_roundtrip filename size :
  Forall (λ c, c ≠ NUL) filename → c_bar ∉ filename → 0 ≤ size ≤ LONG_MAX →
  (length (Client.request_text filename size) < CHUNK)%nat →
  request_of (in_buffer (pkt CMD_WRQ 0 (Client.request_text filename size))) =
  Some (basename filename, size).
Proof.
  intros Hnul Hbar Hsize Hlen. unfold request_of. pose proof CHUNK_Z.
  set (text := Client.request_text filename size) in *.
  assert (∃ tl, payload_of (in_buffer (pkt CMD_WRQ 0 text)) = text ++ NUL :: tl) as [tl ->].
  { unfold in_buffer. rewrite length_pkt.
    replace (Z.to_nat PACKET_SIZE - (5 + length text))%nat
      with (S (Z.to_nat PACKET_SIZE - (6 + length text))) by size_lia.
    by eexists. }
  pose proof (format_ld_digits size ltac:(lia)) as Hdig.
  rewrite cstr_app.
  2: { unfold text, Client.request_text. apply Forall_app. split; [done|].
       constructor; [done|]. eapply Forall_impl; [done|]. unfold NUL. cbn. lia. }
  cbn [mbind option_bind].
  assert (strchr text c_bar = Some (length filename)) as -> by by apply strchr_app.
  cbn [mbind option_bind].
  assert (strrchr text c_slash = strrchr filename c_slash) as ->.
  { apply strrchr_app, not_elem_of_cons. split; [done|].
    eapply digits_not_in; [done|]. unfold c_slash. lia. }
  assert (take (length filename) text = filename) as -> by apply take_app_length.
  assert (drop (S (length filename)) text = format_ld size) as ->.
  { unfold text, Client.request_text.
    rewrite drop_app_ge by lia. by replace (_ - _)%nat with 1%nat by lia. }
  rewrite sscanf_format_ld by lia.
  assert ((0 <=? size) = true) as -> by (apply Z.leb_le; lia).
  unfold basename. destruct (strrchr filename c_slash) as [i|] eqn:Hi; [|done].
  rewrite decide_True; [done|]. apply strrchr_Some in Hi as [Hi _].
  by apply lookup_lt_Some in Hi.
Qed.

Section transfer.
Context `{Host} (EC ES : env) (fuelC fuelS : nat) `{QueueLaws Q (list Z)}.
Context (content filename : list Z).
Let size : Z := Z.of_nat (length content).

(** Small enough for the sequence numbers not to wrap around: about 133 MB. *)
Definition transferable : Prop := Z.of_nat (length content) ≤ PAYLOAD_SIZE * 65485.

(** A process that has not sent anything yet. *)
Definition unspoken (w : world) : Prop := ∀ a d, EvSend a d ∉ trace w.

(** Every datagram the server receives was sent by the client. *)
Definition network (wc : world) : Prop :=
  ∀ k d src, e_recv ES k = RecvFrom d src → ∃ a, EvSend a d ∈ trace wc.

Lemma sent_in wc wc' a d :
  unspoken wc → said content filename wc wc' → EvSend a d ∈ trace wc' →
  sent_ok content filename (EvSend a d).
Proof.
  intros Hw0 (_ & _ & new & Ht & Hn) Hin. rewrite Ht in Hin.
  apply elem_of_app in Hin as [Hin|Hin]; [|by apply Hw0 in Hin].
  rewrite Forall_forall in Hn. by apply Hn.
Qed.

(** A payload the server accepts under number [s] is a chunk of the file. *)
Lemma delivered_chunk wc wc' s pl :
  unspoken wc → said content filename wc wc' → network wc' → transferable →
  delivered ES s pl → ∃ j, Z.of_nat j < 65534 ∧ s = 1 + Z.of_nat j ∧ pl = chunk content j.
Proof.
  intros Hw0 Hs Hnet Htr (k & d & src & rest & Hk & Hlen & Hd & Hcmd & Hseq & Hl & Hpl).
  destruct (Hnet k d src Hk) as [a Ha].
  pose proof (sent_in _ _ _ _ Hw0 Hs Ha) as (a' & d' & [= <- <-] & Hd').
  assert (take (Z.to_nat PACKET_SIZE) d = d → ∃ tl, take (Z.to_nat PACKET_SIZE) d ++ rest = d ++ tl)
    as Htl by (intros ->; by eexists).
  pose proof CHUNK_Z.
  destruct Hd' as [[-> Hfit]|[(j & Hj & ->)| ->]].
  - destruct Htl as [tl Htl]; [apply take_ge; rewrite length_pkt; size_lia|].
    rewrite Htl, pkt_cmd in Hcmd. done.
  - pose proof (length_chunk content j) as Hc.
    destruct Htl as [tl Htl]; [apply take_ge; unfold data_pkt; rewrite length_pkt; size_lia|].
    rewrite Htl in *. unfold data_pkt in *.
    rewrite pkt_seq in Hseq. rewrite pkt_len in Hl by lia.
    unfold in_reach, transferable in *.
    assert (Z.of_nat j < 65534) by size_lia.
    exists j. split; [done|]. split; [rewrite u16_id in Hseq by lia; congruence|].
    injection Hl as Hl%Nat2Z.inj. rewrite Hpl, <- Hl. apply pkt_payload.
  - destruct Htl as [tl Htl]; [done|]. rewrite Htl, pkt_cmd in Hcmd. done.
Qed.

(** What the server accepted are the first chunks of the file. *)
Lemma justified_chunks wc wc' acc :
  unspoken wc → said content filename wc wc' → network wc' → transferable →
  justified ES acc →
  Z.of_nat (length acc) < 65535 ∧ concat acc = take (CHUNK * length acc) content.
Proof.
  intros Hw0 Hs Hnet Htr Hj.
  assert (∀ i pl, acc !! i = Some pl → Z.of_nat i < 65536 →
    Z.of_nat i < 65534 ∧ pl = chunk content i) as Hi.
  { intros i pl Hpl Hlt. apply Hj in Hpl.
    eapply delivered_chunk in Hpl as (j & Hj' & He & ->); [|done..].
    unfold u16 in He. assert (i = j) as -> by lia. auto. }
  assert (Z.of_nat (length acc) < 65535) as Hlen.
  { destruct (decide (Z.of_nat (length acc) < 65535)) as [|Hgt]; [done|exfalso].
    destruct (lookup_lt_is_Some_2 acc (Z.to_nat 65534)) as [pl Hpl]; [lia|].
    destruct (Hi _ _ Hpl); lia. }
  split; [done|].
  assert (acc = chunk content <$> seq 0 (length acc)) as Hacc.
  { apply list_eq. intros i. rewrite list_lookup_fmap.
    destruct (decide (i < length acc)%nat) as [Hlt|Hge].
    - destruct (lookup_lt_is_Some_2 acc i Hlt) as [pl Hpl].
      destruct (Hi _ _ Hpl) as [_ ->]; [lia|].
      rewrite lookup_seq_lt by done. by rewrite Hpl.
    - rewrite lookup_ge_None_2, (lookup_ge_None_2 (seq _ _)) by (rewrite ?length_seq; lia). done. }
  by rewrite Hacc at 1; rewrite concat_chunks.
Qed.

(** What the server accepted, if it has the size of the file, is the file. *)
Lemma justified_content wc wc' acc :
  unspoken wc → said content filename wc wc' → network wc' → transferable →
  justified ES acc → Z.of_nat (length (concat acc)) = size → concat acc = content.
Proof.
  intros Hw0 Hs Hnet Htr Hj Hl.
  destruct (justified_chunks wc wc' acc) as [_ Hc]; [done..|].
  rewrite Hc in Hl |- *. unfold size in Hl. rewrite length_take in Hl. apply take_ge. lia.
Qed.
End transfer.

Section end_to_end.
Context `{Host} (EC ES : env) (fuelC fuelS : nat) `{HL : QueueLaws Q (list Z)}.
Context (content filename : list Z) (tgt origin : EndPoint) (wc wc' ws ws' : world).
Context (rc rs : result Z) (a : sockaddr_in) (d : list Z).
Abbreviation size := (Z.of_nat (length content)).

(** The assumptions on one transfer: the client ran (to any end), starting
    before it has sent anything and with memory; the request and everything else the
    server received is among what the client sent. *)
Record transfer_setting : Prop := {
  ts_memory : ∀ k, e_oom EC k = false;
  ts_name : Forall (λ c, c ≠ NUL) filename;
  ts_bar : c_bar ∉ filename;
  ts_size : transferable content;
  ts_start : unspoken wc;
  ts_client : Client.copy_file EC fuelC (Q := Q) content size filename tgt wc = (rc, wc');
  ts_network : network ES wc';
  ts_request : EvSend a d ∈ trace wc';
  ts_wrq : d !! O = Some CMD_WRQ;
  ts_server : Server.copy_file ES fuelS (in_buffer d) origin ws = (rs, ws');
}.

Lemma client_said : transfer_setting → said content filename wc wc'.
Proof using HL.
  intros [Hoom Hname _ _ _ Hrun _ _ _ _].
  pose proof (wp_run _ _ _ _ _ _
    (wp_client_copy_file EC fuelC content filename wc Hoom Hname tgt) Hrun) as Hp.
  destruct rc; by destruct Hp.
Qed.

Lemma setting_request :
  transfer_setting →
  length (in_buffer d) = Z.to_nat PACKET_SIZE ∧
  request_of (in_buffer d) = Some (basename filename, size) ∧
  d = pkt CMD_WRQ 0 (Client.request_text filename size).
Proof using HL.
  intros Hset. pose proof (client_said Hset) as Hs.
  destruct Hset as [_ Hname Hbar Hsize Hw0 _ _ Hreq Hwrq _].
  destruct (sent_in _ _ _ _ _ _ Hw0 Hs Hreq) as (a' & d' & [= <- <-] & Hd).
  pose proof CHUNK_Z. unfold transferable in Hsize.
  destruct Hd as [[-> Hfit]|[(j & _ & ->)| ->]]; [|done..]. split_and!; [..|done].
  - unfold in_buffer. rewrite length_app, length_pkt, length_replicate. size_lia.
  - apply request_roundtrip; [done..| |done]. unfold LONG_MAX. size_lia.
Qed.

(** What the server holds when it completed a file of the announced size. *)
Lemma complete_content name sz :
  transfer_setting → accepted (in_buffer d) ws name sz →
  complete ES name sz (fs ws) ws' → fs ws' = <[basename filename := content]> (fs ws).
Proof using HL.
  intros Hset [Hreq _] (acc & [Hf Hj] & Hl).
  pose proof (client_said Hset) as Hs. destruct (setting_request Hset) as (_ & Hreq' & _).
  rewrite Hreq in Hreq'. injection Hreq' as -> ->.
  rewrite Hf, (justified_content ES content filename wc wc' acc); try done; apply Hset.
Qed.

Lemma success_correct :
  transfer_setting → rs = Ok 0 →
  fs ws !! basename filename = None ∧
  fs ws' = <[basename filename := content]> (fs ws).
Proof using HL.
  intros Hset Hrs. destruct (setting_request Hset) as (Hlen & Hreq' & _).
  pose proof (wp_run _ _ _ _ _ _ (wp_copy_file ES fuelS origin _ ws Hlen) (ts_server Hset))
    as Hp. rewrite Hrs in Hp.
  destruct Hp as [[? _]|(name & sz & Ha & [[_ Hc]|[? _]])]; [done| |done].
  split; [|by eapply complete_content]. destruct Ha as [Hreq Hn]. congruence.
Qed.


End end_to_end.

Arguments client_said {_ _ _ _ _ _ _ _ _ _ _ _ _ _ _ _ _ _ _ _} _.
Arguments setting_request {_ _ _ _ _ _ _ _ _ _ _ _ _ _ _ _ _ _ _ _} _.
Arguments complete_content {_ _ _ _ _ _ _ _ _ _ _ _ _ _ _ _ _ _ _ _} _ _.
Arguments success_correct {_ _ _ _ _ _ _ _ _ _ _ _ _ _ _ _ _ _ _ _} _ _.
Arguments ts_server {_ _ _ _ _ _ _ _ _ _ _ _ _ _ _ _ _ _ _} _.

(** A transfer of the file [dir/f], "abc", in which the first packet arrives
    many times and the client's closing FIN as often. *)
Definition sample_content : list Z := bytes_of_string "abc".
Definition sample_path : list Z := bytes_of_string "dir/f".
Definition sample_wrq : list Z := pkt CMD_WRQ 0 (Client.request_text sample_path 3).
Definition client_env : env := sample_env fast_clock acks_then_finack.
Definition server_env : env := sample_env sample_clock (net_then 40 data_abc fin).
Definition client_run : result Z * world :=
  @Client.copy_file sample_host client_env 200 (lmem (list Z)) _ sample_content 3 sample_path
    sample_origin sample_world.
Definition server_run : result Z * world :=
  @Server.copy_file sample_host server_env 100 (in_buffer sample_wrq) sample_origin sample_world.

Ltac in_trace := exists sample_peer; apply list_elem_of_In; vm_compute; tauto.

Lemma sample_setting :
  @transfer_setting sample_host client_env server_env 200 100 (lmem (list Z)) _ sample_content
    sample_path sample_origin sample_origin sample_world client_run.2 sample_world server_run.2
    client_run.1 server_run.1 sample_peer sample_wrq.
Proof.
  split; try (apply surjective_pairing); try (vm_compute; reflexivity).
  - repeat constructor; discriminate.
  - apply (bool_decide_unpack (c_bar ∉ sample_path)). vm_compute. exact I.
  - vm_compute. discriminate.
  - intros a d Hin. by apply elem_of_nil in Hin.
  - intros k d src Hk. unfold server_env in Hk. cbn in Hk. unfold net_then in Hk.
    destruct (decide (k < 40)%nat); injection Hk as <- <-; in_trace.
  - apply list_elem_of_In. vm_compute. tauto.
Defined.


