(* ===== verification/Delivery.v ===== *)
(** * Delivery: what a successful client may conclude

    [Transfer] looks from the server to the client: what the server stored is
    what the client sent.  Here the other direction: what it means that the
    client returns with success.  Since an acknowledgement from outside the
    window empties it, the client needs acknowledgements that do not overtake
    each other. *)
From S2P Require Import Prelude CMonad CLib Packet Queue LinkedList FtpWorld NetOps.
From S2P Require Import FtpServer ServerSpec FtpClient ClientSpec Samples Transfer.

(** Without wrap-around, an acknowledgement for [j] packets never moves the
    window past [j]. *)
Lemma ack_point_le j m k :
  (m ≤ j)%nat → Z.of_nat j < 65535 → (ack_point (u16 (1 + Z.of_nat j)) m k ≤ j)%nat.
Proof.
  revert m. induction k as [|k IH]; intros m Hm Hj; cbn; [done|].
  destruct (_ =? _) eqn:Ea; bool_to_prop; [done|]. apply IH; [|done].
  assert (m ≠ j) by (intros ->; done). lia.
Qed.

(** A client never sends the packets that make the server read past its
    buffer. *)
Lemma network_not_oversized `{Host} (ES : env) content filename wc wc' :
  unspoken wc → said content filename wc wc' → network ES wc' → ¬ oversized ES.
Proof.
  intros Hw0 Hs Hnet (k & d & src & rest & len & Hk & Hb & Hc & Hl & Hlen).
  destruct (Hnet _ _ _ Hk) as [a Ha].
  destruct (sent_in _ _ _ _ _ _ Hw0 Hs Ha) as (a' & d' & [= <- <-] & Hd). pose proof CHUNK_Z.
  destruct Hd as [[-> Hfit]|[(j & Hj & ->)| ->]]; [..|done].
  - rewrite take_ge, pkt_cmd in Hc by (rewrite length_pkt; size_lia). done.
  - pose proof (length_chunk content j). unfold data_pkt in Hl.
    rewrite take_ge, pkt_len in Hl by (rewrite ?length_pkt; size_lia). injection Hl as <-. size_lia.
Qed.

Section delivery.
Context `{Host} (EC ES : env) (fuelC fuelS : nat) `{HL : QueueLaws Q (list Z)}.
Context (content filename : list Z) (tgt origin : EndPoint) (wc wc' ws ws' : world).
Context (rc rs : result Z) (a : sockaddr_in) (d : list Z).

(** A server with memory, whose heap has room for the stray byte of
    [strncpy] when the path has a slash. *)
Record healthy_server : Prop := {
  hs_memory : ∀ k, e_oom ES k = false;
  hs_slack : (∀ k, (0 < e_slack ES k)%nat) ∨ (c_slash ∉ filename);
}.

Abbreviation setting := (transfer_setting EC ES fuelC fuelS (Q := Q) content filename tgt origin
  wc wc' ws ws' rc rs a d).

Lemma setting_no_crash u : setting → healthy_server → rs ≠ Stop (SCrash u).
Proof using HL.
  intros Hset [Hmem Hslack] ->. destruct (setting_request Hset) as (Hlen & Hreq & Hd).
  pose proof (client_said Hset) as Hs. pose proof CHUNK_Z.
  pose proof (wp_run _ _ _ _ _ _ (wp_copy_file_end ES fuelS origin _ ws Hlen) (ts_server Hset))
    as [_ Hu].
  destruct Hset as [_ _ _ Hsize Hw0 _ Hnet _ _ _].
  destruct Hu as [name size u Hreq' Hu|k Hk|Hn|k Hk Hin].
  - destruct Hu as [k Hk|Ho|Hlong]; [by rewrite Hmem in Hk|by eapply network_not_oversized in Ho|].
    rewrite Hreq in Hreq'. injection Hreq' as _ <-. unfold transferable, LONG_MAX in *. size_lia.
  - by rewrite Hmem in Hk.
  - unfold request_of in Hreq. by rewrite Hn in Hreq.
  - destruct Hslack as [Hk'|Hno]; [specialize (Hk' k); lia|]. apply Hno. subst d.
    change (payload_of _) with (Client.request_text filename (Z.of_nat (length content)) ++
      replicate (Z.to_nat PACKET_SIZE - length (pkt CMD_WRQ 0
        (Client.request_text filename (Z.of_nat (length content))))) 0) in Hin.
    unfold Client.request_text in Hin. rewrite !elem_of_app, list_elem_of_singleton in Hin.
    destruct Hin as [[?|[?|Hdig]]|[? _]%elem_of_replicate]; [done|done| |done].
    exfalso. eapply digits_not_in, Hdig; [apply format_ld_digits; lia|]. unfold c_slash. lia.
Qed.


(** The way back: the client hears only the server, receiving fails only for
    want of data, and acknowledgements arrive in the order of their numbers
    (they may still be lost or repeated). *)
Record orderly_replies : Prop := {
  or_start : unspoken ws;
  or_network : network EC ws';
  or_errors : ∀ k e, e_recv EC k = RecvErr e → e = EAGAIN;
  or_order : ∀ k1 k2 i j src1 src2, (k1 < k2)%nat →
    e_recv EC k1 = RecvFrom (pkt CMD_ACK i []) src1 →
    e_recv EC k2 = RecvFrom (pkt CMD_ACK j []) src2 → u16 i ≤ u16 j;
}.

(** The window starts where an acknowledgement that arrived allows. *)
Definition acknowledged (N m k : nat) : Prop :=
  m = O ∨ ∃ k0 j src, (k0 < k)%nat ∧ (m ≤ j ≤ N)%nat ∧
    e_recv EC k0 = RecvFrom (pkt CMD_ACK (u16 (1 + Z.of_nat j)) []) src.

(** Everything that was sent acknowledges at most [N] packets. *)
Definition acks_only (N : nat) (w : world) : Prop :=
  ∀ a d, EvSend a d ∈ trace w → ack_within N d.

Lemma acked_only N : orderly_replies → acked (trace ws) N ws' → acks_only N ws'.
Proof.
  intros Hor (new & Htr & Hnew) b r Hin. rewrite Htr in Hin.
  apply elem_of_app in Hin as [Hin|Hin]; [by eapply Hnew|by apply (or_start Hor) in Hin].
Qed.

(** What the client takes for an acknowledgement is one of the server. *)
Lemma heard_ack N k ack :
  orderly_replies → acks_only N ws' → Z.of_nat N < 65535 → ack_heard EC k ack →
  ∃ j src, (j ≤ N)%nat ∧ ack = u16 (1 + Z.of_nat j) ∧
    e_recv EC k = RecvFrom (pkt CMD_ACK (u16 (1 + Z.of_nat j)) []) src.
Proof.
  intros [_ Hnet Herr _] Hnew HN (b & r & [[Hb Hr] Hne] & Hcmd & Hseq).
  destruct (e_recv EC k) as [e|d0 src] eqn:Ek.
  { exfalso. apply (Hne e); [done|by eapply Herr]. }
  destruct Hr as [_ [rest ->]]. destruct (Hnet _ _ _ Ek) as [a0 Hin].
  destruct (Hnew _ _ Hin) as [Hne0 Hack].
  destruct Hack as (j & Hj & ->); [by destruct d0|].
  exists j, src. split; [done|]. split; [|done].
  rewrite take_ge, pkt_seq in Hseq by (cbn; size_lia). injection Hseq as <-.
  by rewrite u16_id by apply u16_range.
Qed.

Lemma acknowledged_ack N m n k ack :
  orderly_replies → acks_only N ws' → Z.of_nat N < 65535 →
  ack_heard EC k ack → acknowledged N m k → acknowledged N (ack_point ack m (n - m)) (S k).
Proof.
  intros Hor Hacked HN Hack Hm.
  destruct (heard_ack _ _ _ Hor Hacked HN Hack) as (j & src & Hj & -> & Ek).
  right. exists k, j, src. split_and!; [lia| |lia|done]. apply ack_point_le; [|lia].
  destruct Hm as [->|(k0 & j0 & src0 & Hk0 & [Hm Hj0] & Ek0)]; [lia|].
  pose proof (or_order Hor _ _ _ _ _ _ Hk0 Ek0 Ek) as Hle.
  rewrite !(u16_id (u16 _)), !u16_id in Hle by (apply u16_range || lia). lia.
Qed.

(** If nothing beyond [N] packets was ever acknowledged, a client that
    returns has a file of at most [N] packets. *)
Lemma success_bound N :
  (∀ k, e_oom EC k = false) → Forall (λ c, c ≠ NUL) filename →
  Client.copy_file EC fuelC (Q := Q) content (Z.of_nat (length content)) filename tgt wc = (Ok 0, wc') →
  orderly_replies → acks_only N ws' → Z.of_nat N < 65535 →
  (length content ≤ CHUNK * N)%nat.
Proof using HL.
  intros Hoom Hname Hrun Hor Hacked HN.
  assert (∀ m k k', (k ≤ k')%nat → acknowledged N m k → acknowledged N m k') as Hmono.
  { intros m k k' Hk [->|(k0 & j & src & Hk0 & Hj)]; [by left|right].
    exists k0, j, src. split; [lia|done]. }
  pose proof (wp_run _ _ _ _ _ _ (wp_client_copy_file_J EC fuelC content filename wc Hoom Hname
    (acknowledged N) tgt (λ _, or_introl eq_refl) Hmono
    (λ m n k ack _, acknowledged_ack N m n k ack Hor Hacked HN)) Hrun) as (_ & _ & m & k & Hm & Hk).
  destruct Hk as [->|(k0 & j & src & _ & Hj & _)]; nia.
Qed.

(** All the chunks that were acknowledged are the file. *)
Lemma success_content acc :
  setting → orderly_replies → rc = Ok 0 → justified ES acc → acked (trace ws) (length acc) ws' →
  concat acc = content.
Proof using HL.
  intros Hset Hor Hrc Hj Ha. pose proof (client_said Hset) as Hs. pose proof Hset as [].
  destruct (justified_chunks ES content filename wc wc' acc) as [Hlen ->]; [done..|].
  apply take_ge. subst rc. by apply success_bound; [..|by apply acked_only|].
Qed.

Lemma success_delivered :
  setting → healthy_server → orderly_replies → content ≠ [] → rc = Ok 0 →
  fs ws' = <[basename filename := content]> (fs ws) ∨
  rs = Stop (SExit Server.TIMEOUT) ∨ rs = Ok Server.RUNTIME_ERROR.
Proof using HL.
  intros Hset Hsrv Hor Hne Hrc. pose proof (λ u, setting_no_crash u Hset Hsrv) as Hsafe.
  pose proof (λ acc, success_content acc Hset Hor Hrc) as Hcontent. destruct (setting_request Hset) as (Hlen & Hreq & _).
  assert (¬ acked (trace ws) 0 ws') as Hnot0.
  { intros Ha%acked_only; [|done]. pose proof Hset as [Hoom Hname _ _ _ Hrun _ _ _ _].
    rewrite Hrc in Hrun. pose proof (success_bound 0 Hoom Hname Hrun Hor Ha ltac:(lia)).
    destruct content; [done|cbn in *; lia]. }
  pose proof (wp_run _ _ _ _ _ _ (wp_copy_file_end ES fuelS origin _ ws Hlen) (ts_server Hset)) as Hp.
  destruct rs as [code|[c|u|]].
  - destruct Hp as [(_ & _ & _ & ?)|(name & sz & Ha & [[_ Hc]|[-> _]])]; [done| |by right; right].
    left. by eapply complete_content.
  - destruct Hp as [[(_ & _ & ?)|(name & sz & [Hreq' _] & Hc & _)] _]; [done|].
    destruct Hc as [->|(_ & acc & Hj & Ha & Hsz)]; [by right; left|]. exfalso. apply Hsz.
    rewrite Hreq in Hreq'. injection Hreq' as _ <-. by rewrite (Hcontent acc).
  - by destruct (Hsafe u).
  - destruct Hp as [[(_ & _ & ?)|(name & sz & [Hreq' _] & acc & Ha & [Hf Hj] & _)] _]; [done|].
    left. rewrite Hreq in Hreq'. injection Hreq' as <- <-. rewrite Hf. f_equal.
    by apply Hcontent.
Qed.

End delivery.

Arguments success_delivered {_ _ _ _ _ _ _ _ _ _ _ _ _ _ _ _ _ _ _ _} _ _ _ _ _.

Lemma pkt_same_seq c s s' : pkt c s [] = pkt c s' [] → u16 s = u16 s'.
Proof.
  intros Heq. pose proof (@pkt_seq sample_host c s [] []) as H1.
  rewrite app_nil_r, Heq, <- (app_nil_r (pkt c s' [])), pkt_seq in H1. by injection H1.
Qed.

(** The sample network of the client, some calls later, brings
    acknowledgements in order. *)
Lemma sample_replies_after n net ws ws' :
  (∀ k, net k = acks_then_finack (k - n)) → unspoken ws →
  (∀ d, d ∈ [pkt CMD_ACK 1 []; pkt CMD_ACK 2 []; pkt CMD_FINACK 0 []] →
    ∃ a, EvSend a d ∈ trace ws') →
  @orderly_replies (sample_env fast_clock net) ws ws'.
Proof.
  intros Hnet Hw Hd.
  assert (∀ k, net k = ack 1 ∧ (k - n < 10)%nat ∨ net k = nothing ∨ net k = ack 2 ∧ (10 ≤ k - n)%nat ∨
    net k = RecvFrom (pkt CMD_FINACK 0 []) sample_peer) as Hcases.
  { intros k. rewrite Hnet. unfold acks_then_finack. repeat case_decide; auto with lia. }
  split; [done|..].
  - intros k d src Hk. apply Hd. cbn [e_recv sample_env] in Hk.
    destruct (Hcases k) as [[E _]|[E|[[E _]|E]]]; rewrite E in Hk; try discriminate;
      injection Hk as <- <-; set_solver.
  - intros k e Hk. cbn [e_recv sample_env] in Hk.
    destruct (Hcases k) as [[E _]|[E|[[E _]|E]]]; rewrite E in Hk; try discriminate. by injection Hk as <-.
  - intros k1 k2 i j src1 src2 Hk H1 H2. cbn [e_recv sample_env] in H1, H2.
    destruct (Hcases k1) as [[E1 ?]|[E1|[[E1 ?]|E1]]], (Hcases k2) as [[E2 ?]|[E2|[[E2 ?]|E2]]];
      rewrite E1 in H1; rewrite E2 in H2; try discriminate;
      apply (f_equal (λ r, if r is RecvFrom d _ then d else [])), pkt_same_seq in H1, H2;
      rewrite <- H1, <- H2; (done || lia).
Defined.

Ltac each_in_trace :=
  intros d; rewrite !elem_of_cons; intros [->|[->|[->|[]%not_elem_of_nil]]]; in_trace.

(** The sample transfer again: the server's acknowledgements reach the client
    in order. *)
Lemma sample_replies : @orderly_replies client_env sample_world server_run.2.
Proof.
  apply (sample_replies_after 0).
  - intros k. by rewrite Nat.sub_0_r.
  - intros a d Hin. by apply elem_of_nil in Hin.
  - each_in_trace.
Defined.


