(* ===== verification/ParentSpec.v ===== *)
(** * ParentSpec: the parts of the listening process

    What each step of the fork loop of [ftpserver.c] does, for the theorems
    about the parent ([ParentProps]), about whole programs ([Programs]) and
    about signals ([Signals]). *)
From S2P Require Import Prelude CMonad CLib Packet Queue FtpWorld NetOps FtpServer Samples.
Import Server.

Lemma length_in_buffer d :
  (length d ≤ Z.to_nat PACKET_SIZE)%nat → length (in_buffer d) = Z.to_nat PACKET_SIZE.
Proof. intros Hd. unfold in_buffer. rewrite length_app, length_replicate. lia. Qed.

Lemma memcpy_buffer d :
  (length d ≤ Z.to_nat PACKET_SIZE)%nat →
  memcpy (replicate (Z.to_nat PACKET_SIZE) 0) 0 d (Z.of_nat (length d)) = Some (in_buffer d).
Proof.
  intros Hd. rewrite memcpy_prefix by (rewrite length_replicate; lia). f_equal.
  unfold splice, in_buffer. rewrite take_0. cbn [app Nat.add]. by rewrite drop_replicate.
Qed.

(** The signals sent to a list of children, as they appear in the trace. *)
Definition kills (pids : list Z) : list event := rev ((λ pid, EvKill pid SIGINT) <$> pids).

Section parent.
Context `{Host} (E : env) (fuel : nat) `{HL : QueueLaws Q Z}.
Implicit Types (w : world) (X : stop → world → Prop).

(** What the parent has in its buffer when it forks: a datagram that came, or
    zeros after a [recvfrom] that failed. *)
Inductive hears : list Z → Prop :=
| hears_datagram k d src :
    e_recv E k = RecvFrom d src → d ≠ [] → hears (in_buffer (take (Z.to_nat PACKET_SIZE) d))
| hears_error k e : e_recv E k = RecvErr e → hears (in_buffer []).

Lemma hears_length buf : hears buf → length buf = Z.to_nat PACKET_SIZE.
Proof.
  intros []; apply length_in_buffer; [rewrite length_take; lia|cbn; lia].
Qed.

Lemma wp_hear from (K : option (list Z) * sockaddr_in → world → Prop) X w :
  (∀ w' from', quiet w w' → K (None, from') w') →
  (∀ w' buf from', quiet w w' → hears buf → K (Some buf, from') w') →
  wp (hear E from) K X w.
Proof.
  intros Hnone Hsome. unfold hear. wp_step. apply wp_recvfrom.
  - intros w1 e He Hw1 _. rewrite memcpy_buffer by (cbn; lia). do 3 wp_step.
    apply Hsome; [done|]. by eapply hears_error.
  - intros w1 d src Hd Hw1. rewrite memcpy_buffer by (rewrite length_take; lia). do 3 wp_step.
    destruct (_ =? 0) eqn:Hn; [by apply Hnone|]. bool_to_prop. apply Hsome; [done|].
    eapply hears_datagram; [done|]. intros ->. done.
Qed.

Lemma wp_fork_child (K : Z → world → Prop) X w :
  (∀ w', quiet w w' → (∃ k, e_oom E k = true) → X (SCrash NullDeref) w') →
  (∀ w' j, quiet w w' → K (e_fork E j) w') →
  wp (fork_child E) K X w.
Proof.
  intros Hoom HK. unfold fork_child. wp_step. apply wp_malloc_cases.
  - intros w1 Ho Hw1 _. wp_step. apply wp_fork. intros w2 j Hw2. wp_step. apply wp_defined; [done|].
    intros _. apply Hoom; [by eapply quiet_trans|by eexists].
  - intros w1 b k Hw1 _. wp_step. apply wp_fork. intros w2 j Hw2. do 3 wp_step. apply HK.
    by eapply quiet_trans.
Qed.

Lemma wp_kill_children (q : Q) pids (K : unit → world → Prop) X w :
  q_rep q pids →
  (∀ w', trace w' = kills pids ++ trace w → fs w' = fs w → K tt w') →
  wp (kill_children q) K X w.
Proof.
  intros Hq HK. unfold kill_children.
  wp_step. eapply wp_on_queue; [by apply q_walk_ok|]. cbn [fst]. clear Hq.
  revert w HK. induction pids as [|pid pids IH]; intros w HK; cbn [foldr]; [wp_step; by apply HK|].
  wp_step. apply wp_kill. intros w1 _ Hf1 Ht1. apply IH. intros w2 Ht2 Hf2. apply HK; [|congruence].
  rewrite Ht2, Ht1. unfold kills. cbn. by rewrite <- app_assoc.
Qed.

(** SIGINT takes down the children in the list. *)
Lemma wp_sigint fd (q : Q) pids w :
  q_rep q pids →
  wp (signal_handler E fuel fd q SIGINT) (λ _ _, False)
    (λ b w', b = SExit 0 ∧ trace w' = kills pids ++ EvClose fd :: trace w ∧ fs w' = fs w) w.
Proof.
  intros Hq. unfold signal_handler. cbn [Z.eqb SIGINT Pos.eqb]. wp_step. apply wp_close.
  intros w1 _ Hf1 Ht1. wp_step. apply (wp_kill_children q pids); [done|]. intros w2 Ht2 Hf2. wp_step.
  split; [done|]. split; [by rewrite Ht2, Ht1|congruence].
Qed.

Lemma sigint_run fd (q : Q) pids w :
  q_rep q pids → ∃ w', signal_handler E fuel fd q SIGINT w = (Stop (SExit 0), w') ∧
    trace w' = kills pids ++ EvClose fd :: trace w ∧ fs w' = fs w.
Proof.
  intros Hq. pose proof (wp_sigint fd q pids w Hq) as Hw. unfold wp in Hw.
  destruct (signal_handler _ _ _ _ _ _) as [[|b] w']; [done|].
  destruct Hw as (-> & ? & ?). by exists w'.
Qed.

(** In the parent: the child is remembered, or there is no child, or there is
    no memory and all the older children are taken down. *)
Lemma wp_after_fork buf (q : Q) pids from pid (K : Q → world → Prop) X w :
  q_rep q pids → pid ≠ 0 →
  (pid = -1 → K q w) →
  (∀ w' q', quiet w w' → pid ≠ -1 → q_rep q' (pids ++ [pid]) → K q' w') →
  (∀ w', (∃ k, e_oom E k = true) → pid ≠ -1 → trace w' = kills pids ++ trace w → fs w' = fs w →
    X (SExit RUNTIME_ERROR) w') →
  wp (after_fork E fuel buf q from pid) K X w.
Proof.
  intros Hq Hpid Hnone Hadd Hoom. unfold after_fork. wp_step; bool_to_prop; [wp_step; by apply Hnone|].
  rewrite (proj2 (Z.eqb_neq pid 0) Hpid). wp_step. apply wp_call_tick.
  assert (quiet w (set_tick (S (tick w)) w)) as Hw1 by (split_and!; cbn; [lia|done..]).
  wp_step. destruct (e_oom E (tick w)) eqn:Ho.
  - eapply wp_on_queue; [by apply (q_add_fail q pids)|]. cbn [fst snd Z.eqb negb].
    wp_step. apply (wp_kill_children q pids); [done|]. intros w2 Ht2 Hf2.
    wp_step. apply Hoom; [by eexists|done|done|done].
  - destruct (q_add_ok q pids pid Hq) as (q' & Hq' & Hrep).
    eapply wp_on_queue; [done|]. cbn [fst snd Z.eqb negb]. wp_step. by apply Hadd.
Qed.
End parent.
