(* ===== verification/Programs.v ===== *)
(** * Programs: the two programs, from their command lines

    [Transfer] and [Delivery] are about the two [copy_file] functions.  Here
    [main] is run on both sides: the client that parses its arguments, opens
    its file and resolves the server, and the server that parses its own,
    waits, forks and lets the child answer. *)
From S2P Require Import Prelude CMonad CLib Packet Queue LinkedList FtpWorld NetOps.
From S2P Require Import FtpServer ServerSpec FtpClient ClientSpec Samples Transfer Delivery ParentSpec.

(** No file was touched and nothing was sent. *)
Definition idle (w w' : world) : Prop :=
  fs w' = fs w ∧ ∀ a d, EvSend a d ∈ trace w' → EvSend a d ∈ trace w.

Lemma idle_refl w : idle w w.
Proof. done. Qed.

Lemma idle_trans w1 w2 w3 : idle w1 w2 → idle w2 w3 → idle w1 w3.
Proof. intros [? ?] [? ?]. split; [congruence|auto]. Qed.

Lemma idle_quiet w w' : quiet w w' → idle w w'.
Proof. intros (_ & Ht & Hf). split; [done|]. by rewrite Ht. Qed.

Lemma idle_event w w' ev :
  fs w' = fs w → trace w' = ev :: trace w → (∀ a d, ev ≠ EvSend a d) → idle w w'.
Proof.
  intros Hf Ht Hev. split; [done|]. intros a d. rewrite Ht.
  intros [Heq|Hin]%elem_of_cons; [by destruct (Hev a d)|done].
Qed.

Lemma idle_unspoken w w' : idle w w' → unspoken w → unspoken w'.
Proof. intros [_ Hi] Hu a d Hin. by eapply Hu, Hi. Qed.

Lemma wp_setup_socket_idle `{Host} E port Q X w :
  (∀ w' r, idle w w' → Q r w') → wp (setup_socket E port) Q X w.
Proof.
  intros HQ. unfold setup_socket. wp_step. apply wp_socket. intros w1 sock Hw1.
  apply idle_quiet in Hw1. wp_step; [wp_step; by apply HQ|].
  wp_step. apply wp_bind_port; intros w2 Hw2.
  - cbn. apply HQ. eapply idle_trans; [done|by apply idle_quiet].
  - cbn. apply HQ. eapply idle_trans; [done|]. destruct Hw2 as (_ & Hf & new & Ht & Hnew).
    split; [done|]. intros a d. rewrite Ht. intros [Hin|Hin]%elem_of_app; [|done].
    rewrite Forall_forall in Hnew. by apply Hnew in Hin.
Qed.

(** ** The client *)
Section client.
Context `{Host} (E : env) (fuel : nat) `{QueueOps Q (list Z)}.
Context (resolve : list Z → list Z → option sockaddr_in).
Context (fopen : list Z → option (list Z)) (stat : list Z → option Z) (indeterminate : Z).

(** The run of [copy_file] inside a run of [main], for the file that the last
    argument names. *)
Record client_call (argv : list (list Z)) (w : world) (r : result Z) (w' : world)
    (name content : list Z) : Prop := {
  cc_name : last argv = Some name;
  cc_file : fopen name = Some content;
  cc_run : ∃ target w1 rc w2, idle w w1 ∧
    Client.copy_file E fuel (Q := Q) content
      (Client.get_file_size stat indeterminate name) name target w1 = (rc, w2) ∧
    fs w' = fs w2 ∧ (∀ a d, EvSend a d ∈ trace w' ↔ EvSend a d ∈ trace w2) ∧
    r = match rc with Ok _ => Ok 0 | Stop b => Stop b end;
}.

(** [main] calls [copy_file], or ends with another status than 0 and without
    sending anything. *)
Lemma client_main_cases argv w r w' :
  Client.main E fuel (Q := Q) resolve fopen stat indeterminate argv w = (r, w') →
  (idle w w' ∧ r ≠ Ok 0) ∨ ∃ name content, client_call argv w r w' name content.
Proof.
  intros Hrun.
  assert (wp (Client.main E fuel (Q := Q) resolve fopen stat indeterminate argv)
    (λ code w', (idle w w' ∧ Ok (A := Z) code ≠ Ok 0) ∨
       ∃ name content, client_call argv w (Ok code) w' name content)
    (λ b w', (idle w w' ∧ Stop (A := Z) b ≠ Ok 0) ∨
       ∃ name content, client_call argv w (Stop b) w' name content) w) as Hp.
  2: { pose proof (wp_run _ _ _ _ _ _ Hp Hrun) as Hr. by destruct r. }
  clear Hrun r w'. unfold Client.main. destruct (Client.arg_check argv) as [|debug] eqn:Hargs.
  { wp_step. by left. }
  assert (argv !! (3 + if debug then 1 else 0)%nat = last argv ∧
    is_Some (argv !! (1 + if debug then 1 else 0)%nat) ∧
    is_Some (argv !! (2 + if debug then 1 else 0)%nat) ∧ is_Some (last argv)) as
    (Hname & [host Hhost] & [port Hport] & [name Hlast]).
  { unfold Client.arg_check in Hargs. destruct argv as [|a [|b [|c [|d [|e [|]]]]]]; try done;
      destruct (Client.is_debug_flag b); simplify_eq; cbn; eauto. }
  rewrite Hname, Hhost, Hport, Hlast. do 2 wp_step. destruct (sscanf_u_c port) as [n v].
  wp_step; [by left|]. do 2 wp_step. destruct (fopen name) as [content|] eqn:Hfile; [|by left].
  do 2 wp_step. unfold Client.process_address.
  destruct (resolve host port) as [a|]; [|by left]. do 3 wp_step.
  apply wp_setup_socket_idle. intros w1 rs Hw1. wp_step; [by left|].
  wp_step. apply wp_cases. intros rc w2 Hcopy. destruct rc as [c|b].
  - wp_step. apply wp_close. intros w3 _ Hf3 Htr3. wp_step. right. exists name, content.
    split; [done|done|]. exists (mkEndPoint a), w1, (Ok c), w2. split_and!; [done|done|done| |done].
    intros a' d. rewrite Htr3. rewrite elem_of_cons. naive_solver.
  - right. exists name, content. split; [done|done|].
    exists (mkEndPoint a), w1, (Stop b), w2. done.
Qed.
End client.

(** ** The server *)
Section server.
Context `{Host} (E : env) (fuel : nat) `{HL : QueueLaws Q Z}.

(** The child exits with the result of its function. *)
Definition exits (rs' : result Z) : result Z :=
  match rs' with Ok code => Stop (SExit code) | Stop b => Stop b end.

(** The run of a child inside a run of [main]. *)
Definition child_call (w : world) (r : result Z) (w' : world) (buf : list Z) : Prop :=
  hears E buf ∧ ∃ origin w1 rc, idle w w1 ∧ Server.copy_file E fuel buf origin w1 = (rc, w') ∧
    r = exits rc.

(** The process ends in a child, or as the parent: without success. *)
Definition served (w : world) (r : result Z) (w' : world) : Prop :=
  (idle w w' ∧ r ≠ Ok 0 ∧ r ≠ Stop (SExit 0)) ∨ ∃ buf, child_call w r w' buf.

Abbreviation stops w0 := (λ (b : stop) (w : world), served w0 (Stop b) w).

Lemma served_idle w0 w b : idle w0 w → b ≠ SExit 0 → served w0 (Stop b) w.
Proof. intros Hw Hb. left. split_and!; [done|done|congruence]. Qed.

Lemma idle_kills w w' pids : fs w' = fs w → trace w' = kills pids ++ trace w → idle w w'.
Proof.
  intros Hf Ht. split; [done|]. intros a d. rewrite Ht. intros [Hin|]%elem_of_app; [|done].
  unfold kills in Hin. apply list_elem_of_In, in_rev, list_elem_of_In in Hin.
  by apply list_elem_of_fmap in Hin as (? & ? & _).
Qed.

Lemma wp_dispatch_cases buf (q : Q) pids from w0 w :
  hears E buf → q_rep q pids → idle w0 w →
  wp (Server.dispatch E fuel buf q from)
    (λ q' w', (∃ pids', q_rep q' pids') ∧ idle w0 w') (stops w0) w.
Proof.
  intros Hbuf Hq Hw. unfold Server.dispatch. wp_step. apply wp_fork_child.
  { intros w1 Hw1 _. apply served_idle; [|done]. eapply idle_trans, idle_quiet; done. }
  intros w1 j Hw1. assert (idle w0 w1) as Hi1 by (eapply idle_trans, idle_quiet; done).
  destruct (decide (e_fork E j = 0)) as [->|Hpid].
  - unfold Server.after_fork. cbn [Z.eqb]. wp_step. apply wp_cases. intros rc w2 Hcopy.
    destruct rc as [code|s]; [wp_step|]; right; exists buf; (split; [done|]).
    + by exists (mkEndPoint from), w1, (Ok code).
    + by exists (mkEndPoint from), w1, (Stop s).
  - apply (wp_after_fork E fuel buf q pids); [done..| | |].
    + intros _. split; [by eexists|done].
    + intros w2 q' Hw2 _ Hq'. split; [by eexists|]. eapply idle_trans, idle_quiet; done.
    + intros w2 _ _ Ht2 Hf2. apply served_idle; [|done]. eapply idle_trans; [done|].
      by eapply idle_kills.
Qed.

Lemma wp_serve_cases q pids from w0 w :
  q_rep q pids → idle w0 w →
  wp (Server.serve_step E fuel (q, from))
    (λ r w', match r with
      | inl (q', _) => (∃ pids', q_rep q' pids') ∧ idle w0 w' | inr _ => False end) (stops w0) w.
Proof.
  intros Hq Hw. unfold Server.serve_step. wp_step. apply wp_hear.
  - intros w1 from' Hw1. wp_step. split; [by eexists|]. eapply idle_trans, idle_quiet; done.
  - intros w1 buf from' Hw1 Hbuf. wp_step. eapply wp_conseq.
    + apply (wp_dispatch_cases _ q pids); [done|done|]. eapply idle_trans, idle_quiet; done.
    + intros q' w2 ?. by wp_step.
Qed.

Lemma server_main_cases argv from w r w' :
  Server.main E fuel (Q := Q) argv from w = (r, w') → served w r w'.
Proof using HL.
  intros Hrun.
  assert (wp (Server.main E fuel (Q := Q) argv from) (λ code w', served w (Ok code) w') (stops w) w) as Hp.
  2: { pose proof (wp_run _ _ _ _ _ _ Hp Hrun) as Hr. by destruct r. }
  clear Hrun r w'. unfold Server.main. destruct (Server.parse_args argv) as [status|[dbg port]] eqn:Hargs.
  { wp_step. left. split_and!; [done| |done]. intros [= ->]. unfold Server.parse_args in Hargs.
    repeat (case_match; simplify_eq); done. }
  wp_step. apply wp_setup_socket_idle. intros w1 s Hw1. wp_step; [wp_step; by left|].
  wp_step. unfold Server.process_connections. wp_step. apply wp_call. intros w2 Hw2.
  assert (idle w w2) as Hi2 by (eapply idle_trans, idle_quiet; done).
  wp_step.
  { wp_step. apply wp_close. intros w3 _ Hf3 Ht3. wp_step. apply served_idle; [|done].
    eapply idle_trans; [done|]. by eapply idle_event. }
  eapply (wp_loop (λ x w3, (∃ pids, q_rep x.1 pids) ∧ idle w w3)).
  - split; [exists []; apply q_create_ok|done].
  - intros x w3 [_ Hw3]. by apply served_idle.
  - intros [q f] w3 [[pids Hq] Hw3].
    eapply wp_mono; [by apply (wp_serve_cases q pids f w)| |done].
    intros [[q' f']|[]] w4 Hr; [|done]. exact Hr.
Qed.
End server.

(** ** Both programs *)
Section session.
Context `{Host} (EC ES : env) (fuelC fuelS : nat) `{HC : QueueLaws QC (list Z)} `{HS : QueueLaws QS Z}.
Context (resolve : list Z → list Z → option sockaddr_in).
Context (fopen : list Z → option (list Z)) (stat : list Z → option Z) (indeterminate : Z).
Context (argvC argvS : list (list Z)) (from : sockaddr_in).
Context (wc wc' ws ws' : world) (rc rs : result Z).

(** Both programs were started and ran (to any end): the client with memory
    and with an argument that names a file it reports the right size of; all
    the server receives was sent by the client.  [ws'] and [rs] are those of
    the process whose end is observed, the parent or the child that [fork]
    makes of it. *)
Record session : Prop := {
  ss_memory : ∀ k, e_oom EC k = false;
  ss_name : ∀ name, last argvC = Some name → Forall (λ c, c ≠ NUL) name ∧ c_bar ∉ name;
  ss_file : ∀ name content, fopen name = Some content →
    stat name = Some (Z.of_nat (length content)) ∧ transferable content;
  ss_fresh : unspoken wc ∧ unspoken ws;
  ss_client : Client.main EC fuelC (Q := QC) resolve fopen stat indeterminate argvC wc = (rc, wc');
  ss_server : Server.main ES fuelS (Q := QS) argvS from ws = (rs, ws');
  ss_network : network ES wc';
}.

(** Nothing came of it. *)
Definition fruitless : Prop := rs ≠ Stop (SExit 0) ∧ fs ws' = fs ws ∧ acks_only 0 ws'.

(** A child handles a request of the client's [copy_file]. *)
Record transferring (name content : list Z) : Prop := {
  tf_name : last argvC = Some name;
  tf_file : fopen name = Some content;
  tf_runs : ∃ tgt origin w1 w1' w2 rc' rs' a d,
    transfer_setting EC ES fuelC fuelS (Q := QC) content name tgt origin w1 w1' w2 ws' rc' rs' a d ∧
    idle ws w2 ∧ rc = match rc' with Ok _ => Ok 0 | Stop b => Stop b end ∧
    rs = exits rs';
}.

Lemma fruitless_untouched w2 (m : P Z) rs' :
  idle ws w2 → unspoken ws → rs = exits rs' → m w2 = (rs', ws') →
  wp m (λ code w', code ≠ 0 ∧ untouched w2 w') (refused_end w2) w2 → fruitless.
Proof.
  intros Hw2 Hfresh Hr2 Hrun Hp. pose proof (wp_run _ _ _ _ _ _ Hp Hrun) as Hr.
  assert (untouched w2 ws' ∧ exits rs' ≠ Stop (SExit 0)) as [(Hf & _ & new & Htr & Hnew) Hrs].
  { destruct rs' as [code|b]; destruct Hr as [Hne Hu]; (split; [exact Hu|]); intros [= ->]; by apply Hne. }
  split_and!; [congruence|destruct Hw2; congruence|].
  intros a d. rewrite Htr. intros [Hin|Hin]%elem_of_app; [by eapply Hnew|].
  by eapply idle_unspoken in Hin.
Qed.

(** What the client sends besides its request is refused by a server that
    takes it for one. *)
Lemma sent_request_or_refused content name a d :
  transferable content → sent_ok content name (EvSend a d) →
  take (Z.to_nat PACKET_SIZE) d = d ∧ (d !! O = Some CMD_WRQ ∨ ∀ origin w,
    wp (Server.copy_file ES fuelS (in_buffer d) origin)
      (λ code w', code ≠ 0 ∧ untouched w w') (refused_end w) w).
Proof.
  intros Htr (a' & d' & [= <- <-] & Hd). pose proof CHUNK_Z.
  destruct Hd as [[-> Hfit]|[(i & Hi & ->)| ->]].
  - split; [|by left]. apply take_ge. rewrite length_pkt. size_lia.
  - pose proof (length_chunk content i). unfold in_reach, transferable in *.
    assert (length (data_pkt content i) ≤ Z.to_nat PACKET_SIZE)%nat as Hl
      by (unfold data_pkt; rewrite length_pkt; size_lia).
    split; [by apply take_ge|]. right. intros origin w.
    apply (wp_copy_file_header _ _ _ _ _ (length_in_buffer _ Hl) CMD_DATA (u16 (1 + Z.of_nat i)));
      [done|done|apply pkt_seq|]. rewrite u16_id; size_lia.
  - split; [done|]. right. intros origin w. by apply wp_copy_file_no_request.
Qed.

Lemma session_cases : session → fruitless ∨ ∃ name content, transferring name content.
Proof using HC HS.
  intros [Hoom Hname Hfile [Hfc Hfs] Hclient Hserver Hnet].
  destruct (server_main_cases _ _ _ _ _ _ _ Hserver) as
    [([Hf Hi] & _ & Hrs)|(buf & Hbuf & origin & w2 & rs' & Hi & Hchild & Hrs)].
  { left. split_and!; [done|done|]. intros a d Hin%Hi. by apply Hfs in Hin. }
  destruct Hbuf as [k d src Hk Hd|k e Hk].
  2: { left. eapply fruitless_untouched; [done..|]. by apply wp_copy_file_no_request. }
  destruct (Hnet _ _ _ Hk) as [a Ha].
  apply client_main_cases in Hclient as [[[_ Hidle] _]|(name & content & [Hlast Hopen Hrun])].
  { apply Hidle in Ha. by apply Hfc in Ha. }
  destruct Hrun as (tgt & w1 & rc' & w1' & Hiw & Hcopy & _ & Htr & Hrc).
  destruct (Hname _ Hlast) as [Hnul Hbar], (Hfile _ _ Hopen) as [Hstat Hsize].
  unfold Client.get_file_size in Hcopy. rewrite Hstat in Hcopy. cbn [default] in Hcopy.
  assert (unspoken w1) as Hw1 by by eapply idle_unspoken.
  apply Htr in Ha.
  pose proof (wp_run _ _ _ _ _ _ (wp_client_copy_file EC fuelC content name w1 Hoom Hnul tgt) Hcopy) as Hp.
  assert (said content name w1 w1') as Hs by (destruct rc'; by destruct Hp).
  destruct (sent_request_or_refused content name a d) as [Hd' Hreq];
    [done|by eapply sent_in|]. rewrite Hd' in Hchild.
  destruct Hreq as [Hwrq|Hno]; [|left; by eapply fruitless_untouched].
  right. exists name, content. split; [done..|].
  exists tgt, origin, w1, w1', w2, rc', rs', a, d. split_and!; [|done..].
  split; try done. intros k' d' src' Hk'. destruct (Hnet _ _ _ Hk') as [a' Ha'].
  exists a'. by apply Htr.
Qed.

Lemma setting_exit content name tgt origin w1 w1' w2 rc' rs' a d :
  transfer_setting EC ES fuelC fuelS (Q := QC) content name tgt origin w1 w1' w2 ws' rc' rs' a d →
  rs' ≠ Stop (SExit 0).
Proof using HC.
  intros Hset ->. destruct (setting_request Hset) as (Hlen & _).
  by destruct (wp_run _ _ _ _ _ _ (wp_copy_file_end ES fuelS origin _ w2 Hlen) (ts_server Hset)).
Qed.

Lemma session_correct :
  session → rs = Stop (SExit 0) → ∃ name content, last argvC = Some name ∧
    fopen name = Some content ∧
    fs ws !! basename name = None ∧ fs ws' = <[basename name := content]> (fs ws).
Proof using HC HS.
  intros Hs Hrs. destruct session_cases as [[Hno _]|(name & content & [Hlast Hopen Hrun])]; [done..|].
  exists name, content. split; [done|]. split; [done|].
  destruct Hrun as (tgt & origin & w1 & w1' & w2 & rc' & rs' & a & d & Hset & [Hf _] & _ & Hrs').
  rewrite <- Hf. apply (success_correct Hset). rewrite Hrs in Hrs'.
  destruct rs' as [code|b]; injection Hrs' as <-; [done|]. by apply setting_exit in Hset.
Qed.

(** Nothing was acknowledged to a client whose run came to nothing. *)
Lemma fruitless_unsuccessful :
  session → orderly_replies EC ws ws' → fruitless →
  (∀ name, last argvC = Some name → fopen name ≠ Some []) → rc ≠ Ok 0.
Proof using HC.
  intros [Hoom Hname Hfile [Hfc Hfs] Hclient _ _] Hor (_ & _ & Hacks) Hne ->.
  apply client_main_cases in Hclient as [[_ Hrc]|(name & content & [Hlast Hopen Hrun])]; [done|].
  destruct Hrun as (tgt & w1 & rc' & w1' & Hiw & Hcopy & _ & _ & Hrc).
  destruct (Hname _ Hlast) as [Hnul Hbar], (Hfile _ _ Hopen) as [Hstat Hsize].
  unfold Client.get_file_size in Hcopy. rewrite Hstat in Hcopy. cbn [default] in Hcopy.
  destruct rc' as [c|b]; [|done].
  pose proof (wp_run _ _ _ _ _ _ (wp_client_copy_file EC fuelC content name w1 Hoom Hnul tgt) Hcopy) as Hp.
  destruct Hp as [-> _]. assert (content = []) as ->; [|by eapply Hne].
  apply nil_length_inv. enough (length content ≤ CHUNK * 0)%nat by lia.
  by eapply success_bound.
Qed.

Lemma session_success :
  session → (∀ name, last argvC = Some name → healthy_server ES name) →
  orderly_replies EC ws ws' → (∀ name, last argvC = Some name → fopen name ≠ Some []) →
  rc = Ok 0 →
  ∃ name content, last argvC = Some name ∧
    fopen name = Some content ∧
    (fs ws' = <[basename name := content]> (fs ws) ∨
     rs = Stop (SExit Server.TIMEOUT) ∨ rs = Stop (SExit Server.RUNTIME_ERROR)).
Proof using HC HS.
  intros Hs Hsrv Hor Hne Hrc.
  destruct session_cases as [Hno|(name & content & [Hlast Hopen Hrun])]; [done|..].
  { by eapply fruitless_unsuccessful in Hno. }
  exists name, content. split; [done|]. split; [done|].
  destruct Hrun as (tgt & origin & w1 & w1' & w2 & rc' & rs' & a & d & Hset & Hi & Hrc' & ->).
  assert (orderly_replies EC w2 ws') as Hor2.
  { destruct Hor. split; [by eapply idle_unspoken|done..]. }
  assert (rc' = Ok 0) as ->.
  { rewrite Hrc in Hrc'. destruct rc' as [c|b]; [|done]. pose proof Hset as [? ? _ _ _ Hcopy _ _ _ _].
    pose proof (wp_run _ _ _ _ _ _
      (wp_client_copy_file EC fuelC content name w1 ltac:(done) ltac:(done) tgt) Hcopy) as [-> _].
    done. }
  assert (content ≠ []) as Hc by (intros ->; by eapply Hne).
  destruct (success_delivered Hset (Hsrv _ Hlast) Hor2 Hc eq_refl) as [Hf|[->| ->]]; auto.
  left. rewrite Hf. by destruct Hi as [-> _].
Qed.
End session.



(** [client localhost 4200 dir/f] and [server 4200], with the file of the
    sample transfer. *)
Definition client_argv : list (list Z) :=
  [bytes_of_string "client"; bytes_of_string "localhost"; bytes_of_string "4200"; sample_path].
Definition server_argv : list (list Z) := [bytes_of_string "server"; bytes_of_string "4200"].
Definition local_file (name : list Z) : option (list Z) :=
  if decide (name = sample_path) then Some sample_content else None.
Definition local_size (name : list Z) : option Z :=
  if decide (name = sample_path) then Some 3 else None.
Definition local_host (host port : list Z) : option sockaddr_in := Some sample_peer.
Definition client_main_env : env := sample_env fast_clock (λ k, acks_then_finack (k - 2)).
Definition server_main_net (k : nat) : recv_result :=
  if decide (k < 6)%nat then RecvFrom sample_wrq sample_peer else net_then 40 data_abc fin k.
Definition server_main_env : env := sample_env sample_clock server_main_net.
Definition client_main : result Z * world :=
  @Client.main sample_host client_main_env 200 (lmem (list Z)) _ local_host local_file local_size 0 client_argv
    sample_world.
Definition server_main : result Z * world :=
  @Server.main sample_host server_main_env 100 (lmem Z) _ server_argv sample_peer sample_world.

Lemma sample_session :
  @session sample_host client_main_env server_main_env 200 100 (lmem (list Z)) _ (lmem Z) _
    local_host local_file local_size 0 client_argv server_argv sample_peer
    sample_world client_main.2 sample_world server_main.2 client_main.1 server_main.1.
Proof.
  split.
  - reflexivity.
  - intros name [= <-]. split; [repeat constructor; discriminate|].
    apply (bool_decide_unpack (c_bar ∉ sample_path)). vm_compute. exact I.
  - intros name content. unfold local_file, local_size. case_decide; [|discriminate].
    intros [= <-]. split; [reflexivity|]. vm_compute. discriminate.
  - split; intros a d Hin; by apply elem_of_nil in Hin.
  - unfold client_main. apply surjective_pairing.
  - unfold server_main. apply surjective_pairing.
  - intros k d src Hk. cbn in Hk. unfold server_main_net, net_then in Hk.
    repeat case_decide; injection Hk as <- <-; in_trace.
Defined.


Lemma sample_main_replies : @orderly_replies client_main_env sample_world server_main.2.
Proof.
  apply (sample_replies_after 2); [reflexivity| |each_in_trace].
  intros a d Hin. by apply elem_of_nil in Hin.
Defined.

