(* ===== verification/Responders.v ===== *)
(** * Responders: several requests at once

    The server forks a process per request, and the processes share the
    working directory.  A responder looks at and changes no file but the one
    its request names; responders for different names therefore do not
    notice each other, however their file operations are interleaved.  For
    the same name the test for existence and the opening of the file can be
    separated by another responder. *)
From S2P Require Import Prelude CMonad CLib Packet Queue FtpWorld NetOps FtpServer ServerSpec ServerPaths Samples.
Import Server.

(** The directory after the operations of a log, newest first. *)
Definition replay (l : list fevent) (f : gmap (list Z) (list Z)) : gmap (list Z) (list Z) :=
  foldr file_op f l.

Lemma replay_app l1 l2 f : replay (l1 ++ l2) f = replay l1 (replay l2 f).
Proof. apply foldr_app. Qed.

(** An operation concerns its own file only, and depends on nothing else. *)
Lemma file_op_ne e f n : fname e ≠ n → file_op e f !! n = f !! n.
Proof.
  destruct e; cbn; intros Hn;
    [by rewrite lookup_insert_ne|by rewrite lookup_alter_ne|by rewrite lookup_delete_ne].
Qed.

Lemma file_op_agree e f g n : f !! n = g !! n → file_op e f !! n = file_op e g !! n.
Proof.
  intros Hfg. destruct (decide (fname e = n)) as [<-|Hne]; [|by rewrite !file_op_ne].
  destruct e; cbn in *; [by rewrite !lookup_insert_eq| |by rewrite !lookup_delete_eq].
  by rewrite !lookup_alter_eq, Hfg.
Qed.

Lemma replay_agree l f g n : f !! n = g !! n → replay l f !! n = replay l g !! n.
Proof. intros Hfg. induction l as [|e l IH]; [done|]. by apply file_op_agree. Qed.

Lemma replay_filter l f n :
  replay l f !! n = replay (filter (λ e, fname e = n) l) f !! n.
Proof.
  induction l as [|e l IH]; [done|]. cbn [replay foldr]. rewrite filter_cons. case_decide.
  - by apply file_op_agree.
  - by rewrite file_op_ne.
Qed.

(** The file a request names. *)
Definition request_name (buf : list Z) : option (list Z) :=
  str ← cstr (payload_of buf);
  sep ← strchr str c_bar;
  Some (base_name str sep).

Lemma request_of_name buf name size :
  request_of buf = Some (name, size) → request_name buf = Some name.
Proof.
  unfold request_of, request_name. destruct (cstr _) as [str|]; cbn; [|done].
  destruct (strchr str c_bar) as [sep|]; cbn; [|done].
  destruct (sscanf_ld_c _) as [k [v|]]; [|by destruct k as [|[]|]].
  destruct k as [|[]|]; try done. by destruct (0 <=? v); intros [= <- <-].
Qed.

(** ** Computations that are local to a file *)
Section local.
Context (n : list Z).
Implicit Types (w : world).

(** The worlds of two runs that differ in other files only. *)
Definition agree w1 w2 : Prop :=
  tick w1 = tick w2 ∧ errno w1 = errno w2 ∧ trace w1 = trace w2 ∧ flog w1 = flog w2 ∧
  slog w1 = slog w2 ∧ fs w1 !! n = fs w2 !! n.

(** From [w] to [w'] the process logged what it did, all of it to [n]. *)
Definition logged w w' : Prop :=
  ∃ new, flog w' = new ++ flog w ∧ fs w' = replay new (fs w) ∧ Forall (λ e, fname e = n) new.

Definition local {A} (m : P A) : Prop :=
  ∀ w1 w2, agree w1 w2 →
    (m w1).1 = (m w2).1 ∧ agree (m w1).2 (m w2).2 ∧ logged w1 (m w1).2.

#[local] Instance agree_equivalence : Equivalence agree.
Proof.
  split.
  - by intros w.
  - intros w1 w2 (? & ? & ? & ? & ? & ?). by repeat split.
  - intros w1 w2 w3 (? & ? & ? & ? & ? & ?) (? & ? & ? & ? & ? & ?). split_and!; congruence.
Qed.

Lemma logged_refl w w' : fs w' = fs w → flog w' = flog w → logged w w'.
Proof. intros Hf Hl. exists []. by rewrite Hf, Hl. Qed.

Lemma logged_trans w1 w2 w3 : logged w1 w2 → logged w2 w3 → logged w1 w3.
Proof.
  intros (l1 & H1 & F1 & A1) (l2 & H2 & F2 & A2). exists (l2 ++ l1).
  rewrite H2, H1, F2, F1, app_assoc, replay_app. split_and!; [done|done|]. by apply Forall_app.
Qed.

Lemma local_ret {A} (a : A) : local (mret a).
Proof. intros w1 w2 Hw. split_and!; [done|done|by apply logged_refl]. Qed.

Lemma local_halt {A} b : local (A := A) (halt b).
Proof. intros w1 w2 Hw. split_and!; [done|done|by apply logged_refl]. Qed.

Lemma local_defined {A} u (o : option A) : local (defined u o).
Proof. destruct o; [apply local_ret|apply local_halt]. Qed.

(** In sequence, with what is known of the first result. *)
Lemma local_bind_val {A B} (m : P A) (f : A → P B) (V : A → Prop) :
  local m → (∀ w, wp m (λ a _, V a) (λ _ _, True) w) → (∀ a, V a → local (f a)) →
  local (m ≫= f).
Proof.
  intros Hm HV Hf w1 w2 Hw. destruct (Hm w1 w2 Hw) as (Hr & Hw' & Hl).
  specialize (HV w1). unfold wp in HV. unfold mbind, M_bind.
  destruct (m w1) as [r1 w1'], (m w2) as [r2 w2']. cbn in *. subst r2.
  destruct r1 as [a|b]; [|by split_and!].
  destruct (Hf a HV _ _ Hw') as (? & ? & ?). split_and!; [done|done|by eapply logged_trans].
Qed.

Lemma local_bind {A B} (m : P A) (f : A → P B) :
  local m → (∀ a, local (f a)) → local (m ≫= f).
Proof.
  intros Hm Hf. apply (local_bind_val m f (λ _, True)); [done| |auto].
  intros w. unfold wp. by destruct (m w) as [[] ].
Qed.

Lemma local_loop {S R} fuel (body : S → P (S + R)) x :
  (∀ x, local (body x)) → local (loop fuel body x).
Proof.
  intros Hb. revert x. induction fuel as [|fuel IH]; intros x; cbn [loop]; [apply local_halt|].
  apply local_bind; [done|]. intros [y|r]; [apply IH|apply local_ret].
Qed.

(** The elementary operations of the process. *)
Lemma local_call : local call.
Proof.
  intros w1 w2 (Ht & Hr). cbn. split_and!; [congruence| |by apply logged_refl].
  unfold agree in *. cbn. by rewrite Ht.
Qed.

Lemma local_errno : local (gets errno).
Proof.
  intros w1 w2 Hw. pose proof Hw as (_ & He & _). cbn.
  split_and!; [congruence|done|by apply logged_refl].
Qed.

Lemma local_set_errno e : local (modify (set_errno e)).
Proof.
  intros w1 w2 (? & ? & ? & ? & ? & ?). split_and!; [done|by repeat split|by apply logged_refl].
Qed.

Lemma local_emit ev : local (modify (emit ev)).
Proof.
  intros w1 w2 (? & ? & Htr & ? & ? & ?). split_and!; [done| |by apply logged_refl].
  unfold agree. cbn. by rewrite Htr.
Qed.

Lemma local_stamp_send k d : local (modify (stamp_send k d)).
Proof.
  intros w1 w2 (? & ? & ? & ? & Hs & ?). split_and!; [done| |by apply logged_refl].
  unfold agree. cbn. by rewrite Hs.
Qed.

Lemma local_touch e : fname e = n → local (modify (touch e)).
Proof.
  intros He w1 w2 (? & ? & ? & Hl & ? & Hf). split_and!; [done|..].
  - split_and!; cbn; [done..|by rewrite Hl|done|by apply file_op_agree].
  - exists [e]. split_and!; [done|done|by constructor].
Qed.

Lemma local_access : local (access n).
Proof.
  unfold access. apply local_bind; [apply local_call|]. intros _.
  intros w1 w2 Hw. pose proof Hw as (_ & _ & _ & _ & _ & Hf). unfold mbind, M_bind, gets.
  rewrite Hf. destruct (decide _); [by apply local_ret|].
  apply local_bind; [apply local_set_errno| |done]. intros _. apply local_ret.
Qed.
End local.

Create HintDb local.
#[export] Hint Resolve local_ret local_defined local_call local_errno local_set_errno local_emit
  local_stamp_send local_access : local.

(** Walk over a program: what is left are the operations without a hint. *)
Ltac local_step :=
  match goal with
  | |- local _ (mbind _ _) => apply local_bind
  | |- local _ (halt _) => apply local_halt
  | |- local _ (exit _) => apply local_halt
  | |- local _ (crash _) => apply local_halt
  | |- local _ (loop _ _ _) => apply local_loop
  | |- local _ (match ?x with _ => _ end) => destruct x
  | |- local _ (let _ := _ in _) => cbv zeta
  | |- local _ _ => solve [auto with local]
  | |- ∀ _, local _ _ => intros ?
  | |- ∀ _, _ => intros ?
  end.
Ltac solve_local := repeat local_step; auto with local.

Section responder.
Context `{Host} (E : env) (fuel : nat) (n : list Z).

Lemma local_time : local n (time E).
Proof. unfold time. solve_local. Qed.
Lemma local_sleep : local n sleep.
Proof. unfold sleep. solve_local. Qed.
Lemma local_malloc k : local n (malloc E k).
Proof. unfold malloc, fail_with. solve_local. Qed.
Lemma local_sendto a d : local n (sendto E a d).
Proof. unfold sendto, fail_with. solve_local. Qed.
Lemma local_recvfrom k : local n (recvfrom E k).
Proof. unfold recvfrom, fail_with. solve_local. Qed.
Lemma local_socket : local n (socket E).
Proof. unfold socket, fail_with. solve_local. Qed.
Lemma local_bind_socket p : local n (bind E p).
Proof. unfold bind, fail_with. solve_local. Qed.
Lemma local_close fd : local n (close fd).
Proof. unfold close. solve_local. Qed.
Lemma local_add_long a b : local n (add_long a b).
Proof. unfold add_long. solve_local. Qed.
Lemma local_fopen : local n (fopen_w E n).
Proof. unfold fopen_w, fail_with. solve_local. by apply local_touch. Qed.
Lemma local_fwrite d : local n (fwrite E n d).
Proof. unfold fwrite. solve_local. by apply local_touch. Qed.
Lemma local_unlink : local n (unlink n).
Proof. unfold unlink. solve_local. by apply local_touch. Qed.

#[local] Hint Resolve local_time local_sleep local_malloc local_sendto local_recvfrom local_socket
  local_bind_socket local_close local_add_long local_fopen local_fwrite local_unlink : local.

Lemma local_create_packet c s k p : local n (create_packet E c s k p).
Proof. unfold create_packet. solve_local. Qed.
Lemma local_send_packet a p : local n (send_packet E a p).
Proof. unfold send_packet. solve_local. Qed.
Lemma local_read_only_from b k : local n (read_only_from E b k).
Proof. unfold read_only_from. solve_local. Qed.
#[local] Hint Resolve local_create_packet local_send_packet local_read_only_from : local.

Lemma local_read_until_timeout b : local n (read_until_timeout E fuel b).
Proof. unfold read_until_timeout. solve_local. Qed.
Lemma local_setup_socket p : local n (setup_socket E p).
Proof. unfold setup_socket. solve_local. Qed.
Lemma local_deny origin c code : local n (deny E origin c code).
Proof. unfold deny. solve_local. Qed.
Lemma local_copy_name p i : local n (copy_name E p i).
Proof. unfold copy_name. solve_local. Qed.
#[local] Hint Resolve local_read_until_timeout local_setup_socket local_deny local_copy_name : local.

Lemma local_ack_request origin p t : local n (ack_request E fuel origin n p t).
Proof. unfold ack_request. solve_local. Qed.
Lemma local_on_data origin sz l : local n (on_data E origin n sz l).
Proof. unfold on_data. solve_local. Qed.
Lemma local_finish origin b : local n (finish E fuel origin b).
Proof. unfold finish. solve_local. Qed.
#[local] Hint Resolve local_ack_request local_on_data local_finish : local.

Lemma local_transfer sock origin sz b : local n (transfer E fuel sock origin n sz b).
Proof. unfold transfer, transfer_step. solve_local. Qed.
#[local] Hint Resolve local_transfer : local.

Lemma local_receive_file sock origin sz b : local n (receive_file E fuel sock origin n sz b).
Proof. unfold receive_file. solve_local. Qed.
#[local] Hint Resolve local_receive_file : local.

Lemma copy_name_value buf str sep w :
  cstr (payload_of buf) = Some str → strchr str c_bar = Some sep →
  wp (copy_name E (<[sep := NUL]> (payload_of buf)) (strrchr str c_slash))
    (λ a _, a = base_name str sep) (λ _ _, True) w.
Proof.
  intros [Hs [rest Hp]]%cstr_Some Hsep. by eapply (wp_copy_name E buf str rest sep).
Qed.

Lemma local_copy_file buf origin :
  (∀ name, request_name buf = Some name → name = n) → local n (copy_file E fuel buf origin).
Proof.
  intros Hname. unfold copy_file. apply local_bind; [auto with local|]. intros [r sock].
  destruct (negb _); [auto with local|].
  do 2 (apply local_bind; [auto with local|intros ?]). destruct (_ && _); [auto with local|].
  apply (local_bind_val _ _ _ (λ str, cstr (payload_of buf) = Some str)); [auto with local| |].
  { intros w. apply wp_defined; done. }
  intros str Hstr. destruct (strchr str c_bar) as [sep|] eqn:Hsep; [|auto with local].
  cbv zeta. apply (local_bind_val _ _ _ (λ a, a = n)); [auto with local| |].
  { intros w. eapply wp_conseq; [by apply copy_name_value|]. intros name _ ->. apply Hname.
    unfold request_name. rewrite Hstr. cbn. by rewrite Hsep. }
  intros name ->. solve_local.
Qed.
End responder.

(** ** Interleavings *)

(** A responder: its system, request and run, from the fork on. *)
Record responder `{Host} : Type := mkResponder {
  p_env : env;
  p_fuel : nat;
  p_buf : list Z;
  p_origin : EndPoint;
  p_start : world;
}.

Section interleaving.
Context `{Host}.
Implicit Types (p : responder).

Definition p_run p : result Z * world :=
  copy_file (p_env p) (p_fuel p) (p_buf p) (p_origin p) (p_start p).
Definition p_result p : result Z := (p_run p).1.
Definition p_end p : world := (p_run p).2.
Definition p_name p : option (list Z) := request_name (p_buf p).

(** The operations of responder [i] in a joint log. *)
Definition own (i : nat) (joint : list (nat * fevent)) : list fevent :=
  (filter (λ x, x.1 = i) joint).*2.

Context (ps : list responder) (fs0 : gmap (list Z) (list Z)) (joint : list (nat * fevent)).

(** The responders run side by side: each starts when its own file in the
    directory is as in [fs0], and [joint] is an interleaving of what they do. *)
Record side_by_side : Prop := {
  sb_start i p n : ps !! i = Some p → p_name p = Some n →
    flog (p_start p) = [] ∧ fs (p_start p) !! n = fs0 !! n;
  sb_silent i p : ps !! i = Some p → p_name p = None → own i joint = [];
  sb_joint i p n : ps !! i = Some p → p_name p = Some n → own i joint = flog (p_end p);
  sb_known x : x ∈ joint → is_Some (ps !! x.1);
  sb_distinct i j p q n : ps !! i = Some p → ps !! j = Some q →
    p_name p = Some n → p_name q = Some n → i = j;
}.

Lemma p_logged p n : p_name p = Some n → logged n (p_start p) (p_end p).
Proof.
  intros Hn. apply (local_copy_file (p_env p) (p_fuel p) n (p_buf p) (p_origin p)) with (w2 := p_start p).
  - unfold p_name in Hn. congruence.
  - done.
Qed.

Lemma own_app i l1 l2 : own i (l1 ++ l2) = own i l1 ++ own i l2.
Proof. unfold own. by rewrite filter_app, fmap_app. Qed.

(** Every operation is of a responder, on the file it was asked for. *)
Lemma joint_owner k e :
  side_by_side → (k, e) ∈ joint → ∃ q, ps !! k = Some q ∧ p_name q = Some (fname e).
Proof.
  intros Hs Hin. destruct (sb_known Hs _ Hin) as [q Hq]. cbn in Hq. exists q. split; [done|].
  assert (e ∈ own k joint) as Hown.
  { unfold own. apply list_elem_of_fmap. exists (k, e). split; [done|]. by apply list_elem_of_filter. }
  destruct (p_name q) as [nq|] eqn:Hnq; [|rewrite (sb_silent Hs k q) in Hown by done; by inversion Hown].
  rewrite (sb_joint Hs k q nq) in Hown by done.
  destruct (p_logged q nq Hnq) as (new & Hl & _ & Hall).
  rewrite Hl, (proj1 (sb_start Hs k q nq Hq Hnq)), app_nil_r in Hown.
  rewrite Forall_forall in Hall. by rewrite (Hall _ Hown).
Qed.

(** Among all operations, those on the file of [i] are those of [i]. *)
Lemma own_filter i p n later earlier :
  side_by_side → ps !! i = Some p → p_name p = Some n → joint = later ++ earlier →
  filter (λ e, fname e = n) earlier.*2 = own i earlier.
Proof.
  intros Hs Hi Hn Hj.
  assert (∀ k e, (k, e) ∈ earlier → fname e = n ↔ k = i) as Hx.
  { intros k e Hin. destruct (joint_owner k e Hs) as (q & Hq & Hnq).
    { rewrite Hj. apply elem_of_app. by right. }
    split; [intros <-; by eapply (sb_distinct Hs)|intros ->; congruence]. }
  clear Hj. induction earlier as [|[k e] l IH]; [done|]. unfold own in *. cbn [fmap list_fmap].
  rewrite !filter_cons. cbn [snd fst]. destruct (Hx k e) as [Hx1 Hx2]; [by left|].
  repeat case_decide; try tauto; cbn [fmap list_fmap]; rewrite IH; try done;
    intros k' e' Hin; apply Hx; by right.
Qed.

(** What the directory has under the name of a responder is what the
    responder alone has put there. *)
Lemma shared_view i p n later earlier :
  side_by_side → ps !! i = Some p → p_name p = Some n → joint = later ++ earlier →
  replay earlier.*2 fs0 !! n = replay (own i earlier) (fs (p_start p)) !! n.
Proof.
  intros Hs Hi Hn Hj. rewrite replay_filter. erewrite own_filter by done.
  apply replay_agree. symmetry. by eapply (sb_start Hs).
Qed.

Lemma shared_end i p n :
  side_by_side → ps !! i = Some p → p_name p = Some n →
  replay joint.*2 fs0 !! n = fs (p_end p) !! n.
Proof.
  intros Hs Hi Hn. rewrite (shared_view i p n [] joint) by done.
  rewrite (sb_joint Hs i p n) by done. destruct (p_logged p n Hn) as (new & Hl & Hf & _).
  by rewrite Hf, Hl, (proj1 (sb_start Hs i p n Hi Hn)), app_nil_r.
Qed.

(** C19. Responders for different files do not disturb each other: in every
    interleaving of their file operations, each finds under the name of its
    request, at every moment, exactly what it would find running alone, and
    leaves there what it would leave alone; no other file is touched. *)
Theorem responders_independent :
  side_by_side →
  (∀ later earlier i p n, joint = later ++ earlier → ps !! i = Some p → p_name p = Some n →
     replay earlier.*2 fs0 !! n = replay (own i earlier) (fs (p_start p)) !! n) ∧
  (∀ i p n, ps !! i = Some p → p_name p = Some n →
     replay joint.*2 fs0 !! n = fs (p_end p) !! n) ∧
  (∀ n, (∀ i p, ps !! i = Some p → p_name p ≠ Some n) → replay joint.*2 fs0 !! n = fs0 !! n).
Proof.
  intros Hs. split_and!.
  - intros later earlier i p n Hj Hi Hn. by eapply shared_view.
  - intros i p n Hi Hn. by eapply shared_end.
  - intros n Hno. assert (∀ e, e ∈ joint.*2 → fname e ≠ n) as Hne.
    { intros e ([k e'] & -> & Hin)%list_elem_of_fmap Heq. cbn in Heq.
      destruct (joint_owner k e' Hs Hin) as (q & Hq & Hnq). apply (Hno k q Hq). congruence. }
    induction joint.*2 as [|e l IH]; [done|]. cbn [replay foldr].
    rewrite file_op_ne by (apply Hne; by left). apply IH. intros e' He'. apply Hne. by right.
Qed.

End interleaving.

(** C21. A responder depends on and changes no file but the one its request
    names: started with directories that agree on that file, it runs the same
    way, sends the same packets and performs the same file operations, all of
    them on that file. *)
Theorem responder_local `{Host} (E : env) fuel buf origin n w1 w2 :
  request_name buf = Some n → agree n w1 w2 →
  (copy_file E fuel buf origin w1).1 = (copy_file E fuel buf origin w2).1 ∧
  agree n (copy_file E fuel buf origin w1).2 (copy_file E fuel buf origin w2).2 ∧
  ∃ new, flog (copy_file E fuel buf origin w1).2 = new ++ flog w1 ∧
    fs (copy_file E fuel buf origin w1).2 = replay new (fs w1) ∧ Forall (λ e, fname e = n) new.
Proof. intros Hn Hw. apply local_copy_file; [congruence|done]. Qed.

(** ** Two clients *)

Definition request_for (text : list Z) : list Z := in_buffer (pkt CMD_WRQ 0 text).
Definition serving (text : list Z) : @responder sample_host :=
  mkResponder sample_host (sample_env sample_clock (net_then 40 data_abc fin)) 100 (request_for text)
    sample_origin sample_world.
Definition two : list (@responder sample_host) :=
  [serving (bytes_of_string "dir/f|3"); serving (bytes_of_string "g|3")].
Definition turns : list (nat * fevent) :=
  [(1, FWrite (bytes_of_string "g") (bytes_of_string "abc"));
   (0, FWrite (bytes_of_string "f") (bytes_of_string "abc"));
   (1, FOpen (bytes_of_string "g")); (0, FOpen (bytes_of_string "f"))]%nat.

Lemma two_side_by_side : side_by_side two (fs sample_world) turns.
Proof.
  split.
  - intros i p n Hi _. destruct i as [|[|i]]; [injection Hi as <-..|]; done.
  - intros i p Hi Hn. destruct i as [|[|i]]; [injection Hi as <-..|done]; vm_compute in Hn; discriminate.
  - intros i p n Hi _. destruct i as [|[|i]]; [injection Hi as <-..|done]; vm_compute; reflexivity.
  - intros x Hx. repeat (apply elem_of_cons in Hx as [->|Hx]; [by eexists|]). by inversion Hx.
  - intros i j p q n Hi Hj Hp Hq.
    destruct i as [|[|i]], j as [|[|j]]; try done; injection Hi as <-; injection Hj as <-;
      vm_compute in Hp, Hq; congruence.
Defined.

Lemma responders_independent_witness :
  replay turns.*2 (fs sample_world) !! bytes_of_string "f" =
    fs (p_end (serving (bytes_of_string "dir/f|3"))) !! bytes_of_string "f".
Proof.
  apply (proj1 (proj2 (@responders_independent sample_host two (fs sample_world) turns
    two_side_by_side)) O); vm_compute; reflexivity.
Defined.


(** The same request in a directory with another file. *)
Definition other_world : world :=
  mkWorld 0 0 [] {[ bytes_of_string "new" := [] ]} [] [].

Lemma responder_local_witness :
  (@copy_file sample_host (sample_env sample_clock (net_then 40 data_abc fin)) 100
    (request_for (bytes_of_string "g|3")) sample_origin sample_world).1 =
  (@copy_file sample_host (sample_env sample_clock (net_then 40 data_abc fin)) 100
    (request_for (bytes_of_string "g|3")) sample_origin other_world).1.
Proof.
  apply (@responder_local sample_host (sample_env sample_clock (net_then 40 data_abc fin)) 100
    (request_for (bytes_of_string "g|3")) sample_origin (bytes_of_string "g")
    sample_world other_world).
  - vm_compute. reflexivity.
  - repeat split.
Defined.

(** A client that asks for [f] as well, and goes away. *)
Definition rival : @responder sample_host :=
  mkResponder sample_host (sample_env sample_clock (λ _, nothing)) 100
    (request_for (bytes_of_string "f|3")) sample_origin sample_world.
Definition race : list (nat * fevent) :=
  [(1, FUnlink (bytes_of_string "f")); (1, FOpen (bytes_of_string "f"));
   (0, FWrite (bytes_of_string "f") (bytes_of_string "abc"));
   (0, FOpen (bytes_of_string "f"))]%nat.

(** The test for existence does not hold across processes: two responders
    for the same name can both find no file; the first completes its transfer,
    sends FINACK and reports success, and the second, whose client goes away,
    then truncates and removes the file of the first. *)
Theorem same_name_race :
  let p := serving (bytes_of_string "dir/f|3") in
  p_name p = p_name rival ∧ p_start p = p_start rival ∧
  own 0 race = flog (p_end p) ∧ own 1 race = flog (p_end rival) ∧
  p_result p = Ok 0 ∧ EvSend sample_peer finack ∈ trace (p_end p) ∧
  replay race.*2 (fs (p_start p)) !! bytes_of_string "f" = None.
Proof.
  split_and!; try (vm_compute; reflexivity). apply list_elem_of_In. vm_compute. tauto.
Qed.
