(* ===== verification/GoodRun.v ===== *)
(** * GoodRun: exact execution on a system where nothing fails

    The specifications of the elementary operations when memory, sockets and
    the disk are available: which call each one is, what it changes, and
    nothing else.  They let a run be followed call by call. *)
From S2P Require Import Prelude CMonad CLib Packet Queue FtpWorld NetOps.

Section good.
Context `{Host} (E : env).
Implicit Types (w : world).

Record all_well : Prop := {
  aw_memory k : e_oom E k = false;
  aw_slack k : (0 < e_slack E k)%nat;
  aw_send k : e_send E k = None;
  aw_fopen k : e_fopen E k = None;
  aw_fwrite k : 65536 ≤ e_fwrite E k;
  aw_socket k : e_socket E k ≠ -1;
  aw_bind k : e_bind E k ≠ -1;
}.
Hypothesis Hwell : all_well.

(** [n] calls went by without an effect. *)
Definition passed (n : nat) w w' : Prop :=
  tick w' = (tick w + n)%nat ∧ errno w' = errno w ∧ fs w' = fs w ∧ slog w' = slog w.

Lemma passed_trans n1 n2 w1 w2 w3 : passed n1 w1 w2 → passed n2 w2 w3 → passed (n1 + n2) w1 w3.
Proof. intros (? & ? & ? & ?) (? & ? & ? & ?). split_and!; (lia || congruence). Qed.

Lemma good_call Q X w : (∀ w', passed 1 w w' → Q (tick w) w') → wp call Q X w.
Proof. intros HQ. apply HQ. split_and!; cbn; [lia|done..]. Qed.

Lemma good_time Q X w : (∀ w', passed 1 w w' → Q (e_time E (tick w)) w') → wp (time E) Q X w.
Proof. intros HQ. apply HQ. split_and!; cbn; [lia|done..]. Qed.

Lemma good_sleep Q X w : (∀ w', passed 1 w w' → Q tt w') → wp sleep Q X w.
Proof. intros HQ. apply HQ. split_and!; cbn; [lia|done..]. Qed.

Lemma good_malloc n Q X w :
  (∀ w' b, passed 1 w w' → length b = Z.to_nat n → Q (Some (b, e_slack E (tick w))) w') →
  wp (malloc E n) Q X w.
Proof using Hwell.
  intros HQ. unfold malloc. apply wp_bind. cbn. rewrite (aw_memory Hwell).
  apply HQ; [split_and!; cbn; [lia|done..]|]. by rewrite !length_fmap, length_seq.
Qed.

Lemma good_create_packet c s n p Q X w :
  0 ≤ n < 65536 → (Z.to_nat n ≤ length p)%nat →
  (∀ w', passed 1 w w' → Q (pkt c s (take (Z.to_nat n) p)) w') →
  wp (create_packet E c s n (Some p)) Q X w.
Proof using Hwell.
  intros Hn Hp HQ. unfold create_packet. rewrite !(u16_id n) by lia.
  wp_step. apply good_malloc. intros w1 b Hw1 Hb. do 2 wp_step. cbn [fst].
  rewrite fill_packet_pkt by (try done; size_lia). wp_step.
  assert (pkt c (u16 s) (take (Z.to_nat n) p) = pkt c s (take (Z.to_nat n) p)) as ->
    by (unfold pkt; by rewrite !(u16_id (u16 s)) by apply u16_range).
  by apply HQ.
Qed.

Lemma good_create_empty c s p Q X w :
  (∀ w', passed 1 w w' → Q (pkt c s []) w') → wp (create_packet E c s 0 p) Q X w.
Proof using Hwell.
  intros HQ. unfold create_packet. rewrite !(u16_id 0) by lia.
  wp_step. apply good_malloc. intros w1 b Hw1 Hb. do 2 wp_step. cbn [fst].
  rewrite fill_packet_empty by (rewrite Hb; done). wp_step.
  assert (pkt c (u16 s) [] = pkt c s []) as ->
    by (unfold pkt; by rewrite !(u16_id (u16 s)) by apply u16_range).
  by apply HQ.
Qed.

(** A packet was sent by call [tick w]. *)
Definition sent (d : list Z) w w' : Prop :=
  tick w' = S (tick w) ∧ errno w' = errno w ∧ fs w' = fs w ∧ slog w' = (tick w, d) :: slog w.

Lemma good_send_packet target c s pl Q X w :
  Z.of_nat (length pl) < 65536 →
  (∀ w', sent (pkt c s pl) w w' → Q 0 w') →
  wp (send_packet E target (pkt c s pl)) Q X w.
Proof using Hwell.
  intros Hl HQ. unfold send_packet. wp_step.
  pose proof (pkt_len c s pl [] Hl) as HL. rewrite app_nil_r in HL. rewrite HL.
  wp_step. wp_step; bool_to_prop; [rewrite length_pkt in *; size_lia|].
  rewrite take_ge by (rewrite length_pkt; size_lia).
  wp_step. unfold sendto. wp_step. apply good_call. intros w1 (Ht & He & Hf & Hs).
  rewrite (aw_send Hwell). wp_steps. rewrite length_pkt.
  assert ((u64 (Z.of_nat (5 + length pl)) =? HEADER_SIZE + Z.of_nat (length pl)) = true)
    as -> by (apply Z.eqb_eq; unfold u64; size_lia).
  apply HQ. split_and!; cbn; [lia|done|done|by rewrite Hs].
Qed.

(** A datagram is there at the call that receives: two calls. *)
Lemma good_read d src buffer Q X w :
  length buffer = Z.to_nat PACKET_SIZE → (length d ≤ Z.to_nat PACKET_SIZE)%nat →
  e_recv E (S (tick w)) = RecvFrom d src →
  (∀ w' rest, passed 2 w w' → length (d ++ rest) = Z.to_nat PACKET_SIZE →
    Q (Z.of_nat (length d), d ++ rest) w') →
  wp (read_only_from E buffer PACKET_SIZE) Q X w.
Proof using Hwell.
  intros Hb Hd Hr HQ. unfold read_only_from. wp_step. apply good_malloc.
  intros w1 t Hw1 Ht. pose proof Hw1 as (Ht1 & _). wp_step. unfold recvfrom. wp_step.
  apply good_call. intros w2 Hw2. rewrite Ht1, Nat.add_1_r, Hr. wp_step.
  rewrite take_ge by done.
  rewrite memcpy_whole by (rewrite ?length_splice; lia). do 3 wp_step.
  unfold splice. rewrite take_0. cbn [app]. apply HQ.
  - by eapply (passed_trans 1 1).
  - rewrite length_app, length_drop. lia.
Qed.

(** There is none. *)
Lemma good_read_nothing e buffer Q X w :
  length buffer = Z.to_nat PACKET_SIZE → e_recv E (S (tick w)) = RecvErr e →
  (∀ k j, e_junk E k j = 0) →
  (∀ w', tick w' = S (S (tick w)) → errno w' = e → fs w' = fs w → slog w' = slog w →
    Q (-1, replicate (Z.to_nat PACKET_SIZE) 0) w') →
  wp (read_only_from E buffer PACKET_SIZE) Q X w.
Proof using Hwell.
  intros Hb Hr Hj HQ. unfold read_only_from. wp_step. unfold malloc. wp_step.
  apply good_call. intros w1 (Ht1 & He1 & Hf1 & Hs1). rewrite (aw_memory Hwell).
  wp_step. wp_step. unfold recvfrom. wp_step. apply good_call. intros w2 (Ht2 & He2 & Hf2 & Hs2).
  rewrite Ht1, Nat.add_1_r, Hr. unfold fail_with. wp_steps.
  assert (∀ l : list nat, u8 <$> (e_junk E (tick w) <$> l) = replicate (length l) 0) as ->.
  { intros l. induction l as [|i l IH]; [done|].
    change (u8 (e_junk E (tick w) i) :: (u8 <$> (e_junk E (tick w) <$> l)) =
      0 :: replicate (length l) 0). by rewrite Hj, IH. }
  rewrite length_seq.
  rewrite memcpy_whole by (rewrite ?length_splice; rewrite ?length_replicate; cbn; lia).
  do 2 wp_step. unfold splice. rewrite take_0, drop_0. cbn [app length Nat.add].
  apply HQ; cbn; [lia|done|congruence|congruence].
Qed.
End good.
