(* ===== verification/Schedule.v ===== *)
(** * Schedule: which datagrams of a transfer get through

    A schedule says, round by round of the client, how far the network lets
    the transfer come.  In each round the client sends its whole window; some
    first part of it reaches the server, and some of the acknowledgements of
    the server reach the client.  Every loss of data and of acknowledgements
    is a schedule.  From the schedule follows at which of its calls the client
    does what. *)
From S2P Require Import Prelude.

(** After [r] rounds the server has the first [s r] packets, and the client
    knows of [m r] of them.  A packet arrives only when it was in the window
    of the round, and [enough] holds once the whole file is acknowledged. *)
Record schedule (enough : nat → Prop) (R : nat) (s m : nat → nat) : Prop := {
  sc_start : s O = O ∧ m O = O;
  sc_data r : (r < R)%nat → (s r ≤ s (S r) ≤ m r + 50)%nat;
  sc_acks r : (r < R)%nat → (m r ≤ m (S r) ≤ s (S r))%nat;
  sc_going r : (r < R)%nat → ¬ enough (m r);
  sc_end : enough (m R);
}.

Section monotone.
Context (f : nat → nat) (R : nat).
Hypothesis Hf : ∀ r, (r < R)%nat → (f r ≤ f (S r))%nat.

Lemma mono_le r r' : (r ≤ r' ≤ R)%nat → (f r ≤ f r')%nat.
Proof using Hf.
  intros [Hle HR]. induction Hle as [|r' Hle IH]; [done|].
  specialize (Hf r' ltac:(lia)). lia.
Qed.
End monotone.

Lemma schedule_server enough R s m r r' :
  schedule enough R s m → (r ≤ r' ≤ R)%nat → (s r ≤ s r')%nat.
Proof. intros Hs. apply (mono_le s R). intros x Hx. by apply (sc_data _ _ _ _ Hs). Qed.

Lemma schedule_client enough R s m r r' :
  schedule enough R s m → (r ≤ r' ≤ R)%nat → (m r ≤ m r')%nat.
Proof. intros Hs. apply (mono_le m R). intros x Hx. by apply (sc_acks _ _ _ _ Hs). Qed.

Lemma schedule_window enough R s m r :
  schedule enough R s m → (r ≤ R)%nat → (m r ≤ s r ≤ m r + 50)%nat.
Proof.
  intros Hs. induction r as [|r IH]; intros Hr.
  { destruct (sc_start _ _ _ _ Hs). lia. }
  pose proof (sc_data _ _ _ _ Hs r Hr). pose proof (sc_acks _ _ _ _ Hs r Hr). lia.
Qed.

(** ** The calls of the client *)
Section calls.
Context (m : nat → nat).

(** How many chunks are in packets when round [r] begins. *)
Definition filled (r : nat) : nat := match r with O => O | S r => m r + 50 end.

(** The first call of a round: two calls for each new packet, fifty to send
    the window, one for the time, one to sleep, two to listen; and if an
    acknowledgement comes, one for each packet that it removes and two to
    find that there is nothing else. *)
Fixpoint round_start (r : nat) : nat :=
  match r with
  | O => 7
  | S r => round_start r + 2 * (m r + 50 - filled r) + 54 +
             if decide (m r < m (S r))%nat then m (S r) - m r + 2 else 0
  end.

Definition send_at (r : nat) : nat := round_start r + 2 * (m r + 50 - filled r).
Definition listen_at (r : nat) : nat := send_at r + 53.

(** The call that looked at the clock when the window last moved before round
    [r]: the one after the request, or the one of the last packet removed. *)
Fixpoint moved_at (r : nat) : nat :=
  match r with
  | O => 6
  | S r => if decide (m r < m (S r))%nat then listen_at r + (m (S r) - m r) else moved_at r
  end.

(** Round [r] starts to listen in time: not more than [timeout] seconds after
    the window last moved. *)
Definition in_time (timeout : Z) (time : nat → Z) (r : nat) : Prop :=
  time (send_at r + 50)%nat - time (moved_at r) ≤ timeout.

(** A clock by which the client gives up in none of [R] rounds, and has time
    for a FIN. *)
Record prompt (timeout : Z) (R : nat) (time : nat → Z) : Prop := {
  pm_rounds r : (r < R)%nat → in_time timeout time r;
  pm_close : time (round_start R + 3)%nat - time (round_start R + 2)%nat < timeout;
}.

Lemma round_start_S r :
  round_start (S r) = (send_at r + 54 + if decide (m r < m (S r)) then m (S r) - m r + 2 else 0)%nat.
Proof. cbn [round_start]. unfold send_at. lia. Qed.

Lemma round_start_le r r' : (r ≤ r')%nat → (round_start r ≤ round_start r')%nat.
Proof.
  intros Hr. apply (mono_le _ r'); [|lia]. intros x _. rewrite round_start_S. unfold send_at. lia.
Qed.

Lemma round_start_pos r : (7 ≤ round_start r)%nat.
Proof. apply (round_start_le 0). lia. Qed.

Lemma send_before_next r r' : (r < r')%nat → (listen_at r < round_start r')%nat.
Proof.
  intros Hr. eapply Nat.lt_le_trans; [|by apply (round_start_le (S r))].
  rewrite round_start_S. unfold listen_at. lia.
Qed.
End calls.

(** ** Counting the rounds that are over *)

(** How many of the first [R] thresholds of [f] are at most [k]. *)
Definition passed_by (f : nat → nat) (R k : nat) : nat :=
  length (filter (λ r, f r ≤ k)%nat (seq 0 R)).

Lemma filter_none {A} (P : A → Prop) `{∀ x, Decision (P x)} l :
  Forall (λ x, ¬ P x) l → filter P l = [].
Proof. induction 1; [done|]. by rewrite filter_cons_False. Qed.

Lemma filter_all {A} (P : A → Prop) `{∀ x, Decision (P x)} l : Forall P l → filter P l = l.
Proof. induction 1 as [|x l Hx _ IH]; [done|]. by rewrite filter_cons_True, IH. Qed.

(** The thresholds before [r] are passed and those from [r] on are not. *)
Lemma passed_by_eq f R k r :
  (r ≤ R)%nat → (∀ x, (x < r)%nat → (f x ≤ k)%nat) → (∀ x, (r ≤ x < R)%nat → (k < f x)%nat) →
  passed_by f R k = r.
Proof.
  intros Hr Hlo Hhi. unfold passed_by. replace R with (r + (R - r))%nat by lia.
  rewrite seq_app, filter_app, filter_all, filter_none, app_nil_r; [by rewrite length_seq|..];
    apply Forall_forall; intros x [? ?]%elem_of_seq.
  - specialize (Hhi x). lia.
  - apply Hlo. lia.
Qed.

Lemma passed_by_mono f R k k' : (k ≤ k')%nat → (passed_by f R k ≤ passed_by f R k')%nat.
Proof.
  intros Hk. unfold passed_by. induction (seq 0 R) as [|x l IH]; [done|].
  rewrite !filter_cons. repeat case_decide; cbn; lia.
Qed.

Lemma passed_by_le f R k : (passed_by f R k ≤ R)%nat.
Proof.
  unfold passed_by. etrans; [apply length_filter|]. by rewrite length_seq.
Qed.

(** What it counts, for thresholds that do not decrease. *)
Lemma passed_by_spec f R k :
  (∀ r, (S r < R)%nat → (f r ≤ f (S r))%nat) →
  (∀ x, (x < passed_by f R k)%nat → (f x ≤ k)%nat) ∧
  (∀ x, (passed_by f R k ≤ x < R)%nat → (k < f x)%nat).
Proof.
  intros Hf. assert (∃ r, (r ≤ R)%nat ∧ (∀ x, (x < r)%nat → (f x ≤ k)%nat) ∧
    (∀ x, (r ≤ x < R)%nat → (k < f x)%nat)) as (r & Hr & Hlo & Hhi).
  2: { by rewrite (passed_by_eq f R k r). }
  induction R as [|R' IH]; [exists O; split_and!; lia|].
  destruct IH as (r & Hr & Hlo & Hhi); [intros x Hx; apply Hf; lia|].
  destruct (decide (f R' ≤ k)%nat) as [Hle|Hgt].
  - exists (S R'). split; [done|]. split; [|lia]. intros x Hx.
    etrans; [|done]. apply (mono_le f R'); [|lia]. intros y Hy. apply Hf. lia.
  - exists r. split; [lia|]. split; [done|]. intros x Hx.
    destruct (decide (x = R')) as [->|]; [lia|]. apply Hhi. lia.
Qed.

Lemma passed_by_upper f R k r :
  (∀ r, (S r < R)%nat → (f r ≤ f (S r))%nat) → (r < R)%nat → (k < f r)%nat →
  (passed_by f R k ≤ r)%nat.
Proof.
  intros Hf Hr Hk. destruct (passed_by_spec f R k Hf) as [Hlo _].
  destruct (decide (r < passed_by f R k)%nat) as [Hlt|]; [|lia]. specialize (Hlo r Hlt). lia.
Qed.

(** The round in which packet [j] reaches the server. *)
Definition arrival (R : nat) (s : nat → nat) (j : nat) : nat := passed_by (λ r, s (S r)) R j.

Section arrival.
Context (enough : nat → Prop) (R : nat) (s m : nat → nat).
Hypothesis Hs : schedule enough R s m.

Lemma arrival_steps r : (S r < R)%nat → (s (S r) ≤ s (S (S r)))%nat.
Proof using Hs. intros Hr. by apply (sc_data _ _ _ _ Hs (S r)). Qed.

Lemma arrival_window j r :
  (j < s R)%nat → r = arrival R s j → (r < R)%nat ∧ (s r ≤ j < s (S r))%nat ∧ (m r ≤ j < m r + 50)%nat.
Proof using Hs.
  intros Hj ->. pose proof (passed_by_spec (λ r, s (S r)) R j arrival_steps) as [Hlo Hhi].
  fold (arrival R s j) in *. set (r := arrival R s j) in *.
  assert (r ≤ R)%nat as Hle by apply passed_by_le.
  assert (s r ≤ j)%nat as Hsr.
  { destruct r as [|r']; [destruct (sc_start _ _ _ _ Hs); lia|]. apply Hlo. lia. }
  assert (r < R)%nat as Hr by (destruct (decide (r = R)) as [E|]; [rewrite E in *; lia|lia]).
  pose proof (Hhi r ltac:(lia)). pose proof (sc_data _ _ _ _ Hs r Hr).
  pose proof (schedule_window _ _ _ _ r Hs Hle). lia.
Qed.

Lemma arrival_end j : (s R ≤ j)%nat → arrival R s j = R.
Proof using Hs.
  intros Hj. apply passed_by_eq; [done| |lia]. intros x Hx.
  etrans; [|done]. apply (schedule_server _ _ _ _ (S x) R Hs). lia.
Qed.

(** What the client hears of in round [r] arrived by then. *)
Lemma arrival_before r j : (r < R)%nat → (j < m (S r))%nat → (arrival R s j ≤ r)%nat.
Proof using Hs.
  intros Hr Hj. apply passed_by_upper; [apply arrival_steps|done|].
  pose proof (sc_acks _ _ _ _ Hs r Hr). lia.
Qed.
End arrival.

(** The rounds the client has listened in, at a call of round [r]. *)
Lemma listened R m r k :
  (r < R)%nat → (round_start m r ≤ k < listen_at m r)%nat → passed_by (listen_at m) R k = r.
Proof.
  intros Hr Hk. apply passed_by_eq; [lia|..]; intros x Hx.
  - pose proof (send_before_next m x r ltac:(lia)). lia.
  - destruct (decide (x = r)) as [->|]; [lia|].
    pose proof (send_before_next m r x ltac:(lia)). unfold listen_at in *. unfold send_at in *. lia.
Qed.

Lemma listened_at R m r : (r < R)%nat → passed_by (listen_at m) R (listen_at m r) = S r.
Proof.
  intros Hr. apply passed_by_eq; [lia|..]; intros x Hx.
  - destruct (decide (x = r)) as [->|]; [lia|].
    pose proof (send_before_next m x r ltac:(lia)). unfold listen_at, send_at in *. lia.
  - pose proof (send_before_next m r x ltac:(lia)). unfold listen_at, send_at in *. lia.
Qed.

Lemma listened_end R m k : (round_start m R ≤ k)%nat → passed_by (listen_at m) R k = R.
Proof.
  intros Hk. apply passed_by_eq; [done| |lia]. intros x Hx.
  pose proof (send_before_next m x R Hx). lia.
Qed.
