(* ===== verification/ServerGood.v ===== *)
(** * ServerGood: the server in a transfer without losses

    A responder whose datagrams come in time and in order, followed call by
    call: seven calls for each packet. *)
From S2P Require Import Prelude CMonad CLib Packet Queue FtpWorld NetOps FtpServer ServerSpec ServerPaths.
From S2P Require Import FtpClient ClientSpec Samples Transfer GoodRun.
Import Server.

Section server.
Context `{Host} (E : env).
Hypothesis Hwell : all_well E.

(** A datagram is there at the first look: four calls. *)
Lemma good_read_until_timeout fuel d src b Q X w :
  length b = Z.to_nat PACKET_SIZE → d ≠ [] → (length d ≤ Z.to_nat PACKET_SIZE)%nat →
  e_time E (tick w + 1) - e_time E (tick w) < 6 → e_recv E (tick w + 3) = RecvFrom d src →
  (∀ w' rest, passed 4 w w' → length (d ++ rest) = Z.to_nat PACKET_SIZE →
    Q (Z.of_nat (length d), d ++ rest) w') →
  wp (read_until_timeout E (S fuel) b) Q X w.
Proof using Hwell.
  intros Hb Hd0 Hd Ht Hr HQ. unfold read_until_timeout. wp_step. apply good_time. intros w1 Hw1.
  pose proof Hw1 as (Ht1 & _). cbn [loop]. wp_step. wp_step. apply good_time. intros w2 Hw2.
  pose proof Hw2 as (Ht2 & _). rewrite Ht1. wp_step; bool_to_prop; [|lia].
  wp_step. eapply (good_read E Hwell d src); [done|done| |].
  { rewrite <- Hr. f_equal. lia. }
  intros w3 rest Hw3 Hl. wp_step; bool_to_prop.
  - wp_steps. apply HQ; [|done].
    eapply (passed_trans 1 3), (passed_trans 1 2); [exact Hw1|exact Hw2|exact Hw3].
  - destruct d; [done|cbn in *; lia].
Qed.

Lemma good_setup_socket port Q X w :
  (∀ w', passed 2 w w' → Q (0, e_socket E (tick w)) w') → wp (setup_socket E port) Q X w.
Proof using Hwell.
  intros HQ. unfold setup_socket. wp_step. unfold socket. wp_step. apply good_call. intros w1 Hw1.
  rewrite (proj2 (Z.eqb_neq _ _) (aw_socket _ Hwell (tick w))). wp_step.
  rewrite (proj2 (Z.eqb_neq _ _) (aw_socket _ Hwell (tick w))).
  wp_step. unfold bind. wp_step. apply good_call. intros w2 Hw2.
  rewrite (proj2 (Z.eqb_neq _ _) (aw_bind _ Hwell (tick w1))). do 3 wp_step.
  change (0 =? -1) with false. cbv iota. wp_step. apply HQ.
  destruct (passed_trans 1 1 _ _ _ Hw1 Hw2) as (? & ? & ? & ?). by split_and!.
Qed.

(** The name of the request, copied. *)
Lemma good_copy_name (buf str rest : list Z) (sep : nat) w Q X :
  payload_of buf = str ++ NUL :: rest → Forall (λ c, c ≠ NUL) str → strchr str c_bar = Some sep →
  (∀ w', passed 1 w w' → Q (match strrchr str c_slash with
    | None => take sep str
    | Some i => if decide (i < sep)%nat then drop (S i) (take sep str) else drop (S i) str
    end) w') →
  wp (copy_name E (<[sep := NUL]> (payload_of buf)) (strrchr str c_slash)) Q X w.
Proof using Hwell.
  intros Hp Hs Hsep HQ. unfold copy_name. destruct (strrchr str c_slash) as [i|] eqn:Hi.
  - erewrite cut_base by done. do 2 wp_step. wp_step. apply good_malloc; [done|].
    intros w1 b Hw1 Hb. do 2 wp_step. wp_step; bool_to_prop; wp_step; [|by apply HQ].
    pose proof (aw_slack _ Hwell (tick w)). cbn [fst snd] in *. lia.
  - erewrite cut_name by done. do 2 wp_step. wp_step. apply good_malloc; [done|].
    intros w1 b Hw1 Hb. do 3 wp_step. by apply HQ.
Qed.

Context (content : list Z) (sock : Z) (origin : EndPoint) (name : list Z) (K : nat).
Context (fs0 : gmap (list Z) (list Z)).
Abbreviation size := (Z.of_nat (length content)).

Hypothesis Hsize : transferable content.
Hypothesis Hend : (length content ≤ CHUNK * K)%nat.
Hypothesis HK : Z.of_nat K < 65535.

(** What arrives: the packets in order, one every seven calls, then FIN. *)
Hypothesis Hpackets : ∀ j, (j < K)%nat →
  ∃ src, e_recv E (12 + 7 * j) = RecvFrom (data_pkt content j) src.
Hypothesis Hfin : ∃ src, e_recv E (12 + 7 * K) = RecvFrom (pkt CMD_FIN 0 []) src.
Hypothesis Hquiet : e_recv E (19 + 7 * K) = RecvErr EAGAIN.
Hypothesis Hjunk : ∀ k j, e_junk E k j = 0.
(** The clock stands still until FINACK is out. *)
Hypothesis Hclock : ∀ k, (k < 20 + 7 * K)%nat → e_time E k = 0.
Hypothesis Hlate : e_time E (20 + 7 * K) = 10.

Definition prefix_of (j : nat) : list Z := take (CHUNK * j) content.

Record receiving (j : nat) (l : locals) (w : world) : Prop := {
  rv_tick : tick w = (9 + 7 * j)%nat;
  rv_buffer : length (buffer l) = Z.to_nat PACKET_SIZE;
  rv_read : read l = Z.of_nat (length (prefix_of j));
  rv_expected : expected_sequence l = u16 (1 + Z.of_nat j);
  rv_file : fs w = <[name := prefix_of j]> fs0;
  rv_request : (7%nat, pkt CMD_ACK 1 []) ∈ slog w;
  rv_acks : ∀ i, (i < j)%nat → ((14 + 7 * i)%nat, pkt CMD_ACK (u16 (2 + Z.of_nat i)) []) ∈ slog w;
}.

Lemma prefix_S j : prefix_of (S j) = prefix_of j ++ chunk content j.
Proof. unfold prefix_of, chunk. rewrite take_drop_app. f_equal. lia. Qed.

Lemma good_on_data j rest l w :
  receiving j l w → (j < K)%nat → length (data_pkt content j ++ rest) = Z.to_nat PACKET_SIZE →
  ∀ w1, passed 4 w w1 →
  wp (on_data E origin name size (mkLocals (data_pkt content j ++ rest) (read l) (expected_sequence l)))
    (λ r w', ∃ l', r = inl l' ∧ receiving (S j) l' w') (λ _ _, False) w1.
Proof using Hwell Hsize Hend.
  intros [] Hj Hl w1 (Ht1 & He1 & Hf1 & Hs1). pose proof CHUNK_Z.
  pose proof (length_chunk content j) as Hc. unfold transferable in Hsize.
  assert (length (prefix_of (S j)) ≤ length content)%nat as Hle
    by (unfold prefix_of; rewrite length_take; lia).
  pose proof (prefix_S j) as HS.
  assert (length (prefix_of (S j)) = length (prefix_of j) + length (chunk content j))%nat as HSl
    by (by rewrite HS, length_app).
  unfold on_data. cbn [buffer read expected_sequence]. unfold data_pkt.
  rewrite pkt_seq, pkt_len by lia. wp_step. wp_step. rewrite rv_expected0, Z.eqb_refl. cbn [negb].
  wp_step. apply good_create_empty; [done|]. intros w2 (Ht2 & He2 & Hf2 & Hs2).
  wp_step. apply good_send_packet; [done|done|]. intros w3 (Ht3 & He3 & Hf3 & Hs3).
  wp_step. wp_step. wp_step. apply wp_add_long_cases; [|intros []; unfold LONG_MIN, LONG_MAX; size_lia].
  intros _. wp_step; bool_to_prop.
  { exfalso. pose proof (length_payload_of _ Hl) as Hp. unfold data_pkt in Hp. size_lia. }
  rewrite Nat2Z.id, pkt_payload. wp_step. unfold fwrite. wp_step. apply good_call.
  intros w4 (Ht4 & He4 & Hf4 & Hs4).
  rewrite (Z.min_l (Z.of_nat (length (chunk content j)))) by (pose proof (aw_fwrite _ Hwell (tick w3)); lia).
  rewrite Nat2Z.id, take_ge by done. wp_step. wp_step. wp_step. rewrite Z.eqb_refl. cbn [negb].
  wp_step; bool_to_prop; [exfalso; lia|]. wp_step. eexists. split; [done|].
  split; cbn [buffer read expected_sequence tick fs slog touch].
  - lia.
  - done.
  - lia.
  - rewrite u16_u16_add. f_equal. lia.
  - cbn [file_op]. rewrite Hf4, Hf3, Hf2, Hf1, rv_file0, alter_insert_eq. by rewrite HS.
  - rewrite Hs4, Hs3, Hs2, Hs1. by right.
  - intros i Hi. rewrite Hs4, Hs3, Hs2, Hs1. apply elem_of_cons. destruct (decide (i = j)) as [->|Hne].
    + left. f_equal; [lia|]. rewrite u16_u16_add. do 2 f_equal. lia.
    + right. apply rv_acks0. lia.
Qed.
(** One packet: seven calls. *)
Lemma good_packet fuel j l w :
  receiving j l w → (j < K)%nat →
  wp (transfer_step E (S fuel) sock origin name size l)
    (λ r w', ∃ l', r = inl l' ∧ receiving (S j) l' w') (λ _ _, False) w.
Proof using Hwell Hsize Hend Hpackets Hclock.
  intros Hrv Hj. destruct (Hpackets j Hj) as [src Hr]. pose proof CHUNK_Z.
  pose proof (length_chunk content j). pose proof (rv_tick _ _ _ Hrv) as Ht.
  unfold transfer_step. wp_step.
  apply (good_read_until_timeout fuel (data_pkt content j) src); [by apply rv_buffer in Hrv|done| |..].
  { unfold data_pkt. rewrite length_pkt. size_lia. }
  { rewrite !Hclock by lia. lia. }
  { rewrite <- Hr. f_equal. lia. }
  intros w1 rest Hw1 Hl. wp_step; bool_to_prop; [lia|].
  cbn [lookup list_lookup app data_pkt pkt]. do 2 wp_step. change (CMD_DATA =? CMD_DATA) with true.
  by apply (good_on_data j rest l w).
Qed.

(** FIN, FINACK and the end. *)
Lemma good_fin fuel l w :
  receiving K l w →
  wp (transfer_step E (S (S fuel)) sock origin name size l)
    (λ r w', r = inr 0 ∧ fs w' = <[name := content]> fs0 ∧
      ((16 + 7 * K)%nat, finack) ∈ slog w' ∧ slog w ⊆ slog w') (λ _ _, False) w.
Proof using Hwell Hsize Hend Hfin Hquiet Hclock Hlate Hjunk.
  intros Hrv. destruct Hfin as [src Hr]. pose proof (rv_tick _ _ _ Hrv) as Ht.
  assert (prefix_of K = content) as Hall by by apply take_ge.
  pose proof (rv_read _ _ _ Hrv) as Hread. pose proof (rv_file _ _ _ Hrv) as Hfile.
  rewrite Hall in Hread, Hfile. unfold transfer_step. wp_step.
  apply (good_read_until_timeout (S fuel) (pkt CMD_FIN 0 []) src); [by apply rv_buffer in Hrv|done| |..].
  { rewrite length_pkt. cbn [length]. size_lia. }
  { rewrite !Hclock by lia. lia. }
  { rewrite <- Hr. f_equal. lia. }
  intros w1 rest (Ht1 & _ & Hf1 & Hs1) Hl. wp_step; bool_to_prop; [cbn in *; lia|].
  cbn [lookup list_lookup app pkt]. wp_step. wp_step. cbn [read].
  change (u8 CMD_FIN =? CMD_DATA) with false. change (u8 CMD_FIN =? CMD_FIN) with true. cbv iota.
  rewrite Hread, Z.eqb_refl. cbn [negb]. wp_step. unfold finish.
  wp_step. apply good_time. intros w2 (Ht2 & _ & Hf2 & Hs2). rewrite Hclock by lia.
  wp_step. apply good_create_empty; [done|]. intros w3 (Ht3 & _ & Hf3 & Hs3). cbn [loop].
  wp_step. wp_step. apply good_time. intros w4 (Ht4 & _ & Hf4 & Hs4). rewrite Hclock by lia.
  change (0 - 0 <? ACK_TIMEOUT) with true. cbv iota.
  wp_step. apply good_send_packet; [done|done|]. intros w5 (Ht5 & _ & Hf5 & Hs5).
  wp_step. apply good_sleep. intros w6 (Ht6 & _ & Hf6 & Hs6).
  wp_step. apply (good_read_nothing E Hwell EAGAIN); [by rewrite <- Hl| |done|].
  { rewrite <- Hquiet. f_equal. lia. }
  intros w7 Ht7 _ Hf7 Hs7. wp_step. cbn [lookup list_lookup replicate].
  change (replicate (Z.to_nat PACKET_SIZE) 0 !! 0%nat) with (Some 0). wp_step.
  change ((0 <? u64 (-1)) && (0 =? CMD_ACK)) with false. cbv iota. wp_step. cbn [loop].
  wp_step. wp_step. apply good_time. intros w8 (Ht8 & _ & Hf8 & Hs8).
  replace (tick w7) with (20 + 7 * K)%nat by lia. rewrite Hlate.
  change (10 - 0 <? ACK_TIMEOUT) with false. cbv iota. wp_steps. unfold close. wp_step.
  apply good_call. intros w9 (Ht9 & _ & Hf9 & Hs9). wp_steps. cbn [fs slog emit].
  split; [done|]. split; [congruence|]. rewrite Hs9, Hs8, Hs7, Hs6, Hs5, Hs4, Hs3, Hs2, Hs1. split.
  - apply elem_of_cons. left. f_equal. lia.
  - intros x Hx. by right.
Qed.

(** The transfer, with a bound of one iteration per packet. *)
Lemma good_transfer fuel buf w :
  receiving 0 (mkLocals buf 0 1) w →
  wp (transfer E (K + S (S fuel)) sock origin name size buf)
    (λ r w', r = 0 ∧ fs w' = <[name := content]> fs0 ∧
      ((16 + 7 * K)%nat, finack) ∈ slog w' ∧ (7%nat, pkt CMD_ACK 1 []) ∈ slog w' ∧
      ∀ i, (i < K)%nat → ((14 + 7 * i)%nat, pkt CMD_ACK (u16 (2 + Z.of_nat i)) []) ∈ slog w')
    (λ _ _, False) w.
Proof using Hwell Hsize Hend Hpackets Hfin Hquiet Hclock Hlate Hjunk.
  unfold transfer. set (F := (K + S (S fuel))%nat).
  assert (F = S (K + S fuel)) as HF by lia. assert (F = S (S (K + fuel))) as HF' by lia.
  assert (∀ n j l w, receiving j l w → (j + n = K)%nat →
    wp (loop (n + S (S fuel)) (transfer_step E F sock origin name size) l)
      (λ r w', r = 0 ∧ fs w' = <[name := content]> fs0 ∧
        ((16 + 7 * K)%nat, finack) ∈ slog w' ∧ (7%nat, pkt CMD_ACK 1 []) ∈ slog w' ∧
        ∀ i, (i < K)%nat → ((14 + 7 * i)%nat, pkt CMD_ACK (u16 (2 + Z.of_nat i)) []) ∈ slog w')
      (λ _ _, False) w) as Hloop.
  2: { intros Hrv. by apply (Hloop K O). }
  clear w. intros n. induction n as [|n IH]; intros j l w Hrv Hjn.
  - assert (j = K) as -> by lia. cbn [Nat.add loop]. wp_step. rewrite HF'.
    eapply wp_conseq; [by apply good_fin|]. intros r w' (-> & Hf & Hfa & Hsub). wp_step.
    split_and!; [done..| |].
    + apply Hsub, (rv_request _ _ _ Hrv).
    + intros i Hi. by apply Hsub, (rv_acks _ _ _ Hrv).
  - cbn [Nat.add loop]. wp_step. eapply wp_conseq.
    + rewrite HF. apply (good_packet (K + S fuel) j); [done|lia].
    + intros r w' (l' & -> & Hrv'). apply (IH (S j)); [done|lia].
Qed.

(** From the request on. *)
Lemma good_receive_file buf w fuel :
  tick w = 4%nat → errno w = ENOENT → fs w = fs0 → length buf = Z.to_nat PACKET_SIZE →
  wp (receive_file E (K + S (S fuel)) sock origin name size buf)
    (λ r w', r = 0 ∧ fs w' = <[name := content]> fs0 ∧
      ((16 + 7 * K)%nat, finack) ∈ slog w' ∧ (7%nat, pkt CMD_ACK 1 []) ∈ slog w' ∧
      ∀ i, (i < K)%nat → ((14 + 7 * i)%nat, pkt CMD_ACK (u16 (2 + Z.of_nat i)) []) ∈ slog w')
    (λ _ _, False) w.
Proof using Hwell Hsize Hend Hpackets Hfin Hquiet Hclock Hlate Hjunk.
  intros Ht He Hf Hb. unfold receive_file. wp_step. unfold fopen_w. wp_step. apply good_call.
  intros w1 (Ht1 & He1 & Hf1 & Hs1). rewrite (aw_fopen _ Hwell). do 3 wp_step. cbn [negb].
  wp_step. apply good_time. intros w2 (Ht2 & He2 & Hf2 & Hs2). cbn in *.
  wp_step. apply good_create_empty; [done|]. intros w3 (Ht3 & He3 & Hf3 & Hs3).
  wp_step. unfold ack_request. replace (K + S (S fuel))%nat with (S (K + S fuel)) at 1 by lia.
  cbn [loop]. wp_step. wp_step. apply good_send_packet; [done|done|].
  intros w4 (Ht4 & He4 & Hf4 & Hs4). cbn [Z.eqb]. wp_step. apply good_sleep.
  intros w5 (Ht5 & He5 & Hf5 & Hs5). wp_step. wp_step.
  replace (errno w5) with ENOENT by congruence.
  change ((ENOENT =? EAGAIN) || (ENOENT =? EWOULDBLOCK)) with false. cbv iota. do 2 wp_step.
  apply good_transfer. split; cbn [buffer read expected_sequence].
  - lia.
  - done.
  - unfold prefix_of. by rewrite Nat.mul_0_r.
  - done.
  - rewrite Hf5, Hf4, Hf3, Hf2, Hf1, Hf. unfold prefix_of. by rewrite Nat.mul_0_r.
  - rewrite Hs5, Hs4. apply elem_of_cons. left. f_equal. lia.
  - intros i Hi. lia.
Qed.
End server.

(** The whole run of the responder, for a request of this client. *)
Lemma good_server `{Host} (E : env) content filename origin K fuel (w : world) :
  all_well E → (∀ k j, e_junk E k j = 0) → transferable content →
  Forall (λ c, c ≠ NUL) filename → c_bar ∉ filename →
  (length (Client.request_text filename (Z.of_nat (length content))) < CHUNK)%nat →
  (length content ≤ CHUNK * K)%nat →
  (∀ j, (j < K)%nat → ∃ src, e_recv E (12 + 7 * j) = RecvFrom (data_pkt content j) src) →
  (∃ src, e_recv E (12 + 7 * K) = RecvFrom (pkt CMD_FIN 0 []) src) →
  e_recv E (19 + 7 * K) = RecvErr EAGAIN →
  (∀ k, (k < 20 + 7 * K)%nat → e_time E k = 0) → e_time E (20 + 7 * K) = 10 →
  tick w = O → fs w !! basename filename = None →
  wp (copy_file E (K + S (S fuel))
        (in_buffer (pkt CMD_WRQ 0 (Client.request_text filename (Z.of_nat (length content))))) origin)
    (λ r w', r = 0 ∧ fs w' = <[basename filename := content]> (fs w) ∧
      ((16 + 7 * K)%nat, finack) ∈ slog w' ∧ (7%nat, pkt CMD_ACK 1 []) ∈ slog w' ∧
      ∀ i, (i < K)%nat → ((14 + 7 * i)%nat, pkt CMD_ACK (u16 (2 + Z.of_nat i)) []) ∈ slog w')
    (λ _ _, False) w.
Proof.
  intros Hwell Hjunk Hsize Hnul Hbar Hfit Hend Hpk Hfin Hq Hc Hl Ht Hno.
  pose proof CHUNK_Z. unfold transferable in Hsize.
  pose proof (request_roundtrip filename (Z.of_nat (length content)) Hnul Hbar
    ltac:(unfold LONG_MAX; size_lia) Hfit) as Hreq.
  set (buf := in_buffer _) in *.
  assert (length buf = Z.to_nat PACKET_SIZE) as Hbuf.
  { unfold buf, in_buffer. rewrite length_app, length_pkt, length_replicate. size_lia. }
  unfold request_of in Hreq. destruct (cstr (payload_of buf)) as [str|] eqn:Hstr; [|done].
  cbn [mbind option_bind] in Hreq. destruct (strchr str c_bar) as [sep|] eqn:Hsep; [|done].
  cbn [mbind option_bind] in Hreq.
  pose proof Hstr as [Hns [rest Hp]]%cstr_Some.
  unfold copy_file. wp_step. apply (good_setup_socket E Hwell). intros w2 (Ht2 & He2 & Hf2 & _).
  change (0 =? 0) with true. cbn [negb].
  replace (buf !! O) with (Some (u8 CMD_WRQ)) by done. do 2 wp_step.
  assert (get_seq_num buf = Some (u16 0)) as -> by apply pkt_seq.
  do 2 wp_step. change (negb (u8 CMD_WRQ =? CMD_WRQ) && negb (u16 0 =? 0)) with false. cbv iota.
  rewrite Hstr. do 2 wp_step. rewrite Hsep. wp_step.
  eapply (good_copy_name E Hwell); [exact Hp|done|done|]. intros w3 (Ht3 & _ & Hf3 & _).
  destruct (sscanf_ld_c (drop (S sep) str)) as [n v] eqn:Hscan.
  assert (n = 1 ∧ v = Some (Z.of_nat (length content)) ∧
    base_name str sep = basename filename) as (-> & -> & Hname).
  { destruct n as [|[]|], v as [v|]; try done. destruct (0 <=? v); [|done].
    by injection Hreq as ? ->. }
  change (match strrchr str c_slash with
    | None => take sep str
    | Some i => if decide (i < sep)%nat then drop (S i) (take sep str) else drop (S i) str
    end) with (base_name str sep). rewrite Hname.
  cbn [fs emit] in *. wp_step. unfold access. wp_step. apply good_call. intros w4 (Ht4 & _ & Hf4 & _).
  wp_step. wp_step.
  rewrite decide_False by (rewrite Hf4, Hf3, Hf2, Hno; by intros [? ?]).
  unfold fail_with. do 3 wp_step. change (negb (-1 =? -1)) with false. cbv iota. wp_step.
  erewrite cut_size by done. wp_step. rewrite Hscan. cbn [default id].
  replace (Z.of_nat (length content) <? 0) with false by (symmetry; apply Z.ltb_ge; lia).
  change (negb (1 =? 1) || false) with false. cbv iota.
  eapply (good_receive_file E Hwell content _ origin (basename filename) K (fs w)); try done.
  - cbn [tick set_errno]. lia.
  - cbn [fs set_errno]. congruence.
  - rewrite length_app, length_take, length_insert. unfold payload_of.
    rewrite length_drop, Hbuf. size_lia.
Qed.
