(* ===== verification/ClientGood.v ===== *)
(** * ClientGood: a successful client, call by call

    A client to which a schedule of [Schedule] applies: in each round an
    acknowledgement comes that moves the window, or none.  The bound on the
    iterations is arbitrary here; that a large enough one exists is
    [ClientTerm]. *)
From S2P Require Import Prelude CMonad CLib Packet Queue FtpWorld NetOps.
From S2P Require Import FtpClient ClientSpec Samples Transfer GoodRun Schedule.
Import Client.

Section client.
Context `{Host} (E : env) `{HL : QueueLaws Q (list Z)} (fuel : nat) (content filename : list Z).
Hypothesis Hwell : all_well E.
Abbreviation size := (Z.of_nat (length content)).
(** The only way not to finish. *)
Abbreviation unfinished := (λ (b : stop) (_ : world), b = SFuel).
Implicit Types (l : locals Q) (w : world).

(** ** Sending a window *)

Lemma good_read_chunk m n l Q' X w :
  client_inv content m n l → read_ok content n l → (n < m + 50)%nat → written l < size →
  (∀ l' w', client_inv content m (S n) l' → read_ok content (S n) l' → passed 2 w w' →
    lastACK l' = lastACK l → target l' = target l → Q' l' w') →
  wp (read_chunk E size l) Q' X w.
Proof using Hwell.
  intros Hi Hr Hn Hw HQ. pose proof (length_chunk content n). pose proof CHUNK_Z.
  eapply (wp_read_chunk_via E content (aw_memory _ Hwell)); [done..|]. intros Hp Hl.
  apply (good_create_packet E Hwell); [lia|lia|]. rewrite Nat2Z.id, Hp. intros w1 Hw1.
  split; [done|]. intros l' ? ? ? ?. apply HQ; try done.
  apply (passed_trans 1 1 _ _ _ Hw1). split_and!; cbn; [lia|done..].
Qed.

Lemma good_fill_window m e l w :
  client_inv content m e l → read_ok content e l → written l < size →
  wp (fill_window E fuel size l)
    (λ l' w', client_inv content m (m + 50) l' ∧ read_ok content (m + 50) l' ∧
      passed (2 * (m + 50 - e)) w w' ∧ lastACK l' = lastACK l) unfinished w.
Proof using Hwell.
  intros Hi Hr Hw. unfold fill_window.
  apply (wp_loop (λ l1 w1, ∃ n, (e ≤ n)%nat ∧ client_inv content m n l1 ∧
    read_ok content n l1 ∧ passed (2 * (n - e)) w w1 ∧ lastACK l1 = lastACK l ∧
    written l1 < size)); [|done|].
  { exists e. rewrite Nat.sub_diag. split_and!; (done || lia). }
  intros l1 w1 (n & Hn & Hi1 & Hr1 & Hw1 & Hl1 & Hwr). pose proof (ci_range _ _ _ _ Hi1).
  wp_step. eapply wp_on_queue; [by eapply q_size_ok, ci_window|]. cbn [fst].
  rewrite length_window, u32_id, (proj2 (Z.ltb_lt _ _) Hwr), andb_true_r by lia. wp_step; bool_to_prop.
  - wp_step. eapply (good_read_chunk m n); [done|done|size_lia|done|].
    intros l2 w2 Hi2 Hr2 Hw2 Hl2 _. wp_step. exists (S n). split_and!; [lia|done|done| |congruence|].
    + replace (2 * (S n - e))%nat with (2 * (n - e) + 2)%nat by lia.
      by eapply passed_trans.
    + rewrite (ci_written _ _ _ _ Hi2), <- (ci_written _ _ _ _ Hi1). done.
  - wp_step. assert (n = m + 50)%nat as -> by (unfold WINDOW_SIZE in *; lia). split_and!; done.
Qed.

(** Every packet of the window goes out, one call each. *)
Lemma good_send_each tgt m n Q' X w :
  (∀ w', tick w' = (tick w + (n - m))%nat → slog w ⊆ slog w' →
    snd <$> slog w' = reverse (window content m n) ++ (snd <$> slog w) →
    (∀ i, (m ≤ i < n)%nat → ((tick w + (i - m))%nat, data_pkt content i) ∈ slog w') → Q' 0 w') →
  wp (send_each E tgt (window content m n)) Q' X w.
Proof using Hwell.
  remember (n - m)%nat as k eqn:Hk. revert m w Hk. induction k as [|k IH]; intros m w Hk HQ.
  { assert (window content m n = []) as Hnil by (unfold window; by rewrite <- Hk).
    rewrite Hnil in *. cbn [send_each]. wp_step. apply HQ; [lia|done|done|lia]. }
  pose proof (length_chunk content m). pose proof CHUNK_Z.
  rewrite window_cons in * by lia. cbn [send_each]. wp_step. unfold data_pkt at 1.
  apply (good_send_packet E Hwell); [lia|]. intros w1 (Ht1 & _ & _ & Hs1).
  cbn [Z.eqb]. apply (IH (S m)); [lia|]. intros w2 Ht2 Hs2 Hlog Hin. apply HQ; [lia| | |].
  - intros x Hx. apply Hs2. rewrite Hs1. by right.
  - rewrite Hlog, Hs1, reverse_cons, <- app_assoc. done.
  - intros i Hi. destruct (decide (i = m)) as [->|].
    + apply Hs2. rewrite Hs1, Nat.sub_diag, Nat.add_0_r. by left.
    + replace (tick w + (i - m))%nat with (tick w1 + (i - S m))%nat by lia. apply Hin. lia.
Qed.

(** ** An acknowledgement inside the window removes the packets before it *)
Lemma good_pop_acked m a n l w :
  client_inv content m n l → (m ≤ a ≤ n)%nat →
  wp (pop_acked E fuel (u16 (1 + Z.of_nat a)) l)
    (λ l' w', client_inv content a n l' ∧ passed (a - m) w w' ∧ read l' = read l ∧
      lastACK l' = if decide (m < a)%nat then e_time E (tick w + (a - m) - 1) else lastACK l)
    unfinished w.
Proof.
  intros Hi Ha. unfold pop_acked.
  apply (wp_loop (λ l1 w1, ∃ m1, (m ≤ m1 ≤ a)%nat ∧ client_inv content m1 n l1 ∧
    passed (m1 - m) w w1 ∧ read l1 = read l ∧
    lastACK l1 = if decide (m < m1)%nat then e_time E (tick w + (m1 - m) - 1) else lastACK l));
    [|done|].
  { exists m. rewrite Nat.sub_diag, decide_False by lia. split_and!; (done || lia). }
  intros l1 w1 (m1 & Hm1 & Hi1 & Hw1 & Hr1 & Hl1). pose proof (ci_range _ _ _ _ Hi1).
  assert (ack_point (u16 (1 + Z.of_nat a)) m1 (n - m1) = a) as Hpoint by (apply ack_point_hit; lia).
  eapply wp_conseq; [by apply wp_pop_step|]. rewrite Hpoint. intros [l2|l2] w2 [_ Hr].
  - destruct Hr as (Hlt & Hi2 & Hp2 & _ & Hr2 & _ & Hl2 & ->). exists (S m1).
    pose proof (ack_point_range (u16 (1 + Z.of_nat a)) (S m1) (n - S m1)).
    split_and!; [lia|lia|done| |congruence|].
    + replace (S m1 - m)%nat with (m1 - m + 1)%nat by lia. eapply passed_trans; [done|].
      split_and!; cbn; [lia|done..].
    + rewrite Hl2, decide_True by lia. f_equal. destruct Hw1. lia.
  - destruct Hr as (-> & -> & <-). done.
Qed.

(** ** A transfer after a schedule *)
Context (R : nat) (s m : nat → nat).
Hypothesis Hsched : schedule (λ n, length content ≤ CHUNK * n)%nat R s m.

(** What arrives: the answer to the request; in each round the acknowledgement
    that moves the window, and nothing after it; then FINACK. *)
Hypothesis Hreply : ∃ src, e_recv E 4 = RecvFrom (pkt CMD_ACK 1 []) src.
Hypothesis Hacks : ∀ r, (r < R)%nat → (m r < m (S r))%nat →
  ∃ src, e_recv E (listen_at m r) = RecvFrom (pkt CMD_ACK (u16 (1 + Z.of_nat (m (S r)))) []) src.
Hypothesis Hsilent : ∀ r, (r < R)%nat → m r = m (S r) → e_recv E (listen_at m r) = RecvErr EAGAIN.
Hypothesis Hdrain : ∀ r, (r < R)%nat → (m r < m (S r))%nat →
  e_recv E (listen_at m r + (m (S r) - m r + 2)) = RecvErr EAGAIN.
Hypothesis Hfin : ∃ src, e_recv E (round_start m R + 7) = RecvFrom (pkt CMD_FINACK 0 []) src.
Hypothesis Hjunk : ∀ k j, e_junk E k j = 0.

(** What the first [r] rounds send. *)
Definition transmissions (r : nat) : list (list Z) :=
  seq 0 r ≫= λ r, window content (m r) (m r + 50).

Lemma transmissions_S r :
  transmissions (S r) = transmissions r ++ window content (m r) (m r + 50).
Proof.
  unfold transmissions. rewrite seq_S, bind_app. cbn [Nat.add]. f_equal.
  change ([r] ≫= ?f) with (f r ++ []). by rewrite app_nil_r.
Qed.

Abbreviation request := (pkt CMD_WRQ 0 (request_text filename size)).

(** Nothing (more) to read. *)
Lemma good_quiet_read mw n l w :
  client_inv content mw n l → e_recv E (S (tick w)) = RecvErr EAGAIN →
  wp (acks_step E fuel size l)
    (λ x w', ∃ l', x = inr l' ∧ client_inv content mw n l' ∧ read l' = -1 ∧ lastACK l' = lastACK l ∧
      tick w' = (tick w + 2)%nat ∧ slog w' = slog w) unfinished w.
Proof using Hwell Hjunk.
  intros Hi Hr. unfold acks_step. wp_step.
  apply (good_read_nothing E Hwell EAGAIN); [by apply ci_buffer in Hi|done|done|].
  intros w2 Ht2 He2 _ Hs2. cbn [fst snd]. do 2 wp_step. rewrite He2. cbn [read].
  change ((-1 <? 0) && ((EAGAIN =? EWOULDBLOCK) || (EAGAIN =? EAGAIN))) with true. cbv iota.
  wp_step. eexists. split; [done|]. split_and!; [|done|done|lia|congruence].
  apply (inv_buffer content _ _ _ _ _ Hi). apply length_replicate.
Qed.

(** An acknowledgement for [a] packets. *)
Lemma good_ack_read mw a n src l w :
  client_inv content mw n l → (mw < a ≤ n)%nat →
  e_recv E (S (tick w)) = RecvFrom (pkt CMD_ACK (u16 (1 + Z.of_nat a)) []) src →
  wp (acks_step E fuel size l)
    (λ x w', ∃ l', x = inl l' ∧ client_inv content a n l' ∧
      lastACK l' = e_time E (tick w + 1 + (a - mw)) ∧
      tick w' = (tick w + 2 + (a - mw))%nat ∧ slog w' = slog w) unfinished w.
Proof using Hwell.
  intros Hi Ha Hack. unfold acks_step. wp_step.
  apply (good_read E Hwell (pkt CMD_ACK (u16 (1 + Z.of_nat a)) []) src);
    [by apply ci_buffer in Hi|cbn; size_lia|done|].
  intros w2 rest (Ht2 & _ & _ & Hs2) Hb. cbn [fst snd].
  pose proof (inv_buffer content _ _ _ _ (Z.of_nat 5) Hi Hb) as Hi2.
  do 2 wp_step. cbn [read buffer].
  change (Z.of_nat (length (pkt _ _ [])) <? 0) with false. cbn [andb]. cbv iota.
  rewrite pkt_seq. do 2 wp_step. rewrite pkt_cmd. do 2 wp_step.
  change (u8 CMD_ACK =? CMD_ACK) with true. cbv iota. wp_step.
  rewrite (u16_id (u16 _)) by apply u16_range.
  eapply wp_conseq; [eapply good_pop_acked; [done|lia]|]. cbn [read lastACK].
  intros l3 w3 (Hi3 & (Ht3 & _ & _ & Hs3) & _ & Hl3). wp_step. eexists. split; [done|].
  split_and!; [done| |lia|congruence]. rewrite Hl3, decide_True by lia. f_equal. lia.
Qed.

(** The acknowledgement of round [r], if there is one, then nothing. *)
Lemma good_read_acks r l w :
  (r < R)%nat → client_inv content (m r) (m r + 50) l → tick w = (send_at m r + 52)%nat →
  lastACK l = e_time E (moved_at m r) →
  wp (read_acks E fuel size l)
    (λ l' w', client_inv content (m (S r)) (m r + 50) l' ∧ read l' = -1 ∧
      lastACK l' = e_time E (moved_at m (S r)) ∧
      tick w' = round_start m (S r) ∧ slog w' = slog w) unfinished w.
Proof using Hwell Hsched Hacks Hsilent Hdrain Hjunk.
  intros Hr Hi Ht Hl. pose proof (sc_acks _ _ _ _ Hsched r Hr) as Hm.
  pose proof (sc_data _ _ _ _ Hsched r Hr) as Hs.
  pose proof (good_quiet_read (m (S r)) (m r + 50)) as Hquiet. rewrite round_start_S in *.
  cbn [moved_at]. unfold read_acks, listen_at in *.
  apply (wp_loop (λ l1 w1, slog w1 = slog w ∧
    (tick w1 = tick w ∧ client_inv content (m r) (m r + 50) l1 ∧ lastACK l1 = lastACK l ∨
     (m r < m (S r))%nat ∧ tick w1 = (tick w + 2 + (m (S r) - m r))%nat ∧
       client_inv content (m (S r)) (m r + 50) l1 ∧
       lastACK l1 = e_time E (tick w + 1 + (m (S r) - m r))))); [by auto|done|].
  intros l1 w1 (Hs1 & Hcase). destruct (decide (m r < m (S r))%nat) as [Hmv|Hst].
  - destruct Hcase as [(Ht1 & Hi1 & Hl1)|(_ & Ht1 & Hi1 & Hl1)].
    + destruct (Hacks r Hr Hmv) as [src Hack]. eapply wp_conseq.
      { eapply (good_ack_read (m r) (m (S r)) (m r + 50)); [done|lia|].
        rewrite <- Hack. f_equal. lia. }
      intros x w2 (l2 & -> & Hi2 & Hl2 & Ht2 & Hs2). split; [congruence|].
      right. split_and!; [done|lia|done|by rewrite Hl2, Ht1].
    + eapply wp_conseq; [apply Hquiet; [done|]|].
      { rewrite <- (Hdrain r Hr Hmv). f_equal. lia. }
      intros x w2 (l2 & -> & Hi2 & Hr2 & Hl2 & Ht2 & Hs2). split_and!; try (done || lia || congruence).
      rewrite Hl2, Hl1. f_equal. lia.
  - assert (m r = m (S r)) as Heq by lia.
    destruct Hcase as [(Ht1 & Hi1 & Hl1)|[? _]]; [|lia]. rewrite Heq in Hi1 at 1.
    eapply wp_conseq; [apply Hquiet; [done|]|].
    { rewrite <- (Hsilent r Hr Heq). f_equal. lia. }
    intros x w2 (l2 & -> & Hi2 & Hr2 & Hl2 & Ht2 & Hs2). split_and!; (done || lia || congruence).
Qed.

(** The first [L] rounds are in time. *)
Context (L : nat).
Hypothesis HLR : (L ≤ R)%nat.
Hypothesis Hprompt : ∀ r, (r < L)%nat → in_time m ACK_TIMEOUT (e_time E) r.

Record progress (r : nat) l w : Prop := {
  pr_round : (r ≤ L)%nat;
  pr_tick : tick w = round_start m r;
  pr_inv : client_inv content (m r) (filled m r) l;
  pr_read : read_ok content (filled m r) l;
  pr_last : lastACK l = e_time E (moved_at m r);
  pr_sent : ∀ x i, (x < r)%nat → (m x ≤ i < m x + 50)%nat →
    ((send_at m x + (i - m x))%nat, data_pkt content i) ∈ slog w;
  pr_request : (2%nat, request) ∈ slog w;
  pr_log : snd <$> slog w = reverse (request :: transmissions r);
}.

(** A round up to the look at the clock: the window is filled and sent. *)
Lemma good_window r l w K X :
  (r < R)%nat → progress r l w →
  (∀ l1 w1, tick w1 = (send_at m r + 50)%nat → client_inv content (m r) (m r + 50) l1 →
     lastACK l1 = lastACK l → slog w ⊆ slog w1 →
     (∀ i, (m r ≤ i < m r + 50)%nat → ((send_at m r + (i - m r))%nat, data_pkt content i) ∈ slog w1) →
     snd <$> slog w1 = reverse (request :: transmissions (S r)) →
     wp (now ← time E;
         if ACK_TIMEOUT <? now - lastACK l1 then exit TIMEOUT
         else _ ← sleep; l ← read_acks E fuel size l1; mret (inl l)) K X w1) →
  (∀ b w1, unfinished b w1 → X b w1) →
  wp (send_step E fuel size l) K X w.
Proof using Hwell Hsched.
  clear HLR. intros Hr [_ Ht Hi Hro Hl Hsent Hreq Hlog] HK HX.
  pose proof (sc_going _ _ _ _ Hsched r Hr) as Hgo. cbn beta in Hgo.
  assert (written l < size) as Hw by (rewrite (ci_written _ _ _ _ Hi), length_take; lia).
  unfold send_step. rewrite (proj2 (Z.eqb_neq _ _)) by lia.
  wp_step. eapply wp_mono; [by apply (good_fill_window (m r) (filled m r))| |done].
  intros l1 w1 (Hi1 & Hr1 & (Ht1 & _ & _ & Hs1) & Hl1). wp_step. unfold send_all.
  assert (tick w1 = send_at m r) as Hat by (unfold send_at; lia).
  pose proof (ci_window _ _ _ _ Hi1) as Hq.
  wp_step. eapply wp_on_queue; [by eapply q_is_empty_ok|]. cbn [fst].
  rewrite bool_decide_eq_false_2 by (rewrite window_cons by lia; done).
  wp_step. eapply wp_on_queue; [by eapply q_walk_ok|]. cbn [fst].
  apply good_send_each. intros w2 Ht2 Hs2 Hlog2 Hin. cbn [Z.eqb negb]. rewrite Hs1 in *.
  apply HK; [lia|done|done|done|by rewrite <- Hat|].
  rewrite Hlog2, Hlog, transmissions_S, app_comm_cons, reverse_app. done.
Qed.

(** One round, in time. *)
Lemma good_send_step r l w :
  (r < L)%nat → progress r l w →
  wp (send_step E fuel size l)
    (λ x w', ∃ l', x = inl l' ∧ progress (S r) l' w') unfinished w.
Proof using Hwell Hsched Hacks Hsilent Hdrain Hjunk HLR Hprompt.
  intros Hr Hpr. pose proof (good_read_acks r) as Hread_acks.
  apply (good_window r); [lia|done| |done]. intros l1 w2 Ht2 Hi1 Hl1 Hs2 Hin Hlog2.
  destruct Hpr as [_ Ht Hi Hro Hl Hsent Hreq Hlog].
  wp_step. apply good_time. intros w3 (Ht3 & _ & _ & Hs3). rewrite Hl1, Hl, Ht2.
  rewrite (proj2 (Z.ltb_ge _ _) (Hprompt r Hr)). cbv iota.
  wp_step. apply good_sleep. intros w4 (Ht4 & _ & _ & Hs4).
  wp_step. eapply wp_conseq; [apply Hread_acks; [lia|done|lia|congruence]|].
  intros l5 w5 (Hi5 & Hr5 & Hl5 & Ht5 & Hs5). wp_step. exists l5. split; [done|].
  assert (slog w5 = slog w2) as Hsub by congruence.
  split; [lia|done|done|unfold read_ok; lia|done| | |by rewrite Hsub].
  - intros x i Hx Hix. rewrite Hsub. destruct (decide (x = r)) as [->|]; [by apply Hin|].
    apply Hs2, Hsent; lia.
  - rewrite Hsub. by apply Hs2.
Qed.

(** The rounds that are in time, and what comes after them. *)
Lemma good_rounds l w K X :
  progress 0 l w →
  (∀ l1 w1, progress L l1 w1 → wp (send_step E fuel size l1)
     (λ x w2, match x with inl _ => False | inr l2 => K l2 w2 end) X w1) →
  (∀ b w1, unfinished b w1 → X b w1) →
  wp (send_file E fuel size l) K X w.
Proof using Hwell Hsched Hacks Hsilent Hdrain Hjunk HLR Hprompt.
  intros Hp HK HX. unfold send_file.
  apply (wp_loop (λ l1 w1, ∃ r, progress r l1 w1)); [by exists O|by intros; apply HX|].
  intros l1 w1 [r Hp1]. destruct (decide (r < L)%nat) as [Hr|Hge].
  - eapply wp_mono; [by apply (good_send_step r)| |done]. intros x w2 (l2 & -> & Hp2). by exists (S r).
  - assert (r = L) as -> by (pose proof (pr_round _ _ _ Hp1); lia).
    eapply wp_mono; [by apply HK| |done]. by intros [l2|l2] w2.
Qed.

(** All rounds were in time: the file is done. *)
Lemma good_send_file l w :
  L = R → progress 0 l w →
  wp (send_file E fuel size l) (λ l' w', progress R l' w') unfinished w.
Proof using Hwell Hsched Hacks Hsilent Hdrain Hjunk HLR Hprompt.
  intros HeqL Hp. apply good_rounds; [done| |done]. rewrite HeqL. intros l1 w1 Hp1. unfold send_step.
  pose proof (sc_end _ _ _ _ Hsched) as Hend. cbn beta in Hend.
  rewrite (proj2 (Z.eqb_eq _ _)); [by wp_step|].
  rewrite (ci_written _ _ _ _ (pr_inv _ _ _ Hp1)), take_ge by done. done.
Qed.

(** Round [L] is late: the client gives up after it has sent its window once
    more. *)
Lemma good_late l w :
  (L < R)%nat → ¬ in_time m ACK_TIMEOUT (e_time E) L → progress 0 l w →
  wp (send_file E fuel size l) (λ _ _, False)
    (λ b w', b = SFuel ∨ b = SExit TIMEOUT ∧
       snd <$> slog w' = reverse (request :: transmissions (S L))) w.
Proof using Hwell Hsched Hacks Hsilent Hdrain Hjunk HLR Hprompt.
  intros HL' Hlate Hp. apply good_rounds; [done| |by left]. intros l1 w1 Hp1.
  apply (good_window L); [done|done| |by left]. intros l2 w2 Ht2 Hi2 Hl2 Hs2 Hin Hlog2.
  wp_step. apply good_time. intros w3 (Ht3 & _ & _ & Hs3). rewrite Hl2, (pr_last _ _ _ Hp1), Ht2.
  unfold in_time in Hlate. rewrite (proj2 (Z.ltb_lt _ _)) by lia. wp_step. right.
  split; [done|]. by rewrite Hs3.
Qed.

(** The request, answered at the first attempt: five calls. *)
Lemma good_complete_request tgt w Q' :
  Forall (λ c, c ≠ NUL) filename → (length (request_text filename size) < CHUNK)%nat →
  tick w = O →
  (∀ b t w', length b = Z.to_nat PACKET_SIZE → tick w' = 5%nat →
    slog w' = (2%nat, request) :: slog w → Q' (b, t) w') →
  wp (complete_request E fuel (replicate (Z.to_nat PACKET_SIZE) 0) size filename tgt) Q' unfinished w.
Proof using Hwell Hreply.
  clear HLR. intros Hname Hfit Ht HQ. destruct Hreply as [src Hr]. pose proof CHUNK_Z.
  pose proof (request_text_no_nul content filename Hname) as Hnul.
  set (text := request_text filename size) in *. unfold complete_request.
  wp_step. apply good_time. intros w1 (Ht1 & _ & _ & Hs1). wp_step. apply wp_defined.
  2: { unfold print_request, memcpy. fold text. case_decide as Hd; [done|]. exfalso. apply Hd.
       rewrite length_replicate, length_app. cbn [length]. size_lia. }
  intros b1 Hp.
  destruct (print_request_spec content filename _ _ (length_replicate _ _) Hp) as (Hb1 & _ & tl & Hpay).
  fold text in Hpay. rewrite Hpay, cstr_app by done. do 2 wp_step.
  wp_step. apply (good_create_packet E Hwell); [lia|rewrite length_app; lia|].
  rewrite Nat2Z.id, take_app_length. intros w2 (Ht2 & _ & _ & Hs2).
  wp_step. unfold send_request. destruct fuel as [|f]; [done|]. cbn [loop].
  wp_step. wp_step. apply (good_send_packet E Hwell); [lia|]. intros w3 (Ht3 & _ & _ & Hs3).
  cbn [Z.eqb negb]. wp_step. apply good_sleep. intros w4 (Ht4 & _ & _ & Hs4).
  wp_step. unfold recvfrom. wp_step. apply good_call. intros w5 (Ht5 & _ & _ & Hs5).
  replace (tick w4) with 4%nat by lia. rewrite Hr. wp_step.
  change (take (Z.to_nat PACKET_SIZE) (pkt CMD_ACK 1 [])) with (pkt CMD_ACK 1 []).
  rewrite memcpy_prefix by (rewrite Hb1; cbn; size_lia). do 2 wp_step.
  change (Z.of_nat (length (pkt CMD_ACK 1 [])) <? 0) with false. cbv iota. do 2 wp_step.
  change (Z.of_nat (length (pkt CMD_ACK 1 [])) <? 1) with false. cbv iota.
  unfold splice. rewrite take_0. cbn [app]. wp_step. rewrite pkt_cmd. wp_step.
  change (u8 CMD_ACK =? CMD_ACK) with true. cbv iota. wp_step. apply HQ.
  - rewrite length_app, length_drop, Hb1. cbn. size_lia.
  - lia.
  - rewrite Hs5, Hs4, Hs3. f_equal; [f_equal; lia|congruence].
Qed.

(** FIN and FINACK. *)
Lemma good_close tgt b w :
  e_time E (round_start m R + 3) - e_time E (round_start m R + 2) < ACK_TIMEOUT →
  length b = Z.to_nat PACKET_SIZE → tick w = round_start m R →
  wp (close_connection E fuel tgt b)
    (λ _ w', slog w' = ((round_start m R + 4)%nat, pkt CMD_FIN 0 []) :: slog w) unfinished w.
Proof using Hwell Hfin.
  clear HLR. intros Hclose Hb Ht. destruct Hfin as [src Hr]. unfold close_connection.
  wp_step. apply (good_create_empty E Hwell). intros w1 (Ht1 & _ & _ & Hs1).
  wp_step. apply good_sleep. intros w2 (Ht2 & _ & _ & Hs2).
  wp_step. apply good_time. intros w3 (Ht3 & _ & _ & Hs3).
  destruct fuel as [|f]; [done|]. cbn [loop]. wp_step. unfold close_step.
  wp_step. apply good_time. intros w4 (Ht4 & _ & _ & Hs4).
  replace (tick w3) with (round_start m R + 3)%nat by lia.
  replace (tick w2) with (round_start m R + 2)%nat by lia.
  rewrite (proj2 (Z.ltb_lt _ _) Hclose). cbv iota.
  wp_step. apply (good_send_packet E Hwell); [done|]. intros w5 (Ht5 & _ & _ & Hs5).
  wp_step. apply good_sleep. intros w6 (Ht6 & _ & _ & Hs6). wp_step.
  apply (good_read E Hwell (pkt CMD_FINACK 0 []) src); [done|cbn; size_lia|rewrite <- Hr; f_equal; lia|].
  intros w7 rest (Ht7 & _ & _ & Hs7) Hl. cbn [fst snd]. wp_step. unfold skip_acks. cbn [loop].
  wp_step. wp_step. rewrite pkt_cmd. wp_step. change (u8 CMD_FINACK =? CMD_ACK) with false.
  rewrite andb_false_r. do 2 wp_step. wp_step. rewrite pkt_cmd. wp_step.
  change (u8 CMD_FINACK =? CMD_FINACK) with true. cbv iota. do 2 wp_step.
  rewrite Hs7, Hs6, Hs5. f_equal; [f_equal; lia|congruence].
Qed.

(** The client up to its transfer loop. *)
Lemma good_start tgt w K X :
  Forall (λ c, c ≠ NUL) filename → (length (request_text filename size) < CHUNK)%nat →
  tick w = O → slog w = [] →
  (∀ l w1, progress 0 l w1 →
     wp (l ← send_file E fuel size l; _ ← close_connection E fuel (Client.target l) (Client.buffer l);
         mret 0) K X w1) →
  (∀ b w1, unfinished b w1 → X b w1) →
  wp (copy_file E fuel (Q := Q) content size filename tgt) K X w.
Proof using HL Hwell Hsched Hreply.
  clear HLR. intros Hname Hfit Ht Hlog HK HX. unfold copy_file.
  destruct (sc_start _ _ _ _ Hsched) as [_ Hm0].
  wp_step. eapply wp_mono; [by eapply (good_complete_request tgt w (λ r w', length r.1 = Z.to_nat PACKET_SIZE ∧
    tick w' = 5%nat ∧ slog w' = (2%nat, request) :: slog w))| |done].
  intros [b t] w1 (Hb & Ht1 & Hs1). cbn [fst] in Hb.
  wp_step. apply good_call. intros w2 (Ht2 & _ & _ & Hs2). rewrite (aw_memory _ Hwell). cbn [negb].
  wp_step. apply good_time. intros w3 (Ht3 & _ & _ & Hs3).
  assert (slog w3 = [(2%nat, request)]) as Hs by (by rewrite Hs3, Hs2, Hs1, Hlog).
  apply HK. split; cbn [lastACK]; [lia|cbn; lia| | |cbn; f_equal; lia|lia| |by rewrite Hs].
  - rewrite Hm0. split; cbn [buffer packets rest sequence written]; try done;
      [apply q_create_ok|cbn; lia|by left].
  - unfold read_ok. cbn [read]. lia.
  - rewrite Hs. by left.
Qed.

(** The whole run. *)
Lemma good_client tgt w :
  L = R → e_time E (round_start m R + 3) - e_time E (round_start m R + 2) < ACK_TIMEOUT →
  Forall (λ c, c ≠ NUL) filename → (length (request_text filename size) < CHUNK)%nat →
  tick w = O → slog w = [] →
  wp (copy_file E fuel (Q := Q) content size filename tgt)
    (λ code w', code = 0 ∧ (2%nat, request) ∈ slog w' ∧
      (∀ r i, (r < R)%nat → (m r ≤ i < m r + 50)%nat →
        ((send_at m r + (i - m r))%nat, data_pkt content i) ∈ slog w') ∧
      ((round_start m R + 4)%nat, pkt CMD_FIN 0 []) ∈ slog w' ∧
      snd <$> slog w' = reverse (request :: transmissions R ++ [pkt CMD_FIN 0 []])) unfinished w.
Proof using HL Hwell Hsched Hreply Hacks Hsilent Hdrain Hfin Hjunk HLR Hprompt.
  intros HeqL Hclose Hname Hfit Ht Hlog. apply good_start; [done..| |done]. intros l w1 Hp.
  wp_step. eapply wp_conseq; [by apply good_send_file|].
  intros l' w4 [_ Ht4 Hi _ _ Hsent Hreq Hlog4]. wp_step.
  eapply wp_conseq; [apply good_close; [done|by apply ci_buffer in Hi|done]|].
  intros u w5 Hs5. wp_step. rewrite Hs5. split_and!; [done| | | |].
  - by right.
  - intros r i Hr Hri. right. by apply Hsent.
  - by left.
  - cbn [fmap list_fmap snd]. rewrite app_comm_cons, reverse_app. cbn. by rewrite Hlog4.
Qed.

(** The run that ends in round [L]. *)
Lemma late_client tgt w :
  (L < R)%nat → ¬ in_time m ACK_TIMEOUT (e_time E) L →
  Forall (λ c, c ≠ NUL) filename → (length (request_text filename size) < CHUNK)%nat →
  tick w = O → slog w = [] →
  wp (copy_file E fuel (Q := Q) content size filename tgt) (λ _ _, False)
    (λ b w', b = SFuel ∨ b = SExit TIMEOUT ∧
       snd <$> slog w' = reverse (request :: transmissions (S L))) w.
Proof using HL Hwell Hsched Hreply Hacks Hsilent Hdrain Hjunk HLR Hprompt.
  intros HL' Hlate Hname Hfit Ht Hlog. apply good_start; [done..| |by left]. intros l w1 Hp.
  wp_step. eapply wp_mono; [by apply good_late|done|done].
Qed.
End client.
