(* ===== verification/ClientTerm.v ===== *)
(** * ClientTerm: the client does not wait for ever

    Every loop of the client is bounded by the window, by the clock or by what
    the network delivers: a client whose server falls silent ends. *)
From Stdlib Require Import Relations.Relation_Operators Wellfounded.Lexicographic_Product.
From S2P Require Import Prelude CMonad CLib Packet Queue FtpWorld NetOps FtpClient ClientSpec Samples.
Import Client.

Section termination.
Context `{Host} (E : env) `{HL : QueueLaws Q (list Z)}.
Context (content filename : list Z) (N : nat).
Hypothesis Hoom : ∀ k, e_oom E k = false.
Hypothesis Hclock : clock_diverges E.
Hypothesis Hsilent : ∀ k, (N ≤ k)%nat → e_recv E k = RecvErr EAGAIN.
Abbreviation filesize := (Z.of_nat (length content)).
Implicit Types (l : locals Q) (w : world).

(** From call [N] on, reading finds nothing; before, it takes calls. *)
Lemma wp_read_silent b (Q' : Z * list Z → world → Prop) (X : stop → world → Prop) w :
  length b = Z.to_nat PACKET_SIZE →
  (∀ w' r b', (tick w < tick w')%nat → length b' = Z.to_nat PACKET_SIZE →
    ((N ≤ tick w)%nat → r = -1 ∧ errno w' = EAGAIN) → Q' (r, b') w') →
  wp (read_only_from E b PACKET_SIZE) Q' X w.
Proof using Hoom Hsilent.
  intros Hb HQ. apply wp_read_only_from_cases; [done|congruence|].
  intros w' k r b' [Ht _] Hk [Hb' Hr] He. apply HQ; [done|done|]. intros HN.
  specialize (Hsilent k ltac:(lia)). rewrite Hsilent in Hr. auto.
Qed.

(** ** The window *)

Lemma fill_window_converges m n l w :
  client_inv content m n l → read_ok content n l →
  converges (λ fuel, fill_window E fuel filesize l) w.
Proof using Hoom filename.
  intros Hi Hr. unfold fill_window.
  apply (converges_loop_wf lt (λ x l w, ∃ n, client_inv content m n l ∧ read_ok content n l ∧
    x = m + 50 - n)%nat (λ _, _) (m + 50 - n)%nat); [apply lt_wf|by exists n|..].
  - intros x l1 w1 (n1 & Hi1 & Hr1 & _). apply converges_const.
    wp_step. eapply wp_on_queue; [by eapply q_size_ok, ci_window|]. cbn [fst].
    rewrite length_window. wp_step; [|by wp_step]. bool_to_prop.
    pose proof (ci_range _ _ _ _ Hi1). rewrite u32_id in * by lia.
    wp_step. eapply wp_conseq; [apply (wp_read_chunk E content filename w1 Hoom m n1); try done;
      [size_lia|apply said_refl]|by intros; wp_step].
  - intros fuel x l1 w1 (n1 & Hi1 & Hr1 & ->).
    wp_step. eapply wp_on_queue; [by eapply q_size_ok, ci_window|]. cbn [fst].
    rewrite length_window. wp_step; [|by wp_step]. bool_to_prop.
    pose proof (ci_range _ _ _ _ Hi1). rewrite u32_id in * by lia.
    wp_step. eapply wp_conseq; [apply (wp_read_chunk E content filename w1 Hoom m n1); try done;
      [size_lia|apply said_refl]|].
    intros l2 w2 (Hi2 & Hr2 & _). wp_step. exists (m + 50 - S n1)%nat. split; [size_lia|].
    by exists (S n1).
Qed.

Lemma pop_acked_converges a m n l w :
  client_inv content m n l → converges (λ fuel, pop_acked E fuel a l) w.
Proof.
  intros Hi. unfold pop_acked.
  apply (converges_loop_wf lt (λ x l _, ∃ m, client_inv content m n l ∧ x = n - m)%nat
    (λ _, pop_step E a) (n - m)%nat); [apply lt_wf|by exists m|..].
  - intros x l1 w1 (m1 & Hi1 & _). apply converges_const.
    eapply wp_mono; [by apply (wp_pop_step E content a m1 n l1 (λ b _, b ≠ SFuel))|done|done].
  - intros fuel x l1 w1 (m1 & Hi1 & ->).
    eapply wp_mono; [by apply (wp_pop_step E content a m1 n l1 (λ _ _, True))| |done].
    intros [l2|l2] w2 [_ Hr]; [|done]. destruct Hr as (Hlt & Hi2 & _).
    exists (n - S m1)%nat. split; [lia|]. by exists (S m1).
Qed.

(** ** Acknowledgements *)

(** Nothing that is received after call [N] keeps the loop going. *)
Lemma read_acks_converges m n l w :
  client_inv content m n l → converges (λ fuel, read_acks E fuel filesize l) w.
Proof using Hoom Hsilent filename.
  intros Hi. unfold read_acks.
  apply (converges_loop_wf lt (λ x l w, ∃ m, client_inv content m n l ∧ x = N - tick w)%nat
    (λ fuel, acks_step E fuel filesize) (N - tick w)%nat); [apply lt_wf|by exists m|..].
  - intros x l1 w1 (m1 & Hi1 & _). unfold acks_step. apply converges_seq.
    apply wp_read_silent; [by apply ci_buffer in Hi1|]. intros w2 r b _ Hb _. cbn [fst snd].
    pose proof (inv_buffer content m1 n l1 b r Hi1 Hb) as Hi2.
    apply converges_seq. wp_step. apply converges_if; intros _; [apply converges_ret|].
    apply converges_seq, wp_defined; [|done]. intros a _.
    apply converges_seq, wp_defined; [|done]. intros c _.
    apply converges_if; intros _.
    + eapply (converges_bind _ _ (λ _ _, True)); [by eapply pop_acked_converges| |].
      * intros fuel. unfold wp. by destruct (pop_acked _ _ _ _ _) as [[] ].
      * intros l3 w3 _. apply converges_ret.
    + apply converges_const. wp_step; [wp_step; by wp_step|by wp_step].
  - intros fuel x l1 w1 (m1 & Hi1 & ->). unfold acks_step. wp_step.
    apply wp_read_silent; [by apply ci_buffer in Hi1|]. intros w2 r b Ht Hb HN. cbn [fst snd].
    pose proof (inv_buffer content m1 n l1 b r Hi1 Hb) as Hi2. set (l2 := mkLocals b _ _ r _ _ _ _) in *.
    do 2 wp_step. wp_step; [by wp_step|].
    assert (tick w1 < N)%nat as Hlt.
    { destruct (decide (tick w1 < N)%nat) as [|Hge]; [done|].
      destruct (HN ltac:(lia)) as [-> He]. rewrite He in *. done. }
    wp_step. apply wp_defined; [|done]. intros a _. wp_step. apply wp_defined; [|done]. intros c _.
    wp_step.
    + wp_step. eapply wp_mono; [apply (wp_pop_acked E fuel content filename w2 a m1 n l2 w2 Hi2);
        apply said_refl| |done].
      intros l3 w3 (Hi3 & _ & Ht3 & _). wp_step. exists (N - tick w3)%nat. split; [lia|]. eauto.
    + wp_step; [wp_step; by wp_step|]. wp_step. exists (N - tick w2)%nat. split; [lia|]. eauto.
Qed.

Lemma read_acks_silent fuel l w :
  length (buffer l) = Z.to_nat PACKET_SIZE → (N ≤ tick w)%nat →
  wp (read_acks E fuel filesize l) (λ l' _, lastACK l' = lastACK l) (λ _ _, True) w.
Proof using Hoom Hsilent.
  intros Hb HN. unfold read_acks. destruct fuel as [|fuel]; [done|]. cbn [loop]. wp_step.
  unfold acks_step at 1. wp_step. apply wp_read_silent; [done|]. intros w1 r b _ _ Hr.
  destruct (Hr HN) as [-> He]. cbn [fst snd]. do 2 wp_step. rewrite He.
  cbn [read Z.ltb Z.compare]. change (EAGAIN =? EWOULDBLOCK) with true. cbn [andb orb]. by do 2 wp_step.
Qed.

(** ** The transfer *)

Definition sending l : Prop :=
  ∃ m n, client_inv content m n l ∧ (read_ok content n l ∨ written l = filesize).

(** One round of the transfer: it takes calls, and once the network is silent
    it only goes on while the last acknowledgement is recent. *)
Lemma wp_send_step fuel l w :
  sending l →
  wp (send_step E fuel filesize l)
    (λ r w', match r with
      | inl l' => sending l' ∧ (tick w < tick w')%nat ∧
          ((N ≤ tick w)%nat → lastACK l' = lastACK l ∧
            ∃ k, (tick w ≤ k < tick w')%nat ∧ e_time E k < lastACK l + 3)
      | inr _ => True end) (λ _ _, True) w.
Proof using Hoom Hsilent filename.
  intros (m & n & Hi & Hr). unfold send_step. wp_step; [by wp_step|]. bool_to_prop.
  destruct Hr as [Hr|]; [|done]. wp_step.
  eapply wp_mono; [apply (wp_fill_window E fuel content filename w Hoom m n l w Hi Hr), said_refl| |done].
  intros l1 w1 (n1 & Hi1 & Hr1 & Hl1 & _ & Ht1). wp_step.
  eapply wp_conseq; [apply (wp_send_all E content filename w1 (target l1) m n1 l1 _ w1 Hi1), said_refl|].
  intros r w2 (_ & Ht2 & _). wp_step; [by wp_step|].
  wp_step. apply wp_time. intros w3 (Ht3 & _). wp_step; [by wp_step|]. bool_to_prop.
  wp_step. apply wp_sleep. intros w4 (Ht4 & _). wp_step.
  assert (wp (read_acks E fuel filesize l1) (λ l' _, (N ≤ tick w4)%nat → lastACK l' = lastACK l1)
    (λ _ _, True) w4) as Hsil.
  { destruct (decide (N ≤ tick w4)%nat).
    - eapply wp_mono; [apply read_acks_silent; [by apply ci_buffer in Hi1|done]|done|done].
    - unfold wp. by destruct (read_acks _ _ _ _ _) as [[] ]. }
  eapply wp_mono; [apply wp_conj; [exact Hsil|
    apply (wp_read_acks E fuel content filename w4 Hoom m n1 l1 w4 Hi1), said_refl]| |done].
  intros l5 w5 [Hl5 (m5 & Hi5 & (_ & Ht5 & _) & Hr5)]. wp_step. split; [|split; [lia|]].
  - exists m5, n1. split; [done|]. destruct Hr5; [left|by right]. unfold read_ok. lia.
  - intros HN. rewrite Hl5, Hl1 by lia. split; [done|]. exists (tick w2). rewrite Hl1 in *.
    split; [lia|]. unfold ACK_TIMEOUT in *. lia.
Qed.

Lemma send_step_converges l w :
  sending l → converges (λ fuel, send_step E fuel filesize l) w.
Proof using Hoom Hsilent filename.
  intros (m & n & Hi & Hr). unfold send_step.
  apply converges_if; intros Hw; [apply converges_ret|]. bool_to_prop.
  destruct Hr as [Hr|]; [|done].
  eapply converges_bind; [by eapply fill_window_converges| |].
  { intros fuel. eapply wp_mono;
      [apply (wp_fill_window E fuel content filename w Hoom m n l w Hi Hr), said_refl|done|done]. }
  cbn beta. intros l1 w1 (n1 & Hi1 & Hr1 & _). apply converges_seq.
  eapply wp_conseq; [apply (wp_send_all E content filename w1 (target l1) m n1 l1 _ w1 Hi1), said_refl|].
  intros r w2 _. apply converges_if; intros _; [by apply converges_const|].
  apply converges_seq, wp_time. intros w3 _. apply converges_if; intros _; [by apply converges_const|].
  apply converges_seq, wp_sleep. intros w4 _.
  eapply (converges_bind _ _ (λ _ _, True)); [by eapply read_acks_converges| |].
  - intros fuel. unfold wp. by destruct (read_acks _ _ _ _ _) as [[] ].
  - intros l5 w5 _. apply converges_ret.
Qed.

(** Where a run stands: [i] calls before the network falls silent, or silent
    and [j] calls before the last acknowledgement is too old. *)
Definition standing (x : nat * nat) l w : Prop :=
  sending l ∧
  ((tick w < N)%nat ∧ x.1 = (N - tick w)%nat ∨
   (N ≤ tick w)%nat ∧ x.1 = O ∧
     ∃ d, (∀ k, (d ≤ k)%nat → lastACK l + 3 ≤ e_time E k) ∧ x.2 = (d - tick w)%nat).

Lemma standing_exists l w :
  sending l → ∃ x, standing x l w ∧ (x.1 = N - tick w)%nat.
Proof using Hclock.
  intros Hs. destruct (decide (tick w < N)%nat) as [Hlt|Hge].
  - exists (N - tick w, O)%nat. split; [|done]. split; [done|]. left. done.
  - destruct (Hclock (lastACK l + 3)) as [d Hd]. exists (O, d - tick w)%nat. split; [|cbn; lia].
    split; [done|]. right. split_and!; [lia|done|by exists d].
Qed.

Lemma send_file_converges l w :
  sending l → converges (λ fuel, send_file E fuel filesize l) w.
Proof using Hoom Hclock Hsilent filename.
  intros Hs. unfold send_file. destruct (standing_exists l w Hs) as (x & Hx & _).
  apply (converges_loop_wf (slexprod nat nat lt lt) standing
    (λ fuel, send_step E fuel filesize) x); [apply wf_slexprod; apply lt_wf|done|..].
  - intros y l1 w1 [Hs1 _]. by apply send_step_converges.
  - intros fuel y l1 w1 [Hs1 Hy]. eapply wp_mono; [by apply wp_send_step| |done].
    intros [l2|] w2; [|done]. intros (Hs2 & Ht & Hsil).
    destruct (standing_exists l2 w2 Hs2) as ([i2 j2] & Hst2 & Hi2). destruct y as [i j].
    cbn [fst snd] in *.
    destruct Hy as [[Hlt ->]|(Hge & -> & d & Hd & ->)].
    + exists (i2, j2). split; [|done]. apply left_slex. lia.
    + destruct (Hsil Hge) as (Hl & k & Hk & Hkt).
      exists (O, d - tick w2)%nat. split.
      * apply right_slex. assert (k < d)%nat by (eapply before_deadline; [done|lia]). lia.
      * split; [done|]. right. split_and!; [lia|done|]. exists d. split; [|done].
        intros k' Hk'. rewrite Hl. by apply Hd.
Qed.

(** ** Opening and closing *)

Lemma wp_any {A} (m : P A) w : wp m (λ _ _, True) (λ _ _, True) w.
Proof. unfold wp. by destruct (m w) as [[] ]. Qed.

(** Leftover acknowledgements run out with the network. *)
Lemma skip_acks_converges r b w :
  length b = Z.to_nat PACKET_SIZE → converges (λ fuel, skip_acks E fuel r b) w.
Proof using Hoom Hsilent.
  intros Hb. unfold skip_acks.
  apply (converges_loop_const (λ x _, length x.2 = Z.to_nat PACKET_SIZE)
    (λ x w, if decide (0 < x.1) then S (N - tick w) else O)); [done|].
  intros [r1 b1] w1 Hb1. cbn [snd] in Hb1. wp_step. apply wp_defined; [|done]. intros c _.
  wp_step; [|by wp_step]. bool_to_prop. wp_step. apply wp_read_silent; [done|].
  intros w2 r2 b2 Ht Hb2 HN. wp_step. split; [done|]. cbn [fst snd].
  rewrite (decide_True (P := 0 < r1)) by done. case_decide; [|lia].
  destruct (decide (N ≤ tick w1)%nat) as [Hge|Hlt]; [destruct (HN Hge); lia|lia].
Qed.

Lemma wp_skip_acks_ticks fuel r b w :
  length b = Z.to_nat PACKET_SIZE →
  wp (skip_acks E fuel r b)
    (λ b' w', length b' = Z.to_nat PACKET_SIZE ∧ (tick w ≤ tick w')%nat) (λ _ _, True) w.
Proof.
  intros Hb.
  eapply wp_mono; [apply (wp_skip_acks E fuel content filename w Hoom r b w Hb), said_refl| |done].
  intros b' w' [Hb' (_ & Ht & _)]. done.
Qed.

Lemma close_connection_converges tgt b w :
  length b = Z.to_nat PACKET_SIZE → converges (λ fuel, close_connection E fuel tgt b) w.
Proof using Hoom Hclock Hsilent content filename.
  intros Hb. unfold close_connection.
  apply converges_seq, wp_create_packet_empty; [done|]. intros w1 _.
  apply converges_seq, wp_sleep. intros w2 _. apply converges_seq, wp_time. intros w3 _.
  set (start := e_time E (tick w2)). destruct (Hclock (start + 2)) as [d Hd].
  apply (converges_loop (λ b _, length b = Z.to_nat PACKET_SIZE) (λ _ w, (d - tick w)%nat)
    (λ fuel, close_step E fuel tgt (pkt CMD_FIN 0 []) start)); [done|..].
  - intros b4 w4 Hb4. unfold close_step. apply converges_seq, wp_time. intros w5 _.
    apply converges_if; intros _; [|apply converges_ret].
    apply converges_seq. eapply (wp_send_packet_chatter _ (λ _, True)); [done..|]. intros w6 _ _.
    apply converges_seq, wp_sleep. intros w7 _. apply converges_seq.
    apply wp_read_silent; [done|]. intros w8 r8 b8 _ Hb8 _. cbn [fst snd].
    eapply (converges_bind _ _ (λ _ _, True));
      [by apply skip_acks_converges|intros fuel; apply wp_any|].
    intros b9 w9 _. apply converges_const. wp_step. apply wp_defined; [|done]. intros c _.
    wp_step; by wp_step.
  - intros fuel b4 w4 Hb4. unfold close_step. wp_step. apply wp_time. intros w5 (Ht5 & _).
    wp_step; [|by wp_step]. bool_to_prop. unfold ACK_TIMEOUT in *.
    assert (tick w4 < d)%nat as Hlt by (eapply before_deadline; [done|lia]).
    wp_step. eapply (wp_send_packet_chatter _ (λ _, True)); [done..|]. intros w6 _ (Ht6 & _).
    wp_step. apply wp_sleep. intros w7 (Ht7 & _). wp_step.
    apply wp_read_silent; [done|]. intros w8 r8 b8 Ht8 Hb8 _. cbn [fst snd].
    wp_step. eapply wp_mono; [by apply wp_skip_acks_ticks| |done]. intros b9 w9 [Hb9 Ht9].
    wp_step. apply wp_defined; [|done]. intros c _. wp_step; wp_step; [done|]. split; [done|lia].
Qed.

(** The request is repeated for six seconds. *)
Lemma send_request_converges pl startTime b tgt w :
  Z.of_nat (length pl) < 65536 →
  converges (λ fuel, send_request E fuel (pkt CMD_WRQ 0 pl) startTime b tgt) w.
Proof using Hclock.
  intros Hl. unfold send_request. destruct (Hclock (startTime + 6)) as [d Hd].
  apply (converges_loop_const (λ _ _, True) (λ _ w, (d - tick w)%nat)); [done|].
  intros [b1 t1] w1 _. wp_step.
  eapply (wp_send_packet_chatter _ (λ _, True)); [done..|]. intros w2 r (Ht2 & _).
  wp_step; [by wp_step|]. wp_step. apply wp_sleep. intros w3 (Ht3 & _).
  wp_step. apply wp_recvfrom.
  - intros w4 e _ (Ht4 & _) _. wp_step. apply wp_defined; [|done]. intros b4 _.
    wp_step; [|by wp_step]. wp_step. apply wp_time. intros w5 (Ht5 & _). wp_step.
    destruct (_ <? 6) eqn:Hlt; [|done]. bool_to_prop. split; [done|].
    assert (tick w4 < d)%nat by (eapply before_deadline; [done|lia]). lia.
  - intros w4 dg src _ _. wp_step. apply wp_defined; [|done]. intros b4 _.
    wp_step; [bool_to_prop; lia|]. by wp_step.
Qed.

Hypothesis Hname : Forall (λ c, c ≠ NUL) filename.

Lemma complete_request_converges b tgt w :
  length b = Z.to_nat PACKET_SIZE →
  converges (λ fuel, complete_request E fuel b filesize filename tgt) w.
Proof using Hclock Hname.
  intros Hb. unfold complete_request. apply converges_seq, wp_time. intros w1 _.
  apply converges_seq, wp_defined; [|done]. intros b1 Hp.
  destruct (print_request_spec content filename b b1 Hb Hp) as (Hb1 & Hl & tl & Hpay).
  pose proof CHUNK_Z.
  rewrite Hpay, cstr_app by (by apply request_text_no_nul). apply converges_seq. wp_step.
  apply converges_seq, wp_create_packet; [lia|rewrite length_app; lia|done|].
  rewrite Nat2Z.id, take_app_length. intros w2 _.
  eapply (converges_bind _ _ (λ _ _, True));
    [apply send_request_converges; lia|intros fuel; apply wp_any|].
  intros [[r b3] t3] w3 _. apply converges_const. wp_step; [by wp_step|].
  wp_step. apply wp_defined; [|done]. intros c _.
  wp_step; [by wp_step|]. wp_step; [by wp_step|]. wp_step; by wp_step.
Qed.

(** The whole client. *)
Lemma copy_file_converges tgt w :
  converges (λ fuel, copy_file E fuel (Q := Q) content filesize filename tgt) w.
Proof using HL Hoom Hclock Hsilent Hname.
  unfold copy_file.
  eapply converges_bind;
    [apply complete_request_converges; by rewrite length_replicate| |].
  { intros fuel. eapply wp_mono; [apply (wp_complete_request E fuel content filename w Hoom Hname);
      [by rewrite length_replicate|apply said_refl]|done|done]. }
  cbn beta. intros [b t] w1 [Hb _]. cbn [fst] in Hb. apply converges_seq, wp_call. intros w2 _.
  apply converges_seq, wp_time. intros w3 [Ht3 _]. rewrite Hoom. cbn [negb].
  set (l0 := mkLocals b t 0 0 1 (q_create true) _ content).
  assert (client_inv content 0 0 l0) as Hi.
  { split; cbn [l0 buffer packets rest sequence written]; try done;
      [apply q_create_ok|lia|by left]. }
  eapply converges_bind.
  - apply send_file_converges. exists O, O.
    split; [done|]. left. unfold read_ok. cbn. lia.
  - intros fuel. eapply wp_mono;
      [apply (wp_send_file E fuel content filename w3 Hoom l0 w3 Hi eq_refl); [apply said_refl|]|done|done].
    by exists (tick w2).
  - cbn beta. intros l w4 (Hbl & _).
    eapply (converges_bind _ _ (λ _ _, True));
      [by apply close_connection_converges|intros fuel; apply wp_any|].
    intros _ w5 _. apply converges_ret.
Qed.
End termination.

(** C14. The client terminates: with memory available, a clock that advances
    and a network that delivers nothing more from some call on, [copy_file]
    ends, and ends the same way for all large enough iteration bounds. *)
Theorem client_terminates `{Host} (E : env) `{HL : QueueLaws Q (list Z)} content filename N tgt w :
  (∀ k, e_oom E k = false) → clock_diverges E →
  (∀ k, (N ≤ k)%nat → e_recv E k = RecvErr EAGAIN) → Forall (λ c, c ≠ NUL) filename →
  converges (λ fuel,
    copy_file E fuel (Q := Q) content (Z.of_nat (length content)) filename tgt) w.
Proof. intros. by eapply copy_file_converges. Qed.

Lemma client_terminates_witness :
  converges (λ fuel, @copy_file sample_host (sample_env fast_clock (λ _, nothing)) fuel
    (option (list (list Z))) fifo_ops (bytes_of_string "abc") 3 (bytes_of_string "f") sample_origin)
    sample_world.
Proof.
  apply (@client_terminates sample_host (sample_env fast_clock (λ _, nothing))
    (option (list (list Z))) fifo_ops fifo_laws (bytes_of_string "abc") (bytes_of_string "f") 0
    sample_origin sample_world).
  - reflexivity.
  - intros T. exists (Z.to_nat (1000 * Z.max 0 T)). intros k Hk. cbn. unfold fast_clock. lia.
  - reflexivity.
  - repeat constructor; discriminate.
Defined.
