(* ===== verification/Completion.v ===== *)
(** * Completion: the protocol can succeed

    The exact runs of [ClientGood] and [ServerGood], put together: between
    two systems that never fail, over a network that loses datagrams after
    any [Schedule], the client and the responder complete each other's run.
    The two processes number their calls independently; a clock for each
    orders the calls of both, so that nothing arrives before it was sent. *)
From Stdlib Require Import ZifyNat.
From S2P Require Import Prelude CMonad CLib Packet Queue LinkedList FtpWorld NetOps FtpServer ServerSpec.
From S2P Require Import FtpClient ClientSpec Samples Transfer GoodRun Schedule ServerGood ClientGood ClientTerm.

(** A system that never fails, with empty memory. *)
Definition calm_env (clock : nat → Z) (net : nat → recv_result) : env := {|
  e_time := clock;
  e_recv := net;
  e_send := λ _, None;
  e_oom := λ _, false;
  e_junk := λ _ _, 0;
  e_slack := λ _, 8%nat;
  e_fopen := λ _, None;
  e_fwrite := λ _, 65536;
  e_socket := λ _, 3;
  e_bind := λ _, 0;
  e_fork := λ _, 0;
  e_wait := λ _, (0, OtherStatus);
  e_errno := λ _, 1;
|}.

Lemma calm_well clock net : all_well (calm_env clock net).
Proof. by split; intros k; cbn; (done || lia). Qed.

(** A process that was just started in a directory. *)
Definition boot (files : gmap (list Z) (list Z)) : world := mkWorld 0 0 [] files [] [].

(** Two runs that hear each other and nobody else, in an order that is
    possible: the clocks [gC] and [gS] never run backwards, and each datagram
    is sent strictly before it is received. *)
Record dialogue (EC ES : env) (gC gS : nat → nat) (wc ws : world) : Prop := {
  dl_client k k' : (k ≤ k')%nat → (gC k ≤ gC k')%nat;
  dl_server k k' : (k ≤ k')%nat → (gS k ≤ gS k')%nat;
  dl_to_server k d src : e_recv ES k = RecvFrom d src →
    ∃ k', (k', d) ∈ slog wc ∧ (gC k' < gS k)%nat;
  dl_to_client k d src : e_recv EC k = RecvFrom d src →
    ∃ k', (k', d) ∈ slog ws ∧ (gS k' < gC k)%nat;
}.

(** The number of windows a file takes. *)
Lemma rounds_exist b n :
  (0 < b)%nat → ∃ R, (n ≤ b * R)%nat ∧ ∀ r, (r < R)%nat → (b * r < n)%nat.
Proof.
  intros Hb. induction n as [|n (R & Hn & HR)]; [exists O; split; lia|].
  destruct (decide (S n ≤ b * R)%nat) as [Hle|Hgt].
  - exists R. split; [done|]. intros r Hr. specialize (HR r Hr). lia.
  - exists (S R). split; [nia|]. intros r Hr. assert (b * r ≤ b * R)%nat by nia. lia.
Qed.

Abbreviation acked_all content := (λ n, length content ≤ CHUNK * n)%nat.

Section schedule.
Context (content : list Z) (R : nat) (s m : nat → nat).
Hypothesis Hs : schedule (acked_all content) R s m.
Abbreviation K := (s R).

(** What the client hears, by call: the answer to the request, in each round
    that moves the window the acknowledgement for that, FINACK. *)
Definition client_net (k : nat) : recv_result :=
  let r := passed_by (λ r, S (listen_at m r)) R k in
  if decide (k = 4)%nat then ack 1
  else if decide (r < R ∧ k = listen_at m r ∧ m r < m (S r))%nat
  then ack (u16 (1 + Z.of_nat (m (S r))))
  else if decide (k = round_start m R + 7)%nat then RecvFrom finack sample_peer
  else nothing.

(** What the server hears: a packet every seven calls, then FIN. *)
Definition server_net (k : nat) : recv_result :=
  if decide (12 ≤ k ∧ (k - 12) mod 7 = 0 ∧ (k - 12) / 7 < K)%nat
  then RecvFrom (data_pkt content ((k - 12) / 7)) sample_peer
  else if decide (k = 12 + 7 * K)%nat then fin
  else nothing.

(** For the server, time passes once the client is done. *)
Definition server_time (k : nat) : Z := if decide (k < 20 + 7 * K)%nat then 0 else 10.

(** The common time, in half rounds. *)
Definition client_order (k : nat) : nat :=
  if decide (k < 4)%nat then 0
  else if decide (k < round_start m R + 7)%nat then 2 + 2 * passed_by (listen_at m) R k
  else 4 + 2 * R.
Definition server_order (k : nat) : nat :=
  if decide (k < 9)%nat then 1 else 3 + 2 * arrival R s ((k - 9) / 7).

Lemma client_order_mono k k' : (k ≤ k')%nat → (client_order k ≤ client_order k')%nat.
Proof.
  intros Hk. unfold client_order. pose proof (passed_by_mono (listen_at m) R k k' Hk).
  pose proof (passed_by_le (listen_at m) R k). repeat case_decide; lia.
Qed.

Lemma server_order_mono k k' : (k ≤ k')%nat → (server_order k ≤ server_order k')%nat.
Proof.
  intros Hk. unfold server_order, arrival.
  pose proof (passed_by_mono (λ r, s (S r)) R ((k - 9) / 7) ((k' - 9) / 7) ltac:(lia)).
  repeat case_decide; lia.
Qed.

(** The three kinds of calls that send or receive, in the common time. *)
Lemma client_order_send r i :
  (r < R)%nat → (i < 50)%nat → client_order (send_at m r + i) = (2 + 2 * r)%nat.
Proof.
  intros Hr Hi. pose proof (send_before_next m r R Hr). pose proof (round_start_pos m r).
  unfold client_order. rewrite (listened R m r); [|done|]; unfold listen_at, send_at in *;
    [repeat case_decide; lia|lia].
Qed.

Lemma client_order_listen r : (r < R)%nat → client_order (listen_at m r) = (4 + 2 * r)%nat.
Proof.
  intros Hr. pose proof (send_before_next m r R Hr). pose proof (round_start_pos m r).
  unfold client_order. rewrite listened_at by done. unfold listen_at, send_at in *.
  repeat case_decide; lia.
Qed.

Lemma client_order_fin : client_order (round_start m R + 4) = (2 + 2 * R)%nat.
Proof.
  pose proof (round_start_pos m R). unfold client_order. rewrite listened_end by lia.
  repeat case_decide; lia.
Qed.

Lemma server_order_at j d :
  (d < 7)%nat → server_order (9 + 7 * j + d) = (3 + 2 * arrival R s j)%nat.
Proof.
  intros Hd. unfold server_order. rewrite decide_False by lia.
  by replace ((9 + 7 * j + d - 9) / 7)%nat with j by lia.
Qed.

(** Whoever hears [d] at call [k] was sent it before. *)
Lemma server_hears wc k d src :
  (∀ r i, (r < R)%nat → (m r ≤ i < m r + 50)%nat →
    ((send_at m r + (i - m r))%nat, data_pkt content i) ∈ slog wc) →
  ((round_start m R + 4)%nat, pkt CMD_FIN 0 []) ∈ slog wc →
  server_net k = RecvFrom d src →
  ∃ k', (k', d) ∈ slog wc ∧ (client_order k' < server_order k)%nat.
Proof using Hs.
  intros Hdata Hfin Hk. unfold server_net in Hk. case_decide as Hd; [|case_decide as He; [|done]].
  - assert (∃ j, k = 9 + 7 * j + 3 ∧ j < K)%nat as (j & -> & Hj)
      by (exists ((k - 12) / 7)%nat; lia). clear Hd.
    replace ((9 + 7 * j + 3 - 12) / 7)%nat with j in * by lia. injection Hk as <- _.
    destruct (arrival_window _ R s m Hs j _ Hj eq_refl) as (Hr & _ & Hwin).
    eexists. split; [by eapply Hdata|]. rewrite client_order_send, server_order_at by lia. lia.
  - injection Hk as <- _. eexists. split; [exact Hfin|]. subst k.
    replace (12 + 7 * K)%nat with (9 + 7 * K + 3)%nat by lia.
    rewrite client_order_fin, server_order_at by lia.
    rewrite (arrival_end _ R s m Hs) by done. lia.
Qed.

Lemma client_hears ws k d src :
  (7%nat, pkt CMD_ACK 1 []) ∈ slog ws →
  (∀ i, (i < K)%nat → ((14 + 7 * i)%nat, pkt CMD_ACK (u16 (2 + Z.of_nat i)) []) ∈ slog ws) →
  ((16 + 7 * K)%nat, finack) ∈ slog ws →
  client_net k = RecvFrom d src →
  ∃ k', (k', d) ∈ slog ws ∧ (server_order k' < client_order k)%nat.
Proof using Hs.
  intros Hreq Hacks Hfin Hk. pose proof (round_start_pos m R) as Hpos. unfold client_net in Hk.
  case_decide as H4; [|case_decide as Hd; [|case_decide as He; [|done]]].
  - injection Hk as <- _. eexists. split; [exact Hreq|]. unfold client_order, server_order.
    repeat case_decide; lia.
  - set (r := passed_by _ R k) in *. clearbody r. destruct Hd as (Hr & -> & Hmv).
    apply (f_equal (λ x, if x is RecvFrom d _ then d else [])) in Hk. subst d.
    pose proof (sc_acks _ _ _ _ Hs r Hr). pose proof (schedule_server _ _ _ _ (S r) R Hs ltac:(lia)).
    exists (14 + 7 * (m (S r) - 1))%nat. split.
    + replace (1 + Z.of_nat (m (S r))) with (2 + Z.of_nat (m (S r) - 1)) by lia. apply Hacks. lia.
    + rewrite client_order_listen by done.
      replace (14 + 7 * (m (S r) - 1))%nat with (9 + 7 * (m (S r) - 1) + 5)%nat by lia.
      rewrite server_order_at by lia.
      pose proof (arrival_before _ R s m Hs r (m (S r) - 1) Hr ltac:(lia)). lia.
  - injection Hk as <- _. eexists. split; [exact Hfin|]. subst k.
    replace (16 + 7 * K)%nat with (9 + 7 * (K + 1) + 0)%nat by lia.
    rewrite server_order_at, (arrival_end _ R s m Hs) by lia. unfold client_order.
    rewrite !decide_False by lia. lia.
Qed.

(** The packets come as [good_client] and [good_server] want them. *)
Lemma server_net_data j : (j < K)%nat → server_net (12 + 7 * j) = RecvFrom (data_pkt content j) sample_peer.
Proof.
  intros Hj. unfold server_net. rewrite decide_True by lia. do 2 f_equal. lia.
Qed.

Lemma server_net_fin : server_net (12 + 7 * K) = fin.
Proof. unfold server_net. rewrite decide_False, decide_True by lia. done. Qed.

Lemma server_net_end : server_net (19 + 7 * K) = nothing.
Proof. unfold server_net. rewrite !decide_False by lia. done. Qed.

(** The count that [client_net] looks at. *)
Lemma heard_round r k :
  (r < R)%nat → (listen_at m r ≤ k)%nat → (k ≤ listen_at m r ∨ (k < round_start m (S r)))%nat →
  ∃ r', passed_by (λ r, S (listen_at m r)) R k = r' ∧
    (k = listen_at m r → r' = r) ∧ ((listen_at m r < k)%nat → r' = S r).
Proof.
  intros Hr Hlo Hhi. eexists. split; [done|].
  assert (∀ x, (r < x)%nat → (k < listen_at m x)%nat) as Hnext.
  { intros x Hx. pose proof (send_before_next m r x Hx).
    pose proof (round_start_le m (S r) x ltac:(lia)). unfold listen_at, send_at in *. lia. }
  split; intros Hk; apply passed_by_eq; try lia; intros x Hx.
  - pose proof (send_before_next m x r Hx). unfold listen_at, send_at in *. lia.
  - destruct (decide (x = r)) as [->|]; [lia|]. specialize (Hnext x). lia.
  - destruct (decide (x = r)) as [->|]; [lia|].
    pose proof (send_before_next m x r ltac:(lia)). unfold listen_at, send_at in *. lia.
  - specialize (Hnext x). lia.
Qed.

Lemma client_net_listen r :
  (r < R)%nat → client_net (listen_at m r) =
    if decide (m r < m (S r))%nat then ack (u16 (1 + Z.of_nat (m (S r)))) else nothing.
Proof.
  intros Hr. pose proof (round_start_pos m r). pose proof (send_before_next m r R Hr).
  destruct (heard_round r (listen_at m r)) as (r' & Er & Heq & _); [done|lia|lia|].
  unfold client_net. rewrite Er, (Heq eq_refl). clear Er Heq.
  rewrite decide_False by (unfold listen_at, send_at; lia).
  destruct (decide (m r < m (S r))%nat).
  - by rewrite decide_True.
  - rewrite !decide_False by lia. done.
Qed.

Lemma client_net_drain r :
  (r < R)%nat → (m r < m (S r))%nat → client_net (listen_at m r + (m (S r) - m r + 2)) = nothing.
Proof.
  intros Hr Hmv. pose proof (round_start_pos m r). pose proof (round_start_S m r) as Hst.
  rewrite decide_True in Hst by done. pose proof (round_start_le m (S r) R ltac:(lia)).
  assert (listen_at m r = (send_at m r + 53)%nat) as Hl by done.
  destruct (heard_round r (listen_at m r + (m (S r) - m r + 2))) as (r' & Er & _ & Heq);
    [done|lia|lia|].
  unfold client_net. rewrite Er, Heq by lia. clear Er Heq.
  assert (S r < R → (round_start m (S r) < listen_at m (S r)))%nat
    by (unfold listen_at, send_at; lia).
  rewrite !decide_False by (unfold send_at in *; lia). done.
Qed.

Lemma client_net_moves r :
  (r < R)%nat → (m r < m (S r))%nat → client_net (listen_at m r) = ack (u16 (1 + Z.of_nat (m (S r)))).
Proof. intros Hr Hmv. by rewrite client_net_listen, decide_True. Qed.

Lemma client_net_waits r :
  (r < R)%nat → m r = m (S r) → client_net (listen_at m r) = nothing.
Proof. intros Hr Heq. by rewrite client_net_listen, decide_False by lia. Qed.

Lemma client_net_fin : client_net (round_start m R + 7) = RecvFrom finack sample_peer.
Proof.
  pose proof (round_start_pos m R). unfold client_net.
  rewrite (passed_by_eq _ R _ R); [|done| |lia].
  - rewrite !decide_False, decide_True by lia. done.
  - intros x Hx. pose proof (send_before_next m x R Hx). lia.
Qed.

Lemma client_net_silent k : (round_start m R + 8 ≤ k)%nat → client_net k = RecvErr EAGAIN.
Proof.
  intros Hk. pose proof (round_start_pos m R). unfold client_net.
  rewrite (passed_by_eq _ R _ R); [|done| |lia].
  - rewrite !decide_False by lia. done.
  - intros x Hx. pose proof (send_before_next m x R Hx). lia.
Qed.
End schedule.

(** The two runs, from the exact execution of both programs. *)
Section completion.
Context `{Host} `{HL : QueueLaws Q (list Z)} (content filename : list Z) (R : nat) (s m : nat → nat).
Context (tgt origin : EndPoint) (filesC filesS : gmap (list Z) (list Z)).
Hypothesis Hsize : transferable content.
Hypothesis Hname : Forall (λ c, c ≠ NUL) filename.
Hypothesis Hbar : c_bar ∉ filename.
Abbreviation size := (Z.of_nat (length content)).
Abbreviation request := (pkt CMD_WRQ 0 (Client.request_text filename size)).
Hypothesis Hfit : (length (Client.request_text filename size) < CHUNK)%nat.
Hypothesis Hnew : filesS !! basename filename = None.
Hypothesis Hs : schedule (acked_all content) R s m.
Context (timeC : nat → Z).
Abbreviation EC := (calm_env timeC (client_net R m)).
Hypothesis Hdiverges : clock_diverges EC.

(** The client returns with enough fuel, whatever its clock. *)
Lemma client_returns : ∃ fuel r wc, r ≠ Stop SFuel ∧
  Client.copy_file EC fuel (Q := Q) content size filename tgt (boot filesC) = (r, wc).
Proof using HL Hname Hfit Hdiverges.
  assert (converges (λ fuel,
    Client.copy_file EC fuel (Q := Q) content size filename tgt) (boot filesC)) as (F & r & wc & Hr & Hrun).
  { apply (copy_file_converges EC content filename (round_start m R + 8)); try done.
    intros k Hk. by apply client_net_silent. }
  exists F, r, wc. split; [done|]. by apply Hrun.
Qed.

(** Some round is late: the client sends its window in it and exits. *)
Lemma client_late L :
  (L < R)%nat → (∀ r, (r < L)%nat → in_time m ACK_TIMEOUT timeC r) →
  ¬ in_time m ACK_TIMEOUT timeC L → ∃ fuel wc,
  Client.copy_file EC fuel (Q := Q) content size filename tgt (boot filesC) =
    (Stop (SExit Client.TIMEOUT), wc) ∧
  snd <$> slog wc = reverse (request :: transmissions content m (S L)).
Proof using HL Hname Hfit Hs Hdiverges.
  intros HL' Hin Hlate. destruct client_returns as (F & r & wc & Hr & Hrun). exists F, wc. rewrite Hrun.
  eassert (wp (Client.copy_file EC F (Q := Q) content size filename tgt) _ _ (boot filesC)) as Hp.
  { apply (late_client EC F content filename (calm_well _ _) R s m Hs) with (L := L); try done; try lia.
    - by exists sample_peer.
    - intros x Hx Hmv. exists sample_peer. by apply client_net_moves.
    - apply client_net_waits.
    - apply client_net_drain. }
  pose proof (wp_run _ _ _ _ _ _ Hp Hrun) as Hend. destruct r as [c|b]; [done|].
  destruct Hend as [->|[-> Hlog]]; done.
Qed.

Hypothesis Hprompt : prompt m ACK_TIMEOUT R timeC.
Abbreviation ES := (calm_env (server_time R s) (server_net content R s)).

Lemma client_completes : ∃ fuel wc,
  Client.copy_file EC fuel (Q := Q) content size filename tgt (boot filesC) = (Ok 0, wc) ∧
  (2%nat, request) ∈ slog wc ∧
  (∀ r i, (r < R)%nat → (m r ≤ i < m r + 50)%nat →
    ((send_at m r + (i - m r))%nat, data_pkt content i) ∈ slog wc) ∧
  ((round_start m R + 4)%nat, pkt CMD_FIN 0 []) ∈ slog wc ∧
  snd <$> slog wc = reverse (request :: transmissions content m R ++ [pkt CMD_FIN 0 []]).
Proof using HL Hname Hfit Hs Hprompt Hdiverges.
  destruct client_returns as (F & r & wc & Hr & Hrun). exists F, wc. rewrite Hrun.
  eassert (wp (Client.copy_file EC F (Q := Q) content size filename tgt) _ _ (boot filesC)) as Hp.
  { apply (good_client EC F content filename (calm_well _ _) R s m Hs) with (L := R);
      try apply Hprompt; try done.
    - by exists sample_peer.
    - intros x Hx Hmv. exists sample_peer. by apply client_net_moves.
    - apply client_net_waits.
    - apply client_net_drain.
    - exists sample_peer. apply client_net_fin. }
  pose proof (wp_run _ _ _ _ _ _ Hp Hrun) as Hr'. destruct r as [c|b]; [|by subst].
  destruct Hr' as (-> & ?). done.
Qed.

Lemma server_completes : ∃ fuel ws,
  Server.copy_file ES fuel (in_buffer request) origin (boot filesS) = (Ok 0, ws) ∧
  fs ws = <[basename filename := content]> filesS ∧
  (7%nat, pkt CMD_ACK 1 []) ∈ slog ws ∧
  (∀ i, (i < s R)%nat → ((14 + 7 * i)%nat, pkt CMD_ACK (u16 (2 + Z.of_nat i)) []) ∈ slog ws) ∧
  ((16 + 7 * s R)%nat, finack) ∈ slog ws.
Proof using Hsize Hname Hbar Hfit Hnew Hs.
  assert (length content ≤ CHUNK * s R)%nat as Hend.
  { pose proof (sc_end _ _ _ _ Hs). pose proof (schedule_window _ _ _ _ R Hs (le_n R)). cbn in *. nia. }
  pose proof (good_server ES content filename origin (s R) 0 (boot filesS) (calm_well _ _)
    (λ _ _, eq_refl) Hsize Hname Hbar Hfit Hend
    (λ j Hj, ex_intro _ sample_peer (server_net_data content R s j Hj))
    (ex_intro _ sample_peer (server_net_fin content R s)) (server_net_end content R s)
    (λ k Hk, decide_True 0 10 Hk)) as Hp.
  assert (server_time R s (20 + 7 * s R) = 10) as Hlate
    by (unfold server_time; by rewrite decide_False by lia).
  specialize (Hp Hlate eq_refl Hnew). unfold wp in Hp.
  exists (s R + 2)%nat. destruct (Server.copy_file _ _ _ _ _) as [[c|] ws]; [|done].
  destruct Hp as (-> & Hf & Hfa & Hrq & Ha). exists ws. done.
Qed.
End completion.

Lemma transfer_with_losses `{Host} `{HL : QueueLaws Q (list Z)} content filename tgt origin
    filesC filesS R s m timeC :
  let size := Z.of_nat (length content) in
  let request := pkt CMD_WRQ 0 (Client.request_text filename size) in
  transferable content → Forall (λ c, c ≠ NUL) filename → c_bar ∉ filename →
  (length (Client.request_text filename size) < CHUNK)%nat →
  filesS !! basename filename = None →
  schedule (acked_all content) R s m → prompt m ACK_TIMEOUT R timeC →
  clock_diverges (calm_env timeC (client_net R m)) →
  ∃ timeS fuelC fuelS gC gS k wc ws,
    let EC := calm_env timeC (client_net R m) in
    let ES := calm_env timeS (server_net content R s) in
    Client.copy_file EC fuelC (Q := Q) content size filename tgt (boot filesC) = (Ok 0, wc) ∧
    (k, request) ∈ slog wc ∧ (gC k < gS O)%nat ∧
    Server.copy_file ES fuelS (in_buffer request) origin (boot filesS) = (Ok 0, ws) ∧
    dialogue EC ES gC gS wc ws ∧ fs ws = <[basename filename := content]> filesS ∧
    snd <$> slog wc = reverse (request :: transmissions content m R ++ [pkt CMD_FIN 0 []]).
Proof.
  intros size request Hsize Hname Hbar Hfit Hnew Hs Hprompt Hdiv.
  destruct (client_completes content filename R s m tgt filesC Hname Hfit Hs timeC Hdiv Hprompt)
    as (fuelC & wc & HC & HCr & HCd & HCf & HCl).
  destruct (server_completes content filename R s m origin filesS)
    as (fuelS & ws & HS & HSf & HSr & HSa & HSe); [done..|].
  exists (server_time R s).
  exists fuelC, fuelS, (client_order R m), (server_order R s), 2%nat, wc, ws. cbv zeta. split_and!; try done.
  - unfold client_order, server_order. rewrite !decide_True by lia. lia.
  - split; [apply client_order_mono|apply server_order_mono| |].
    + intros k d src Hk. by eapply server_hears.
    + intros k d src Hk. by eapply client_hears.
Qed.

(** C5. The protocol survives losses: for every file below the sequence
    number limit, every name that fits into a request, and every pattern in
    which the network lets a part of each window through to the server and a
    part of the acknowledgements back to the client, there is a conversation
    with these losses in which both programs return 0 and the server stores
    the file, whatever the clock of the client, as long as no window waits for
    more than two seconds of it ([prompt]).  The server receives each packet once ([server_net]) and the
    client one acknowledgement for each round that moves its window
    ([client_net]), nothing before the other side has sent it; the client
    sends exactly its request, its window once for each round, and FIN. *)
Theorem transfer_survives_loss `{Host} `{HL : QueueLaws Q (list Z)} content filename tgt origin
    filesC filesS R s m timeC :
  let size := Z.of_nat (length content) in
  let request := pkt CMD_WRQ 0 (Client.request_text filename size) in
  transferable content → Forall (λ c, c ≠ NUL) filename → c_bar ∉ filename →
  (length (Client.request_text filename size) < CHUNK)%nat →
  filesS !! basename filename = None →
  schedule (λ n, length content ≤ CHUNK * n)%nat R s m → prompt m ACK_TIMEOUT R timeC →
  clock_diverges (calm_env timeC (client_net R m)) →
  ∃ timeS fuelC fuelS gC gS k wc ws,
    let EC := calm_env timeC (client_net R m) in
    let ES := calm_env timeS (server_net content R s) in
    Client.copy_file EC fuelC (Q := Q) content size filename tgt (boot filesC) = (Ok 0, wc) ∧
    (k, request) ∈ slog wc ∧ (gC k < gS O)%nat ∧
    Server.copy_file ES fuelS (in_buffer request) origin (boot filesS) = (Ok 0, ws) ∧
    dialogue EC ES gC gS wc ws ∧ fs ws = <[basename filename := content]> filesS ∧
    snd <$> slog wc = reverse (request :: transmissions content m R ++ [pkt CMD_FIN 0 []]).
Proof. intros size request. by apply transfer_with_losses. Qed.

(** C6. When the losses make the client wait too long, it gives up in the
    very round in which that happens: on a network with the losses of a
    schedule, if the first [L] rounds are in time and round [L] is not - more
    than two seconds have passed between the last packet that was acknowledged
    and the end of the round's window - then the client exits with its status
    for timeouts, and it has sent its request and the windows of the rounds up
    to and including [L], no packet after them and no FIN. *)
Theorem late_round_times_out `{Host} `{HL : QueueLaws Q (list Z)} content filename tgt
    filesC R s m timeC L :
  let size := Z.of_nat (length content) in
  let request := pkt CMD_WRQ 0 (Client.request_text filename size) in
  Forall (λ c, c ≠ NUL) filename →
  (length (Client.request_text filename size) < CHUNK)%nat →
  schedule (λ n, length content ≤ CHUNK * n)%nat R s m →
  clock_diverges (calm_env timeC (client_net R m)) →
  (L < R)%nat → (∀ r, (r < L)%nat → in_time m ACK_TIMEOUT timeC r) →
  ¬ in_time m ACK_TIMEOUT timeC L →
  ∃ fuel wc,
    Client.copy_file (calm_env timeC (client_net R m)) fuel (Q := Q) content size filename tgt
      (boot filesC) = (Stop (SExit Client.TIMEOUT), wc) ∧
    snd <$> slog wc = reverse (request :: transmissions content m (S L)).
Proof. intros size request Hname Hfit Hs Hdiv. by eapply client_late. Qed.

(** Without losses, each round moves the whole window. *)
Lemma lossless (content : list Z) :
  ∃ R, schedule (acked_all content) R (λ r, 50 * r)%nat (λ r, 50 * r)%nat.
Proof.
  pose proof CHUNK_pos.
  destruct (rounds_exist (CHUNK * 50) (length content)) as (R & Hend & Hrounds); [lia|].
  exists R. split; [lia|lia|lia| |lia]. intros r Hr. specialize (Hrounds r Hr). lia.
Qed.

(** A clock that stands still for the transfer. *)
Definition patient_clock (R : nat) (m : nat → nat) (k : nat) : Z :=
  if decide (k < round_start m R + 8)%nat then 0 else Z.of_nat k.

Lemma patient_prompt R m : prompt m ACK_TIMEOUT R (patient_clock R m).
Proof.
  assert (∀ r, (r ≤ R)%nat → (moved_at m r < round_start m R + 8)%nat) as Hmoved.
  { intros r Hr. induction r as [|r IH]; cbn [moved_at]; [pose proof (round_start_pos m R); lia|].
    case_decide; [|apply IH; lia]. pose proof (round_start_le m (S r) R Hr).
    pose proof (round_start_S m r) as Hst. rewrite decide_True in Hst by done.
    unfold listen_at. lia. }
  split; [intros r Hr|]; unfold in_time, patient_clock.
  - pose proof (send_before_next m r R Hr). specialize (Hmoved r ltac:(lia)). unfold listen_at in *.
    rewrite !decide_True by lia. unfold ACK_TIMEOUT. lia.
  - rewrite !decide_True by lia. unfold ACK_TIMEOUT. lia.
Qed.

Lemma patient_diverges R m net : clock_diverges (calm_env (patient_clock R m) net).
Proof.
  intros T. exists (Nat.max (round_start m R + 8) (Z.to_nat T)). intros k Hk. cbn. unfold patient_clock.
  rewrite decide_False by lia. lia.
Qed.

(** In particular, the protocol can succeed. *)
Theorem transfer_possible `{Host} `{HL : QueueLaws Q (list Z)} content filename tgt origin
    filesC filesS :
  let size := Z.of_nat (length content) in
  let request := pkt CMD_WRQ 0 (Client.request_text filename size) in
  transferable content → Forall (λ c, c ≠ NUL) filename → c_bar ∉ filename →
  (length (Client.request_text filename size) < CHUNK)%nat →
  filesS !! basename filename = None →
  ∃ EC ES fuelC fuelS gC gS k wc ws,
    Client.copy_file EC fuelC (Q := Q) content size filename tgt (boot filesC) = (Ok 0, wc) ∧
    (k, request) ∈ slog wc ∧ (gC k < gS O)%nat ∧
    Server.copy_file ES fuelS (in_buffer request) origin (boot filesS) = (Ok 0, ws) ∧
    dialogue EC ES gC gS wc ws ∧ fs ws = <[basename filename := content]> filesS.
Proof.
  intros size request ? ? ? ? ?. destruct (lossless content) as [R HR].
  set (m := λ r : nat, (50 * r)%nat) in *.
  destruct (transfer_with_losses (Q := Q) content filename tgt origin filesC filesS R m m
    (patient_clock R m)) as (timeS & fuelC & fuelS & gC & gS & k & wc & ws & HC & Hk & Hg & HS & Hd & Hf & _);
    [done..|apply patient_prompt|apply patient_diverges|].
  by exists (calm_env (patient_clock R m) (client_net R m)),
    (calm_env timeS (server_net content R m)), fuelC, fuelS, gC, gS, k, wc, ws.
Qed.

(** A file of one packet: the first window is lost, then the acknowledgement
    for the second one. *)
Definition sample_arrivals (r : nat) : nat := if decide (r < 2)%nat then 0 else 1.
Definition sample_acks (r : nat) : nat := if decide (r < 3)%nat then 0 else 1.

Lemma sample_schedule :
  schedule (λ n, length sample_content ≤ CHUNK * n)%nat 3 sample_arrivals sample_acks.
Proof.
  split; [done|..]; try (intros r Hr; unfold sample_arrivals, sample_acks; repeat case_decide; lia).
  - intros r Hr. unfold sample_acks. rewrite decide_True by lia. rewrite Nat.mul_0_r. cbn. lia.
  - apply (bool_decide_unpack (_ ≤ _)%nat). vm_compute. exact I.
Defined.

(** A hundred calls a second: the transfer takes two of them. *)
Definition slow_clock (k : nat) : Z := Z.of_nat (k / 100).

Lemma slow_prompt : prompt sample_acks ACK_TIMEOUT 3 slow_clock.
Proof.
  split; [|vm_compute; reflexivity]. intros r Hr.
  destruct r as [|[|[|r]]]; [vm_compute; discriminate..|lia].
Defined.

Lemma transfer_survives_loss_witness :
  ∃ timeS fuelC fuelS gC gS k wc ws,
    let EC := calm_env slow_clock (client_net 3 sample_acks) in
    let ES := calm_env timeS (server_net sample_content 3 sample_arrivals) in
    @Client.copy_file sample_host EC fuelC (lmem (list Z)) _ sample_content 3 sample_path
      sample_origin (boot ∅) = (Ok 0, wc) ∧
    (k, sample_wrq) ∈ slog wc ∧ (gC k < gS O)%nat ∧
    @Server.copy_file sample_host ES fuelS (in_buffer sample_wrq) sample_origin (boot ∅) = (Ok 0, ws) ∧
    dialogue EC ES gC gS wc ws ∧ fs ws = {[ bytes_of_string "f" := sample_content ]} ∧
    snd <$> slog wc = reverse (sample_wrq ::
      transmissions sample_content sample_acks 3 ++ [pkt CMD_FIN 0 []]).
Proof.
  apply (@transfer_survives_loss sample_host (lmem (list Z)) _ _ sample_content sample_path
    sample_origin sample_origin ∅ ∅ 3 sample_arrivals sample_acks slow_clock).
  - vm_compute. discriminate.
  - repeat constructor; discriminate.
  - apply (bool_decide_unpack (c_bar ∉ sample_path)). vm_compute. exact I.
  - apply (bool_decide_unpack (_ < _)%nat). vm_compute. exact I.
  - reflexivity.
  - exact sample_schedule.
  - exact slow_prompt.
  - intros T. exists (100 * Z.to_nat T)%nat. intros k Hk. cbn. unfold slow_clock. lia.
Defined.

(** Eighty calls a second: the third window of the same transfer is late. *)
Definition fast_clock (k : nat) : Z := Z.of_nat (k / 80).

Lemma late_round_times_out_witness :
  ∃ fuel wc,
    @Client.copy_file sample_host (calm_env fast_clock (client_net 3 sample_acks)) fuel
      (lmem (list Z)) _ sample_content 3 sample_path sample_origin (boot ∅) =
      (Stop (SExit Client.TIMEOUT), wc) ∧
    snd <$> slog wc = reverse (sample_wrq :: transmissions sample_content sample_acks 3).
Proof.
  apply (@late_round_times_out sample_host (lmem (list Z)) _ _ sample_content sample_path
    sample_origin ∅ 3 sample_arrivals sample_acks fast_clock 2).
  - repeat constructor; discriminate.
  - apply (bool_decide_unpack (_ < _)%nat). vm_compute. exact I.
  - exact sample_schedule.
  - intros T. exists (80 * Z.to_nat T)%nat. intros k Hk. cbn. unfold fast_clock. lia.
  - lia.
  - intros r Hr. destruct r as [|[|r]]; [vm_compute; discriminate..|lia].
  - intros Hin. vm_compute in Hin. by apply Hin.
Defined.
