(* ===== verification/ClientProps.v ===== *)
(** * ClientProps: the guarantees of the client *)
From S2P Require Import Prelude CMonad CLib Packet Queue FtpWorld NetOps FtpClient ClientSpec Samples.
Import Client.

(** A datagram of the protocol: bytes, a known command, a length in the
    header that is the length of what follows, and no more than a packet. *)
Definition datagram_ok `{Host} (d : list Z) : Prop :=
  Forall is_byte d ∧ Z.of_nat (length d) ≤ PACKET_SIZE ∧
  (∃ c, d !! O = Some c ∧ 0 < c ≤ MAX_CMD_VALUE) ∧
  GETLEN d = Some (Z.of_nat (length d) - HEADER_SIZE).

Lemma pkt_ok `{Host} c s pl :
  0 < c ≤ MAX_CMD_VALUE → Forall is_byte pl → (length pl ≤ CHUNK)%nat → datagram_ok (pkt c s pl).
Proof.
  intros Hc Hb Hl. pose proof CHUNK_Z. pose proof (u16_range s). unfold MAX_CMD_VALUE in Hc.
  split; [|split; [|split]].
  - unfold pkt. repeat (apply Forall_cons; split); [apply u8_range|..|done];
      unfold is_byte; rewrite ?(u16_id (Z.of_nat _)) by lia; lia.
  - rewrite length_pkt. size_lia.
  - exists (u8 c). split; [done|]. rewrite u8_id; unfold is_byte, MAX_CMD_VALUE; lia.
  - pose proof (pkt_len c s pl [] ltac:(lia)) as Hlen. rewrite app_nil_r in Hlen.
    rewrite Hlen, length_pkt. f_equal. size_lia.
Qed.

Section theorems.
Context `{Host} (E : env) (fuel : nat) `{HL : QueueLaws Q (list Z)}.
Context (content filename : list Z).

Lemma client_trace tgt w w' r a d new :
  (∀ k, e_oom E k = false) → Forall (λ c, c ≠ NUL) filename →
  copy_file E fuel (Q := Q) content (Z.of_nat (length content)) filename tgt w = (r, w') →
  trace w' = new ++ trace w → EvSend a d ∈ new →
  fs w' = fs w ∧
  (d = pkt CMD_WRQ 0 (request_text filename (Z.of_nat (length content))) ∧
     (length (request_text filename (Z.of_nat (length content))) < CHUNK)%nat ∨
   (∃ i, in_reach content (S i) ∧ d = data_pkt content i) ∨ d = pkt CMD_FIN 0 []).
Proof using HL.
  intros Hoom Hname Hrun Htr Hin.
  assert (said content filename w w') as (Hf & _ & new' & Htr' & Hall).
  { pose proof (wp_run _ _ _ _ _ _ (wp_client_copy_file E fuel content filename w Hoom Hname tgt) Hrun).
    destruct r; by destruct H1. }
  split; [done|]. rewrite Htr' in Htr. apply app_inv_tail in Htr as ->.
  rewrite Forall_forall in Hall. by destruct (Hall _ Hin) as (a' & d' & [= <- <-] & Hd).
Qed.

(** C23. On every path, and however it ends, the client only ever sends its
    write request, packets that carry under number [i + 1] exactly the [i]-th
    chunk of the file (at most one window past its end), and FIN; it writes
    no file. *)
Theorem client_sends_only tgt w w' r a d new :
  (∀ k, e_oom E k = false) → Forall (λ c, c ≠ NUL) filename →
  copy_file E fuel (Q := Q) content (Z.of_nat (length content)) filename tgt w = (r, w') →
  trace w' = new ++ trace w → EvSend a d ∈ new →
  fs w' = fs w ∧
  (d = pkt CMD_WRQ 0 (request_text filename (Z.of_nat (length content))) ∨
   (∃ i, (CHUNK * S i < length content + CHUNK * 50)%nat ∧
      d = pkt CMD_DATA (1 + Z.of_nat i) (take CHUNK (drop (CHUNK * i) content))) ∨
   d = pkt CMD_FIN 0 []).
Proof using HL.
  intros Hoom Hname Hrun Htr Hin.
  destruct (client_trace tgt w w' r a d new) as [Hf [[? _]|Hd]]; [done..|by auto|].
  split; [done|]. right. exact Hd.
Qed.

(** C24. Every datagram the client sends, on every path and however it ends,
    is a well-formed packet of the protocol: at most [PACKET_SIZE] bytes, a
    known command, and the length of the payload in the header. *)
Theorem client_datagrams_typed tgt w w' r a d new :
  (∀ k, e_oom E k = false) → Forall (λ c, c ≠ NUL) filename →
  Forall is_byte content → Forall is_byte filename →
  copy_file E fuel (Q := Q) content (Z.of_nat (length content)) filename tgt w = (r, w') →
  trace w' = new ++ trace w → EvSend a d ∈ new → datagram_ok d.
Proof using HL.
  intros Hoom Hname Hbytes Hfbytes Hrun Htr Hin.
  destruct (client_trace tgt w w' r a d new Hoom Hname Hrun Htr Hin) as [_ Hd].
  destruct Hd as [[-> Hfit]|[(i & _ & ->)| ->]]; apply pkt_ok; try done.
  - unfold request_text. apply Forall_app. split; [done|]. constructor; [done|].
    eapply Forall_impl; [apply format_ld_digits; lia|]. unfold is_byte. cbn. lia.
  - lia.
  - by apply Forall_take, Forall_drop.
  - apply length_chunk.
  - cbn. lia.
Qed.



(** C25. Acknowledgements are cumulative, also when the 16-bit numbers wrap
    around: an ACK for packet [j + 1] of a window removes exactly the packets
    before it, adds their bytes to [written], and leaves the rest in order. *)
Theorem ack_cumulative m n j (l : locals Q) w :
  client_inv content m n l → (m ≤ j ≤ n)%nat → (n - m < fuel)%nat →
  ∃ l' w', pop_acked E fuel (u16 (1 + Z.of_nat j)) l w = (Ok l', w') ∧
    q_rep (packets l') (window content j n) ∧
    written l' = Z.of_nat (length (take (CHUNK * j) content)).
Proof.
  intros Hi Hj Hf. pose proof (ci_range _ _ _ _ Hi).
  pose proof (wp_pop_acked_total E fuel content (u16 (1 + Z.of_nat j)) m n l (λ _ _, False) w Hi Hf) as Hw.
  unfold wp in Hw. destruct (pop_acked _ _ _ _ _) as [[l'|] w']; [|done].
  destruct Hw as [Hi' _]. rewrite ack_point_hit in Hi' by lia.
  exists l', w'. split; [done|]. split; [apply Hi'|apply Hi'].
Qed.

(** An ACK that names no packet of the window, for instance a delayed
    duplicate of an earlier one, is not ignored: it empties the window and
    counts all of it as delivered. *)
Theorem stale_ack_flushes_window m n a (l : locals Q) w :
  client_inv content m n l → (∀ j, (m ≤ j ≤ n)%nat → a ≠ u16 (1 + Z.of_nat j)) →
  (n - m < fuel)%nat →
  ∃ l' w', pop_acked E fuel a l w = (Ok l', w') ∧ q_rep (packets l') [] ∧
    written l' = Z.of_nat (length (take (CHUNK * n) content)).
Proof.
  intros Hi Hj Hf. pose proof (ci_range _ _ _ _ Hi).
  pose proof (wp_pop_acked_total E fuel content a m n l (λ _ _, False) w Hi Hf) as Hw.
  unfold wp in Hw. destruct (pop_acked _ _ _ _ _) as [[l'|] w']; [|done].
  destruct Hw as [Hi' _]. rewrite ack_point_miss in Hi' by (intros; apply Hj; lia).
  replace (m + (n - m))%nat with n in Hi' by lia. exists l', w'. split; [done|].
  split; [|apply Hi']. rewrite <- (window_nil content n). apply Hi'.
Qed.
End theorems.

(** A window of two packets, the second past the end of the file. *)
Definition sample_file : list Z := bytes_of_string "abc".
Definition sample_locals : locals (option (list (list Z))) :=
  mkLocals (replicate (Z.to_nat PACKET_SIZE) 0) sample_origin 0 3 3
    (Some (window sample_file 0 2)) 0 [].

Lemma sample_inv : client_inv sample_file 0 2 sample_locals.
Proof.
  split; try reflexivity; [cbn; lia|]. right. unfold in_reach. pose proof CHUNK_Z. lia.
Defined.

Lemma ack_cumulative_witness :
  ∃ l' w', @pop_acked sample_host (sample_env fast_clock (λ _, nothing)) 3 _ fifo_ops
      (u16 2) sample_locals sample_world = (Ok l', w') ∧
    packets l' = Some (window sample_file 1 2) ∧ written l' = 3.
Proof.
  apply (@ack_cumulative sample_host (sample_env fast_clock (λ _, nothing)) 3 _ fifo_ops fifo_laws
    sample_file 0 2 1 sample_locals sample_world sample_inv); lia.
Defined.

(** After packets 1 and 2 were acknowledged, a second copy of the ACK for the
    first one arrives. *)
Definition late_locals : locals (option (list (list Z))) :=
  mkLocals (replicate (Z.to_nat PACKET_SIZE) 0) sample_origin 2043 2048 4
    (Some (window (replicate 2048 7) 1 3)) 0 [].

Lemma stale_ack_flushes_window_witness :
  ∃ l' w', @pop_acked sample_host (sample_env fast_clock (λ _, nothing)) 3 _ fifo_ops
      1 late_locals sample_world = (Ok l', w') ∧
    packets l' = Some [] ∧ written l' = 2048.
Proof.
  apply (@stale_ack_flushes_window sample_host (sample_env fast_clock (λ _, nothing)) 3 _ fifo_ops
    fifo_laws (replicate 2048 7) 1 3 1 late_locals sample_world).
  - split.
    1, 2, 4, 5, 6: vm_compute; reflexivity.
    + cbn. lia.
    + right. unfold in_reach. pose proof CHUNK_Z. rewrite length_replicate. lia.
  - intros j Hj. unfold u16. lia.
  - lia.
Defined.

(** The transfer of a three-byte file, up to its first data packet. *)
Definition sample_client_run : result Z * world :=
  @copy_file sample_host (sample_env fast_clock acks_then_finack) 200 (option (list (list Z)))
    fifo_ops sample_file (Z.of_nat (length sample_file)) (bytes_of_string "f") sample_origin sample_world.

Lemma client_sends_only_witness :
  fs sample_client_run.2 = fs sample_world ∧
  (pkt CMD_DATA 1 sample_file = pkt CMD_WRQ 0 (request_text (bytes_of_string "f") (Z.of_nat (length sample_file))) ∨
   (∃ i, (CHUNK * S i < length sample_file + CHUNK * 50)%nat ∧
      pkt CMD_DATA 1 sample_file =
        pkt CMD_DATA (1 + Z.of_nat i) (take CHUNK (drop (CHUNK * i) sample_file))) ∨
   pkt CMD_DATA 1 sample_file = pkt CMD_FIN 0 []).
Proof.
  apply (@client_sends_only sample_host (sample_env fast_clock acks_then_finack) 200
    (option (list (list Z))) fifo_ops fifo_laws sample_file (bytes_of_string "f") sample_origin
    sample_world sample_client_run.2 sample_client_run.1 sample_peer
    (pkt CMD_DATA 1 sample_file) (trace sample_client_run.2)).
  - reflexivity.
  - repeat constructor; discriminate.
  - unfold sample_client_run. apply surjective_pairing.
  - by rewrite app_nil_r.
  - apply list_elem_of_In. vm_compute. tauto.
Defined.

Lemma client_datagrams_typed_witness : @datagram_ok sample_host (pkt CMD_DATA 1 sample_file).
Proof.
  apply (@client_datagrams_typed sample_host (sample_env fast_clock acks_then_finack) 200
    (option (list (list Z))) fifo_ops fifo_laws sample_file (bytes_of_string "f") sample_origin
    sample_world sample_client_run.2 sample_client_run.1 sample_peer
    (pkt CMD_DATA 1 sample_file) (trace sample_client_run.2)).
  - reflexivity.
  - repeat constructor; discriminate.
  - apply (bool_decide_unpack (Forall (λ b, 0 ≤ b < 256) sample_file)). vm_compute. exact I.
  - apply (bool_decide_unpack (Forall (λ b, 0 ≤ b < 256) (bytes_of_string "f"))). vm_compute. exact I.
  - unfold sample_client_run. apply surjective_pairing.
  - by rewrite app_nil_r.
  - apply list_elem_of_In. vm_compute. tauto.
Defined.


(** The server says that the file is there already. *)
Definition refused_env : env :=
  sample_env fast_clock (λ _, RecvFrom (pkt CMD_EXISTS 0 []) sample_peer).
Definition refused_run : result Z * world :=
  @copy_file sample_host refused_env 200 (option (list (list Z)))
    fifo_ops sample_file (Z.of_nat (length sample_file)) (bytes_of_string "f") sample_origin sample_world.

