(* ===== verification/ParentProps.v ===== *)
(** * ParentProps: the listening process of the server

    The parent forks a responder per datagram, keeps the process ids of its
    children and, on SIGINT, takes them down with it. *)
From S2P Require Import Prelude CMonad CLib Packet Queue LinkedList FtpWorld NetOps FtpServer Samples ParentSpec.
Import Server.

Section parent.
Context `{Host} (E : env) (fuel : nat) `{HL : QueueLaws Q Z}.
Implicit Types (w : world).

(** The parent neither sends nor writes; it only waits. *)
Definition waited w w' : Prop := fs w' = fs w ∧ trace w' = trace w.

Lemma waited_quiet w w1 w2 : waited w w1 → quiet w1 w2 → waited w w2.
Proof. unfold waited. by intros [<- <-] (_ & -> & ->). Qed.

Lemma wp_serve_step q pids from w0 w :
  (∀ k, e_oom E k = false) → (∀ k, e_fork E k ≠ 0) → q_rep q pids → waited w0 w →
  wp (serve_step E fuel (q, from))
    (λ r w', match r with
      | inl (q', _) => (∃ pids', q_rep q' pids') ∧ waited w0 w'
      | inr _ => False end)
    (λ _ _, False) w.
Proof using HL.
  intros Hoom Hfork Hq Hw. unfold serve_step. wp_step. apply wp_hear.
  { intros w1 from' Hw1. wp_step. split; [by eexists|by eapply waited_quiet]. }
  intros w1 buf from' Hw1 _. assert (waited w0 w1) by by eapply waited_quiet.
  wp_step. unfold dispatch. wp_step. apply wp_fork_child.
  { intros w2 _ [k Hk]. by rewrite Hoom in Hk. }
  intros w2 j Hw2. assert (waited w0 w2) by by eapply waited_quiet.
  apply (wp_after_fork E fuel buf q pids); [done|done|..].
  - intros _. wp_step. split; [by eexists|done].
  - intros w3 q' Hw3 _ Hq'. wp_step. split; [by eexists|by eapply waited_quiet].
  - intros w3 [k Hk]. by rewrite Hoom in Hk.
Qed.

(** The server waits for ever: no datagram, error or failed [fork] ends
    the parent, makes it touch a file or send a packet. However many
    iterations of its loop are run, it is still in it. *)
Theorem server_waits_forever listen_fd from w :
  (∀ k, e_oom E k = false) → (∀ k, e_fork E k ≠ 0) →
  ∃ w', process_connections E fuel (Q := Q) listen_fd from w = (Stop SFuel, w') ∧
    fs w' = fs w ∧ trace w' = trace w.
Proof using HL.
  intros Hoom Hfork.
  assert (wp (process_connections E fuel (Q := Q) listen_fd from) (λ _ _, False)
    (λ b w', b = SFuel ∧ waited w w') w) as Hw.
  { unfold process_connections. wp_step. apply wp_call. intros w1 Hw1. rewrite Hoom.
    assert (waited w w1) by by eapply (waited_quiet w w).
    apply (wp_loop (λ x w2, (∃ pids, q_rep x.1 pids) ∧ waited w w2)).
    - split; [exists []; apply q_create_ok|done].
    - by intros x w2 [_ ?].
    - intros [q f] w2 [[pids Hq] Hw2].
      eapply wp_mono; [by apply (wp_serve_step q pids)| |done].
      intros [[q' f']|[]] w3 H3; [|done]. by destruct H3 as [? ?]. }
  unfold wp in Hw. destruct (process_connections _ _ _ _ _) as [[|b] w']; [done|].
  destruct Hw as [-> [? ?]]. by exists w'.
Qed.

(** On SIGINT the server closes its socket, sends SIGINT to every child
    it has forked, each once and in the order of their creation, and exits
    with status 0. *)
Theorem sigint_kills_children socket_fd children pids w :
  q_rep children pids →
  ∃ w', signal_handler E fuel socket_fd children SIGINT w = (Stop (SExit 0), w') ∧
    trace w' = kills pids ++ EvClose socket_fd :: trace w ∧
    fs w' = fs w.
Proof. apply sigint_run. Qed.
End parent.

(** A parent whose forks all succeed, with process id 7. *)
Definition busy_env : env := {|
  e_time := sample_clock;
  e_recv := net_then 5 data_abc nothing;
  e_send := λ _, None;
  e_oom := λ _, false;
  e_junk := λ _ _, 0;
  e_slack := λ _, 0%nat;
  e_fopen := λ _, None;
  e_fwrite := λ _, 0;
  e_socket := λ _, 3;
  e_bind := λ _, 0;
  e_fork := λ _, 7;
  e_wait := λ _, (0, OtherStatus);
  e_errno := λ _, 1;
|}.

Lemma server_waits_forever_witness :
  ∃ w', @process_connections sample_host busy_env 20 (lmem Z) _ 3 sample_peer sample_world =
      (Stop SFuel, w') ∧
    fs w' = fs sample_world ∧ trace w' = trace sample_world.
Proof.
  apply (@server_waits_forever sample_host busy_env 20 (lmem Z) _ _ 3 sample_peer sample_world).
  - reflexivity.
  - intros k. discriminate.
Defined.

Lemma sigint_kills_children_witness :
  ∃ w', @signal_handler busy_env 20 (option (list Z)) fifo_ops 3 (Some [7; 8]) SIGINT sample_world =
      (Stop (SExit 0), w') ∧
    trace w' = [EvKill 8 SIGINT; EvKill 7 SIGINT; EvClose 3] ∧ fs w' = fs sample_world.
Proof.
  apply (@sigint_kills_children busy_env 20 (option (list Z)) fifo_ops fifo_laws 3 (Some [7; 8])
    [7; 8] sample_world).
  reflexivity.
Defined.

(** ** The command line *)

Lemma digits_not_flag l : digits l → is_debug_flag l = false.
Proof.
  intros Hl. apply bool_decide_eq_false_2. intros Ht. destruct l as [|c l]; [done|].
  apply Forall_cons in Hl as [Hc _]. destruct l; cbn in Ht; injection Ht; intros; lia.
Qed.

(** The server starts on exactly the ports 1 to 65535: a command line is
    accepted only with such a port, and the decimal form of every such port is
    accepted as that port, with and without [-d]. *)
Theorem server_args_ports prog :
  (∀ argv debug port, parse_args argv = inr (debug, port) → 1 ≤ port ≤ 65535) ∧
  (∀ port, 1 ≤ port ≤ 65535 →
    parse_args [prog; dec 20 port] = inr (false, port) ∧
    parse_args [prog; bytes_of_string "-d"; dec 20 port] = inr (true, port)).
Proof.
  split.
  - intros argv debug port Hp. unfold parse_args in Hp.
    repeat case_match; simplify_eq; bool_to_prop; lia.
  - intros port Hport.
    assert (sscanf_u_c (dec 20 port) = (1, Some port)) as Hscan.
    { unfold sscanf_u_c. rewrite sscanf_dec by lia. unfold conv_u.
      assert ((port <? 18446744073709551616) = true) as -> by (apply Z.ltb_lt; lia).
      by rewrite u64_id, u32_id by lia. }
    assert (negb (1 =? 1) || (port <? 1) || (65535 <? port) = false) as Hok.
    { rewrite !orb_false_iff. split_and!; [done|apply Z.ltb_ge; lia..]. }
    unfold parse_args. rewrite digits_not_flag by (apply dec_digits; lia).
    change (is_debug_flag (bytes_of_string "-d")) with true. cbv iota.
    rewrite Hscan. cbn [default from_option id]. by rewrite Hok.
Qed.
