(* ===== verification/Signals.v ===== *)
(** * Signals: the handlers of [ftpserver.c] and what they interrupt

    [signal_handler] runs on top of whatever the process was doing.  First the
    listening process, as a step relation: between the steps of its loop
    SIGCHLD and SIGINT may arrive at any time and any number of times.  Then a
    responder: it inherits the handler and the list of its parent. *)
From S2P Require Import Prelude CMonad CLib Packet Queue LinkedList FtpWorld NetOps.
From S2P Require Import FtpServer ServerSpec Samples ParentSpec ParentProps.
Import Server.

Section signals.
Context `{Host} (E : env) (fuel : nat) `{HL : QueueLaws Q Z}.
Implicit Types (w : world) (born : list Z).

(** Where the parent is: blocked in [recvfrom], holding a datagram, or with a
    child that it has not stored in its list yet. *)
Inductive point : Type :=
| Waiting (children : Q) (from : sockaddr_in)
| Heard (children : Q) (from : sockaddr_in) (buffer : list Z)
| Forked (children : Q) (from : sockaddr_in) (buffer : list Z) (pid : Z).

Definition children_at (p : point) : Q :=
  match p with Waiting q _ | Heard q _ _ | Forked q _ _ _ => q end.

(** The code up to the next point. *)
Definition advance (p : point) : P point :=
  match p with
  | Waiting q from =>
      r ← hear E from;
      mret (match r.1 with None => Waiting q r.2 | Some buffer => Heard q r.2 buffer end)
  | Heard q from buffer => pid ← fork_child E; mret (Forked q from buffer pid)
  | Forked q from buffer pid => q ← after_fork E fuel buffer q from pid; mret (Waiting q from)
  end.

(** The child of a step, if it made one. *)
Definition newborn (p : point) : list Z :=
  match p with Forked _ _ _ pid => if pid =? -1 then [] else [pid] | _ => [] end.

(** A process that is still running, or has ended. *)
Inductive parent : Type :=
| Running (p : point)
| Ended (b : stop).

(** [steps fd x born w]: the listening process [x], which has forked the
    children [born], oldest first, can be in the state [w]. *)
Inductive steps (fd : Z) (w0 : world) : parent → list Z → world → Prop :=
| st_start from k w :
    call w0 = (Ok k, w) → e_oom E k = false → steps fd w0 (Running (Waiting (q_create true) from)) [] w
| st_next p born w p' w' :
    steps fd w0 (Running p) born w → advance p w = (Ok p', w') →
    steps fd w0 (Running p') (born ++ newborn p') w'
| st_stop p born w b w' :
    steps fd w0 (Running p) born w → advance p w = (Stop b, w') → steps fd w0 (Ended b) born w'
| st_signal sig p born w w' :
    steps fd w0 (Running p) born w → signal_handler E fuel fd (children_at p) sig w = (Ok tt, w') →
    steps fd w0 (Running p) born w'
| st_killed sig p born w b w' :
    steps fd w0 (Running p) born w → signal_handler E fuel fd (children_at p) sig w = (Stop b, w') →
    b ≠ SFuel → steps fd w0 (Ended b) born w'.

(** ** What holds whenever it runs *)

(** The list holds all children but the one that was just forked. *)
Definition remembered (p : point) (born : list Z) : Prop :=
  ∃ known, q_rep (children_at p) known ∧
    match p with
    | Forked _ _ _ pid => pid ≠ 0 ∧ born = known ++ newborn p
    | _ => born = known
    end.

Definition in_order w0 (p : point) born w : Prop :=
  remembered p born ∧ fs w = fs w0 ∧ trace w = trace w0.

(** How the parent can end: on SIGINT, or for want of memory. *)
Definition ended fd w0 (b : stop) born w : Prop :=
  fs w = fs w0 ∧ ∃ known missed, born = known ++ missed ∧ (length missed ≤ 1)%nat ∧
    (b = SExit 0 ∧ trace w = kills known ++ EvClose fd :: trace w0 ∨
     (∃ k, e_oom E k = true) ∧
       (b = SExit RUNTIME_ERROR ∧ length missed = 1%nat ∧ trace w = kills known ++ trace w0 ∨
        b = SCrash NullDeref ∧ missed = [] ∧ trace w = trace w0)).

Hypothesis Hparent : ∀ k, e_fork E k ≠ 0.

Lemma wp_advance w0 fd p born w :
  in_order w0 p born w →
  wp (advance p) (λ p' w', in_order w0 p' (born ++ newborn p') w') (λ b w', ended fd w0 b born w') w.
Proof using Hparent HL.
  intros ((known & Hq & Hborn) & Hf & Ht). destruct p as [q from|q from b|q from b pid]; cbn [advance].
  - cbn in Hq, Hborn. subst known. wp_step. apply wp_hear.
    + intros w1 from' (_ & Ht1 & Hf1). wp_step. cbn. rewrite app_nil_r.
      split_and!; [by exists born|congruence..].
    + intros w1 buf from' (_ & Ht1 & Hf1) _. wp_step. cbn. rewrite app_nil_r.
      split_and!; [by exists born|congruence..].
  - cbn in Hq, Hborn. subst known. wp_step. apply wp_fork_child.
    + intros w1 (_ & Ht1 & Hf1) Ho. split; [congruence|]. exists born, [].
      rewrite app_nil_r. split_and!; [done|cbn; lia|right; split; [done|right]].
      split_and!; [done..|congruence].
    + intros w1 j (_ & Ht1 & Hf1). wp_step. split_and!; [|congruence..].
      by exists born.
  - destruct Hborn as [Hpid ->]. cbn [children_at newborn] in *. wp_step.
    apply (wp_after_fork E fuel b q known); [done|done|..].
    + intros ->. wp_step. cbn. rewrite !app_nil_r. split_and!; [by exists known|done..].
    + intros w1 q' (_ & Ht1 & Hf1) Hne Hq'. wp_step. rewrite (proj2 (Z.eqb_neq _ _) Hne). cbn.
      rewrite app_nil_r. split_and!; [by exists (known ++ [pid])|congruence..].
    + intros w1 Ho Hne Ht1 Hf1. rewrite (proj2 (Z.eqb_neq _ _) Hne). split; [congruence|].
      exists known, [pid]. split_and!; [done|cbn; lia|right; split; [done|left]].
      split_and!; [done..|congruence].
Qed.

(** The children that a handler finds in the list, and those it does not. *)
Lemma remembered_split p born :
  remembered p born → ∃ known, q_rep (children_at p) known ∧ born = known ++ newborn p.
Proof.
  intros (known & Hq & Hb). exists known. split; [done|].
  destruct p; cbn; [by rewrite app_nil_r..|apply Hb].
Qed.

Lemma newborn_short p : (length (newborn p) ≤ 1)%nat.
Proof. destruct p; cbn; [lia..|]. destruct (_ =? _); cbn; lia. Qed.

(** SIGCHLD reaps the dead and comes back, any other signal just comes back. *)
Lemma wp_handler w0 fd sig p born w :
  in_order w0 p born w →
  wp (signal_handler E fuel fd (children_at p) sig)
    (λ _ w', in_order w0 p born w')
    (λ b w', b = SFuel ∨ sig = SIGINT ∧ b = SExit 0 ∧ fs w' = fs w0 ∧ ∃ known,
       born = known ++ newborn p ∧ trace w' = kills known ++ EvClose fd :: trace w0) w.
Proof using HL.
  intros (Hrem & Hf & Ht). unfold signal_handler. wp_step; bool_to_prop; [subst sig|wp_step].
  - change (wp (signal_handler E fuel fd (children_at p) SIGINT)
      (λ _ w', in_order w0 p born w') (λ b w', b = SFuel ∨ SIGINT = SIGINT ∧ b = SExit 0 ∧
        fs w' = fs w0 ∧ ∃ known, born = known ++ newborn p ∧
        trace w' = kills known ++ EvClose fd :: trace w0) w).
    destruct (remembered_split p born Hrem) as (known & Hq & Hb).
    eapply wp_mono; [by apply (wp_sigint E fuel fd _ known)|done|].
    intros b w1 (-> & Ht1 & Hf1). right. split_and!; [done|done|congruence|].
    exists known. split; [done|]. by rewrite Ht1, Ht.
  - apply (wp_loop (λ _ w1, fs w1 = fs w0 ∧ trace w1 = trace w0)); [done|by intros; left|].
    intros _ w1 [Hf1 Ht1]. wp_step. apply wp_waitpid. intros w2 r (_ & Ht2 & Hf2).
    wp_step; wp_step; split_and!; (done || congruence).
  - by wp_step.
Qed.

Lemma steps_in_order fd w0 x born w :
  steps fd w0 x born w →
  match x with
  | Running p => in_order w0 p born w
  | Ended b => ended fd w0 b born w
  end.
Proof using Hparent HL.
  induction 1 as [from k w Hrun _|p born w p' w' _ IH Hrun|p born w b w' _ IH Hrun
    |sig p born w w' _ IH Hrun|sig p born w b w' _ IH Hrun Hb].
  - injection Hrun as _ <-. split_and!; [|done..]. exists []. split; [apply q_create_ok|done].
  - exact (wp_run _ _ _ _ _ _ (wp_advance w0 fd p born w IH) Hrun).
  - exact (wp_run _ _ _ _ _ _ (wp_advance w0 fd p born w IH) Hrun).
  - exact (wp_run _ _ _ _ _ _ (wp_handler w0 fd sig p born w IH) Hrun).
  - pose proof (wp_run _ _ _ _ _ _ (wp_handler w0 fd sig p born w IH) Hrun)
      as [?|(_ & -> & Hf & known & -> & Ht)]; [done|].
    split; [done|]. exists known, (newborn p). split_and!; [done|apply newborn_short|by left].
Qed.

(** One iteration of the loop, uninterrupted, is made of the same steps. *)
Lemma serve_step_points fd w0 q from born w r w' :
  steps fd w0 (Running (Waiting q from)) born w → serve_step E fuel (q, from) w = (r, w') →
  ∃ born', match r with
    | Ok (inl (q', from')) => steps fd w0 (Running (Waiting q' from')) born' w'
    | Ok (inr _) => False
    | Stop b => b ≠ SFuel ∧ steps fd w0 (Ended b) born' w'
    end.
Proof using Hparent HL.
  intros Hst Hrun. unfold serve_step, mbind, M_bind in Hrun.
  destruct (hear E from w) as [[[m f]|b] w1] eqn:Hhear.
  2: { exfalso. exact (wp_run _ (λ _ _, True) (λ _ _, False) _ _ _
         (wp_hear E from _ _ w (λ _ _ _, I) (λ _ _ _ _ _, I)) Hhear). }
  apply (st_next _ _ _ _ _ (match m with None => Waiting q f | Some buffer => Heard q f buffer end) w1) in Hst.
  2: { unfold advance, mbind, M_bind. by rewrite Hhear. }
  destruct m as [buffer|]; [|injection Hrun as <- <-; by eexists].
  unfold dispatch, mbind, M_bind in Hrun. destruct (fork_child E w1) as [[pid|b] w2] eqn:Hfork.
  2: { injection Hrun as <- <-. eexists. split.
       - pose proof (wp_run _ (λ _ _, True) (λ b _, b = SCrash NullDeref) _ _ _
           (wp_fork_child E _ _ w1 (λ _ _ _, eq_refl) (λ _ _ _, I)) Hfork) as ->. done.
       - eapply st_stop; [exact Hst|]. unfold advance, mbind, M_bind. by rewrite Hfork. }
  apply (st_next _ _ _ _ _ (Forked q f buffer pid) w2) in Hst.
  2: { unfold advance, mbind, M_bind. by rewrite Hfork. }
  destruct (steps_in_order _ _ _ _ _ Hst) as [(known & Hq & Hpid & _) _].
  destruct (after_fork E fuel buffer q f pid w2) as [[q'|b] w3] eqn:Hafter.
  - injection Hrun as <- <-. eexists. eapply st_next; [exact Hst|].
    unfold advance, mbind, M_bind. by rewrite Hafter.
  - injection Hrun as <- <-. eexists. split.
    + pose proof (wp_run _ (λ _ _, True) (λ b _, b = SExit RUNTIME_ERROR) _ _ _
        (wp_after_fork E fuel buffer q known f pid _ _ w2 Hq Hpid (λ _, I) (λ _ _ _ _ _, I)
          (λ _ _ _ _ _, eq_refl)) Hafter) as ->. done.
    + eapply st_stop; [exact Hst|]. unfold advance, mbind, M_bind. by rewrite Hafter.
Qed.

Lemma loop_points n fd w0 q from born w r w' :
  steps fd w0 (Running (Waiting q from)) born w → loop n (serve_step E fuel) (q, from) w = (r, w') →
  ∃ born', match r with
    | Ok _ => False
    | Stop SFuel => ∃ q' from', steps fd w0 (Running (Waiting q' from')) born' w'
    | Stop b => steps fd w0 (Ended b) born' w'
    end.
Proof using Hparent HL.
  revert q from born w. induction n as [|n IH]; intros q from born w Hst Hrun; cbn [loop] in Hrun.
  { injection Hrun as <- <-. by eexists _, _, _. }
  unfold mbind, M_bind in Hrun. destruct (serve_step E fuel (q, from) w) as [r1 w1] eqn:Hstep.
  destruct (serve_step_points _ _ _ _ _ _ _ _ Hst Hstep) as [born1 Hst1].
  destruct r1 as [[[q1 f1]|[]]|b]; [by eapply IH|done|].
  injection Hrun as <- <-. destruct Hst1 as [Hb Hst1]. exists born1. by destruct b.
Qed.


(** C31. SIGINT at any time: wherever in its loop the server is, and whatever
    requests and signals came before, SIGINT makes it close its socket, pass
    the signal on to its children, in the order of their creation and to each
    of them once, also to those it has reaped long since, and exit with
    status 0, without touching a file.  Only a child that was forked but is
    not in the list yet is missed. *)
Theorem sigint_at_any_time fd w0 p born w :
  steps fd w0 (Running p) born w →
  ∃ known w', signal_handler E fuel fd (children_at p) SIGINT w = (Stop (SExit 0), w') ∧
    trace w' = kills known ++ EvClose fd :: trace w0 ∧ fs w' = fs w0 ∧ born = known ++ newborn p.
Proof using Hparent HL.
  intros Hst. destruct (steps_in_order _ _ _ _ _ Hst) as (Hrem & Hf & Ht).
  destruct (remembered_split p born Hrem) as (known & Hq & Hb).
  destruct (sigint_run E fuel fd _ known w Hq) as (w' & Hrun & Ht' & Hf').
  exists known, w'. split; [done|]. split; [by rewrite Ht', Ht|]. split; [congruence|done].
Qed.

(** C33. How the server ends: never by itself.  It exits with status 0 on
    SIGINT; without memory it exits with [RUNTIME_ERROR], having taken down all
    children but the one it could not store, or it dereferences the null
    pointer that it stores the process id through, which leaves all children
    alone.  In no case is more than one child missed, and no file is touched. *)
Theorem parent_endings fd w0 b born w :
  steps fd w0 (Ended b) born w →
  fs w = fs w0 ∧
  ((b = SExit 0 ∧ ∃ known missed, born = known ++ missed ∧ (length missed ≤ 1)%nat ∧
      trace w = kills known ++ EvClose fd :: trace w0) ∨
   (∃ k, e_oom E k = true) ∧
     ((b = SExit RUNTIME_ERROR ∧ ∃ known pid, born = known ++ [pid] ∧ trace w = kills known ++ trace w0) ∨
      (b = SCrash NullDeref ∧ trace w = trace w0))).
Proof using Hparent HL.
  intros Hst. destruct (steps_in_order _ _ _ _ _ Hst) as (Hf & known & missed & Hb & Hl & Hend).
  split; [done|]. destruct Hend as [[-> Ht]|(Ho & [(-> & Hm & Ht)|(-> & _ & Ht)])].
  - left. split; [done|]. by exists known, missed.
  - right. split; [done|]. left. split; [done|]. destruct missed as [|pid [|]]; [done| |done].
    by exists known, pid.
  - right. split; [done|]. by right.
Qed.

(** The steps, executable: [n] steps without a signal. *)
Fixpoint follow (n : nat) (p : point) born w : option (point * list Z * world) :=
  match n with
  | O => Some (p, born, w)
  | S n => match advance p w with
           | (Ok p', w') => follow n p' (born ++ newborn p') w'
           | (Stop _, _) => None
           end
  end.

Lemma follow_steps n fd w0 p born w p' born' w' :
  steps fd w0 (Running p) born w → follow n p born w = Some (p', born', w') →
  steps fd w0 (Running p') born' w'.
Proof.
  revert p born w. induction n as [|n IH]; intros p born w Hst Hrun; cbn in Hrun; [by simplify_eq|].
  destruct (advance p w) as [[p1|b] w1] eqn:Ha; [|done]. eapply IH; [|done]. by eapply st_next.
Qed.
End signals.

(** ** Signals in a responder *)
Section responder.
Context `{Host} (E : env) (fuel : nat) `{HL : QueueLaws Q Z}.

(** C34. A responder has inherited the handler and the list of the server.
    SIGINT, wherever its loops are, makes it pass the signal on to all
    responders that are older than itself and exit with status 0, the status
    of a success, although the file that it leaves behind may hold no more
    than the first chunks of what was announced. *)
Theorem interrupted_responder fd (children : Q) pids buf origin w w' :
  length buf = Z.to_nat PACKET_SIZE → q_rep children pids →
  copy_file E fuel buf origin w = (Stop SFuel, w') →
  ∃ w'', signal_handler E fuel fd children SIGINT w' = (Stop (SExit 0), w'') ∧
    trace w'' = kills pids ++ EvClose fd :: trace w' ∧
    (fs w'' = fs w ∨ ∃ name size acc, request_of buf = Some (name, size) ∧ fs w !! name = None ∧
       fs w'' = <[name := concat acc]> (fs w) ∧ justified E acc).
Proof.
  intros Hbuf Hq Hrun. destruct (sigint_run E fuel fd children pids w' Hq) as (w'' & Hh & Ht & Hf).
  exists w''. split; [done|]. split; [done|]. rewrite Hf.
  pose proof (wp_run _ _ _ _ _ _ (wp_copy_file E fuel origin buf w Hbuf) Hrun)
    as [(? & _)|(name & size & [Hreq Hnew] & acc & _ & [Hfs Hj] & _)]; [by left|right].
  by exists name, size, acc.
Qed.
End responder.

(** ** A busy parent *)
Lemma busy_forks : ∀ k, e_fork busy_env k ≠ 0.
Proof. discriminate. Qed.

Definition busy_loop : result unit * world :=
  @process_connections sample_host busy_env 20 (lmem Z) _ 3 sample_peer sample_world.


(** A request and a failed [recvfrom]; SIGCHLD for the first responder before the second one is
    stored in the list. *)
Abbreviation busy_steps := (@steps sample_host busy_env 20 (option (list Z)) fifo_ops 3 sample_world).

Lemma busy_point : ∃ w, busy_steps
  (Running (Forked (Some [7]) sample_peer (in_buffer []) 7)) [7; 7] w.
Proof.
  eexists. eapply (st_signal _ _ _ _ SIGCHLD).
  - eapply (follow_steps busy_env 20 5); [by apply (st_start _ _ _ _ sample_peer O)|].
    vm_compute. reflexivity.
  - vm_compute. reflexivity.
Defined.

Lemma sigint_at_any_time_witness : ∃ w known w',
  @signal_handler busy_env 20 (option (list Z)) fifo_ops 3 (Some [7]) SIGINT w = (Stop (SExit 0), w') ∧
  trace w' = kills known ++ EvClose 3 :: trace sample_world ∧ fs w' = fs sample_world ∧
  [7; 7] = known ++ [7].
Proof.
  destruct busy_point as [w Hst]. exists w.
  exact (@sigint_at_any_time sample_host busy_env 20 (option (list Z)) _ _ busy_forks 3 sample_world
    _ _ w Hst).
Defined.

Lemma parent_endings_witness : ∃ w known missed,
  fs w = fs sample_world ∧ [7; 7] = known ++ missed ∧ (length missed ≤ 1)%nat ∧
  trace w = kills known ++ [EvClose 3].
Proof.
  destruct busy_point as [w Hst]. eexists.
  edestruct (@parent_endings sample_host busy_env 20 (option (list Z)) _ _ busy_forks 3 sample_world
    (SExit 0)) as [Hf [(_ & known & missed & Hb & Hl & Ht)|([k Hk] & _)]].
  - eapply (st_killed _ _ _ _ SIGINT); [exact Hst| |discriminate]. apply surjective_pairing.
  - exists known, missed. split; [exact Hf|]. split; [exact Hb|]. split; [exact Hl|exact Ht].
  - discriminate Hk.
Defined.

(** A responder of which three of six bytes have been received: the file stays
    as it is and the exit status is that of a success. *)
Definition half_env : env := sample_env sample_clock (net_then 20 data_abc nothing).
Definition half_request : list Z := in_buffer (pkt CMD_WRQ 0 (bytes_of_string "f|6")).
Definition half_run : result Z * world :=
  @copy_file sample_host half_env 3 half_request sample_origin sample_world.

Lemma interrupted_responder_witness :
  fs half_run.2 = <[bytes_of_string "f" := bytes_of_string "abc"]> (fs sample_world) ∧
  ∃ w'', @signal_handler half_env 3 (option (list Z)) fifo_ops 3 (Some [7]) SIGINT half_run.2 =
      (Stop (SExit 0), w'') ∧
    trace w'' = kills [7] ++ EvClose 3 :: trace half_run.2 ∧
    (fs w'' = fs sample_world ∨ ∃ name size acc, request_of half_request = Some (name, size) ∧
       fs sample_world !! name = None ∧ fs w'' = <[name := concat acc]> (fs sample_world) ∧
       @justified sample_host half_env acc).
Proof.
  split; [vm_compute; reflexivity|].
  apply (@interrupted_responder sample_host half_env 3 (option (list Z)) _ _ 3 (Some [7]) [7]
    half_request sample_origin sample_world half_run.2).
  - reflexivity.
  - reflexivity.
  - vm_compute. reflexivity.
Defined.
