(* ===== verification/SrtpHeader.v ===== *)
(** * SrtpHeader: the packets of the SRTP library

    [srtp/srtp_header.h], the packet macros of [srtp/srtp_impl.h] and the
    packet utilities of [srtp/srtp_impl.cpp].  The header is a C structure
    laid over the buffer: its fields are in the byte order of the host. *)
From S2P Require Import Prelude CLib Packet.

Module Srtp.

Definition SYN : Z := 1.
Definition ACK : Z := 2.
Definition FIN : Z := 4.
Definition RST : Z := 8.
Definition RDY : Z := 16.

Definition CONNECT_TIMEOUT : Z := 5000.
Definition RETRY_TIMEOUT_BASE : Z := 50.
Definition RETRY_TIMEOUT_SCALER : Z := 50.
Definition RETRY_TIMEOUT_MAX : Z := 1000.
Definition ARQN : Z := 16.
Definition PAYLOAD_MAXSIZE : Z := 1024.

(** [struct srtp_header_t]. *)
Record srtp_header_t : Type := mkHeader {
  len : Z;      (** uint16_t, offset 0 *)
  seq : Z;      (** uint16_t, offset 2 *)
  ack : Z;      (** uint16_t, offset 4 *)
  cmdinfo : Z;  (** uint8_t, offset 6 *)
  cmd : Z;      (** uint8_t, offset 7 *)
}.

Definition PKT_HEADERSIZE : Z := 8.
Definition PKT_MAXSIZE : Z := PKT_HEADERSIZE + PAYLOAD_MAXSIZE.

Section macros.
Context `{Host}.
Implicit Types (buf : list Z).

Definition store8 (off : nat) (v : Z) buf : option (list Z) :=
  if decide (off < length buf)%nat then Some (<[off := u8 v]> buf) else None.

Definition PKT_GETLEN buf : option Z := load16 buf 0.
Definition PKT_GETSEQ buf : option Z := load16 buf 2.
Definition PKT_GETACK buf : option Z := load16 buf 4.
Definition PKT_GETCMDINFO buf : option Z := buf !! 6%nat.
Definition PKT_GETCMD buf : option Z := buf !! 7%nat.

Definition PKT_SETLEN buf (v : Z) : option (list Z) := store16 0 (u16 v) buf.
Definition PKT_SETSEQ buf (v : Z) : option (list Z) := store16 2 (u16 v) buf.
Definition PKT_SETACK buf (v : Z) : option (list Z) := store16 4 (u16 v) buf.
Definition PKT_SETCMDINFO buf (v : Z) : option (list Z) := store8 6 v buf.
Definition PKT_SETCMD buf (v : Z) : option (list Z) := store8 7 v buf.

(** The logical [&&] of the command byte and the flag, not the bitwise
    one. *)
Definition PKT_HASCMD buf (command : Z) : option bool :=
  c ← PKT_GETCMD buf; Some (negb (c =? 0) && negb (command =? 0)).
Definition PKT_SYN buf : option bool := PKT_HASCMD buf SYN.
Definition PKT_ACK buf : option bool := PKT_HASCMD buf ACK.
Definition PKT_FIN buf : option bool := PKT_HASCMD buf FIN.
Definition PKT_RST buf : option bool := PKT_HASCMD buf RST.

Definition PKT_PAYLOADPTR buf : list Z := drop (Z.to_nat PKT_HEADERSIZE) buf.

(** [memset(buf + off, 0, n)]. *)
Definition memset0 (off : nat) (n : Z) buf : option (list Z) :=
  memcpy buf off (replicate (Z.to_nat n) 0) n.

Definition PKT_ZEROPAYLOAD buf : option (list Z) := memset0 0 PKT_MAXSIZE buf.
Definition PKT_ZERO buf : option (list Z) :=
  buf ← memset0 (Z.to_nat PKT_HEADERSIZE) PAYLOAD_MAXSIZE buf; PKT_SETLEN buf 0.
Definition PKT_COPYTO (dest src : list Z) : option (list Z) := memcpy dest 0 src PKT_MAXSIZE.

Definition PKT_INVALID_LEN (l : Z) : bool := PAYLOAD_MAXSIZE <? l.
Definition PKT_INVALID_CMD (c : Z) : bool :=
  Z.lor SYN (Z.lor ACK (Z.lor FIN (Z.lor RST RDY))) <? c.

Definition PKT_PAYLOADLEN buf : option Z := load16 buf 0.
Definition PKT_INVALID buf : option bool :=
  l ← PKT_GETLEN buf;
  if PKT_INVALID_LEN l then Some true else PKT_INVALID_CMD <$> PKT_GETCMD buf.

(** Reading the whole header of a buffer. *)
Definition header_of buf : option srtp_header_t :=
  l ← PKT_GETLEN buf; s ← PKT_GETSEQ buf; a ← PKT_GETACK buf;
  i ← PKT_GETCMDINFO buf; c ← PKT_GETCMD buf;
  Some (mkHeader l s a i c).

(** ** The utilities of [srtp_impl.cpp] *)

Definition pkt_invalid buf : option Z :=
  l ← PKT_GETLEN buf;
  if PKT_INVALID_LEN l then Some 1
  else
    c ← PKT_GETCMD buf;
    if PKT_INVALID_CMD c then Some 1 else Some 0.

(** The return value and the buffer. *)
Definition pkt_set_payload buf (payload : list Z) (l : Z) : option (Z * list Z) :=
  if PKT_INVALID_LEN l then Some (-1, buf)
  else
    buf ← memcpy buf (Z.to_nat PKT_HEADERSIZE) payload l;
    buf ← PKT_SETLEN buf l;
    Some (l, buf).

Definition pkt_pack buf (c l s a info : Z) (payload : list Z) : option (Z * list Z) :=
  if PKT_INVALID_CMD c then Some (-1, buf)
  else
    buf ← PKT_SETCMD buf c;
    buf ← PKT_SETSEQ buf s;
    buf ← PKT_SETACK buf a;
    buf ← PKT_SETCMDINFO buf info;
    pkt_set_payload buf payload l.
End macros.

(** One [if (cmd & flag)] block: [strcat] of a separator, unless the string is
    still empty, and of the name. *)
Definition cat_flag (command flag : Z) (name : list Z) (s : list Z) : list Z :=
  if Z.land command flag =? 0 then s
  else (match s with [] => s | _ => s ++ [c_plus] end) ++ name.

Definition srtp_cmdstr (command : Z) : list Z :=
  let s := [] in
  let s := cat_flag command RST (bytes_of_string "RST") s in
  let s := cat_flag command SYN (bytes_of_string "SYN") s in
  let s := cat_flag command FIN (bytes_of_string "FIN") s in
  let s := cat_flag command RDY (bytes_of_string "RDY") s in
  cat_flag command ACK (bytes_of_string "ACK") s.
End Srtp.
