(* ===== verification/SrtpHeaderProps.v ===== *)
(** * SrtpHeaderProps: packing and reading SRTP packets *)
From S2P Require Import Prelude CLib Packet SrtpHeader Samples.
Import Srtp.

Section packing.
Context `{Host}.
Implicit Types (buf payload : list Z).

(** The two bytes of a halfword in memory. *)
Definition halfword (v : Z) : list Z :=
  match byte_order with Little => [v mod 256; v / 256] | Big => [v / 256; v mod 256] end.

Definition header_bytes (h : srtp_header_t) : list Z :=
  halfword (len h) ++ halfword (seq h) ++ halfword (ack h) ++ [cmdinfo h; cmd h].

Definition wf_header (h : srtp_header_t) : Prop :=
  0 ≤ len h < 65536 ∧ 0 ≤ seq h < 65536 ∧ 0 ≤ ack h < 65536 ∧
  is_byte (cmdinfo h) ∧ is_byte (cmd h).

(** Reading the header back. *)
Lemma header_of_bytes h rest : wf_header h → header_of (header_bytes h ++ rest) = Some h.
Proof.
  intros (Hl & Hs & Ha & Hi & Hc). destruct h as [l s a i c]. cbn in *.
  unfold header_of, PKT_GETLEN, PKT_GETSEQ, PKT_GETACK, load16, header_bytes, halfword.
  destruct byte_order; cbn -[Z.div Z.modulo Z.mul Z.add]; do 2 f_equal; lia.
Qed.

(** The stores of [pkt_pack] build the header. *)
Lemma pkt_pack_stores buf c s a info :
  (8 ≤ length buf)%nat →
  (buf ← PKT_SETCMD buf c; buf ← PKT_SETSEQ buf s; buf ← PKT_SETACK buf a;
   PKT_SETCMDINFO buf info) =
  Some (take 2 buf ++ halfword (u16 s) ++ halfword (u16 a) ++ [u8 info; u8 c] ++ drop 8 buf).
Proof.
  intros Hb. destruct buf as [|b0 [|b1 [|b2 [|b3 [|b4 [|b5 [|b6 [|b7 buf]]]]]]]];
    cbn in Hb; try lia.
  unfold PKT_SETCMD, PKT_SETSEQ, PKT_SETACK, PKT_SETCMDINFO, store8, store16, halfword.
  destruct byte_order; cbn -[Z.div Z.modulo u8 u16]; by rewrite ?drop_0.
Qed.

Lemma pkt_set_payload_ok buf payload l :
  0 ≤ l ≤ PAYLOAD_MAXSIZE → (Z.to_nat l ≤ length payload)%nat →
  (8 + Z.to_nat l ≤ length buf)%nat →
  pkt_set_payload buf payload l =
  Some (l, halfword l ++ drop 2 (take 8 buf) ++ take (Z.to_nat l) payload ++
           drop (8 + Z.to_nat l) buf).
Proof.
  unfold PAYLOAD_MAXSIZE. intros Hl Hp Hb. unfold pkt_set_payload.
  assert (PKT_INVALID_LEN l = false) as -> by (apply Z.ltb_ge; unfold PAYLOAD_MAXSIZE; lia).
  unfold memcpy. rewrite decide_True by (unfold PKT_HEADERSIZE; lia).
  cbn [mbind option_bind]. unfold splice.
  assert (length (take (Z.to_nat l) payload) = Z.to_nat l) as -> by (rewrite length_take; lia).
  destruct buf as [|b0 [|b1 [|b2 [|b3 [|b4 [|b5 [|b6 [|b7 buf]]]]]]]]; cbn in Hb; try lia.
  unfold PKT_SETLEN, store16, PKT_HEADERSIZE. rewrite u16_id by lia.
  change (Z.to_nat 8) with 8%nat.
  rewrite decide_True by (rewrite length_app; cbn; lia).
  cbn -[Z.div Z.modulo Z.to_nat]. unfold halfword. by destruct byte_order.
Qed.

Lemma length_halfword v : length (halfword v) = 2%nat.
Proof. unfold halfword. by destruct byte_order. Qed.

Lemma valid_cmd c : c ≤ 31 → PKT_INVALID_CMD c = false.
Proof. intros Hc. apply Z.ltb_ge. change (c ≤ 31). done. Qed.

Lemma invalid_cmd c : 31 < c → PKT_INVALID_CMD c = true.
Proof. intros Hc. apply Z.ltb_lt. change (31 < c). done. Qed.

(** [pkt_pack] as its stores followed by [pkt_set_payload]. *)
Lemma pkt_pack_eq buf c l s a info payload :
  c ≤ 31 → (8 ≤ length buf)%nat →
  pkt_pack buf c l s a info payload =
  pkt_set_payload (take 2 buf ++ halfword (u16 s) ++ halfword (u16 a) ++
                   [u8 info; u8 c] ++ drop 8 buf) payload l.
Proof.
  intros Hc Hb. unfold pkt_pack. rewrite valid_cmd by done.
  pose proof (pkt_pack_stores buf c s a info Hb) as Hst.
  destruct (PKT_SETCMD buf c) as [x|]; cbn [mbind option_bind] in *; [|done].
  destruct (PKT_SETSEQ x s) as [y|]; cbn [mbind option_bind] in *; [|done].
  destruct (PKT_SETACK y a) as [z|]; cbn [mbind option_bind] in *; [|done].
  by rewrite Hst.
Qed.

(** The buffer a successful [pkt_pack] leaves. *)
Lemma pkt_pack_ok buf c l s a info payload :
  0 ≤ c ≤ 31 → 0 ≤ l ≤ PAYLOAD_MAXSIZE → 0 ≤ s < 65536 → 0 ≤ a < 65536 → is_byte info →
  (Z.to_nat l ≤ length payload)%nat → (8 + Z.to_nat l ≤ length buf)%nat →
  pkt_pack buf c l s a info payload =
  Some (l, header_bytes (mkHeader l s a info c) ++ take (Z.to_nat l) payload ++
           drop (8 + Z.to_nat l) buf).
Proof.
  intros Hc Hl Hs Ha Hi Hp Hb. rewrite pkt_pack_eq by lia.
  rewrite (u16_id s), (u16_id a), (u8_id info), (u8_id c) by (done || (unfold is_byte in *; lia)).
  destruct buf as [|b0 [|b1 [|b2 [|b3 [|b4 [|b5 [|b6 [|b7 buf]]]]]]]]; cbn in Hb; try lia.
  rewrite pkt_set_payload_ok
    by (done || (rewrite !length_app, !length_halfword; cbn; rewrite drop_0; lia)).
  unfold header_bytes, halfword. destruct byte_order; cbn -[Z.to_nat Z.div Z.modulo];
    by rewrite ?drop_0.
Qed.

Lemma pkt_invalid_header buf h :
  header_of buf = Some h → len h ≤ PAYLOAD_MAXSIZE → cmd h ≤ 31 → pkt_invalid buf = Some 0.
Proof.
  unfold header_of, pkt_invalid. intros Hh Hl Hc.
  repeat match type of Hh with
    mbind _ ?o = _ => destruct o; cbn [mbind option_bind] in *; [|done] end.
  injection Hh as <-. cbn in Hl, Hc. rewrite valid_cmd by done.
  assert (PKT_INVALID_LEN z = false) as -> by (by apply Z.ltb_ge). done.
Qed.

(** C39. A packet written by [pkt_pack] reads back: the call returns the
    payload length, the buffer passes [pkt_invalid], every field of the header
    has the value given, the payload follows the header and the bytes after it
    are untouched. *)
Theorem pkt_pack_roundtrip buf c l s a info payload :
  0 ≤ c ≤ 31 → 0 ≤ l ≤ PAYLOAD_MAXSIZE → 0 ≤ s < 65536 → 0 ≤ a < 65536 → is_byte info →
  (Z.to_nat l ≤ length payload)%nat → (8 + Z.to_nat l ≤ length buf)%nat →
  ∃ buf', pkt_pack buf c l s a info payload = Some (l, buf') ∧
    header_of buf' = Some (mkHeader l s a info c) ∧ pkt_invalid buf' = Some 0 ∧
    take (Z.to_nat l) (PKT_PAYLOADPTR buf') = take (Z.to_nat l) payload ∧
    drop (8 + Z.to_nat l) buf' = drop (8 + Z.to_nat l) buf.
Proof.
  intros Hc Hl Hs Ha Hi Hp Hb.
  eexists. split; [by apply pkt_pack_ok|].
  assert (length (header_bytes (mkHeader l s a info c)) = 8%nat) as Hl8
    by (unfold header_bytes; by rewrite !length_app, !length_halfword).
  assert (length (take (Z.to_nat l) payload) = Z.to_nat l) as Htl by (rewrite length_take; lia).
  assert (header_of (header_bytes (mkHeader l s a info c) ++ take (Z.to_nat l) payload ++
    drop (8 + Z.to_nat l) buf) = Some (mkHeader l s a info c)) as Hh.
  { apply header_of_bytes. unfold wf_header, is_byte, PAYLOAD_MAXSIZE in *. cbn. lia. }
  split_and!; [done|eapply pkt_invalid_header; [done|cbn; lia..]| |].
  - unfold PKT_PAYLOADPTR, PKT_HEADERSIZE. change (Z.to_nat 8) with 8%nat.
    rewrite drop_app_length' by done. by rewrite take_app_length'.
  - rewrite app_assoc, drop_app_length'; [done|]. rewrite length_app. lia.
Qed.

(** When [pkt_pack] refuses its arguments it returns -1, but the two
    refusals differ: a command above all the flags leaves the buffer as it
    was, while a payload above [PAYLOAD_MAXSIZE] is found only by
    [pkt_set_payload], after sequence number, acknowledgement and command
    have been written over the old ones; the old length and payload stay. *)
Theorem pkt_pack_refused buf c l s a info payload :
  (8 ≤ length buf)%nat → 31 < c ∨ PAYLOAD_MAXSIZE < l →
  pkt_pack buf c l s a info payload =
    Some (-1, if decide (31 < c) then buf
              else take 2 buf ++ halfword (u16 s) ++ halfword (u16 a) ++
                   [u8 info; u8 c] ++ drop 8 buf).
Proof.
  intros Hb Hbad. destruct (decide (31 < c)) as [Hc|Hc].
  - unfold pkt_pack. by rewrite invalid_cmd.
  - rewrite pkt_pack_eq by lia. unfold pkt_set_payload.
    assert (PKT_INVALID_LEN l = true) as -> by (apply Z.ltb_lt; lia). done.
Qed.

(** [PKT_HASCMD] tests the command byte with the logical [&&], so each of
    [PKT_SYN], [PKT_ACK], [PKT_FIN] and [PKT_RST] answers "is any command
    set" and none of them looks at its own bit: a pure SYN passes as an ACK,
    a FIN and a RST. *)
Theorem pkt_hascmd_any buf c :
  buf !! 7%nat = Some c →
  PKT_SYN buf = Some (negb (c =? 0)) ∧ PKT_ACK buf = Some (negb (c =? 0)) ∧
  PKT_FIN buf = Some (negb (c =? 0)) ∧ PKT_RST buf = Some (negb (c =? 0)).
Proof.
  intros Hc. unfold PKT_SYN, PKT_ACK, PKT_FIN, PKT_RST, PKT_HASCMD, PKT_GETCMD.
  rewrite Hc. cbn [mbind option_bind]. by rewrite !andb_true_r.
Qed.
End packing.

(** ** [srtp_cmdstr] *)

(** The reference: the names of the flags that are set, in the order the code
    tests them, joined by "+". *)
Definition flag_names : list (Z * list Z) :=
  [(RST, bytes_of_string "RST"); (SYN, bytes_of_string "SYN"); (FIN, bytes_of_string "FIN");
   (RDY, bytes_of_string "RDY"); (ACK, bytes_of_string "ACK")].

Fixpoint join_plus (l : list (list Z)) : list Z :=
  match l with
  | [] => []
  | [x] => x
  | x :: l => x ++ c_plus :: join_plus l
  end.

Definition set_names (command : Z) : list (list Z) :=
  snd <$> filter (λ p, Z.land command (fst p) ≠ 0) flag_names.

(** One flag of the table at a time. *)
Lemma filter_flag command (p : Z * list Z) l :
  filter (λ p, Z.land command (fst p) ≠ 0) (p :: l) =
  (if Z.land command (fst p) =? 0 then [] else [p]) ++
  filter (λ p, Z.land command (fst p) ≠ 0) l.
Proof. rewrite filter_cons. destruct (Z.eqb_spec (Z.land command p.1) 0); by case_decide. Qed.

(** [srtp_cmdstr] prints exactly the flags that are set, each once, in the
    fixed order RST, SYN, FIN, RDY, ACK and joined by "+"; whatever the
    command, the string and its terminator take at most 20 bytes, so the 32
    the header recommends for the buffer are enough. *)
Theorem srtp_cmdstr_spec command :
  srtp_cmdstr command = join_plus (set_names command) ∧
  (length (srtp_cmdstr command) + 1 ≤ 20)%nat.
Proof.
  unfold srtp_cmdstr, set_names, cat_flag, flag_names. rewrite !filter_flag. cbn [fst].
  destruct (Z.land command RST =? 0), (Z.land command SYN =? 0), (Z.land command FIN =? 0),
    (Z.land command RDY =? 0), (Z.land command ACK =? 0); cbn; split; (done || lia).
Qed.

(** ** Witnesses *)

(** The message of [tests/utils_test.cpp], sent with FIN+ACK. *)
Definition sample_text : list Z := bytes_of_string "Hello World!".
Definition sample_buf : list Z := replicate 32 165.

Local Existing Instance sample_host.

Lemma pkt_pack_roundtrip_witness :
  ∃ buf', pkt_pack sample_buf (Z.lor FIN ACK) 12 7 300 1 sample_text = Some (12, buf') ∧
    header_of buf' = Some (mkHeader 12 7 300 1 6) ∧ pkt_invalid buf' = Some 0 ∧
    take 12 (PKT_PAYLOADPTR buf') = take 12 sample_text ∧
    drop (8 + 12) buf' = drop (8 + 12) sample_buf.
Proof.
  apply (pkt_pack_roundtrip sample_buf (Z.lor FIN ACK) 12 7 300 1 sample_text);
    try (split; vm_compute; congruence); cbn; lia.
Defined.

(** A payload one byte too long: sequence number and acknowledgement are
    overwritten all the same. *)
Lemma pkt_pack_refused_witness :
  pkt_pack sample_buf ACK (PAYLOAD_MAXSIZE + 1) 7 300 1 [] =
    Some (-1, [165; 165; 7; 0; 44; 1; 1; 2] ++ replicate 24 165).
Proof.
  rewrite (pkt_pack_refused sample_buf ACK (PAYLOAD_MAXSIZE + 1) 7 300 1 []);
    [reflexivity | cbn; lia | right; vm_compute; reflexivity].
Defined.

Lemma pkt_hascmd_any_witness :
  PKT_ACK [0; 0; 0; 0; 0; 0; 0; SYN] = Some true.
Proof. apply (pkt_hascmd_any [0; 0; 0; 0; 0; 0; 0; SYN] SYN). reflexivity. Defined.

(** The two strings of [tests/utils_test.cpp]. *)
Example srtp_cmdstr_tests :
  srtp_cmdstr (Z.lor FIN ACK) = bytes_of_string "FIN+ACK" ∧
  srtp_cmdstr (Z.lor SYN RST) = bytes_of_string "RST+SYN".
Proof. done. Qed.
