(* ===== verification/CodecProps.v ===== *)
(** * CodecProps: packets survive the wire

    [create_packet] on the sending host against [get_seq_num] and [GETLEN] on
    the receiving one. *)
From S2P Require Import Prelude CMonad CLib Packet FtpWorld NetOps Samples.

(** C27. The wire format does not depend on the machines: a packet built by
    [create_packet] on a host of either byte order is read back exactly on a
    host of either byte order (command, sequence number, length and payload),
    also when it sits at the start of a larger receive buffer. *)
Theorem packet_roundtrip (H1 H2 : Host) (E : env) c s n p rest w :
  is_byte c → 0 ≤ s < 65536 → 0 ≤ n < 65536 → (Z.to_nat n ≤ length p)%nat →
  e_oom E (tick w) = false →
  ∃ packet w', @create_packet H1 E c s n (Some p) w = (Ok packet, w') ∧
    length packet = Z.to_nat (HEADER_SIZE + n) ∧
    (packet ++ rest) !! O = Some c ∧
    @get_seq_num H2 (packet ++ rest) = Some s ∧
    @GETLEN H2 (packet ++ rest) = Some n ∧
    take (Z.to_nat n) (payload_of (packet ++ rest)) = take (Z.to_nat n) p.
Proof.
  intros Hc Hs Hn Hp Hoom.
  assert (wp (@create_packet H1 E c s n (Some p))
    (λ a _, a = pkt c s (take (Z.to_nat n) p)) (λ _ _, False) w) as Hwp.
  { unfold create_packet. rewrite !(u16_id n), (u16_id s) by lia.
    wp_step. apply wp_malloc_ok; [done|]. intros w' b k _ Hb.
    do 2 wp_step. cbn [fst]. by rewrite fill_packet_pkt by (try done; size_lia). }
  unfold wp in Hwp. destruct (create_packet _ _ _ _ _ _) as [[packet|] w']; [|done].
  subst packet. eexists _, w'. split; [done|].
  assert (length (take (Z.to_nat n) p) = Z.to_nat n) as Hl by (rewrite length_take; lia).
  split_and!.
  - rewrite length_pkt, Hl. size_lia.
  - rewrite pkt_cmd. f_equal. by apply u8_id.
  - rewrite pkt_seq. f_equal. by apply u16_id.
  - rewrite pkt_len by lia. f_equal. lia.
  - etrans; [|apply pkt_payload]. by rewrite Hl.
Qed.

(** From a little-endian sender to a big-endian receiver. *)
Lemma packet_roundtrip_witness :
  ∃ packet w', @create_packet Little (sample_env sample_clock (λ _, nothing)) CMD_DATA 300 3
      (Some (bytes_of_string "abcdef")) sample_world = (Ok packet, w') ∧
    length packet = Z.to_nat (HEADER_SIZE + 3) ∧
    (packet ++ [9]) !! O = Some CMD_DATA ∧
    @get_seq_num Big (packet ++ [9]) = Some 300 ∧
    @GETLEN Big (packet ++ [9]) = Some 3 ∧
    take (Z.to_nat 3) (payload_of (packet ++ [9])) =
      take (Z.to_nat 3) (bytes_of_string "abcdef").
Proof.
  apply (packet_roundtrip Little Big (sample_env sample_clock (λ _, nothing)) CMD_DATA 300 3
    (bytes_of_string "abcdef") [9] sample_world);
    [split; vm_compute; congruence|lia|lia|cbn; lia|reflexivity].
Defined.

(** ** Printing commands *)

(** The commands of a byte, by computation. *)
Lemma command2str_table c c' :
  is_byte c → is_byte c' → command2str c = command2str c' → c = c'.
Proof.
  intros Hc Hc'.
  assert (NoDup (command2str <$> (Z.of_nat <$> seq 0 256))) as Hnd
    by (apply (bool_decide_unpack _); vm_compute; exact I).
  assert (∀ x, is_byte x → (command2str <$> (Z.of_nat <$> seq 0 256)) !! Z.to_nat x =
    Some (command2str x)) as Hat.
  { intros x Hx. unfold is_byte in Hx. rewrite !list_lookup_fmap, lookup_seq_lt by lia.
    cbn. by rewrite Z2Nat.id by lia. }
  intros He. pose proof (Hat c Hc) as Hi. pose proof (Hat c' Hc') as Hj. rewrite <- He in Hj.
  pose proof (NoDup_lookup _ _ _ _ Hnd Hi Hj). unfold is_byte in *. lia.
Qed.

(** The debug log is unambiguous and safe: [command2str] gives the 256
    command bytes pairwise different strings, each of which fits with its
    terminator in the 16 bytes of the static buffer. *)
Theorem command2str_faithful :
  (∀ c c', is_byte c → is_byte c' → command2str c = command2str c' → c = c') ∧
  (∀ c, (length (command2str c) + 1 ≤ 16)%nat).
Proof.
  split; [exact command2str_table|]. intros c.
  assert (Forall (λ c, length (command2str c) + 1 ≤ 16)%nat (Z.of_nat <$> seq 0 256)) as Hall
    by (apply (bool_decide_unpack _); vm_compute; exact I).
  rewrite Forall_forall in Hall.
  assert (command2str c = command2str (u8 c)) as -> by (unfold command2str; by rewrite (u8_id (u8 c)) by apply u8_range).
  apply Hall. apply list_elem_of_fmap. exists (Z.to_nat (u8 c)).
  assert (0 ≤ u8 c < 256) by (unfold u8; lia).
  split; [lia|]. apply elem_of_seq. lia.
Qed.
