(* ===== verification/ListProps.v ===== *)
(** * ListProps: runs of the linked list

    The operations of [list.h] in any order against the mathematical queue of
    the contents: the simulation behind [QueueLaws], lifted to whole runs. *)
From S2P Require Import Prelude CMonad Queue LinkedList.

(** The calls the programs make; the first and the last element are only
    looked at after the test for emptiness. *)
Inductive qop (D : Type) : Type :=
| OpAdd (ok : bool) (d : D)
| OpRemove
| OpIsEmpty
| OpSize
| OpFirst
| OpLast
| OpWalk.
Arguments OpAdd {D}.
Arguments OpRemove {D}.
Arguments OpIsEmpty {D}.
Arguments OpSize {D}.
Arguments OpFirst {D}.
Arguments OpLast {D}.
Arguments OpWalk {D}.

Inductive qout (D : Type) : Type :=
| OutNum (n : Z)
| OutUnit
| OutBool (b : bool)
| OutElem (d : option D)
| OutList (l : list D).
Arguments OutNum {D}.
Arguments OutUnit {D}.
Arguments OutBool {D}.
Arguments OutElem {D}.
Arguments OutList {D}.

Section runs.
Context {D : Type}.

(** The specification: contents in, answer and contents out. *)
Definition spec_op (o : qop D) (xs : list D) : qout D * list D :=
  match o with
  | OpAdd true d => (OutNum 0, xs ++ [d])
  | OpAdd false _ => (OutNum 1, xs)
  | OpRemove => (OutUnit, list.tail xs)
  | OpIsEmpty => (OutBool (bool_decide (xs = [])), xs)
  | OpSize => (OutNum (u32 (Z.of_nat (length xs))), xs)
  | OpFirst => (OutElem (list.head xs), xs)
  | OpLast => (OutElem (last xs), xs)
  | OpWalk => (OutList xs, xs)
  end.

Fixpoint spec_run (os : list (qop D)) (xs : list D) : list (qout D) * list D :=
  match os with
  | [] => ([], xs)
  | o :: os =>
      let '(a, xs) := spec_op o xs in
      let '(r, xs) := spec_run os xs in (a :: r, xs)
  end.

Section impl.
Context `{QueueOps Q D}.

Definition if_nonempty (m : M Q D) : M Q (qout D) :=
  e ← q_is_empty;
  if e : bool then mret (OutElem None) else (d ← m; mret (OutElem (Some d))).

Definition run_op (o : qop D) : M Q (qout D) :=
  match o with
  | OpAdd ok d => r ← q_add ok d; mret (OutNum r)
  | OpRemove => _ ← q_remove_front; mret OutUnit
  | OpIsEmpty => b ← q_is_empty; mret (OutBool b)
  | OpSize => n ← q_size; mret (OutNum n)
  | OpFirst => if_nonempty q_head
  | OpLast => if_nonempty q_tail
  | OpWalk => l ← q_walk; mret (OutList l)
  end.

Fixpoint run_ops (os : list (qop D)) : M Q (list (qout D)) :=
  match os with
  | [] => mret []
  | o :: os => a ← run_op o; r ← run_ops os; mret (a :: r)
  end.
End impl.

(** One step of the simulation, for any implementation of the interface. *)
Lemma run_op_sim `{HL : QueueLaws Q D} o (q : Q) xs :
  q_rep q xs →
  ∃ q', run_op o q = (Ok (spec_op o xs).1, q') ∧ q_rep q' (spec_op o xs).2.
Proof.
  intros Hq. unfold run_op, if_nonempty, mbind, M_bind, mret, M_ret. destruct o as [[] d| | | | | |].
  - destruct (q_add_ok q xs d Hq) as (q' & -> & Hq'). by exists q'.
  - rewrite (q_add_fail q xs d Hq). by exists q.
  - destruct (q_remove_front_ok q xs Hq) as (q' & -> & Hq'). by exists q'.
  - rewrite (q_is_empty_ok q xs Hq). by exists q.
  - rewrite (q_size_ok q xs Hq). by exists q.
  - rewrite (q_is_empty_ok q xs Hq). destruct xs as [|x xs]; [by exists q|]. cbn.
    rewrite (q_head_ok q x xs Hq). by exists q.
  - rewrite (q_is_empty_ok q xs Hq).
    destruct xs as [|x xs _] using rev_ind; [by exists q|].
    rewrite bool_decide_eq_false_2 by (by destruct xs). cbn.
    rewrite (q_tail_ok q x xs Hq), last_snoc. by exists q.
  - rewrite (q_walk_ok q xs Hq). by exists q.
Qed.

Lemma run_ops_sim `{HL : QueueLaws Q D} os (q : Q) xs :
  q_rep q xs →
  ∃ q', run_ops os q = (Ok (spec_run os xs).1, q') ∧ q_rep q' (spec_run os xs).2.
Proof.
  revert q xs. induction os as [|o os IH]; intros q xs Hq; cbn [run_ops spec_run]; [by exists q|].
  destruct (run_op_sim o q xs Hq) as (q1 & E1 & Hq1).
  destruct (spec_op o xs) as [a xs1]. cbn [fst snd] in *.
  destruct (IH q1 xs1 Hq1) as (q2 & E2 & Hq2).
  destruct (spec_run os xs1) as [r xs2]. cbn [fst snd] in *.
  exists q2. unfold mbind, M_bind, mret, M_ret. by rewrite E1, E2.
Qed.

(** The heap of a well-formed list holds its nodes and nothing else. *)
Lemma list_rep_heap (m : lmem D) xs : list_rep m xs → map_size (nodes m) = length xs.
Proof.
  intros (l & ls & _ & Hnd & Hdom & [Hl _] & _).
  rewrite <- Hl, <- (size_list_to_set (C := gset loc) ls) by done.
  by rewrite <- Hdom, size_dom.
Qed.

(** C26. The linked list is a queue: any sequence of calls on a fresh list,
    with [malloc] failing at will, runs without touching a null or dangling
    pointer, answers exactly what the mathematical queue answers, and neither
    leaks nor loses a node (the heap holds one node per element). *)
Theorem list_refines_queue (os : list (qop D)) :
  ∃ m, run_ops os (q_create (Q := lmem D) true) = (Ok (spec_run os []).1, m) ∧
    list_rep m (spec_run os []).2 ∧
    map_size (nodes m) = length (spec_run os []).2.
Proof.
  destruct (run_ops_sim os _ _ (q_create_ok (Q := lmem D))) as (m & E & Hm).
  exists m. split; [exact E|]. split; [exact Hm|]. by apply list_rep_heap.
Qed.
End runs.

(** The list at work. *)
Example list_run :
  (run_ops [OpAdd true 1; OpAdd true 2; OpAdd false 3; OpRemove; OpLast; OpRemove; OpFirst;
            OpAdd true 4; OpWalk; OpSize] (q_create (Q := lmem Z) true)).1 =
  Ok [OutNum 0; OutNum 0; OutNum 1; OutUnit; OutElem (Some 2); OutUnit; OutElem None;
      OutNum 0; OutList [4]; OutNum 1].
Proof. vm_compute. reflexivity. Qed.
