(* ===== verification/SrtpWorld.v ===== *)
(** * SrtpWorld: a process that uses the SRTP library

    The globals of [srtp/srtp_impl.cpp] (the connection tables, the queue of
    new connections, the counter of fifo names), the connection structures on
    the heap, and the operating system below them.  As for the file-transfer
    programs, the system is a parameter that answers the [k]-th call. *)
From S2P Require Import Prelude CMonad CLib Packet.

(** [struct sockaddr_in] is 16 bytes: family, port (at 2), address (at 4). *)
Abbreviation sockaddr := (list Z).
Definition SOCKADDR_SIZE : Z := 16.

Record timeval : Type := mkTime { tv_sec : Z; tv_usec : Z }.

(** [struct Mesg_t]. *)
Record Mesg_t : Type := mkMesg { mesg : list Z; m_len : Z; m_seq : Z }.

(** [struct Conn_t]. *)
Record Conn_t : Type := mkConn {
  tid : Z;
  fifo : Z;
  filename : list Z;
  sock : Z;
  addr : sockaddr;
  addr_len : Z;
  sequence : Z;
  inbox : list Mesg_t;
}.

Definition set_tid (v : Z) (c : Conn_t) : Conn_t :=
  mkConn v (fifo c) (filename c) (sock c) (addr c) (addr_len c) (sequence c) (inbox c).
Definition set_sock (v : Z) (c : Conn_t) : Conn_t :=
  mkConn (tid c) (fifo c) (filename c) v (addr c) (addr_len c) (sequence c) (inbox c).
Definition set_addr (v : sockaddr) (c : Conn_t) : Conn_t :=
  mkConn (tid c) (fifo c) (filename c) (sock c) v (addr_len c) (sequence c) (inbox c).
Definition set_addr_len (v : Z) (c : Conn_t) : Conn_t :=
  mkConn (tid c) (fifo c) (filename c) (sock c) (addr c) v (sequence c) (inbox c).
Definition set_sequence (v : Z) (c : Conn_t) : Conn_t :=
  mkConn (tid c) (fifo c) (filename c) (sock c) (addr c) (addr_len c) v (inbox c).
Definition set_inbox (v : list Mesg_t) (c : Conn_t) : Conn_t :=
  mkConn (tid c) (fifo c) (filename c) (sock c) (addr c) (addr_len c) (sequence c) v.

(** ** The system *)

Inductive udp_result : Type :=
| UdpErr
| UdpFrom (d : list Z) (src : sockaddr).

Record sys : Type := mkSys {
  s_time : nat → timeval;            (** [gettimeofday] *)
  s_write : nat → Z;                 (** [write]: negative, or what it accepts *)
  s_read : nat → option (list Z);    (** [read]: [None] is -1 *)
  s_sendto : nat → Z;                (** [sendto]: negative, or what it accepts *)
  s_recvfrom : nat → udp_result;     (** [recvfrom] *)
  s_mkfifo : nat → Z;                (** [mkfifo]: 0 or an error *)
  s_open : nat → Z;                  (** [open]: a descriptor or -1 *)
  s_socket : nat → Z;                (** [socket] *)
  s_bind : nat → Z;                  (** [bind] *)
  s_connect : nat → Z;               (** [connect] *)
  s_fstat : nat → Z → Z;             (** [fstat] of a descriptor *)
  s_thread : nat → Z;                (** the id [pthread_create] stores *)
  s_new : nat → Conn_t;              (** what [new Conn_t] leaves in the scalar members *)
  s_stack : nat → nat → Z;           (** what is on the stack *)
}.

Inductive proxy : Type := ServerProxy | ClientProxy.

Inductive effect : Type :=
| FxWrite (fd : Z) (d : list Z)
| FxSendto (fd : Z) (dst : sockaddr) (d : list Z)
| FxMkfifo (name : list Z)
| FxUnlink (name : list Z)
| FxClose (fd : Z)
| FxBind (fd : Z) (a : sockaddr)
| FxConnect (fd : Z) (a : sockaddr)
| FxThread (p : proxy) (fd : Z)
| FxCancel (tid : Z).

Abbreviation loc := positive.

Record lib : Type := mkLib {
  calls : nat;
  hash2fd : gmap Z Z;
  fd2conn : gmap Z (option loc);   (** [None] is a null pointer *)
  conns : gmap loc Conn_t;
  new_conns : list Z;
  fifo_id : Z;
  srtp_packet_debug : bool;
  effects : list effect;           (** newest first *)
}.

Definition set_calls (n : nat) (s : lib) : lib :=
  mkLib n (hash2fd s) (fd2conn s) (conns s) (new_conns s) (fifo_id s) (srtp_packet_debug s) (effects s).
Definition set_hash2fd (m : gmap Z Z) (s : lib) : lib :=
  mkLib (calls s) m (fd2conn s) (conns s) (new_conns s) (fifo_id s) (srtp_packet_debug s) (effects s).
Definition set_fd2conn (m : gmap Z (option loc)) (s : lib) : lib :=
  mkLib (calls s) (hash2fd s) m (conns s) (new_conns s) (fifo_id s) (srtp_packet_debug s) (effects s).
Definition set_conns (m : gmap loc Conn_t) (s : lib) : lib :=
  mkLib (calls s) (hash2fd s) (fd2conn s) m (new_conns s) (fifo_id s) (srtp_packet_debug s) (effects s).
Definition set_new_conns (q : list Z) (s : lib) : lib :=
  mkLib (calls s) (hash2fd s) (fd2conn s) (conns s) q (fifo_id s) (srtp_packet_debug s) (effects s).
Definition set_fifo_id (n : Z) (s : lib) : lib :=
  mkLib (calls s) (hash2fd s) (fd2conn s) (conns s) (new_conns s) n (srtp_packet_debug s) (effects s).
Definition set_debug (b : bool) (s : lib) : lib :=
  mkLib (calls s) (hash2fd s) (fd2conn s) (conns s) (new_conns s) (fifo_id s) b (effects s).
Definition act (e : effect) (s : lib) : lib :=
  mkLib (calls s) (hash2fd s) (fd2conn s) (conns s) (new_conns s) (fifo_id s) (srtp_packet_debug s)
    (e :: effects s).

Abbreviation L := (M lib).

Section system_calls.
Context (E : sys).

Definition sys_call : L nat := λ s, (Ok (calls s), set_calls (S (calls s)) s).

Definition sys_sleep : L unit := _ ← sys_call; mret tt.
Definition sys_time : L timeval := k ← sys_call; mret (s_time E k).

(** How much of [n] bytes a call accepts when the system answers [r]. *)
Definition accepted (r : Z) (n : nat) : Z := if r <? 0 then -1 else Z.min r (Z.of_nat n).

Definition sys_write (fd : Z) (d : list Z) : L Z :=
  k ← sys_call;
  let r := accepted (s_write E k) (length d) in
  _ ← modify (if r <? 0 then id else act (FxWrite fd (take (Z.to_nat r) d)));
  mret r.

(** [read(fd, _, n)]: the result and the bytes it stores. *)
Definition sys_read (n : Z) : L (Z * list Z) :=
  k ← sys_call;
  match s_read E k with
  | None => mret (-1, [])
  | Some d => let d := take (Z.to_nat n) d in mret (Z.of_nat (length d), d)
  end.

Definition sys_sendto (fd : Z) (dst : sockaddr) (d : list Z) : L Z :=
  k ← sys_call;
  let r := accepted (s_sendto E k) (length d) in
  _ ← modify (if r <? 0 then id else act (FxSendto fd dst (take (Z.to_nat r) d)));
  mret r.

Definition sys_recvfrom (n : Z) : L (Z * list Z * option sockaddr) :=
  k ← sys_call;
  match s_recvfrom E k with
  | UdpErr => mret (-1, [], None)
  | UdpFrom d src => let d := take (Z.to_nat n) d in mret (Z.of_nat (length d), d, Some src)
  end.

Definition sys_mkfifo (name : list Z) : L Z :=
  k ← sys_call;
  _ ← modify (if s_mkfifo E k =? 0 then act (FxMkfifo name) else id);
  mret (s_mkfifo E k).

Definition sys_open : L Z := k ← sys_call; mret (s_open E k).
Definition sys_unlink (name : list Z) : L unit := _ ← sys_call; modify (act (FxUnlink name)).
Definition sys_close (fd : Z) : L unit := _ ← sys_call; modify (act (FxClose fd)).
Definition sys_socket : L Z := k ← sys_call; mret (s_socket E k).
Definition sys_fstat (fd : Z) : L Z := k ← sys_call; mret (s_fstat E k fd).

Definition sys_bind (fd : Z) (a : sockaddr) : L Z :=
  k ← sys_call;
  _ ← modify (if s_bind E k =? -1 then id else act (FxBind fd a));
  mret (s_bind E k).

Definition sys_connect (fd : Z) (a : sockaddr) : L Z :=
  k ← sys_call;
  _ ← modify (if s_connect E k =? -1 then id else act (FxConnect fd a));
  mret (s_connect E k).

(** [pthread_create]: the new thread id. *)
Definition sys_thread (p : proxy) (fd : Z) : L Z :=
  k ← sys_call;
  _ ← modify (act (FxThread p fd));
  mret (s_thread E k).

Definition sys_cancel (t : Z) : L unit := _ ← sys_call; modify (act (FxCancel t)).

(** An uninitialised buffer on the stack. *)
Definition stack_buffer (n : nat) : L (list Z) :=
  k ← sys_call; mret (u8 <$> (s_stack E k <$> seq 0 n)).

(** ** The tables *)

(** [hash2fd[h]] and [fd2conn[fd]]: [operator[]] of [std::map] inserts a
    default value, 0 or a null pointer, for a key that is not there. *)
Definition hash2fd_at (h : Z) : L Z :=
  m ← gets hash2fd;
  match m !! h with
  | Some fd => mret fd
  | None => _ ← modify (set_hash2fd (<[h := 0]> m)); mret 0
  end.

Definition fd2conn_at (fd : Z) : L (option loc) :=
  m ← gets fd2conn;
  match m !! fd with
  | Some p => mret p
  | None => _ ← modify (set_fd2conn (<[fd := None]> m)); mret None
  end.

(** [std::map::insert]: nothing happens when the key is there. *)
Definition hash2fd_insert (h fd : Z) : L unit :=
  m ← gets hash2fd;
  match m !! h with
  | Some _ => mret tt
  | None => modify (set_hash2fd (<[h := fd]> m))
  end.

Definition fd2conn_insert (fd : Z) (p : loc) : L unit :=
  m ← gets fd2conn;
  match m !! fd with
  | Some _ => mret tt
  | None => modify (set_fd2conn (<[fd := Some p]> m))
  end.

(** [*conn], and an assignment to a member of it. *)
Definition get_conn (p : option loc) : L Conn_t :=
  p ← defined NullDeref p;
  h ← gets conns;
  defined DanglingPointer (h !! p).

Definition upd_conn (p : option loc) (f : Conn_t → Conn_t) : L unit :=
  p ← defined NullDeref p;
  h ← gets conns;
  c ← defined DanglingPointer (h !! p);
  modify (set_conns (<[p := f c]> h)).
End system_calls.
