(* ===== verification/SrtpIO.v ===== *)
(** * SrtpIO: sending and receiving in [srtp/srtp_impl.cpp]

    The loops around [write], [read] and [sendto], the handshake of
    [establish_conn] and the stop-and-wait sender [send_srtp_data]. *)
From S2P Require Import Prelude CMonad CLib Packet SrtpHeader SrtpWorld.
Import Srtp.

Section io.
Context `{Host} (E : sys) (fuel : nat).

(** [do ... while (sent > 0 && (size_t) sent < length)]: an error that
    follows a short write is added to the count as -1. *)
Definition srtp_write (fd : Z) (buffer : list Z) (length0 : Z) : L Z :=
  if Z.of_nat (length buffer) <? length0 then crash OutOfBounds
  else
    loop fuel (λ sent,
      r ← sys_write E fd (take (Z.to_nat (length0 - sent)) (drop (Z.to_nat sent) buffer));
      let sent := sent + r in
      mret (if (0 <? sent) && (sent <? length0) then inl sent else inr sent)) 0.

Definition srtp_sendto (fd : Z) (message : list Z) (length0 : Z) (dest : sockaddr) : L Z :=
  if Z.of_nat (length message) <? length0 then crash OutOfBounds
  else
    loop fuel (λ sent,
      r ← sys_sendto E fd dest (take (Z.to_nat (length0 - sent)) (drop (Z.to_nat sent) message));
      let sent := sent + r in
      mret (if (0 <? sent) && (sent <? length0) then inl sent else inr sent)) 0.

(** The body of the loop of [srtp_read], and the loop: the count and the
    buffer. *)
Definition read_step (length0 : Z) (x : Z * list Z) : L ((Z * list Z) + (Z * list Z)) :=
  let '(recvd, buffer) := x in
  r ← sys_read E (length0 - recvd);
  buffer ← defined OutOfBounds
    (memcpy buffer (Z.to_nat recvd) r.2 (Z.of_nat (length r.2)));
  let recvd := recvd + r.1 in
  mret (if (0 <? recvd) && (recvd <? length0) then inl (recvd, buffer)
        else inr (recvd, buffer)).

Definition srtp_read (buffer : list Z) (length0 : Z) : L (Z * list Z) :=
  loop fuel (read_step length0) (0, buffer).

(** The acknowledgement: [ack] and [cmdinfo] are left as they are on the
    stack. *)
Definition send_ack_to (fd seq0 : Z) (dest : sockaddr) : L unit :=
  head ← stack_buffer E (Z.to_nat PKT_HEADERSIZE);
  head ← defined OutOfBounds (PKT_SETCMD head ACK);
  head ← defined OutOfBounds (PKT_SETLEN head 0);
  head ← defined OutOfBounds (PKT_SETSEQ head seq0);
  _ ← srtp_sendto fd head PKT_HEADERSIZE dest;
  mret tt.

(** [dt = (t2.tv_sec - t1.tv_sec) * 1000000U + (t2.tv_usec - t1.tv_usec)]:
    the signed difference stored in an [unsigned long]. *)
Definition elapsed (t2 t1 : timeval) : Z :=
  u64 ((tv_sec t2 - tv_sec t1) * 1000000 + (tv_usec t2 - tv_usec t1)).

(** The packet with command [c], sequence number [s] and length [l] in
    [buff]. *)
Definition stamp (buff : list Z) (c s l : Z) : L (list Z) :=
  buff ← defined OutOfBounds (PKT_SETCMD buff c);
  buff ← defined OutOfBounds (PKT_SETSEQ buff s);
  defined OutOfBounds (PKT_SETLEN buff l).

(** [srtp_read(sock, buff, PKT_HEADERSIZE) == PKT_HEADERSIZE] and the test of
    the acknowledgement. *)
Definition got_ack (buff : list Z) (seq0 : Z) : L (bool * list Z) :=
  r ← srtp_read buff PKT_HEADERSIZE;
  let '(n, buff) := r in
  if u64 n =? PKT_HEADERSIZE then
    a ← defined OutOfBounds (PKT_ACK buff);
    if a : bool then
      k ← defined OutOfBounds (PKT_GETACK buff);
      mret (k =? seq0, buff)
    else mret (false, buff)
  else mret (false, buff).

(** How the inner loop of the two senders is left. *)
Inductive leave : Type :=
| Break          (** [break], which leaves the inner loop only *)
| Resend         (** [goto] the label at the start of the outer loop *)
| Return (v : Z).

Definition establish_poll (t2 : timeval) (x : list Z * Z) :
    L ((list Z * Z) + (leave * list Z * Z)) :=
  let '(buff, total_msec) := x in
  r ← got_ack buff 0;
  let '(ok, buff) := r in
  if ok : bool then mret (inr (Break, buff, total_msec))
  else
    t1 ← sys_time E;
    let dt := elapsed t2 t1 in
    let total_msec := u64 (total_msec + dt / 1000) in
    if CONNECT_TIMEOUT <? total_msec then mret (inr (Return (-1), buff, total_msec))
    else if RETRY_TIMEOUT_BASE * 1000 <? dt then mret (inr (Resend, buff, total_msec))
    else _ ← sys_sleep; mret (inl (buff, total_msec)).

(** One round of the outer [while(1)] loop: a [break] of the inner loop and
    the [goto] both start the next round, only a [return] leaves it. *)
Definition establish_round (fd : Z) (x : list Z * Z) : L ((list Z * Z) + (leave * list Z)) :=
  let '(buff, total_msec) := x in
  buff ← stamp buff SYN 0 0;
  _ ← srtp_write fd buff PKT_HEADERSIZE;
  t2 ← sys_time E;
  r ← loop fuel (establish_poll t2) (buff, total_msec);
  let '(how, buff, total_msec) := r in
  match how with
  | Return v => mret (inr (Return v, buff))
  | _ => mret (inl (buff, total_msec))
  end.

(** After the loop comes the final ACK, for a handshake that succeeded. *)
Definition establish_conn (fd : Z) : L Z :=
  buff ← stack_buffer E (Z.to_nat PKT_HEADERSIZE);
  r ← loop fuel (establish_round fd) (buff, 0);
  let '(how, buff) := r in
  match how with
  | Return v => mret v
  | _ =>
      buff ← defined OutOfBounds (PKT_SETCMD buff ACK);
      buff ← defined OutOfBounds (PKT_SETSEQ buff 0);
      buff ← defined OutOfBounds (PKT_SETACK buff 0);
      buff ← defined OutOfBounds (PKT_SETLEN buff 0);
      _ ← srtp_write fd buff PKT_HEADERSIZE;
      mret 0
  end.

Definition shutdown_conn (fd how : Z) : L Z := mret 0.

Definition send_poll (t2 : timeval) (buff : list Z) : L (list Z + (leave * list Z)) :=
  r ← got_ack buff 0;
  let '(ok, buff) := r in
  if ok : bool then mret (inr (Break, buff))
  else
    t1 ← sys_time E;
    let dt := elapsed t2 t1 in
    if RETRY_TIMEOUT_BASE * 1000 <? dt then mret (inr (Resend, buff))
    else _ ← sys_sleep; mret (inl buff).

(** [seq] stays 0 throughout; the header built in [buff] is never sent,
    [data] is.  [total_msec] is computed but not used, and [sent] is an [int]:
    the callers pass at most 2048 bytes, so that it holds the count. *)
Definition send_round (fd : Z) (data : list Z) (len0 : Z) (x : list Z * Z) :
    L ((list Z * Z) + (leave * Z)) :=
  let '(buff, _) := x in
  buff ← stamp buff SYN 0 len0;
  sent ← srtp_write fd data len0;
  if sent <? 0 then mret (inr (Return (-1), sent))
  else
    t2 ← sys_time E;
    r ← loop fuel (send_poll t2) buff;
    let '(how, buff) := r in
    match how with
    | Return v => mret (inr (Return v, sent))
    | _ => mret (inl (buff, sent))
    end.

Definition send_srtp_data (fd : Z) (data : list Z) (len0 : Z) : L Z :=
  buff ← stack_buffer E (Z.to_nat PKT_HEADERSIZE);
  r ← loop fuel (send_round fd data len0) (buff, 0);
  let '(how, sent) := r in
  match how with
  | Return v => mret v
  | _ => mret sent
  end.
End io.
