(* ===== verification/SrtpConn.v ===== *)
(** * SrtpConn: connections and socket calls of the SRTP library

    The connection layer of [srtp/srtp_impl.cpp]: the receiver that sorts
    datagrams into connections, the two worker threads and the socket calls,
    and the interface of [srtp/srtp.cpp] (built without [USE_STD_TCP]).
    A worker thread is the function it runs; the library takes no locks, and
    the definitions here are its sequential behaviour. *)
From S2P Require Import Prelude CMonad CLib Packet SrtpHeader SrtpWorld SrtpIO.
Import Srtp.

Definition FIFO_BUFFER : Z := 2048.

Section conn.
Context `{Host} (E : sys) (fuel : nat).

(** [a->sin_addr.s_addr], for [a] seen as a [struct sockaddr_in]. *)
Definition s_addr (a : sockaddr) : option Z :=
  b0 ← a !! 4%nat; b1 ← a !! 5%nat; b2 ← a !! 6%nat; b3 ← a !! 7%nat;
  Some (match byte_order with
        | Little => b0 + 256 * (b1 + 256 * (b2 + 256 * b3))
        | Big => b3 + 256 * (b2 + 256 * (b1 + 256 * b0)) end).

(** The place of a message in the inbox: before the first one with a larger
    sequence number. *)
Fixpoint inbox_insert (m : Mesg_t) (l : list Mesg_t) : list Mesg_t :=
  match l with
  | [] => [m]
  | x :: l => if m_seq m <? m_seq x then m :: x :: l else x :: inbox_insert m l
  end.

(** The bytes at [buffer + sizeof(srtp_header_t)], where [buffer] already
    points behind the header. *)
Definition message_at (packet : list Z) (n : Z) : option (list Z) :=
  let from := Z.to_nat (PKT_HEADERSIZE + PKT_HEADERSIZE) in
  if decide (from + Z.to_nat n ≤ length packet)%nat
  then Some (take (Z.to_nat n) (drop from packet)) else None.

Definition handle_data_pkt (packet : list Z) (conn : option loc) : L Z :=
  match conn with
  | None => mret 1
  | Some _ =>
      c ← get_conn conn;
      s ← defined OutOfBounds (PKT_GETSEQ packet);
      n ← defined OutOfBounds (PKT_GETLEN packet);
      d ← defined OutOfBounds (message_at packet n);
      if sequence c =? s then
        _ ← sys_write E (fifo c) d;
        _ ← upd_conn conn (set_sequence (u32 (sequence c + 1)));
        mret 0
      else
        _ ← upd_conn conn (set_inbox (inbox_insert (mkMesg d n s) (inbox c)));
        mret 0
  end.

(** The replies of [handle_cmd_pkt] are comments in the source. *)
Definition handle_cmd_pkt (packet : list Z) : L Z :=
  _ ← defined OutOfBounds (PKT_GETCMD packet);
  _ ← defined OutOfBounds (PKT_GETSEQ packet);
  mret 0.

(** [sprintf(filename, "tmpfifo%05d", n)]. *)
Definition fifo_name (n : Z) : list Z :=
  let s := dec 20 n in
  bytes_of_string "tmpfifo" ++ replicate (5 - length s) 48 ++ s.

(** Names are tried until [mkfifo] accepts one. *)
Definition next_fifo : L (list Z) :=
  loop fuel (λ _ : unit,
    n ← gets fifo_id;
    if INT_MAX <=? n then crash SignedOverflow
    else
      _ ← modify (set_fifo_id (n + 1));
      errcode ← sys_mkfifo E (fifo_name n);
      mret (if errcode =? 0 then inr (fifo_name n) else inl tt)) tt.

(** [new Conn_t]: the list is empty, the other members are what the heap
    holds. *)
Definition new_conn (fd : Z) (name : list Z) : L loc :=
  k ← sys_call;
  h ← gets conns;
  let p := fresh (dom h) in
  let c := s_new E k in
  _ ← modify (set_conns (<[p := mkConn (tid c) fd name (sock c)
       (take (Z.to_nat SOCKADDR_SIZE) (addr c ++ replicate (Z.to_nat SOCKADDR_SIZE) 0))
       (addr_len c) (sequence c) []]> h));
  mret p.

Definition _srtp_socket : L Z :=
  name ← next_fifo;
  fd ← sys_open E;
  if fd <? 0 then _ ← sys_unlink name; mret (-1)
  else
    p ← new_conn fd name;
    _ ← fd2conn_insert fd p;
    mret fd.

(** One iteration of the [while ( 1 )] loop of [recv_srtp_data] on the socket
    [sock0]: [buffer] and [addr0] are what its pointer arguments point to.
    [server_proxy] leaves [*addr_len] uninitialised before the first
    [recvfrom], which stores the 16 bytes of an IPv4 address there; the model
    is of a run where the first value leaves room for the address. *)
Definition recv_step (sock0 : Z) (x : list Z * sockaddr) :
    L ((list Z * sockaddr) + (list Z * sockaddr)) :=
  let '(buffer, addr0) := x in
  r ← sys_recvfrom E FIFO_BUFFER;
  let '(n, d, src) := r in
  match src with
  | None => mret (inl (buffer, addr0))
  | Some a =>
      buffer ← defined OutOfBounds (memcpy buffer 0 d (Z.of_nat (length d)));
      h ← defined OutOfBounds (s_addr a);
      fd ← hash2fd_at h;
      conn ← fd2conn_at fd;
      conn ← (match conn with
              | Some _ => mret conn
              | None =>
                  fd ← _srtp_socket;
                  conn ← fd2conn_at fd;
                  c ← get_conn conn;
                  a' ← defined OutOfBounds (memcpy (addr c) 0 a SOCKADDR_SIZE);
                  _ ← upd_conn conn (λ c, set_addr_len FIFO_BUFFER (set_addr a' c));
                  _ ← hash2fd_insert h fd;
                  mret conn
              end);
      l ← defined OutOfBounds (PKT_GETLEN buffer);
      if 0 <? l then
        _ ← handle_data_pkt buffer conn;
        s ← defined OutOfBounds (PKT_GETSEQ buffer);
        _ ← send_ack_to E fuel sock0 s a;
        mret (inl (buffer, a))
      else
        _ ← handle_cmd_pkt buffer;
        mret (inl (buffer, a))
  end.

Definition recv_srtp_data (sock0 : Z) (buffer : list Z) (addr0 : sockaddr) :
    L (Z * list Z * sockaddr) :=
  x ← loop fuel (recv_step sock0) (buffer, addr0);
  mret (0, x.1, x.2).

(** ** The worker threads *)

Definition server_proxy (fifo_fd : Z) : L unit :=
  conn ← fd2conn_at fifo_fd;
  buffer ← stack_buffer E (Z.to_nat FIFO_BUFFER);
  src ← stack_buffer E (Z.to_nat SOCKADDR_SIZE);
  loop fuel (λ x : list Z * sockaddr,
    let '(buffer, src) := x in
    c ← get_conn conn;
    r ← recv_srtp_data (sock c) buffer src;
    let '(n, buffer, src) := r in
    if n <? 0 then mret (inr tt)
    else
      h ← defined OutOfBounds (s_addr src);
      m ← gets hash2fd;
      match m !! h with
      | None =>
          fd ← _srtp_socket;
          conn ← fd2conn_at fd;
          c ← get_conn conn;
          a ← defined OutOfBounds (memcpy (addr c) 0 src SOCKADDR_SIZE);
          _ ← upd_conn conn (λ c, set_addr_len SOCKADDR_SIZE (set_addr a c));
          _ ← sys_write E fd (take (Z.to_nat n) buffer);
          q ← gets new_conns;
          _ ← modify (set_new_conns (q ++ [fd]));
          _ ← hash2fd_insert h fd;
          mret (inl (buffer, src))
      | Some fd =>
          _ ← sys_write E fd (take (Z.to_nat n) buffer);
          mret (inl (buffer, src))
      end) (buffer, src).

Definition client_proxy (fifo_fd : Z) : L unit :=
  conn ← fd2conn_at fifo_fd;
  loop fuel (λ _ : unit,
    r ← sys_read E FIFO_BUFFER;
    let '(n, d) := r in
    if 0 <? n then
      c ← get_conn conn;
      sent ← send_srtp_data E fuel (sock c) d n;
      mret (if sent <? 0 then inr tt else inl tt)
    else mret (inr tt)) tt.

(** ** The socket calls *)

Definition isValidFD (fd : Z) : L bool := r ← sys_fstat E fd; mret (r =? 0).

Definition isOpenSRTPSock (fd : Z) : L bool :=
  v ← isValidFD fd;
  if v : bool then m ← gets fd2conn; mret (bool_decide (is_Some (m !! fd)))
  else mret false.

Definition isValidIPAddress (a : option sockaddr) (len0 : Z) : bool :=
  bool_decide (is_Some a) && (0 <? len0).

Definition _srtp_listen (fifo_fd : Z) : L Z :=
  o ← isOpenSRTPSock fifo_fd;
  if negb o then mret (-1)
  else
    conn ← fd2conn_at fifo_fd;
    s ← sys_socket E;
    _ ← upd_conn conn (set_sock s);
    c ← get_conn conn;
    if negb (isValidIPAddress (Some (addr c)) (addr_len c)) then mret (-1)
    else
      bret ← sys_bind E (sock c) (addr c);
      if bret =? -1 then mret bret
      else
        t ← sys_thread E ServerProxy fifo_fd;
        _ ← upd_conn conn (set_tid t);
        mret 0.

Definition _srtp_bind (socket : Z) (address : option sockaddr) (address_len : Z) : L Z :=
  o ← isOpenSRTPSock socket;
  if negb o then mret (-1)
  else if negb (isValidIPAddress address address_len) then mret (-1)
  else
    conn ← fd2conn_at socket;
    c ← get_conn conn;
    a ← defined NullDeref address;
    a ← defined OutOfBounds (memcpy (addr c) 0 a address_len);
    _ ← upd_conn conn (λ c, set_addr_len address_len (set_addr a c));
    mret 0.

(** [address] is the caller's structure with its length, or null; the result
    holds what the call stores in it. *)
Definition _srtp_accept (socket : Z) (address : option (sockaddr * Z)) : L (Z * option sockaddr) :=
  o ← isOpenSRTPSock socket;
  if negb o then mret (-1, fst <$> address)
  else
    _ ← loop fuel (λ _ : unit,
      q ← gets new_conns;
      match q with
      | [] => _ ← sys_sleep; mret (inl tt)
      | _ => mret (inr tt)
      end) tt;
    q ← gets new_conns;
    fd ← defined OutOfBounds (list.head q);
    _ ← modify (set_new_conns (list.tail q));
    conn ← fd2conn_at fd;
    match address with
    | None => mret (fd, None)
    | Some (a, n) =>
        c ← get_conn conn;
        a ← defined OutOfBounds (memcpy a 0 (addr c) (addr_len c));
        _ ← upd_conn conn (set_addr_len n);
        mret (fd, Some a)
    end.

Definition _srtp_connect (fifo_fd : Z) (address : option sockaddr) (address_len : Z) : L Z :=
  o ← isOpenSRTPSock fifo_fd;
  if negb o then mret (-1)
  else if negb (isValidIPAddress address address_len) then mret (-1)
  else
    srtp_sock ← sys_socket E;
    a ← defined NullDeref address;
    cret ← sys_connect E srtp_sock a;
    if cret =? -1 then mret cret
    else
      conn ← fd2conn_at fifo_fd;
      c ← get_conn conn;
      a ← defined OutOfBounds (memcpy (addr c) 0 a address_len);
      _ ← upd_conn conn (λ c, set_sock srtp_sock (set_addr a c));
      r ← establish_conn E fuel srtp_sock;
      if negb (r =? 0) then _ ← sys_close srtp_sock; mret (-1)
      else
        t ← sys_thread E ClientProxy fifo_fd;
        _ ← upd_conn conn (set_tid t);
        mret 0.

(** [tid] is whatever [new Conn_t] left in it until a thread is started.
    Cancelling and joining the thread is one effect. *)
Definition _srtp_close (socket : Z) : L Z :=
  o ← isOpenSRTPSock socket;
  if negb o then mret (-1)
  else
    _ ← sys_sleep;
    _ ← sys_close socket;
    conn ← fd2conn_at socket;
    c ← get_conn conn;
    _ ← (if tid c =? 0 then mret tt
         else
           _ ← shutdown_conn (sock c) 0;
           _ ← sys_close (sock c);
           sys_cancel (tid c));
    _ ← sys_unlink (filename c);
    p ← defined NullDeref conn;
    modify (λ s, set_conns (delete p (conns s)) (set_fd2conn (delete socket (fd2conn s)) s)) ;;
    mret 0.

Definition _srtp_debug (enable : bool) : L unit := modify (set_debug enable).

(** ** [srtp.cpp] *)

Definition srtp_socket : L Z := _srtp_socket.
Definition srtp_listen (socket : Z) : L Z := _srtp_listen socket.
Definition srtp_accept (socket : Z) (address : option (sockaddr * Z)) : L (Z * option sockaddr) :=
  _srtp_accept socket address.
Definition srtp_connect (socket : Z) (address : option sockaddr) (address_len : Z) : L Z :=
  _srtp_connect socket address address_len.
Definition srtp_close (socket : Z) : L Z := _srtp_close socket.
Definition srtp_debug (enable : bool) : L unit := _srtp_debug enable.

(** The port in the caller's structure is converted in place. *)
Definition srtp_bind (socket : Z) (address : option sockaddr) (address_len : Z) :
    L (Z * option sockaddr) :=
  a ← defined NullDeref address;
  p ← defined OutOfBounds (load16 a 2);
  a ← defined OutOfBounds (store16 2 (ntohs p) a);
  r ← _srtp_bind socket (Some a) address_len;
  mret (r, Some a).
End conn.
