(* ===== verification/SrtpIOProps.v ===== *)
(** * SrtpIOProps: what the senders of the SRTP library do *)
From S2P Require Import Prelude CMonad CLib Packet SrtpHeader SrtpHeaderProps SrtpWorld SrtpIO Samples.
Import Srtp.

(** ** Frames

    [talks K s s']: from [s] to [s'] the process made calls whose effects
    satisfy [K], and left the tables of the library alone. *)
Definition talks (K : effect → Prop) (s s' : lib) : Prop :=
  (calls s ≤ calls s')%nat ∧ hash2fd s' = hash2fd s ∧ fd2conn s' = fd2conn s ∧
  conns s' = conns s ∧ new_conns s' = new_conns s ∧ fifo_id s' = fifo_id s ∧
  srtp_packet_debug s' = srtp_packet_debug s ∧
  ∃ new, effects s' = new ++ effects s ∧ Forall K new.

Lemma talks_refl K s : talks K s s.
Proof. split_and!; try done. by exists []. Qed.

Lemma talks_trans K s1 s2 s3 : talks K s1 s2 → talks K s2 s3 → talks K s1 s3.
Proof.
  intros (?&?&?&?&?&?&?&n1&E1&F1) (?&?&?&?&?&?&?&n2&E2&F2). split_and!; try congruence; [lia|].
  exists (n2 ++ n1). rewrite E2, E1, app_assoc. split; [done|]. by apply Forall_app.
Qed.

Lemma talks_mono (K K' : effect → Prop) s s' : (∀ e, K e → K' e) → talks K s s' → talks K' s s'.
Proof.
  intros HK (?&?&?&?&?&?&?&n&En&Fn). split_and!; try done. exists n. split; [done|].
  by eapply Forall_impl.
Qed.

#[global] Instance talks_preorder K : PreOrder (talks K).
Proof. split; [intros s; apply talks_refl|intros s1 s2 s3; apply talks_trans]. Qed.

Section rules.
Context (E : sys).
Implicit Types (X : stop → lib → Prop) (s : lib) (K : effect → Prop).

Ltac frame := split_and!; cbn; try done; try lia; by exists [].

Lemma wp_sys_call K Q X s : (∀ s', talks K s s' → Q (calls s) s') → wp sys_call Q X s.
Proof. intros HQ. apply HQ. frame. Qed.

(** The exact state after a call without effects. *)
Lemma wp_sys_call_eq Q X s : Q (calls s) (set_calls (S (calls s)) s) → wp sys_call Q X s.
Proof. done. Qed.

Lemma wp_sys_sleep K Q X s : (∀ s', talks K s s' → Q tt s') → wp sys_sleep Q X s.
Proof. intros HQ. apply HQ. frame. Qed.

Lemma wp_sys_time K Q X s :
  (∀ s', talks K s s' → Q (s_time E (calls s)) s') → wp (sys_time E) Q X s.
Proof. intros HQ. apply HQ. frame. Qed.

Lemma wp_stack_buffer K n Q X s :
  (∀ s' b, talks K s s' → length b = n → Q b s') → wp (stack_buffer E n) Q X s.
Proof. intros HQ. apply HQ; [frame|]. by rewrite !length_fmap, length_seq. Qed.

Lemma wp_sys_read K n Q X s :
  (∀ s', talks K s s' → s_read E (calls s) = None → Q (-1, []) s') →
  (∀ s' d, talks K s s' → s_read E (calls s) = Some d →
    Q (Z.of_nat (length (take (Z.to_nat n) d)), take (Z.to_nat n) d) s') →
  wp (sys_read E n) Q X s.
Proof.
  intros H1 H2. unfold sys_read. wp_step. apply (wp_sys_call K). intros s' Hs'.
  destruct (s_read E (calls s)) as [d|] eqn:Ed; [by apply H2|by apply H1].
Qed.

(** A call that may accept a part of its data. *)
Definition sends (io : list Z → L Z) (ev : list Z → effect) (K : effect → Prop) : Prop :=
  ∀ d Q X s,
    (∀ s', talks K s s' → Q (-1) s') →
    (∀ s' n, 0 ≤ n ≤ Z.of_nat (length d) → talks K s s' →
      effects s' = ev (take (Z.to_nat n) d) :: effects s → Q n s') →
    wp (io d) Q X s.

Lemma accepted_cases r n : accepted r n = -1 ∨ 0 ≤ accepted r n ≤ Z.of_nat n.
Proof. unfold accepted. destruct (r <? 0) eqn:Hr; bool_to_prop; lia. Qed.

Lemma sends_intro (answer : nat → Z) io ev (K : effect → Prop) :
  (∀ d, K (ev d)) →
  (∀ d s, io d s = let r := accepted (answer (calls s)) (length d) in
     let s := set_calls (S (calls s)) s in
     (Ok r, (if r <? 0 then id else act (ev (take (Z.to_nat r) d))) s)) →
  sends io ev K.
Proof.
  intros HK Hio d Q X s H1 H2. unfold wp. rewrite Hio. cbn zeta.
  destruct (accepted_cases (answer (calls s)) (length d)) as [Hr|Hr].
  - rewrite Hr. apply H1. frame.
  - assert ((accepted (answer (calls s)) (length d) <? 0) = false) as -> by (apply Z.ltb_ge; lia).
    apply H2; [done| |done]. split_and!; cbn; try done; [lia|].
    eexists [_]. split; [done|]. constructor; [apply HK|done].
Qed.

Lemma sys_write_sends fd K : (∀ d, K (FxWrite fd d)) → sends (sys_write E fd) (FxWrite fd) K.
Proof. intros HK. by eapply (sends_intro (s_write E)). Qed.

Lemma sys_sendto_sends fd dst K :
  (∀ d, K (FxSendto fd dst d)) → sends (sys_sendto E fd dst) (FxSendto fd dst) K.
Proof. intros HK. by eapply (sends_intro (s_sendto E)). Qed.
End rules.

(** ** The sending loop *)
Section pump.
Context (fuel : nat) (buffer : list Z).

(** The loop of [srtp_write] and [srtp_sendto], over the call [io]. *)
Definition pump (io : list Z → L Z) (length0 : Z) : L Z :=
  loop fuel (λ sent,
    r ← io (take (Z.to_nat (length0 - sent)) (drop (Z.to_nat sent) buffer));
    let sent := sent + r in
    mret (if (0 <? sent) && (sent <? length0) then inl sent else inr sent)) 0.

(** Whatever the call answers, only its own effects are seen. *)
Lemma wp_pump_talks io ev K length0 (Q : Z → lib → Prop) (X : stop → lib → Prop) s :
  sends io ev K → (∀ s', talks K s s' → X SFuel s') → (∀ v s', talks K s s' → Q v s') →
  wp (pump io length0) Q X s.
Proof.
  intros Hio HX HQ. apply (wp_loop (λ _ s', talks K s s')); [reflexivity|auto|].
  intros sent s1 Hs1. wp_step. apply Hio.
  - intros s2 Hs2. cbn zeta. wp_step. assert (talks K s s2) by by etrans.
    destruct (_ && _); [done|by apply HQ].
  - intros s2 n _ Hs2 _. cbn zeta. wp_step. assert (talks K s s2) by by etrans.
    destruct (_ && _); [done|by apply HQ].
Qed.

(** When the call always makes progress, everything is sent, once and in
    order, however it is cut. *)
Lemma wp_pump_all (answer : nat → Z) io ev s :
  (∀ k, 1 ≤ answer k) →
  (∀ d s, io d s = let r := accepted (answer (calls s)) (length d) in
     let s := set_calls (S (calls s)) s in
     (Ok r, (if r <? 0 then id else act (ev (take (Z.to_nat r) d))) s)) →
  (0 < length buffer < fuel)%nat →
  wp (pump io (Z.of_nat (length buffer)))
    (λ v s', v = Z.of_nat (length buffer) ∧ ∃ pieces,
      effects s' = rev (ev <$> pieces) ++ effects s ∧ concat pieces = buffer)
    (λ _ _, False) s.
Proof.
  intros Hans Hio Hlen.
  set (I := λ (sent : Z) (s' : lib), 0 ≤ sent < Z.of_nat (length buffer) ∧ ∃ pieces,
    effects s' = rev (ev <$> pieces) ++ effects s ∧ concat pieces = take (Z.to_nat sent) buffer).
  apply (wp_loop_measure I (λ sent _, (length buffer - Z.to_nat sent)%nat)).
  { split; [lia|]. by exists []. }
  { lia. }
  intros sent s1 [Hsent (pieces & He & Hp)]. wp_step. unfold wp at 1. rewrite Hio. cbn zeta.
  set (d := take (Z.to_nat (Z.of_nat (length buffer) - sent)) (drop (Z.to_nat sent) buffer)).
  assert (length d = length buffer - Z.to_nat sent)%nat as Hd
    by (unfold d; rewrite length_take, length_drop; lia).
  set (r := accepted (answer (calls s1)) (length d)).
  assert (1 ≤ r ≤ Z.of_nat (length d)) as Hr.
  { unfold r, accepted. specialize (Hans (calls s1)).
    destruct (_ <? 0) eqn:?; bool_to_prop; lia. }
  assert ((r <? 0) = false) as -> by (apply Z.ltb_ge; lia). cbn zeta. wp_step.
  assert (concat (pieces ++ [take (Z.to_nat r) d]) = take (Z.to_nat (sent + r)) buffer) as Hp'.
  { rewrite concat_app, Hp. cbn. rewrite app_nil_r. unfold d.
    rewrite take_take, Z2Nat.inj_add by lia. rewrite <- take_take_drop. do 2 f_equal. lia. }
  assert (effects (act (ev (take (Z.to_nat r) d)) (set_calls (S (calls s1)) s1)) =
    rev (ev <$> (pieces ++ [take (Z.to_nat r) d])) ++ effects s) as He'.
  { rewrite fmap_app, rev_app_distr. cbn. by rewrite He. }
  destruct ((0 <? sent + r) && (sent + r <? Z.of_nat (length buffer))) eqn:Hb.
  - bool_to_prop. split; [|lia]. split; [lia|]. by eexists.
  - assert (sent + r = Z.of_nat (length buffer)) as Heq.
    { apply andb_false_iff in Hb as [Hb|Hb]; apply Z.ltb_ge in Hb; lia. }
    split; [done|]. eexists. split; [done|]. rewrite Hp'. rewrite take_ge; [done|lia].
Qed.

(** A call that takes everything ends the loop at once. *)
Lemma wp_pump_once (answer : nat → Z) io ev (Q : Z → lib → Prop) (X : stop → lib → Prop) s :
  (∀ d s, io d s = let r := accepted (answer (calls s)) (length d) in
     let s := set_calls (S (calls s)) s in
     (Ok r, (if r <? 0 then id else act (ev (take (Z.to_nat r) d))) s)) →
  fuel ≠ O → buffer ≠ [] → Z.of_nat (length buffer) ≤ answer (calls s) →
  (∀ s', calls s' = S (calls s) → effects s' = ev buffer :: effects s →
    Q (Z.of_nat (length buffer)) s') →
  wp (pump io (Z.of_nat (length buffer))) Q X s.
Proof.
  intros Hio Hf Hb Hw HQ. unfold pump. destruct fuel as [|f]; [done|]. cbn [loop]. do 2 wp_step.
  unfold wp at 1. rewrite Hio. cbn zeta. rewrite Z.sub_0_r, Nat2Z.id, drop_0, firstn_all.
  assert (accepted (answer (calls s)) (length buffer) = Z.of_nat (length buffer)) as ->.
  { unfold accepted. rewrite (proj2 (Z.ltb_ge _ _)) by lia. lia. }
  assert ((Z.of_nat (length buffer) <? 0) = false) as -> by (apply Z.ltb_ge; lia).
  rewrite Nat2Z.id, firstn_all, Z.add_0_l, Z.ltb_irrefl, andb_false_r. by apply HQ.
Qed.
End pump.

Section io.
Context `{Host} (E : sys) (fuel : nat).
Implicit Types (X : stop → lib → Prop) (s : lib).

(** C37. [srtp_write] sends a whole buffer over a descriptor that takes it in
    pieces: every byte is written exactly once and in order, whatever the
    sizes of the pieces, and the call returns the length. *)
Theorem srtp_write_all fd buffer s :
  (∀ k, 1 ≤ s_write E k) → (0 < length buffer < fuel)%nat →
  ∃ s' pieces, srtp_write E fuel fd buffer (Z.of_nat (length buffer)) s =
      (Ok (Z.of_nat (length buffer)), s') ∧
    effects s' = rev (FxWrite fd <$> pieces) ++ effects s ∧ concat pieces = buffer.
Proof.
  intros Hw Hl. unfold srtp_write. rewrite (proj2 (Z.ltb_ge _ _)) by lia.
  pose proof (wp_pump_all fuel buffer (s_write E) (sys_write E fd) (FxWrite fd) s Hw
    ltac:(done) Hl) as Hp.
  unfold wp, pump in Hp. destruct (loop _ _ _ s) as [[v|] s']; [|done].
  destruct Hp as (-> & pieces & ? & ?). by exists s', pieces.
Qed.

(** ... and over a datagram socket. *)
Lemma srtp_sendto_all fd message dest s :
  (∀ k, 1 ≤ s_sendto E k) → (0 < length message < fuel)%nat →
  ∃ s' pieces, srtp_sendto E fuel fd message (Z.of_nat (length message)) dest s =
      (Ok (Z.of_nat (length message)), s') ∧
    effects s' = rev (FxSendto fd dest <$> pieces) ++ effects s ∧ concat pieces = message.
Proof.
  intros Hw Hl. unfold srtp_sendto. rewrite (proj2 (Z.ltb_ge _ _)) by lia.
  pose proof (wp_pump_all fuel message (s_sendto E) (sys_sendto E fd dest) (FxSendto fd dest) s Hw
    ltac:(done) Hl) as Hp.
  unfold wp, pump in Hp. destruct (loop _ _ _ s) as [[v|] s']; [|done].
  destruct Hp as (-> & pieces & ? & ?). by exists s', pieces.
Qed.

(** ** The handshake and the sender *)

Lemma wp_srtp_write_talks fd buffer n (K : effect → Prop) (Q : Z → lib → Prop) X s :
  (∀ d, K (FxWrite fd d)) → (∀ b s', talks K s s' → X b s') →
  (∀ v s', talks K s s' → Q v s') → wp (srtp_write E fuel fd buffer n) Q X s.
Proof.
  intros HK HX HQ. unfold srtp_write. wp_step; [wp_step; apply HX; reflexivity|].
  by apply (wp_pump_talks fuel buffer (sys_write E fd) (FxWrite fd) K); [apply sys_write_sends|auto..].
Qed.

Lemma wp_send_ack_talks fd q dest (K : effect → Prop) (Q : unit → lib → Prop) X s :
  (∀ d, K (FxSendto fd dest d)) → (∀ b s', talks K s s' → X b s') →
  (∀ s', talks K s s' → Q tt s') → wp (send_ack_to E fuel fd q dest) Q X s.
Proof.
  intros HK HX HQ. unfold send_ack_to. wp_step. apply (wp_stack_buffer E K). intros s1 b Hs1 _.
  do 3 (wp_step; apply wp_defined; [intros ? _|auto]). unfold srtp_sendto.
  wp_step. wp_step; [wp_step; auto|].
  eapply (wp_pump_talks fuel _ (sys_sendto E fd dest) (FxSendto fd dest) K);
    [by apply sys_sendto_sends|intros s2 Hs2; apply HX; by etrans|].
  intros v s2 Hs2. wp_step. apply HQ. by etrans.
Qed.

Lemma wp_srtp_read_talks buffer n (K : effect → Prop) (Q : Z * list Z → lib → Prop) X s :
  (∀ b s', talks K s s' → X b s') → (∀ r s', talks K s s' → Q r s') →
  wp (srtp_read E fuel buffer n) Q X s.
Proof.
  intros HX HQ. apply (wp_loop (λ _ s', talks K s s')); [reflexivity|auto|].
  intros [recvd b] s1 Hs1. unfold read_step.
  wp_step. apply (wp_sys_read E K).
  - intros s2 Hs2 _. assert (talks K s s2) by by etrans. cbn [fst snd].
    wp_step. apply wp_defined; [|auto]. intros b' _. cbn zeta. wp_step.
    destruct (_ && _); [done|by apply HQ].
  - intros s2 d Hs2 _. assert (talks K s s2) by by etrans. cbn [fst snd].
    wp_step. apply wp_defined; [|auto]. intros b' _. cbn zeta. wp_step.
    destruct (_ && _); [done|by apply HQ].
Qed.

Lemma wp_got_ack_talks buffer n (K : effect → Prop) (Q : bool * list Z → lib → Prop) X s :
  (∀ b s', talks K s s' → X b s') → (∀ r s', talks K s s' → Q r s') →
  wp (got_ack E fuel buffer n) Q X s.
Proof.
  intros HX HQ. unfold got_ack. wp_step. apply (wp_srtp_read_talks _ _ K); [done|].
  intros [r b] s1 Hs1. wp_step; [|wp_step; by apply HQ].
  wp_step. apply wp_defined; [|auto]. intros a _. wp_step; [|wp_step; by apply HQ].
  wp_step. apply wp_defined; [|auto]. intros k _. wp_step. by apply HQ.
Qed.

Lemma wp_stamp buff c q l (Q : list Z → lib → Prop) X s :
  (∀ b, X b s) → (∀ b, Q b s) → wp (stamp buff c q l) Q X s.
Proof.
  intros HX HQ. unfold stamp. do 2 (wp_step; apply wp_defined; [intros ? _|auto]).
  by apply wp_defined; auto.
Qed.

(** The handshake only ever writes to its socket, and has one result. *)
Lemma wp_establish_conn fd (K : effect → Prop) (Q : Z → lib → Prop) X s :
  (∀ d, K (FxWrite fd d)) → (∀ b s', talks K s s' → X b s') →
  (∀ s', talks K s s' → Q (-1) s') → wp (establish_conn E fuel fd) Q X s.
Proof.
  intros HK HX HQ. unfold establish_conn. wp_step. apply (wp_stack_buffer E K). intros s0 b0 Hs0 _.
  wp_step. apply (wp_loop (λ _ s', talks K s s')); [done|auto|]. intros [b total] s1 Hs1.
  unfold establish_round. wp_step. apply wp_stamp; [auto|]. intros b1.
  wp_step. apply (wp_srtp_write_talks _ _ _ K); [done|intros x s2 Hs2; apply HX; by etrans|].
  intros _ s2 Hs2. assert (talks K s s2) as Ht2 by by etrans.
  wp_step. apply (wp_sys_time E K). intros s3 Hs3. assert (talks K s s3) as Ht3 by by etrans.
  wp_step. apply (wp_loop (λ _ s', talks K s s')); [done|auto|]. intros [b2 total2] s4 Hs4.
  unfold establish_poll. wp_step.
  apply (wp_got_ack_talks _ _ K); [intros x s5 Hs5; apply HX; by etrans|].
  intros [ok b3] s5 Hs5. assert (talks K s s5) as Ht5 by by etrans.
  wp_step; [do 2 wp_step; done|].
  wp_step. apply (wp_sys_time E K). intros s6 Hs6. assert (talks K s s6) as Ht6 by by etrans.
  cbn zeta. wp_step; [do 3 wp_step; by apply HQ|]. wp_step; [do 2 wp_step; done|].
  wp_step. apply (wp_sys_sleep K). intros s7 Hs7. wp_step. by etrans.
Qed.

Lemma wp_send_srtp_data fd data n (K : effect → Prop) (Q : Z → lib → Prop) X s :
  (∀ d, K (FxWrite fd d)) → (∀ b s', talks K s s' → X b s') →
  (∀ s', talks K s s' → Q (-1) s') → wp (send_srtp_data E fuel fd data n) Q X s.
Proof.
  intros HK HX HQ. unfold send_srtp_data. wp_step. apply (wp_stack_buffer E K). intros s0 b0 Hs0 _.
  wp_step. apply (wp_loop (λ _ s', talks K s s')); [done|auto|]. intros [b prev] s1 Hs1.
  unfold send_round. wp_step. apply wp_stamp; [auto|]. intros b1.
  wp_step. apply (wp_srtp_write_talks _ _ _ K); [done|intros x s2 Hs2; apply HX; by etrans|].
  intros sent s2 Hs2. assert (talks K s s2) as Ht2 by by etrans.
  wp_step; [do 2 wp_step; by apply HQ|].
  wp_step. apply (wp_sys_time E K). intros s3 Hs3. assert (talks K s s3) as Ht3 by by etrans.
  wp_step. apply (wp_loop (λ _ s', talks K s s')); [done|auto|]. intros b2 s4 Hs4.
  unfold send_poll. wp_step.
  apply (wp_got_ack_talks _ _ K); [intros x s5 Hs5; apply HX; by etrans|].
  intros [ok b3] s5 Hs5. assert (talks K s s5) as Ht5 by by etrans.
  wp_step; [do 2 wp_step; done|].
  wp_step. apply (wp_sys_time E K). intros s6 Hs6. assert (talks K s s6) as Ht6 by by etrans.
  cbn zeta. wp_step; [do 2 wp_step; done|].
  wp_step. apply (wp_sys_sleep K). intros s7 Hs7. wp_step. by etrans.
Qed.

(** [send_srtp_data] cannot report success: the [break] for the expected
    acknowledgement leaves the inner loop only, so that acknowledged data is
    sent again, and the one value the function can return is -1. *)
Theorem send_never_succeeds fd data n s v s' :
  send_srtp_data E fuel fd data n s = (Ok v, s') → v = -1.
Proof.
  intros Hrun.
  refine (wp_run _ (λ v _, v = -1) (λ _ _, True) s _ s' _ Hrun).
  by apply (wp_send_srtp_data _ _ _ (λ _, True)).
Qed.

Definition micros (t : timeval) : Z := tv_sec t * 1000000 + tv_usec t.

(** The difference of two stamps taken in order wraps around. *)
Lemma elapsed_wraps t2 t1 :
  0 < micros t1 - micros t2 < 2 ^ 62 → CONNECT_TIMEOUT < u64 (0 + elapsed t2 t1 / 1000).
Proof.
  unfold elapsed, micros, CONNECT_TIMEOUT, u64. intros Ht.
  set (x := (tv_sec t2 - tv_sec t1) * 1000000 + (tv_usec t2 - tv_usec t1)).
  assert (- 2 ^ 62 < x < 0) as Hx by (unfold x; lia). clearbody x.
  assert (x mod 18446744073709551616 = x + 18446744073709551616) as -> by lia.
  rewrite Z.mod_small; lia.
Qed.

Lemma srtp_write_once fd buffer s Q X :
  fuel ≠ O → buffer ≠ [] → Z.of_nat (length buffer) ≤ s_write E (calls s) →
  (∀ s', calls s' = S (calls s) → effects s' = FxWrite fd buffer :: effects s →
    Q (Z.of_nat (length buffer)) s') →
  wp (srtp_write E fuel fd buffer (Z.of_nat (length buffer))) Q X s.
Proof.
  intros Hf Hb Hw HQ. unfold srtp_write. rewrite (proj2 (Z.ltb_ge _ _)) by lia.
  by apply (wp_pump_once fuel buffer (s_write E) (sys_write E fd) (FxWrite fd)).
Qed.

Lemma srtp_sendto_once fd buffer dest s Q X :
  fuel ≠ O → buffer ≠ [] → Z.of_nat (length buffer) ≤ s_sendto E (calls s) →
  (∀ s', calls s' = S (calls s) → effects s' = FxSendto fd dest buffer :: effects s →
    Q (Z.of_nat (length buffer)) s') →
  wp (srtp_sendto E fuel fd buffer (Z.of_nat (length buffer)) dest) Q X s.
Proof.
  intros Hf Hb Hw HQ. unfold srtp_sendto. rewrite (proj2 (Z.ltb_ge _ _)) by lia.
  by apply (wp_pump_once fuel buffer (s_sendto E) (sys_sendto E fd dest) (FxSendto fd dest)).
Qed.

Lemma memcpy_nothing buffer off :
  (off ≤ length buffer)%nat → memcpy buffer off [] (Z.of_nat 0) = Some buffer.
Proof.
  intros Ho. unfold memcpy. rewrite decide_True by (cbn; lia).
  unfold splice. cbn [take Z.of_nat Z.to_nat app length]. rewrite Nat.add_0_r. f_equal.
  apply take_drop.
Qed.

Lemma srtp_read_fails buffer n s Q X :
  fuel ≠ O → s_read E (calls s) = None →
  (∀ s', talks (λ _, False) s s' → calls s' = S (calls s) → effects s' = effects s →
    Q (-1, buffer) s') →
  wp (srtp_read E fuel buffer n) Q X s.
Proof.
  intros Hf Hr HQ. unfold srtp_read. destruct fuel as [|f]; [done|]. cbn [loop].
  wp_step. unfold read_step at 1. cbn beta iota. wp_step. unfold sys_read. wp_step. unfold wp at 1. cbn. rewrite Hr. wp_step. cbn [fst snd length].
  rewrite memcpy_nothing by (cbn; lia). do 2 wp_step. cbn zeta. wp_step.
  change (0 + -1) with (-1). change (0 <? -1) with false. cbn [andb]. wp_step.
  apply HQ; [|done..]. split_and!; cbn; try done; [lia|]. by exists [].
Qed.

Lemma stamp_ok buff c q l (Q : list Z → lib → Prop) X s :
  length buff = 8%nat → (∀ b, length b = 8%nat → Q b s) → wp (stamp buff c q l) Q X s.
Proof.
  intros Hb HQ. destruct buff as [|b0 [|b1 [|b2 [|b3 [|b4 [|b5 [|b6 [|b7 [|]]]]]]]]]; try done.
  unfold stamp, PKT_SETCMD, PKT_SETSEQ, PKT_SETLEN, store8, store16. cbn.
  destruct byte_order; cbn; apply HQ; done.
Qed.

(** The timeouts of [establish_conn] do not work: it computes the earlier
    minus the later time, which wraps around in an [unsigned long], so that
    the five seconds are taken to be over at the first poll that finds no
    answer.  A single SYN is sent. *)
Theorem establish_gives_up fd s :
  fuel ≠ O → (∀ k, PKT_HEADERSIZE ≤ s_write E k) → (∀ k, s_read E k = None) →
  (∀ k, 0 < micros (s_time E (k + 2)) - micros (s_time E k) < 2 ^ 62) →
  ∃ syn s', establish_conn E fuel fd s = (Ok (-1), s') ∧
    effects s' = FxWrite fd syn :: effects s.
Proof.
  intros Hf Hw Hr Hclock.
  assert (wp (establish_conn E fuel fd)
    (λ v s', v = -1 ∧ ∃ syn, effects s' = FxWrite fd syn :: effects s) (λ _ _, False) s) as Hwp.
  { unfold establish_conn, stack_buffer. do 2 wp_step. apply wp_sys_call_eq. wp_step.
    set (b0 := u8 <$> _). assert (length b0 = 8%nat) as Hb0 by done. clearbody b0.
    unfold establish_round. destruct fuel as [|f] eqn:Ef; [done|]. cbn [loop]. rewrite <- Ef.
    do 3 wp_step. apply stamp_ok; [done|]. intros b Hb.
    wp_step. replace PKT_HEADERSIZE with (Z.of_nat (length b)) by (by rewrite Hb).
    apply srtp_write_once; [by rewrite Ef|by destruct b|rewrite Hb; apply Hw|].
    intros s1 Hc1 He1. unfold sys_time. do 2 wp_step. apply wp_sys_call_eq. do 2 wp_step.
    rewrite Ef. cbn [loop]. rewrite <- Ef. wp_step.
    unfold establish_poll at 1, got_ack. cbn beta iota. do 2 wp_step.
    apply srtp_read_fails; [by rewrite Ef|apply Hr|].
    intros s2 _ Hc2 He2. change (u64 (-1) =? PKT_HEADERSIZE) with false. cbn iota.
    do 2 wp_step. unfold sys_time. wp_step. apply wp_sys_call_eq. wp_step. cbn zeta.
    assert (CONNECT_TIMEOUT < u64 (0 + elapsed (s_time E (calls s1)) (s_time E (calls s2)) / 1000))
      as Hto.
    { apply elapsed_wraps. replace (calls s2) with (calls s1 + 2)%nat by (cbn in Hc2; lia).
      apply Hclock. }
    apply Z.ltb_lt in Hto. rewrite Hto. do 4 wp_step.
    split; [done|]. exists b. cbn. rewrite He2. cbn. done. }
  unfold wp in Hwp. destruct (establish_conn _ _ _ _) as [[v|] s']; [|done].
  destruct Hwp as (-> & syn & He). by exists syn, s'.
Qed.

(** ** Reading *)

(** One successful [read] in the loop of [srtp_read]. *)
Lemma wp_sys_read_some n d Q X s :
  s_read E (calls s) = Some d →
  Q (Z.of_nat (length (take (Z.to_nat n) d)), take (Z.to_nat n) d) (set_calls (S (calls s)) s) →
  wp (sys_read E n) Q X s.
Proof.
  intros Hd HQ. unfold sys_read. wp_step. apply wp_sys_call_eq. rewrite Hd. by wp_step.
Qed.

(** The next piece goes where the previous ones end. *)
Lemma memcpy_append (a p buffer : list Z) :
  (length a + length p ≤ length buffer)%nat →
  memcpy (a ++ drop (length a) buffer) (length a) p (Z.of_nat (length p)) =
  Some ((a ++ p) ++ drop (length a + length p) buffer).
Proof.
  intros Hl. unfold memcpy. rewrite decide_True by (rewrite length_app, length_drop; lia).
  rewrite Nat2Z.id, firstn_all. unfold splice. f_equal.
  rewrite take_app_length', drop_app_ge by lia. rewrite drop_drop, <- app_assoc.
  do 3 f_equal. lia.
Qed.

(** [pieces] is what the calls made since [s] delivered. *)
Definition delivered_since s (pieces : list (list Z)) (s' : lib) : Prop :=
  calls s' = (calls s + length pieces)%nat ∧ effects s' = effects s ∧
  ∀ i p, pieces !! i = Some p → ∃ d, s_read E (calls s + i) = Some d ∧ p `prefix_of` d.

Lemma delivered_snoc s pieces s1 d n :
  delivered_since s pieces s1 → s_read E (calls s1) = Some d →
  delivered_since s (pieces ++ [take n d]) (set_calls (S (calls s1)) s1).
Proof.
  intros (Hc & He & Hp) Hd. split_and!; cbn; [rewrite length_app; cbn; lia|done|].
  intros i q Hq. apply lookup_app_Some in Hq as [Hq|[Hi Hq]]; [by apply Hp|].
  assert (i = length pieces) as -> by (apply lookup_lt_Some in Hq; cbn in Hq; lia).
  rewrite Nat.sub_diag in Hq. injection Hq as <-. exists d.
  rewrite <- Hc. split; [done|]. apply prefix_take.
Qed.

Lemma concat_snoc (pieces : list (list Z)) p : concat (pieces ++ [p]) = concat pieces ++ p.
Proof. rewrite concat_app. cbn. by rewrite app_nil_r. Qed.

Lemma wp_srtp_read_all buffer n s :
  (∀ k, ∃ c d, s_read E k = Some (c :: d)) → (0 < n < fuel)%nat → (n ≤ length buffer)%nat →
  wp (srtp_read E fuel buffer (Z.of_nat n))
    (λ r s', ∃ pieces, delivered_since s pieces s' ∧ length (concat pieces) = n ∧
      r = (Z.of_nat n, concat pieces ++ drop n buffer)) (λ _ _, False) s.
Proof.
  intros Hr Hn Hb.
  set (I := λ (x : Z * list Z) (s' : lib), ∃ pieces, delivered_since s pieces s' ∧
    x.1 = Z.of_nat (length (concat pieces)) ∧ (length (concat pieces) < n)%nat ∧
    x.2 = concat pieces ++ drop (length (concat pieces)) buffer).
  apply (wp_loop_measure I (λ x _, (n - Z.to_nat x.1)%nat)).
  - exists []. cbn. rewrite drop_0. split; [|split_and!; [done|lia|done]].
    split_and!; cbn; [lia|done|]. by intros i p.
  - cbn. lia.
  - intros [recvd b] s1 (pieces & Hg & Hrecvd & Hlt & Hbuf). cbn in Hrecvd, Hbuf. subst recvd b.
    destruct (Hr (calls s1)) as (c & d & Hd). unfold read_step. wp_step.
    eapply wp_sys_read_some; [done|]. cbn [fst snd]. set (p := take (Z.to_nat (Z.of_nat n - Z.of_nat _)) (c :: d)).
    assert (1 ≤ length p ≤ n - length (concat pieces))%nat as Hlp
      by (unfold p; rewrite length_take; cbn; lia).
    rewrite Nat2Z.id, memcpy_append, <- concat_snoc by lia. do 2 wp_step. cbn zeta. wp_step.
    pose proof (delivered_snoc _ _ _ _ (Z.to_nat (Z.of_nat n - Z.of_nat (length (concat pieces))))
      Hg Hd) as Hg'. fold p in Hg'.
    assert (length (concat (pieces ++ [p])) = length (concat pieces) + length p)%nat as Hm
      by by rewrite concat_snoc, length_app.
    destruct (_ && _) eqn:Hgo.
    + bool_to_prop. split; [|cbn; lia]. exists (pieces ++ [p]). cbn [fst snd]. rewrite Hm.
      split_and!; [done|lia|lia|done].
    + assert (length (concat pieces) + length p = n)%nat as Hfull.
      { apply andb_false_iff in Hgo as [Hgo|Hgo]; apply Z.ltb_ge in Hgo; lia. }
      exists (pieces ++ [p]). rewrite Hm, Hfull. split_and!; [apply Hg'..|done|]. f_equal. lia.
Qed.

(** C38. [srtp_read] fills its buffer from a descriptor that delivers in
    pieces: as long as every [read] brings something, it returns the length
    asked for and the buffer holds the delivered bytes in order. *)
Theorem srtp_read_all buffer n s :
  (∀ k, ∃ c d, s_read E k = Some (c :: d)) → (0 < n < fuel)%nat → (n ≤ length buffer)%nat →
  ∃ s' pieces, srtp_read E fuel buffer (Z.of_nat n) s =
      (Ok (Z.of_nat n, concat pieces ++ drop n buffer), s') ∧
    length (concat pieces) = n ∧ effects s' = effects s ∧
    ∀ i p, pieces !! i = Some p → ∃ d, s_read E (calls s + i) = Some d ∧ p `prefix_of` d.
Proof.
  intros Hr Hn Hb. pose proof (wp_srtp_read_all buffer n s Hr Hn Hb) as Hw.
  unfold wp in Hw. destruct (srtp_read _ _ _ _ _) as [[r|] s']; [|done].
  destruct Hw as (pieces & (_ & He & Hp) & Hl & ->). by exists s', pieces.
Qed.

(** The count falls by one with every failure that follows. *)
Lemma wp_read_counts_down n k b s f Q X :
  (0 < k < f)%nat → Z.of_nat k < n → (k ≤ length b)%nat →
  (∀ i, (i < k)%nat → s_read E (calls s + i) = None) →
  (∀ s', calls s' = (calls s + k)%nat → effects s' = effects s → Q (0, b) s') →
  wp (loop f (read_step E n) (Z.of_nat k, b)) Q X s.
Proof.
  revert f s. induction k as [|k IH]; intros f s Hf Hn Hb Hr HQ; [lia|].
  destruct f as [|f]; [lia|]. cbn [loop]. wp_step. unfold read_step at 1. cbn beta iota. wp_step.
  unfold sys_read. wp_step. apply wp_sys_call_eq.
  pose proof (Hr O ltac:(lia)) as Hr0. rewrite Nat.add_0_r in Hr0. rewrite Hr0. wp_step.
  cbn [fst snd length]. rewrite memcpy_nothing by lia. do 2 wp_step. cbn zeta.
  replace (Z.of_nat (S k) + -1) with (Z.of_nat k) by lia. wp_step. destruct k as [|k].
  - change (Z.of_nat 0) with 0. change (0 <? 0) with false. cbn [andb]. wp_step.
    apply HQ; [cbn; lia|done].
  - assert ((0 <? Z.of_nat (S k)) && (Z.of_nat (S k) <? n) = true) as ->
      by (apply andb_true_iff; rewrite !Z.ltb_lt; lia).
    apply IH; [lia..| |].
    + intros i Hi. cbn [calls set_calls].
      replace (S (calls s) + i)%nat with (calls s + S i)%nat by lia. apply Hr. lia.
    + intros s' Hc He. cbn in Hc, He. apply HQ; [lia|done].
Qed.

(** A short datagram is lost in [srtp_read]: when it holds fewer bytes than
    asked for and the socket then has nothing more, every failed [read] is
    added to the count as -1, until the call returns 0 as if nothing had been
    received. *)
Theorem short_read_reports_nothing buffer n d s :
  s_read E (calls s) = Some d → (0 < length d < n)%nat → (n ≤ length buffer)%nat →
  (∀ i, (i < length d)%nat → s_read E (S (calls s) + i) = None) → (S (length d) < fuel)%nat →
  ∃ b s', srtp_read E fuel buffer (Z.of_nat n) s = (Ok (0, b), s').
Proof.
  intros Hd Hl Hb Hr Hf.
  assert (wp (srtp_read E fuel buffer (Z.of_nat n)) (λ r _, r.1 = 0) (λ _ _, False) s) as Hw.
  { unfold srtp_read. destruct fuel as [|f] eqn:Ef; [lia|]. cbn [loop]. wp_step.
    unfold read_step at 1. cbn beta iota. wp_step. rewrite Z.sub_0_r, ?Nat2Z.id.
    eapply wp_sys_read_some; [done|]. rewrite take_ge by lia. cbn [fst snd].
    pose proof (memcpy_append [] d buffer ltac:(cbn; lia)) as Hm. cbn [app length] in Hm.
    rewrite drop_0 in Hm. change (Z.to_nat 0) with O. rewrite Hm. do 2 wp_step. cbn zeta.
    rewrite Z.add_0_l.
    assert ((0 <? Z.of_nat (length d)) && (Z.of_nat (length d) <? Z.of_nat n) = true) as ->
      by (apply andb_true_iff; rewrite !Z.ltb_lt; lia).
    wp_step. apply wp_read_counts_down; [lia|lia| |exact Hr|done].
    rewrite length_app. lia. }
  unfold wp in Hw. destruct (srtp_read _ _ _ _ _) as [[[r b]|] s']; [|done].
  cbn in Hw. subst r. by exists b, s'.
Qed.

Lemma ack_stores (j : nat → Z) seq0 :
  (head ← PKT_SETCMD (j <$> List.seq 0 8) ACK; head ← PKT_SETLEN head 0; PKT_SETSEQ head seq0) =
  Some ([0; 0] ++ halfword (u16 seq0) ++ [j 4%nat; j 5%nat; j 6%nat; ACK]).
Proof.
  unfold PKT_SETCMD, PKT_SETLEN, PKT_SETSEQ, store8, store16, halfword.
  destruct byte_order; cbn -[Z.div Z.modulo u16]; done.
Qed.

(** The acknowledgement of [send_ack_to] does not acknowledge: the number
    goes into the [seq] field, while [ack], the field the senders compare, and
    [cmdinfo] are sent as they were on the stack. *)
Theorem send_ack_leaks_stack fd seq0 dest s :
  fuel ≠ O → (∀ k, PKT_HEADERSIZE ≤ s_sendto E k) →
  let junk i := u8 (s_stack E (calls s) i) in
  ∃ head s', send_ack_to E fuel fd seq0 dest s = (Ok tt, s') ∧
    effects s' = FxSendto fd dest head :: effects s ∧
    header_of head = Some (mkHeader 0 (u16 seq0)
      (match byte_order with
       | Little => junk 4%nat + junk 5%nat * 256 | Big => junk 4%nat * 256 + junk 5%nat end)
      (junk 6%nat) ACK).
Proof.
  intros Hf Hs junk.
  set (head := [0; 0] ++ halfword (u16 seq0) ++ [junk 4%nat; junk 5%nat; junk 6%nat; ACK]).
  assert (wp (send_ack_to E fuel fd seq0 dest)
    (λ _ s', effects s' = FxSendto fd dest head :: effects s) (λ _ _, False) s) as Hw.
  { unfold send_ack_to, stack_buffer. do 2 wp_step. apply wp_sys_call_eq. wp_step.
    pose proof (ack_stores junk seq0) as Hst. fold head in Hst.
    rewrite <- list_fmap_compose. change (Z.to_nat PKT_HEADERSIZE) with 8%nat.
    change ((u8 ∘ s_stack E (calls s)) <$> List.seq 0 8) with (junk <$> List.seq 0 8).
    destruct (PKT_SETCMD _ ACK) as [x|]; cbn [mbind option_bind] in Hst; [|done].
    destruct (PKT_SETLEN x 0) as [y|] eqn:Hy; cbn [mbind option_bind] in Hst; [|done].
    do 2 wp_step. rewrite Hy. do 2 wp_step. rewrite Hst. do 3 wp_step.
    assert (length head = 8%nat) as Hl by (unfold head; by rewrite !length_app, length_halfword).
    replace PKT_HEADERSIZE with (Z.of_nat (length head)) by (by rewrite Hl).
    apply srtp_sendto_once; [done|by intros ->|rewrite Hl; apply Hs|]. by intros s1 _ He. }
  unfold wp in Hw. destruct (send_ack_to _ _ _ _ _ _) as [[[]|] s']; [|done].
  exists head, s'. split; [done|]. split; [done|].
  unfold head, header_of, PKT_GETLEN, PKT_GETSEQ, PKT_GETACK, load16, halfword.
  destruct byte_order; cbn -[Z.div Z.modulo Z.mul u16 junk]; do 2 f_equal; unfold u16; lia.
Qed.
End io.

(** ** Witnesses *)

(** A system where [write] takes [w] bytes at a time, and the clock advances a
    millisecond per call. *)
Definition blank_conn : Conn_t := mkConn 0 0 [] 0 (replicate 16 0) 0 0 [].
Definition sample_sys (w : Z) (reads : nat → option (list Z)) (net : nat → udp_result) : sys := {|
  s_time := λ k, mkTime (Z.of_nat k / 1000) (1000 * (Z.of_nat k mod 1000));
  s_write := λ _, w;
  s_read := reads;
  s_sendto := λ _, 2048;
  s_recvfrom := net;
  s_mkfifo := λ _, 0;
  s_open := λ k, Z.of_nat k;
  s_socket := λ _, 9;
  s_bind := λ _, 0;
  s_connect := λ _, 0;
  s_fstat := λ _ _, 0;
  s_thread := λ _, 77;
  s_new := λ _, blank_conn;
  s_stack := λ _ _, 165;
|}.

Definition init_lib : lib := mkLib 0 ∅ ∅ ∅ [] 0 false [].

Definition quiet_sys : sys := sample_sys 3 (λ _, None) (λ _, UdpErr).

Lemma srtp_write_all_witness :
  ∃ s' pieces, srtp_write quiet_sys 20 4 (bytes_of_string "Hello World!") 12 init_lib = (Ok 12, s') ∧
    effects s' = rev (FxWrite 4 <$> pieces) ++ [] ∧
    concat pieces = bytes_of_string "Hello World!".
Proof.
  apply (srtp_write_all quiet_sys 20 4 (bytes_of_string "Hello World!") init_lib);
    [intros k; cbn; lia|cbn; lia].
Defined.

Definition drip_sys : sys := sample_sys 3 (λ k, Some [Z.of_nat k; 1; 2]) (λ _, UdpErr).

Lemma srtp_read_all_witness :
  ∃ s' pieces, srtp_read drip_sys 20 (replicate 9 0) 8 init_lib =
      (Ok (8, concat pieces ++ [0]), s') ∧
    length (concat pieces) = 8%nat ∧ effects s' = [] ∧
    ∀ i p, pieces !! i = Some p → ∃ d, s_read drip_sys (0 + i) = Some d ∧ p `prefix_of` d.
Proof.
  apply (srtp_read_all drip_sys 20 (replicate 9 0) 8 init_lib); [|cbn; lia..].
  intros k. by eexists _, _.
Defined.

Definition short_sys : sys :=
  sample_sys 3 (λ k, match k with O => Some [1; 2; 3] | _ => None end) (λ _, UdpErr).

Lemma short_read_reports_nothing_witness :
  ∃ b s', srtp_read short_sys 20 (replicate 8 0) 8 init_lib = (Ok (0, b), s').
Proof.
  apply (short_read_reports_nothing short_sys 20 (replicate 8 0) 8 [1; 2; 3] init_lib);
    [reflexivity|cbn; lia|cbn; lia|reflexivity|cbn; lia].
Defined.

Local Existing Instance sample_host.

(** A socket that refuses to send. *)
Definition broken_sys : sys := sample_sys (-1) (λ _, None) (λ _, UdpErr).

Lemma send_never_succeeds_witness :
  ∃ v s', send_srtp_data broken_sys 20 4 (bytes_of_string "abc") 3 init_lib = (Ok v, s') ∧ v = -1.
Proof.
  eexists _, _. split; [reflexivity|].
  apply (send_never_succeeds broken_sys 20 4 (bytes_of_string "abc") 3 init_lib _
    (send_srtp_data broken_sys 20 4 (bytes_of_string "abc") 3 init_lib).2).
  reflexivity.
Defined.

Lemma send_ack_leaks_stack_witness :
  ∃ head s', send_ack_to quiet_sys 20 4 7 [1] init_lib = (Ok tt, s') ∧
    effects s' = FxSendto 4 [1] head :: [] ∧
    header_of head = Some (mkHeader 0 7 (165 + 165 * 256) 165 ACK).
Proof.
  destruct (send_ack_leaks_stack quiet_sys 20 4 7 [1] init_lib ltac:(discriminate)
    ltac:(intros k; vm_compute; discriminate)) as (head & s' & Hrun & He & Hh).
  exists head, s'. split; [exact Hrun|]. split; [exact He|]. rewrite Hh. reflexivity.
Defined.

Definition silent_sys : sys := sample_sys 100 (λ _, None) (λ _, UdpErr).

Lemma establish_gives_up_witness :
  ∃ syn s', establish_conn silent_sys 20 4 init_lib = (Ok (-1), s') ∧
    effects s' = FxWrite 4 syn :: [].
Proof.
  apply (establish_gives_up silent_sys 20 4 init_lib); [discriminate| |reflexivity|].
  - intros k. vm_compute. discriminate.
  - intros k. unfold micros. cbn -[Z.of_nat]. lia.
Defined.
