(* ===== verification/SrtpInv.v ===== *)
(** * SrtpInv: invariants of the SRTP library

    A predicate on the tables that the elementary operations keep is kept by
    every function of the library.  The class [TableInv] says what the
    elementary operations have to keep; the lemmas about the functions are
    proved against it once and used at each invariant. *)
From Stdlib Require Import Sorting.Sorted.
From S2P Require Import Prelude CMonad CLib Packet SrtpHeader SrtpWorld SrtpIO SrtpConn SrtpIOProps.
Import Srtp.

(** [keeps I m Q]: [m] keeps [I], also when it stops, and its results satisfy
    [Q]. *)
Definition keeps (I : lib → Prop) {A} (m : L A) (Q : A → Prop) : Prop :=
  ∀ s, I s → wp m (λ a s', Q a ∧ I s') (λ _ s', I s') s.

(** A connection structure as [new_conn] makes it and the functions keep it. *)
Definition seq_le (a b : Mesg_t) : Prop := m_seq a ≤ m_seq b.

Definition conn_wf (c : Conn_t) : Prop :=
  length (addr c) = Z.to_nat SOCKADDR_SIZE ∧ Sorted seq_le (inbox c).

(** An update of a connection by the library. *)
Definition conn_upd (f : Conn_t → Conn_t) : Prop :=
  ∀ c, conn_wf c → conn_wf (f c) ∧ fifo (f c) = fifo c.

Class TableInv (I : lib → Prop) : Prop := {
  ti_talks s s' : talks (λ _, True) s s' → I s → I s';
  ti_hash2fd m s : I s → I (set_hash2fd m s);
  ti_fifo_id n s : I s → I (set_fifo_id n s);
  ti_fd2conn_null fd s : I s → fd2conn s !! fd = None →
    I (set_fd2conn (<[fd := None]> (fd2conn s)) s);
  ti_new p c s : I s → conns s !! p = None → conn_wf c →
    I (set_conns (<[p := c]> (conns s)) s);
  ti_register fd p c s : I s → fd2conn s !! fd = None → conns s !! p = Some c → fifo c = fd →
    I (set_fd2conn (<[fd := Some p]> (fd2conn s)) s);
  ti_upd p c f s : I s → conns s !! p = Some c → conn_upd f →
    I (set_conns (<[p := f c]> (conns s)) s);
  ti_wf p c s : I s → conns s !! p = Some c → conn_wf c;
}.

(** ** The inbox *)

Lemma inbox_insert_sorted m l : Sorted seq_le l → Sorted seq_le (inbox_insert m l).
Proof.
  induction 1 as [|x l Hl IH Hd]; cbn [inbox_insert]; [by repeat constructor|].
  destruct (m_seq m <? m_seq x) eqn:Hm; bool_to_prop.
  - constructor; [by constructor|]. constructor. unfold seq_le. lia.
  - constructor; [done|]. destruct l as [|y l]; cbn; [by constructor|].
    destruct (m_seq m <? m_seq y); constructor; [done|by inversion Hd].
Qed.

Lemma inbox_insert_perm m l : inbox_insert m l ≡ₚ m :: l.
Proof.
  induction l as [|x l IH]; cbn [inbox_insert]; [done|].
  destruct (_ <? _); [done|]. rewrite IH. apply Permutation_swap.
Qed.

Lemma conn_upd_addr a : length a = Z.to_nat SOCKADDR_SIZE → conn_upd (set_addr a).
Proof. intros Ha c [_ Hs]. done. Qed.
Lemma conn_upd_addr_len n : conn_upd (set_addr_len n).
Proof. by intros c. Qed.
Lemma conn_upd_sock n : conn_upd (set_sock n).
Proof. by intros c. Qed.
Lemma conn_upd_tid n : conn_upd (set_tid n).
Proof. by intros c. Qed.
Lemma conn_upd_sequence n : conn_upd (set_sequence n).
Proof. by intros c. Qed.
Lemma conn_upd_inbox l : Sorted seq_le l → conn_upd (set_inbox l).
Proof. intros Hl c [Ha _]. done. Qed.
Lemma conn_upd_comp f g : conn_upd f → conn_upd g → conn_upd (λ c, f (g c)).
Proof.
  intros Hf Hg c Hc. destruct (Hg c Hc) as [Hw Hfi]. destruct (Hf (g c) Hw) as [? Hff].
  split; [done|congruence].
Qed.

Create HintDb srtp.
#[export] Hint Resolve conn_upd_addr conn_upd_addr_len conn_upd_sock conn_upd_tid
  conn_upd_sequence conn_upd_inbox inbox_insert_sorted : srtp.
#[export] Hint Extern 2 (conn_upd (λ c, set_addr_len _ (set_addr _ c))) =>
  (apply (conn_upd_comp (set_addr_len _) (set_addr _))) : srtp.
#[export] Hint Extern 2 (conn_upd (λ c, set_sock _ (set_addr _ c))) =>
  (apply (conn_upd_comp (set_sock _) (set_addr _))) : srtp.

(** At most one effect and no change of the tables. *)
Ltac solve_talks := split_and!; cbn; try done; try lia;
  first [by exists [] | eexists [_]; split; [done|by repeat constructor]].

Section rules.
Context (I : lib → Prop).

Lemma keeps_ret {A} (a : A) (Q : A → Prop) : Q a → keeps I (mret a) Q.
Proof. intros HQ s Hs. by wp_step. Qed.

Lemma keeps_bind {A B} (m : L A) (f : A → L B) Q R :
  keeps I m Q → (∀ a, Q a → keeps I (f a) R) → keeps I (m ≫= f) R.
Proof.
  intros Hm Hf s Hs. wp_step. eapply wp_mono; [by apply Hm| |done].
  intros a s' [Ha Hs']. by apply Hf.
Qed.

Lemma keeps_halt {A} b (Q : A → Prop) : keeps I (halt b) Q.
Proof. intros s Hs. by wp_step. Qed.

Lemma keeps_gets {A} (f : lib → A) : keeps I (gets f) (λ _, True).
Proof. intros s Hs. by wp_step. Qed.

Lemma keeps_defined {A} u (o : option A) : keeps I (defined u o) (λ a, o = Some a).
Proof. intros s Hs. apply wp_defined; auto. Qed.

Lemma keeps_loop {S R} fuel (body : S → L (S + R)) x (Q : R → Prop) :
  (∀ x, keeps I (body x) (λ r, match r with inl _ => True | inr r => Q r end)) →
  keeps I (loop fuel body x) Q.
Proof.
  intros Hb s Hs. apply (wp_loop (λ _ s', I s')); [done|done|]. intros y s1 Hs1.
  eapply wp_mono; [by apply Hb| |done]. intros [y'|r] s2 [Hr Hs2]; done.
Qed.

Lemma keeps_if {A} (b : bool) (m1 m2 : L A) Q :
  keeps I m1 Q → keeps I m2 Q → keeps I (if b then m1 else m2) Q.
Proof. by destruct b. Qed.

Lemma keeps_weaken {A} (m : L A) (Q Q' : A → Prop) :
  keeps I m Q → (∀ a, Q a → Q' a) → keeps I m Q'.
Proof. intros Hm HQ s Hs. eapply wp_mono; [by apply Hm| |done]. intros a s' [??]; auto. Qed.

Context `{HI : TableInv I} (E : sys) (fuel : nat) `{Host}.

Lemma keeps_talks {A} (m : L A) (Q : A → Prop) :
  (∀ s, wp m (λ a s', Q a ∧ talks (λ _, True) s s') (λ _ s', talks (λ _, True) s s') s) →
  keeps I m Q.
Proof using HI.
  intros Hm s Hs. eapply wp_mono; [by apply Hm|..].
  - intros a s' [Ha Ht]. split; [done|]. exact (ti_talks _ _ Ht Hs).
  - intros b s' Ht. exact (ti_talks _ _ Ht Hs).
Qed.

(** The table operations. *)
Lemma keeps_hash2fd_at h : keeps I (hash2fd_at h) (λ _, True).
Proof using HI.
  intros s Hs. unfold hash2fd_at. do 2 wp_step. destruct (_ !! _); [by wp_step|].
  do 3 wp_step. split; [done|]. by apply ti_hash2fd.
Qed.

Lemma keeps_hash2fd_insert h fd : keeps I (hash2fd_insert h fd) (λ _, True).
Proof using HI.
  intros s Hs. unfold hash2fd_insert. do 2 wp_step. destruct (_ !! _); [by wp_step|].
  wp_step. split; [done|]. by apply ti_hash2fd.
Qed.

Lemma keeps_fd2conn_at fd : keeps I (fd2conn_at fd) (λ _, True).
Proof using HI.
  intros s Hs. unfold fd2conn_at. do 2 wp_step. destruct (_ !! _) eqn:Hfd; [by wp_step|].
  do 3 wp_step. split; [done|]. by apply ti_fd2conn_null.
Qed.

Lemma keeps_get_conn p : keeps I (get_conn p) conn_wf.
Proof using HI.
  intros s Hs. unfold get_conn. wp_step. apply wp_defined; [|done]. intros q _.
  do 2 wp_step. apply wp_defined; [|done]. intros c Hc. split; [|done]. by eapply ti_wf.
Qed.

Lemma keeps_upd_conn p f : conn_upd f → keeps I (upd_conn p f) (λ _, True).
Proof using HI.
  intros Hf s Hs. unfold upd_conn. wp_step. apply wp_defined; [|done]. intros q _.
  do 2 wp_step. wp_step. apply wp_defined; [|done]. intros c Hc. wp_step.
  split; [done|]. by apply ti_upd.
Qed.

Lemma keeps_next_fifo : keeps I (next_fifo E fuel) (λ _, True).
Proof using HI.
  unfold next_fifo. apply keeps_loop. intros _ s Hs. do 2 wp_step. wp_step; [by wp_step|].
  do 2 wp_step. unfold sys_mkfifo. do 2 wp_step. apply wp_sys_call_eq. do 4 wp_step.
  split; [by destruct (_ =? 0)|]. eapply ti_talks; [|by apply ti_fifo_id].
  destruct (_ =? 0); solve_talks.
Qed.

(** A new socket is registered with the structure made for it. *)
Lemma keeps_srtp_socket : keeps I (_srtp_socket E fuel) (λ _, True).
Proof using HI.
  unfold _srtp_socket. eapply keeps_bind; [apply keeps_next_fifo|]. intros name _ s Hs.
  unfold sys_open. do 2 wp_step. apply wp_sys_call_eq. wp_step.
  set (s1 := set_calls _ s).
  assert (I s1) as Hs1 by (eapply ti_talks; [|done]; solve_talks).
  wp_step.
  - unfold sys_unlink. do 2 wp_step. apply wp_sys_call_eq. do 2 wp_step. split; [done|].
    eapply ti_talks; [|exact Hs1]. solve_talks.
  - unfold new_conn. do 2 wp_step. apply wp_sys_call_eq. do 4 wp_step.
    cbn [conns set_calls]. set (p := fresh (dom (conns s1))). set (c := mkConn _ _ _ _ _ _ _ _).
    set (s2 := set_conns _ _).
    assert (conns s1 !! p = None) as Hp by (apply not_elem_of_dom, is_fresh).
    assert (I s2) as Hs2.
    { unfold s2. apply (ti_new p c (set_calls (S (calls s1)) s1)); [|done|].
      - eapply ti_talks; [|exact Hs1]. solve_talks.
      - split; [|constructor]. unfold c. cbn. rewrite length_take, length_app, length_replicate. lia. }
    wp_step. unfold fd2conn_insert. do 3 wp_step. destruct (fd2conn s2 !! _) eqn:Hfd; [do 2 wp_step; done|].
    do 2 wp_step. split; [done|]. apply (ti_register _ _ c); [done|done| |done].
    unfold s2. cbn. by rewrite lookup_insert_eq.
Qed.

Lemma keeps_sys_write fd d : keeps I (sys_write E fd d) (λ _, True).
Proof using HI.
  apply keeps_talks. intros s. by apply (sys_write_sends E fd (λ _, True)).
Qed.

(** ** The functions of the library *)

Ltac one_call := apply keeps_talks; intros s;
  cbv [wp mbind M_bind mret M_ret modify gets sys_call sys_sleep sys_write sys_read sys_sendto
       sys_recvfrom sys_mkfifo sys_open sys_unlink sys_close sys_socket sys_fstat sys_bind
       sys_connect sys_thread sys_cancel stack_buffer];
  repeat case_match; cbn beta iota in *; simplify_eq; (split; [done|solve_talks]).

(** Steps through a function: the elementary operations by their lemmas, the
    remaining system calls because they touch no table. *)
Ltac keeps_step :=
  match goal with
  | |- keeps _ (mbind _ (defined _ _)) _ => 
      eapply keeps_bind; [apply keeps_defined|intros ? ?; cbn beta in *]
  | |- keeps _ (mbind _ (gets _)) _ => eapply keeps_bind; [apply keeps_gets|intros ? _]
  | |- keeps _ (mbind _ (hash2fd_at _)) _ => eapply keeps_bind; [apply keeps_hash2fd_at|intros ? _]
  | |- keeps _ (mbind _ (hash2fd_insert _ _)) _ =>
      eapply keeps_bind; [apply keeps_hash2fd_insert|intros ? _]
  | |- keeps _ (mbind _ (fd2conn_at _)) _ => eapply keeps_bind; [apply keeps_fd2conn_at|intros ? _]
  | |- keeps _ (mbind _ (get_conn _)) _ => eapply keeps_bind; [apply keeps_get_conn|intros ? ?]
  | |- keeps _ (mbind _ (upd_conn _ _)) _ =>
      eapply keeps_bind; [apply keeps_upd_conn; eauto with srtp|intros ? _]
  | |- keeps _ (mbind _ (_srtp_socket _ _)) _ =>
      eapply keeps_bind; [apply keeps_srtp_socket|intros ? _]
  | |- keeps _ (mbind _ (sys_write _ _ _)) _ =>
      eapply keeps_bind; [apply keeps_sys_write|intros ? _]
  | |- keeps _ (mbind _ ?m) _ => apply (keeps_bind m _ (λ _, True)); [one_call|intros ? _]
  | |- keeps _ (mret _) _ => by apply keeps_ret
  | |- keeps _ (if _ then _ else _) _ => apply keeps_if
  end.

Lemma memcpy_addr c a n a' :
  conn_wf c → memcpy (addr c) 0 a n = Some a' → length a' = Z.to_nat SOCKADDR_SIZE.
Proof. intros [Hc _] Hm. apply memcpy_length in Hm. congruence. Qed.
Lemma conn_wf_sorted c : conn_wf c → Sorted seq_le (inbox c).
Proof. by intros [_ Hs]. Qed.
Local Hint Resolve memcpy_addr conn_wf_sorted : srtp.

Lemma keeps_isOpen fd : keeps I (isOpenSRTPSock E fd) (λ _, True).
Proof using HI. unfold isOpenSRTPSock, isValidFD. repeat keeps_step. Qed.

Lemma keeps_send_ack fd q dest : keeps I (send_ack_to E fuel fd q dest) (λ _, True).
Proof using HI. apply keeps_talks. intros s. by apply (wp_send_ack_talks _ _ _ _ _ (λ _, True)). Qed.

Lemma keeps_establish fd : keeps I (establish_conn E fuel fd) (λ v, v = -1).
Proof using HI. apply keeps_talks. intros s. by apply (wp_establish_conn _ _ _ (λ _, True)). Qed.

Lemma keeps_send_data fd d n : keeps I (send_srtp_data E fuel fd d n) (λ v, v = -1).
Proof using HI. apply keeps_talks. intros s. by apply (wp_send_srtp_data _ _ _ _ _ (λ _, True)). Qed.

Lemma keeps_handle_data packet p : keeps I (handle_data_pkt E packet p) (λ _, True).
Proof using HI.
  unfold handle_data_pkt. destruct p as [p|]; [|by apply keeps_ret].
  repeat keeps_step.
Qed.

(** The receiver never leaves its loop. *)
Lemma keeps_recv fd buffer a : keeps I (recv_srtp_data E fuel fd buffer a) (λ _, False).
Proof using HI.
  unfold recv_srtp_data. eapply (keeps_bind _ _ (λ _, False)); [|done].
  apply keeps_loop. intros [b a0]. unfold recv_step. cbn beta iota.
  eapply (keeps_bind _ _ (λ _, True)); [one_call|intros [[n d] src] _]. destruct src as [src|]; [|by apply keeps_ret]. do 3 keeps_step.
  eapply keeps_bind; [apply keeps_fd2conn_at|intros conn0 _].
  eapply (keeps_bind _ _ (λ _, True)).
  { destruct conn0; [by apply keeps_ret|]. repeat keeps_step. }
  intros conn _. keeps_step. apply keeps_if.
  - eapply keeps_bind; [apply keeps_handle_data|intros _ _]. keeps_step.
    eapply keeps_bind; [apply keeps_send_ack|intros _ _]. keeps_step.
  - unfold handle_cmd_pkt. eapply (keeps_bind _ _ (λ _, True)); [repeat keeps_step|intros _ _].
    keeps_step.
Qed.

Lemma keeps_server_proxy fd : keeps I (server_proxy E fuel fd) (λ _, False).
Proof using HI.
  unfold server_proxy. do 3 keeps_step. apply keeps_loop. intros [b src]. cbn beta iota. keeps_step.
  eapply keeps_bind; [apply keeps_recv|done].
Qed.

Lemma keeps_client_proxy fd : keeps I (client_proxy E fuel fd) (λ _, True).
Proof using HI.
  unfold client_proxy. keeps_step. apply keeps_loop. intros [].
  eapply (keeps_bind _ _ (λ _, True)); [one_call|intros [n d] _].
  apply keeps_if; [|by apply keeps_ret]. keeps_step.
  eapply keeps_bind; [apply keeps_send_data|]. intros v ->. by apply keeps_ret.
Qed.

Lemma keeps_listen fd : keeps I (_srtp_listen E fd) (λ _, True).
Proof using HI.
  unfold _srtp_listen. eapply keeps_bind; [apply keeps_isOpen|intros o _]. repeat keeps_step.
Qed.

Lemma keeps_bind_call fd a n : keeps I (_srtp_bind E fd a n) (λ _, True).
Proof using HI.
  unfold _srtp_bind. eapply keeps_bind; [apply keeps_isOpen|intros o _]. repeat keeps_step.
Qed.

(** [_srtp_connect] always fails. *)
Lemma keeps_connect fd a n : keeps I (_srtp_connect E fuel fd a n) (λ v, v = -1).
Proof using HI.
  unfold _srtp_connect. eapply keeps_bind; [apply keeps_isOpen|intros o _].
  do 2 (apply keeps_if; [by apply keeps_ret|]). do 2 keeps_step.
  eapply (keeps_bind _ _ (λ _, True)); [one_call|intros cret _].
  destruct (cret =? -1) eqn:Hc; [apply keeps_ret; by apply Z.eqb_eq in Hc|].
  do 4 keeps_step. eapply keeps_bind; [apply keeps_establish|]. intros v ->.
  cbn [Z.eqb negb]. repeat keeps_step.
Qed.

Lemma keeps_debug b : (∀ s, I s → I (set_debug b s)) → keeps I (_srtp_debug b) (λ _, True).
Proof. intros Hd s Hs. unfold _srtp_debug. wp_step. auto. Qed.
End rules.
