(* ===== verification/SrtpConnProps.v ===== *)
(** * SrtpConnProps: the connection tables of the SRTP library *)
From Stdlib Require Import Sorting.Sorted.
From S2P Require Import Prelude CMonad CLib Packet SrtpHeader SrtpHeaderProps Samples.
From S2P Require Import SrtpWorld SrtpIO SrtpConn SrtpIOProps SrtpInv.
Import Srtp.

(** ** The tables stay consistent *)

(** Every structure on the heap is well formed, and every entry of [fd2conn]
    that is not null points to the structure of its descriptor. *)
Record lib_ok (s : lib) : Prop := {
  ok_heap p c : conns s !! p = Some c → conn_wf c;
  ok_table fd p : fd2conn s !! fd = Some (Some p) → ∃ c, conns s !! p = Some c ∧ fifo c = fd;
}.

#[global] Instance lib_ok_inv : TableInv lib_ok.
Proof.
  split.
  - intros s s' (_ & _ & Hf & Hc & _) [Hh Ht]. split; rewrite ?Hf, ?Hc; done.
  - by intros m s [Hh Ht].
  - by intros n s [Hh Ht].
  - intros fd s [Hh Ht] Hn. split; [done|]. cbn. intros fd' p Hp. apply (Ht fd' p).
    destruct (decide (fd = fd')) as [->|]; [by rewrite lookup_insert_eq in Hp|].
    by rewrite lookup_insert_ne in Hp.
  - intros p c s [Hh Ht] Hn Hc. split; cbn.
    + intros q c'. destruct (decide (p = q)) as [->|]; [rewrite lookup_insert_eq; congruence|].
      rewrite lookup_insert_ne by done. apply Hh.
    + intros fd q Hq. destruct (Ht fd q Hq) as (c' & Hc' & Hf). exists c'. split; [|done].
      rewrite lookup_insert_ne; [done|congruence].
  - intros fd p c s [Hh Ht] Hn Hc Hf. split; [done|]. cbn. intros fd' q.
    destruct (decide (fd = fd')) as [->|]; [rewrite lookup_insert_eq; intros [= <-]; eauto|].
    rewrite lookup_insert_ne by done. apply Ht.
  - intros p c f s [Hh Ht] Hc Hu. destruct (Hu c (Hh p c Hc)) as [Hw Hf]. split; cbn.
    + intros q c'. destruct (decide (p = q)) as [->|]; [rewrite lookup_insert_eq; congruence|].
      rewrite lookup_insert_ne by done. apply Hh.
    + intros fd q Hq. destruct (Ht fd q Hq) as (c' & Hc' & Hfd).
      destruct (decide (p = q)) as [->|]; [exists (f c); rewrite lookup_insert_eq; split; congruence|].
      exists c'. by rewrite lookup_insert_ne.
  - intros p c s [Hh Ht]. apply Hh.
Qed.

(** ... and nobody is waiting to be accepted. *)
Definition idle (s : lib) : Prop := lib_ok s ∧ new_conns s = [].

#[global] Instance idle_inv : TableInv idle.
Proof.
  split; unfold idle; cbn.
  - intros s s' Ht [Hs Hn]. split; [by eapply ti_talks|]. destruct Ht as (_&_&_&_&Hn'&_). congruence.
  - intros m s [Hs Hn]. by split; [apply ti_hash2fd|].
  - intros n s [Hs Hn]. by split; [apply ti_fifo_id|].
  - intros fd s [Hs Hn] Hfd. by split; [apply ti_fd2conn_null|].
  - intros p c s [Hs Hn] Hp Hc. by split; [apply ti_new|].
  - intros fd p c s [Hs Hn] Hfd Hp Hf. by split; [eapply ti_register|].
  - intros p c f s [Hs Hn] Hp Hf. by split; [apply ti_upd|].
  - intros p c s [Hs _]. apply (ti_wf p c s Hs).
Qed.

Section tables.
Context `{Host} (E : sys) (fuel : nat).
Implicit Types (s : lib).

(** The calls a process can make, and the two threads the library starts. *)
Inductive request : Type :=
| CallSocket
| CallListen (fd : Z)
| CallBind (fd : Z) (a : option sockaddr) (n : Z)
| CallAccept (fd : Z) (a : option (sockaddr * Z))
| CallConnect (fd : Z) (a : option sockaddr) (n : Z)
| CallClose (fd : Z)
| CallDebug (b : bool)
| RunServerProxy (fd : Z)
| RunClientProxy (fd : Z).

Definition perform (r : request) : L unit :=
  match r with
  | CallSocket => _ ← srtp_socket E fuel; mret tt
  | CallListen fd => _ ← srtp_listen E fd; mret tt
  | CallBind fd a n => _ ← srtp_bind E fd a n; mret tt
  | CallAccept fd a => _ ← srtp_accept E fuel fd a; mret tt
  | CallConnect fd a n => _ ← srtp_connect E fuel fd a n; mret tt
  | CallClose fd => _ ← srtp_close E fd; mret tt
  | CallDebug b => srtp_debug b
  | RunServerProxy fd => server_proxy E fuel fd
  | RunClientProxy fd => client_proxy E fuel fd
  end.

(** The states of a process: from the initial one, any call at any time, also
    one that was cut off. *)
Inductive reachable : lib → Prop :=
| reach_init n : reachable (mkLib n ∅ ∅ ∅ [] 0 false [])
| reach_call r res s s' : reachable s → perform r s = (res, s') → reachable s'.

(** [fd2conn_at] and [get_conn] on an entry that is there. *)
Lemma wp_conn_of fd p c (f : option loc → Conn_t → L Z) Q X s :
  fd2conn s !! fd = Some (Some p) → conns s !! p = Some c → wp (f (Some p) c) Q X s →
  wp (conn ← fd2conn_at fd; c ← get_conn conn; f conn c) Q X s.
Proof.
  intros Hfd Hc Hf. unfold fd2conn_at, get_conn. do 3 wp_step. rewrite Hfd. do 3 wp_step.
  wp_step. wp_step. wp_step. rewrite Hc. by wp_step.
Qed.

(** The test at the start of the calls. *)
Lemma wp_isOpen fd Q X s :
  (∀ s', talks (λ _, False) s s' →
    Q (bool_decide (s_fstat E (calls s) fd = 0 ∧ is_Some (fd2conn s !! fd))) s') →
  wp (isOpenSRTPSock E fd) Q X s.
Proof.
  intros HQ. unfold isOpenSRTPSock, isValidFD, sys_fstat. do 3 wp_step. apply wp_sys_call_eq.
  do 2 wp_step. assert (talks (λ _, False) s (set_calls (S (calls s)) s)) as Ht by solve_talks.
  specialize (HQ _ Ht). destruct (Z.eqb_spec (s_fstat E (calls s) fd) 0) as [He|He].
  - do 3 wp_step. cbn. erewrite bool_decide_ext; [exact HQ|]. tauto.
  - wp_step. rewrite bool_decide_eq_false_2 in HQ by tauto. exact HQ.
Qed.

(** The calls of [_srtp_close], exactly. *)
Lemma wp_sys_close_eq fd Q X s :
  Q tt (act (FxClose fd) (set_calls (S (calls s)) s)) → wp (sys_close fd) Q X s.
Proof. done. Qed.
Lemma wp_sys_unlink_eq n Q X s :
  Q tt (act (FxUnlink n) (set_calls (S (calls s)) s)) → wp (sys_unlink n) Q X s.
Proof. done. Qed.
Lemma wp_sys_cancel_eq t Q X s :
  Q tt (act (FxCancel t) (set_calls (S (calls s)) s)) → wp (sys_cancel t) Q X s.
Proof. done. Qed.
Lemma wp_sys_sleep_eq Q X s : Q tt (set_calls (S (calls s)) s) → wp sys_sleep Q X s.
Proof. done. Qed.

(** With nobody to accept, [_srtp_accept] waits. *)
Lemma wp_accept_idle fd a (Q : Z * option sockaddr → lib → Prop) X s :
  new_conns s = [] →
  (∀ s', talks (λ _, False) s s' → X SFuel s') →
  (∀ s', talks (λ _, False) s s' → Q (-1, fst <$> a) s') →
  wp (_srtp_accept E fuel fd a) Q X s.
Proof.
  intros Hn HX HQ. unfold _srtp_accept. wp_step. apply wp_isOpen. intros s1 Ht1.
  wp_step; [wp_step; auto|].
  wp_step. apply (wp_loop (λ _ s', talks (λ _, False) s s')); [done|auto|].
  intros _ s2 Ht2. do 2 wp_step. pose proof Ht2 as (_ & _ & _ & _ & Hn2 & _). rewrite Hn2, Hn.
  wp_step. apply (wp_sys_sleep (λ _, False)). intros s3 Ht3. wp_step. by etrans.
Qed.

(** What [_srtp_close] does to the tables when it goes through. *)
Definition closed (fd : Z) (p : loc) (name : list Z) (s s' : lib) : Prop :=
  fd2conn s' = delete fd (fd2conn s) ∧ conns s' = delete p (conns s) ∧
  new_conns s' = new_conns s ∧ FxUnlink name ∈ effects s'.

Lemma wp_close_ok fd p c Q X s :
  s_fstat E (calls s) fd = 0 → fd2conn s !! fd = Some (Some p) → conns s !! p = Some c →
  (∀ s', closed fd p (filename c) s s' → Q 0 s') → wp (_srtp_close E fd) Q X s.
Proof.
  intros Hst Hfd Hc HQ. unfold _srtp_close. wp_step. apply wp_isOpen. intros s1 Ht1.
  rewrite bool_decide_eq_true_2 by eauto. cbn [negb].
  wp_step. apply wp_sys_sleep_eq. wp_step. apply wp_sys_close_eq.
  destruct Ht1 as (_ & _ & Hf1 & Hc1 & Hn1 & _).
  eapply wp_conn_of; [cbn; by rewrite Hf1|cbn; by rewrite Hc1|].
  set (same := λ s', fd2conn s' = fd2conn s ∧ conns s' = conns s ∧ new_conns s' = new_conns s).
  set (s2 := act _ _). assert (same s2) as Hs2 by done.
  clearbody s2. wp_step. apply (wp_conseq _ (λ _, same)).
  { wp_step; [by wp_step|]. unfold shutdown_conn. do 2 wp_step. wp_step. apply wp_sys_close_eq.
    by apply wp_sys_cancel_eq. }
  intros _ s3 (Hf3 & Hc3 & Hn3). wp_step. apply wp_sys_unlink_eq. do 2 wp_step. do 3 wp_step.
  apply HQ. split_and!; cbn; [by rewrite Hf3|by rewrite Hc3|done|left].
Qed.

Lemma lib_ok_closed fd p c name s s' :
  lib_ok s → fd2conn s !! fd = Some (Some p) → conns s !! p = Some c →
  closed fd p name s s' → lib_ok s'.
Proof.
  intros [Hh Ht] Hfd Hc (Hf' & Hc' & _). split; rewrite ?Hf', ?Hc'.
  - intros q c' [_ Hq]%lookup_delete_Some. eauto.
  - intros fd' q [Hne Hq]%lookup_delete_Some. destruct (Ht fd' q Hq) as (c' & Hc'' & Hfifo).
    exists c'. split; [|done]. apply lookup_delete_Some. split; [|done]. intros ->.
    destruct (Ht fd q Hfd) as (? & ? & ?). congruence.
Qed.

(** A call on a descriptor that is not an SRTP socket is refused. *)
Lemma wp_not_open {A} fd (m : L A) v Q X s :
  fd2conn s !! fd = None →
  (∀ s', talks (λ _, False) s s' → Q v s') →
  wp (o ← isOpenSRTPSock E fd; if negb o then mret v else m) Q X s.
Proof.
  intros Hfd HQ. wp_step. apply wp_isOpen. intros s' Ht.
  rewrite bool_decide_eq_false_2 by (intros [_ [? ?]]; congruence). cbn. by apply HQ.
Qed.

Lemma keeps_close fd : keeps idle (_srtp_close E fd) (λ _, True).
Proof.
  intros s [Hs Hn].
  destruct (decide (s_fstat E (calls s) fd = 0 ∧ is_Some (fd2conn s !! fd))) as [[Hst Hfd]|Hno].
  2: { unfold _srtp_close. wp_step. apply wp_isOpen. intros s1 Ht1.
       rewrite bool_decide_eq_false_2 by done. cbn. split; [done|].
       eapply ti_talks; [|by split]. by eapply talks_mono, Ht1. }
  destruct Hfd as [[p|] Hfd].
  - destruct (ok_table _ Hs fd p Hfd) as (c & Hc & _). eapply wp_close_ok; [done..|].
    intros s' Hcl. split; [done|]. split; [by eapply lib_ok_closed|].
    destruct Hcl as (_ & _ & Hn' & _). congruence.
  - unfold _srtp_close. wp_step. apply wp_isOpen. intros s1 Ht1.
    rewrite bool_decide_eq_true_2 by (rewrite Hfd; eauto). cbn [negb].
    wp_step. apply wp_sys_sleep_eq. wp_step. apply wp_sys_close_eq.
    destruct Ht1 as (_ & _ & Hf1 & Hc1 & Hn1 & _). unfold fd2conn_at, get_conn. do 3 wp_step.
    cbn [fd2conn act set_calls]. rewrite Hf1, Hfd. do 4 wp_step.
    destruct Hs as [Hh Ht]. split; [|cbn; congruence]. split; cbn; rewrite ?Hf1, ?Hc1; done.
Qed.

Lemma keeps_accept fd a : keeps idle (_srtp_accept E fuel fd a) (λ r, r.1 = -1).
Proof.
  intros s Hs. apply wp_accept_idle; [apply Hs|..]; intros s' Ht.
  - eapply ti_talks; [|exact Hs]. by eapply talks_mono, Ht.
  - split; [done|]. eapply ti_talks; [|exact Hs]. by eapply talks_mono, Ht.
Qed.

Lemma keeps_perform r : keeps idle (perform r) (λ _, True).
Proof.
  destruct r; cbn [perform].
  - eapply keeps_bind; [apply (keeps_srtp_socket idle)|]. intros. by apply keeps_ret.
  - eapply keeps_bind; [apply (keeps_listen idle)|]. intros. by apply keeps_ret.
  - unfold srtp_bind. eapply (keeps_bind _ _ _ (λ _, True)); [|intros; by apply keeps_ret].
    do 3 (eapply keeps_bind; [apply keeps_defined|intros ? _]).
    eapply keeps_bind; [apply (keeps_bind_call idle)|]. intros. by apply keeps_ret.
  - eapply keeps_bind; [apply keeps_accept|]. intros. by apply keeps_ret.
  - eapply keeps_bind; [apply (keeps_connect idle)|]. intros. by apply keeps_ret.
  - eapply keeps_bind; [apply keeps_close|]. intros. by apply keeps_ret.
  - apply keeps_debug. by intros s [[Hh Ht] Hn].
  - eapply keeps_weaken; [apply (keeps_server_proxy idle)|done].
  - apply (keeps_client_proxy idle).
Qed.

Lemma reachable_idle s : reachable s → idle s.
Proof.
  induction 1 as [n|r res s s' _ IH Hrun].
  - split; [|done]. split; cbn; intros * Hl; by rewrite lookup_empty in Hl.
  - pose proof (wp_run _ _ _ _ _ _ (keeps_perform r s IH) Hrun) as Hp.
    destruct res; [by destruct Hp|done].
Qed.

(** C29. The tables of the library stay consistent under any sequence of calls
    and runs of the worker threads, also calls that crash or are cut off: an
    entry of [fd2conn] that is not null points to a live structure whose
    [fifo] is that descriptor, whose address fits and whose inbox is sorted by
    sequence number, and no two descriptors share a structure. *)
Theorem tables_consistent s fd p :
  reachable s → fd2conn s !! fd = Some (Some p) →
  ∃ c, conns s !! p = Some c ∧ fifo c = fd ∧ length (addr c) = Z.to_nat SOCKADDR_SIZE ∧
    Sorted seq_le (inbox c) ∧ ∀ fd', fd2conn s !! fd' = Some (Some p) → fd' = fd.
Proof.
  intros Hr Hfd. apply reachable_idle in Hr as [[Hh Ht] _].
  destruct (Ht fd p Hfd) as (c & Hc & Hf).
  destruct (Hh p c Hc) as [Ha Hs]. exists c. split_and!; try done.
  intros fd' Hfd'. destruct (Ht fd' p Hfd') as (c' & ? & ?). congruence.
Qed.

(** C30. No connection is ever established: whatever the peers and the network
    do, the only value [_srtp_connect] can return is -1, since
    [establish_conn] has no path to its [return 0], and the only value
    [_srtp_accept] can return is -1, since [recv_srtp_data] never returns and
    the server thread therefore never queues a connection. *)
Theorem no_connection_established s fd :
  reachable s →
  (∀ a n v s', _srtp_connect E fuel fd a n s = (Ok v, s') → v = -1) ∧
  (∀ a v o s', _srtp_accept E fuel fd a s = (Ok (v, o), s') → v = -1) ∧
  (∀ v s', server_proxy E fuel fd s = (Ok v, s') → False).
Proof.
  intros Hr. apply reachable_idle in Hr. split_and!.
  - intros a n v s' Hrun. apply (wp_run _ _ _ _ _ _ (keeps_connect idle E fuel fd a n s Hr) Hrun).
  - intros a v o s' Hrun. apply (wp_run _ _ _ _ _ _ (keeps_accept fd a s Hr) Hrun).
  - intros v s' Hrun. apply (wp_run _ _ _ _ _ _ (keeps_server_proxy idle E fuel fd s Hr) Hrun).
Qed.
End tables.

(** ** Witnesses *)

Local Existing Instance sample_host.

(** The process after it has opened a socket. *)
Definition one_socket : lib := (perform quiet_sys 20 CallSocket init_lib).2.

Lemma one_socket_reachable : reachable quiet_sys 20 one_socket.
Proof.
  apply (reach_call quiet_sys 20 CallSocket (perform quiet_sys 20 CallSocket init_lib).1 init_lib).
  - apply reach_init.
  - apply surjective_pairing.
Defined.

Lemma tables_consistent_witness :
  ∃ c, conns one_socket !! 1%positive = Some c ∧ fifo c = 1 ∧
    length (addr c) = Z.to_nat SOCKADDR_SIZE ∧ Sorted seq_le (inbox c) ∧
    ∀ fd', fd2conn one_socket !! fd' = Some (Some 1%positive) → fd' = 1.
Proof.
  apply (tables_consistent quiet_sys 20 one_socket 1 1%positive one_socket_reachable).
  vm_compute. reflexivity.
Defined.

Lemma no_connection_established_witness :
  (∀ a n v s', _srtp_connect quiet_sys 20 1 a n one_socket = (Ok v, s') → v = -1) ∧
  (∀ a v o s', _srtp_accept quiet_sys 20 1 a one_socket = (Ok (v, o), s') → v = -1) ∧
  (∀ v s', server_proxy quiet_sys 20 1 one_socket = (Ok v, s') → False).
Proof. apply (no_connection_established quiet_sys 20 one_socket 1 one_socket_reachable). Defined.

(** The hypotheses of the three parts are met: the connection to a silent peer
    is attempted and fails. *)
Example connect_fails :
  (_srtp_connect silent_sys 20 1 (Some (replicate 16 0)) 16 one_socket).1 = Ok (-1).
Proof. vm_compute. reflexivity. Qed.
