(* ===== verification/SrtpCallProps.v ===== *)
(** * SrtpCallProps: the calls and handlers of the SRTP library, one by one *)
From Stdlib Require Import Sorting.Sorted.
From S2P Require Import Prelude CMonad CLib Packet SrtpHeader SrtpHeaderProps Samples.
From S2P Require Import SrtpWorld SrtpIO SrtpConn SrtpIOProps SrtpInv SrtpConnProps.
Import Srtp.

Section calls.
Context `{Host} (E : sys) (fuel : nat).
Implicit Types (s : lib).

(** A run that only made calls without effects. *)
Lemma untouched_run {A} (m : L A) v s :
  wp m (λ a s', a = v ∧ talks (λ _, False) s s') (λ _ _, False) s →
  ∃ s', m s = (Ok v, s') ∧ talks (λ _, False) s s'.
Proof.
  unfold wp. destruct (m s) as [[a|] s']; [|done]. intros [-> Ht]. by exists s'.
Qed.

(** A descriptor that is not an SRTP socket is refused by every call:
    listen, bind, accept, connect and close return -1 and have no effect at
    all, neither on the tables nor outside the process. *)
Theorem not_a_socket_refused fd a n o s :
  fd2conn s !! fd = None →
  (∃ s', _srtp_listen E fd s = (Ok (-1), s') ∧ talks (λ _, False) s s') ∧
  (∃ s', _srtp_bind E fd a n s = (Ok (-1), s') ∧ talks (λ _, False) s s') ∧
  (∃ s', _srtp_accept E fuel fd o s = (Ok (-1, fst <$> o), s') ∧ talks (λ _, False) s s') ∧
  (∃ s', _srtp_connect E fuel fd a n s = (Ok (-1), s') ∧ talks (λ _, False) s s') ∧
  (∃ s', _srtp_close E fd s = (Ok (-1), s') ∧ talks (λ _, False) s s').
Proof.
  intros Hfd. split_and!; apply untouched_run; by apply wp_not_open.
Qed.

(** ** Sockets *)

(** What [_srtp_socket] does when it returns the descriptor [fd]. *)
Definition opened (fd : Z) (p : loc) (c : Conn_t) (n : Z) s s' : Prop :=
  fd2conn s' = <[fd := Some p]> (fd2conn s) ∧ conns s' = <[p := c]> (conns s) ∧
  conns s !! p = None ∧ fifo c = fd ∧ inbox c = [] ∧ filename c = fifo_name n ∧
  hash2fd s' = hash2fd s ∧ FxMkfifo (fifo_name n) ∈ effects s'.

Lemma wp_next_fifo s :
  wp (next_fifo E fuel)
    (λ name s', ∃ n, name = fifo_name n ∧ FxMkfifo name ∈ effects s' ∧ hash2fd s' = hash2fd s ∧
      fd2conn s' = fd2conn s ∧ conns s' = conns s) (λ _ _, True) s.
Proof.
  unfold next_fifo.
  apply (wp_loop (λ _ s', hash2fd s' = hash2fd s ∧ fd2conn s' = fd2conn s ∧ conns s' = conns s));
    [done|done|].
  intros _ s1 (Hh & Hf & Hc). do 2 wp_step. wp_step; [by wp_step|]. do 2 wp_step.
  unfold sys_mkfifo. do 2 wp_step. apply wp_sys_call_eq. do 4 wp_step.
  destruct (_ =? 0); [|done]. eexists. split_and!; [done|left|done..].
Qed.

Lemma wp_socket_opened s :
  wp (_srtp_socket E fuel)
    (λ fd s', 0 ≤ fd → fd2conn s !! fd = None → ∃ p c n, opened fd p c n s s') (λ _ _, True) s.
Proof.
  unfold _srtp_socket. wp_step. eapply wp_mono; [apply wp_next_fifo| |done].
  intros name s1 (n & -> & Hfx & Hh & Hf & Hc). unfold sys_open. do 2 wp_step. apply wp_sys_call_eq.
  wp_step. wp_step.
  - bool_to_prop. wp_step. apply wp_sys_unlink_eq. wp_step. lia.
  - unfold new_conn. do 2 wp_step. apply wp_sys_call_eq. do 4 wp_step.
    cbn [conns set_calls]. set (p := fresh (dom (conns s1))). set (c := mkConn _ _ _ _ _ _ _ _).
    assert (conns s1 !! p = None) as Hp by (apply not_elem_of_dom, is_fresh).
    wp_step. unfold fd2conn_insert. do 3 wp_step. cbn [fd2conn set_conns set_calls]. rewrite Hf.
    destruct (fd2conn s !! s_open E (calls s1)) eqn:Hfd; [do 2 wp_step; congruence|].
    do 2 wp_step. intros _ _. exists p, c, n. split_and!; cbn; try done; by rewrite <- Hc.
Qed.


(** ** Data packets *)

Lemma wp_get_conn p c Q X s : conns s !! p = Some c → Q c s → wp (get_conn (Some p)) Q X s.
Proof. intros Hc HQ. unfold get_conn. do 4 wp_step. rewrite Hc. by wp_step. Qed.

Lemma wp_upd_conn p c f Q X s :
  conns s !! p = Some c → Q tt (set_conns (<[p := f c]> (conns s)) s) →
  wp (upd_conn (Some p) f) Q X s.
Proof. intros Hc HQ. unfold upd_conn. do 4 wp_step. rewrite Hc. do 2 wp_step. by wp_step. Qed.

(** The effect of a [write] that fails or takes everything. *)
Definition wrote (fd : Z) (d : list Z) s s' : Prop :=
  (s_write E (calls s) < 0 → effects s' = effects s) ∧
  (Z.of_nat (length d) ≤ s_write E (calls s) → effects s' = FxWrite fd d :: effects s).

Lemma wp_sys_write_wrote fd d Q X s :
  (∀ v s', conns s' = conns s → wrote fd d s s' → Q v s') → wp (sys_write E fd d) Q X s.
Proof.
  intros HQ. unfold sys_write. wp_step. apply wp_sys_call_eq. do 3 wp_step.
  set (r := accepted (s_write E (calls s)) (length d)).
  apply HQ; [by destruct (r <? 0)|]. unfold wrote, r, accepted. split; intros Hw.
  - by rewrite (proj2 (Z.ltb_lt _ _) Hw).
  - rewrite (proj2 (Z.ltb_ge (s_write E (calls s)) _)) by lia. rewrite Z.min_r by lia.
    rewrite (proj2 (Z.ltb_ge _ _)) by lia. cbn. by rewrite Nat2Z.id, firstn_all.
Qed.


(** The payload is read from the wrong place: [handle_data_pkt] adds the
    size of the header twice, so that for a packet with payload [payload] it
    delivers what starts eight bytes into the payload, and the last bytes come
    from whatever follows the packet in the buffer. *)
Theorem payload_shifted h payload rest :
  wf_header h → len h = Z.of_nat (length payload) → (8 ≤ length rest)%nat →
  message_at (header_bytes h ++ payload ++ rest) (len h) =
  Some (take (length payload) (drop 8 (payload ++ rest))).
Proof.
  intros Hw Hl Hr. unfold message_at. rewrite Hl, Nat2Z.id.
  assert (length (header_bytes h) = 8%nat) as H8
    by (unfold header_bytes; by rewrite !length_app, !length_halfword).
  change (Z.to_nat (PKT_HEADERSIZE + PKT_HEADERSIZE)) with (8 + 8)%nat.
  rewrite decide_True by (rewrite !length_app; lia).
  rewrite <- (drop_drop _ 8 8), drop_app_length' by done. done.
Qed.

(** ** Datagrams *)

(** The library has no connection for the host [h]: looked up, the host gives
    descriptor 0, and descriptor 0 a null pointer. *)
Definition unregistered (h : Z) s : Prop :=
  (hash2fd s !! h = None ∨ hash2fd s !! h = Some 0) ∧
  (fd2conn s !! 0 = None ∨ fd2conn s !! 0 = Some None).

(** The same after both were looked up, with [n] structures on the heap. *)
Definition looked_up (h : Z) (n : nat) s : Prop :=
  hash2fd s !! h = Some 0 ∧ fd2conn s !! 0 = Some None ∧ size (conns s) = n.

Lemma looked_up_talks h n K s s' : talks K s s' → looked_up h n s → looked_up h n s'.
Proof. unfold looked_up. intros (_ & -> & -> & -> & _). done. Qed.

Lemma looked_up_keeps_talks {A} h n (m : L A) (Q : A → Prop) :
  (∀ s, wp m (λ a s', Q a ∧ talks (λ _, True) s s') (λ _ s', talks (λ _, True) s s') s) →
  keeps (looked_up h n) m Q.
Proof.
  intros Hm s Hs. eapply wp_mono; [by apply Hm|..].
  - intros a s' [Ha Ht]. split; [done|exact (looked_up_talks _ _ _ _ _ Ht Hs)].
  - intros b s' Ht. exact (looked_up_talks _ _ _ _ _ Ht Hs).
Qed.

Lemma looked_up_get h n p : keeps (looked_up h n) (get_conn p) (λ _, True).
Proof.
  unfold get_conn. do 2 (eapply keeps_bind; [apply keeps_defined || apply keeps_gets|intros ? _]).
  eapply keeps_weaken; [apply keeps_defined|done].
Qed.

Lemma looked_up_upd h n p f : keeps (looked_up h n) (upd_conn p f) (λ _, True).
Proof.
  intros s (Hh & Hf & Hn). unfold upd_conn. wp_step. apply wp_defined; [intros q _|done].
  do 2 wp_step. wp_step. apply wp_defined; [intros c Hc|done]. wp_step. split; [done|].
  split_and!; cbn; [done..|]. by rewrite map_size_insert_Some by eauto.
Qed.

Lemma looked_up_conn_at h n fd : keeps (looked_up h n) (fd2conn_at fd) (λ _, True).
Proof.
  intros s (Hh & Hf & Hn). unfold fd2conn_at. do 2 wp_step.
  destruct (fd2conn s !! fd) eqn:Hfd; [by wp_step|]. do 3 wp_step. split; [done|].
  split_and!; cbn; [done| |done]. rewrite lookup_insert_ne; [done|congruence].
Qed.

Lemma looked_up_insert h n fd : keeps (looked_up h n) (hash2fd_insert h fd) (λ _, True).
Proof.
  intros s Hs. unfold hash2fd_insert. do 2 wp_step. destruct Hs as (Hh & ?). rewrite Hh. by wp_step.
Qed.

Lemma looked_up_handle h n packet p : keeps (looked_up h n) (handle_data_pkt E packet p) (λ _, True).
Proof.
  unfold handle_data_pkt. destruct p as [p|]; [|by apply keeps_ret].
  eapply keeps_bind; [apply looked_up_get|intros c _].
  do 3 (eapply keeps_bind; [apply keeps_defined|intros ? _]). apply keeps_if.
  - eapply (keeps_bind _ _ _ (λ _, True)).
    { apply looked_up_keeps_talks. intros s. by apply (sys_write_sends E (fifo c) (λ _, True)). }
    intros _ _. eapply keeps_bind; [apply looked_up_upd|intros; by apply keeps_ret].
  - eapply keeps_bind; [apply looked_up_upd|intros; by apply keeps_ret].
Qed.

(** Every socket costs a structure. *)
Lemma wp_socket_counts h n s :
  (∀ k, 0 ≤ s_open E k) → looked_up h n s →
  wp (_srtp_socket E fuel) (λ _ s', looked_up h (S n) s') (λ _ _, True) s.
Proof.
  intros Hopen (Hh & Hf & Hn). unfold _srtp_socket. wp_step. eapply wp_mono; [apply wp_next_fifo| |done].
  intros name s1 (k & _ & _ & Hh1 & Hf1 & Hc1). unfold sys_open. do 2 wp_step. apply wp_sys_call_eq.
  wp_step. wp_step.
  - bool_to_prop. specialize (Hopen (calls s1)). lia.
  - unfold new_conn. do 2 wp_step. apply wp_sys_call_eq. do 4 wp_step.
    cbn [conns set_calls]. set (p := fresh (dom (conns s1))). set (c := mkConn _ _ _ _ _ _ _ _).
    set (s2 := set_conns _ _).
    assert (looked_up h (S n) s2) as (Hh2 & Hf2 & Hn2).
    { unfold looked_up, s2. cbn. rewrite Hh1, Hf1. split_and!; [done..|].
      rewrite map_size_insert_None, Hc1 by (apply not_elem_of_dom, is_fresh). by rewrite Hn. }
    clearbody s2. wp_step. unfold fd2conn_insert. do 3 wp_step.
    destruct (fd2conn s2 !! s_open E (calls s1)) eqn:Hfd; [by do 2 wp_step|].
    do 2 wp_step. split_and!; cbn; [done| |done].
    rewrite lookup_insert_ne; [done|congruence].
Qed.

(** The new connection for a datagram, in [recv_step]. *)
Lemma wp_recv_new h n a s :
  (∀ k, 0 ≤ s_open E k) → looked_up h n s →
  wp (fd ← _srtp_socket E fuel;
      conn ← fd2conn_at fd;
      c ← get_conn conn;
      a' ← defined OutOfBounds (memcpy (addr c) 0 a SOCKADDR_SIZE);
      _ ← upd_conn conn (λ c, set_addr_len FIFO_BUFFER (set_addr a' c));
      _ ← hash2fd_insert h fd;
      mret conn) (λ _ s', looked_up h (S n) s') (λ _ _, True) s.
Proof.
  intros Hopen Hs. wp_step. eapply wp_mono; [by apply wp_socket_counts| |done]. intros fd s1 Hs1.
  eapply (wp_mono _ (λ a s', True ∧ looked_up h (S n) s')); [|by intros ? ? [_ ?]|done].
  revert s1 Hs1. eapply keeps_bind; [apply looked_up_conn_at|intros conn _].
  eapply keeps_bind; [apply looked_up_get|intros c _].
  eapply keeps_bind; [apply keeps_defined|intros a' _].
  eapply keeps_bind; [apply looked_up_upd|intros _ _].
  eapply keeps_bind; [apply looked_up_insert|intros _ _]. by apply keeps_ret.
Qed.

(** What [recv_step] does once it has the connection. *)
Lemma looked_up_serve h n fd buffer conn a :
  keeps (looked_up h n)
    (l ← defined OutOfBounds (PKT_GETLEN buffer);
     if 0 <? l then
       _ ← handle_data_pkt E buffer conn;
       s ← defined OutOfBounds (PKT_GETSEQ buffer);
       _ ← send_ack_to E fuel fd s a;
       mret (inl (buffer, a))
     else _ ← handle_cmd_pkt buffer; mret (inl (buffer, a)))
    (λ _ : (list Z * sockaddr) + (list Z * sockaddr), True).
Proof.
  eapply keeps_bind; [apply keeps_defined|intros l _]. apply keeps_if.
  - eapply keeps_bind; [apply looked_up_handle|intros _ _].
    eapply keeps_bind; [apply keeps_defined|intros q _].
    eapply (keeps_bind _ _ _ (λ _, True)); [|intros; by apply keeps_ret].
    apply looked_up_keeps_talks. intros s. by apply (wp_send_ack_talks _ _ _ _ _ (λ _, True)).
  - unfold handle_cmd_pkt. eapply (keeps_bind _ _ _ (λ _, True)); [|intros; by apply keeps_ret].
    do 2 (eapply keeps_bind; [apply keeps_defined|intros ? _]). by apply keeps_ret.
Qed.

(** Connections are not found again: [hash2fd[h]] has already inserted
    descriptor 0 for a new host when [hash2fd.insert] is called, which then
    does nothing.  Every datagram from the host therefore opens a further
    socket and structure, and leaves the tables in a state where the next one
    does so again. *)
Theorem datagram_opens_connection sock0 x d a h s r s' :
  (∀ k, 0 ≤ s_open E k) → s_recvfrom E (calls s) = UdpFrom d a → s_addr a = Some h →
  unregistered h s → recv_step E fuel sock0 x s = (Ok r, s') →
  unregistered h s' ∧ size (conns s') = S (size (conns s)).
Proof.
  intros Hopen Hrecv Ha [Hh Hf] Hrun. destruct x as [b a0].
  assert (wp (recv_step E fuel sock0 (b, a0)) (λ _ s', looked_up h (S (size (conns s))) s')
    (λ _ _, True) s) as Hw.
  { unfold recv_step, sys_recvfrom. cbn beta iota. do 2 wp_step. apply wp_sys_call_eq.
    rewrite Hrecv. wp_step. wp_step. apply wp_defined; [intros b1 _|done]. rewrite Ha. do 2 wp_step.
    wp_step. apply (wp_conseq _ (λ fd s1, fd = 0 ∧ hash2fd s1 !! h = Some 0 ∧
      fd2conn s1 = fd2conn s ∧ conns s1 = conns s)).
    { unfold hash2fd_at. do 2 wp_step. cbn [hash2fd set_calls].
      destruct Hh as [Hh|Hh]; rewrite Hh; [do 3 wp_step|by wp_step].
      split_and!; cbn; [done|by rewrite lookup_insert_eq|done..]. }
    intros fd s1 (-> & Hh1 & Hf1 & Hc1).
    wp_step. apply (wp_conseq _ (λ p s2, p = None ∧ looked_up h (size (conns s)) s2)).
    { unfold fd2conn_at. do 2 wp_step. rewrite Hf1.
      destruct Hf as [Hf|Hf]; rewrite Hf; [do 3 wp_step|wp_step].
      - split; [done|]. split_and!; cbn; [done|by rewrite lookup_insert_eq|by rewrite Hc1].
      - split; [done|]. split_and!; [done|by rewrite Hf1|by rewrite Hc1]. }
    intros p s2 [-> Hs2]. wp_step. eapply wp_mono; [by apply wp_recv_new| |done].
    intros conn s3 Hs3. eapply wp_mono; [exact (looked_up_serve h _ sock0 b1 conn a s3 Hs3)|by intros ? ? [_ ?]|done]. }
  destruct (wp_run _ _ _ _ _ _ Hw Hrun) as (Hh' & Hf' & Hn'). split; [|done].
  split; [by right|by right].
Qed.

(** ** The interface *)

(** [srtp_bind] converts the port of the caller's structure in place and
    once too often: the caller passes it in network order, and what reaches
    [_srtp_bind], and later the system, has its two bytes exchanged on a
    little-endian host (and is unchanged on a big-endian one).  A null
    pointer is dereferenced. *)
Theorem bind_port_swapped fd f0 f1 p0 p1 rest n s :
  is_byte p0 → is_byte p1 →
  let a := f0 :: f1 :: p0 :: p1 :: rest in
  let a' := f0 :: f1 :: match byte_order with
    | Little => [p1; p0] | Big => [p0; p1] end ++ rest in
  srtp_bind E fd (Some a) n s = (r ← _srtp_bind E fd (Some a') n; mret (r, Some a')) s ∧
  srtp_bind E fd None n s = (Stop (SCrash NullDeref), s).
Proof.
  intros H0 H1. split; [|done]. unfold is_byte in *.
  unfold srtp_bind, load16, store16, ntohs, htons, swap16, mbind, M_bind, mret, M_ret, defined.
  destruct byte_order; cbn -[Z.div Z.modulo Z.mul u16 _srtp_bind].
  - rewrite u16_id by lia.
    replace (((p0 + p1 * 256) mod 256 * 256 + (p0 + p1 * 256) / 256) mod 256) with p1 by lia.
    replace (((p0 + p1 * 256) mod 256 * 256 + (p0 + p1 * 256) / 256) / 256) with p0 by lia.
    by rewrite ?drop_0.
  - rewrite u16_id by lia.
    replace ((p0 * 256 + p1) / 256) with p0 by lia.
    replace ((p0 * 256 + p1) mod 256) with p1 by lia. by rewrite ?drop_0.
Qed.
End calls.

(** ** Witnesses *)

Local Existing Instance sample_host.

Lemma not_a_socket_refused_witness :
  (∃ s', _srtp_listen quiet_sys 5 one_socket = (Ok (-1), s') ∧ talks (λ _, False) one_socket s') ∧
  (∃ s', _srtp_bind quiet_sys 5 None 0 one_socket = (Ok (-1), s') ∧
    talks (λ _, False) one_socket s') ∧
  (∃ s', _srtp_accept quiet_sys 20 5 None one_socket = (Ok (-1, None), s') ∧
    talks (λ _, False) one_socket s') ∧
  (∃ s', _srtp_connect quiet_sys 20 5 None 0 one_socket = (Ok (-1), s') ∧
    talks (λ _, False) one_socket s') ∧
  (∃ s', _srtp_close quiet_sys 5 one_socket = (Ok (-1), s') ∧ talks (λ _, False) one_socket s').
Proof.
  apply (not_a_socket_refused quiet_sys 20 5 None 0 None one_socket). vm_compute. reflexivity.
Defined.


(** A data packet with number 3 while 0 is expected, and then number 0. *)
Definition data_packet (q : Z) : list Z :=
  header_bytes (mkHeader 4 q 0 0 0) ++ bytes_of_string "abcd" ++ replicate 20 0.


Lemma payload_shifted_witness :
  message_at (header_bytes (mkHeader 4 3 0 0 0) ++ bytes_of_string "abcd" ++ replicate 20 0) 4 =
  Some [0; 0; 0; 0].
Proof.
  apply (payload_shifted (mkHeader 4 3 0 0 0) (bytes_of_string "abcd") (replicate 20 0)).
  - unfold wf_header, is_byte. cbn. lia.
  - reflexivity.
  - cbn. lia.
Defined.

(** A host that sends one datagram after the other. *)
Definition sample_host_addr : sockaddr := [2; 0; 156; 64; 127; 0; 0; 1] ++ replicate 8 0.
Definition flood_sys : sys := sample_sys 3 (λ _, None) (λ _, UdpFrom (data_packet 3) sample_host_addr).
Definition first_datagram : lib :=
  (recv_step flood_sys 20 9 (replicate 2048 0, replicate 16 0) init_lib).2.

Lemma datagram_opens_connection_witness :
  unregistered 16777343 first_datagram ∧ size (conns first_datagram) = 1%nat.
Proof.
  apply (datagram_opens_connection flood_sys 20 9 (replicate 2048 0, replicate 16 0)
    (data_packet 3) sample_host_addr 16777343 init_lib
    (inl (data_packet 3 ++ replicate 2016 0, sample_host_addr))).
  - intros k. cbn. lia.
  - reflexivity.
  - vm_compute. reflexivity.
  - split; left; reflexivity.
  - vm_compute. reflexivity.
Defined.

Lemma bind_port_swapped_witness :
  srtp_bind quiet_sys 1 (Some (2 :: 0 :: 0 :: 80 :: replicate 12 0)) 16 one_socket =
    (r ← _srtp_bind quiet_sys 1 (Some (2 :: 0 :: [80; 0] ++ replicate 12 0)) 16;
     mret (r, Some (2 :: 0 :: [80; 0] ++ replicate 12 0))) one_socket ∧
  srtp_bind quiet_sys 1 None 16 one_socket = (Stop (SCrash NullDeref), one_socket).
Proof.
  assert (is_byte 0) as H0 by (split; vm_compute; congruence).
  assert (is_byte 80) as H1 by (split; vm_compute; congruence).
  exact (bind_port_swapped quiet_sys 1 2 0 0 80 (replicate 12 0) 16 one_socket H0 H1).
Defined.
